(* ===== verification/_CoqProject ===== *)
-Q . S2P
Prelude.v
CLib.v
Settings.v
Records.v
GObject.v
Job.v
Effects.v
Adaptor.v
JobTable.v
WorkQueue.v
System.v
RefServer.v
Exclusion.v
WorkQueueSpec.v
Worker.v
Channel.v
Server.v
Fleet.v
FleetSpec.v
Capture.v
RunJob.v
Pdf.v
PString.v
Daemon.v
Obj.v
Json.v
