(* ===== verification/Prelude.v ===== *)
(** * workq: a verification library for the job queue daemon

    workqd takes jobs out of a MySQL table.  A master process (src/workqd.cc,
    src/workq/server.cc) starts worker processes and wakes them through pipes
    (channel.cc) when a client sends a datagram or a timer finds waiting rows;
    the main thread of a worker process (worker.cc, class Worker) hands each
    wake-up to one of its threads; a thread (worker.cc, class WorkQueue)
    claims rows with an UPDATE, makes a job object from each through a loaded
    module (src/modules), executes it and writes the outcome back.  The table
    is the only thing threads of different processes share.

    ** Files, parts of the program, and how they correspond

    - [Prelude]: strings and lists, [res] (a value, the end of the process, or
      undefined behaviour), tactics and hint databases.
    - [CLib]: what the sources use of C and its library: 32 and 64-bit
      integers as [Z] with their wrap-around ([wrap32], [wrap64]), [atoi],
      [atof], [printf] with [%d %ld %s %f], bounded printing, binary64.
    - [Settings] (workq/settings.cc): the two keyed tables of [struct
      Settings]; loading as a fold over YAML events, [verify], [commit], the
      typed getters.
    - [Records] (mysql_adaptor.cc, MyRow and MysqlIterator): columns as the
      tagged union [Col], a row as a [gmap], [begin]/[next].
    - [Job] (job.cc): the job record and the template method [real_execute].
    - [Effects]: the tree [prog] of calls a thread makes outside, so that one
      definition of the code is run both alone and interleaved.
    - [Adaptor] (adaptor.cc, mysql_adaptor.cc): registry, connection handle
      (never opened, open, freed) and the 4098-byte query buffer.
    - [JobTable]: the jobs table, the statements of the program with the text
      they are sent as, and the class [MySQL] with its contract [MySQLSpec]
      (atomic statements; a failed one had its whole effect or none; results
      may be lost) and [MySQLReliable].
    - [WorkQueue] (worker.cc 251 to 437): [find_jobs], the processing loop
      ([process_jobs]) and [run] as single steps [run_step] over the control
      points [pc]; [local] is the thread's state (queue, pending count).
    - [System]: any number of threads over one table, [step] interleaving
      single statements, messages, the flag [m_active] and clients.
      [Exclusion]: its invariant.  [RefServer]: servers, one of them faulty,
      that satisfy the contract, for the witnesses.
    - [WorkQueueSpec]: one batch of a thread against its specification.
    - [Worker] (worker.cc 35 to 249 and 439 to 496): the main thread as
      functions on [struct Worker]: [schedule], [on_io_work], [shutdown],
      [run], module loading in [execute].
    - [Channel] (channel.cc): the pipes over both processes' descriptors.
    - [Server] (server.cc): [struct Server] with what it did to the system as
      a list of actions: starting workers, waking them in turn, the idle
      timer, the event loop, shutdown.  What becomes of every [write] to a
      channel (done, failed, SIGPIPE) and of every [waitpid] is an argument.
    - [Fleet], [FleetSpec]: the main threads again, but as single steps
      ([main_step]: one pending count read, one message sent, one thread
      joined), composed with System's threads and the master's wake-ups.
    - [GObject]: the interface [GObjectClass] every property class of the
      sources implements, with its laws [GObjectLaws]; instances in [RunJob],
      [Pdf] and [Obj].
    - [Capture] (run_job.cc 212 to 233): a child writing to two pipes of
      limited capacity and the loop of [execute] that reads a line from each
      in turn, as steps of one relation in which a full pipe stops the child
      and an empty one the reader.
    - [RunJob], [Pdf] (src/modules): the job modules; [returns] joins
      [execute] of run_job with [Capture].
    - [PString] (pstring.cc), [Daemon] (workqd.cc, util.cc: command line,
      background, log file, [main]), [Json] and [Obj] (src/json: the two
      demonstration programs).

    ** What the theorems show

    - Safety of the shared table ([Exclusion], C1, C2, C9 to C13): no two
      threads execute one job at the same time or one after the other (the
      latter while lock ids are not drawn twice), rows only move along the
      life cycle, a row being executed is left alone by everyone else, and no
      thread reaches undefined behaviour, and a thread of a stopped process
      leaves its loop.
    - One batch ([WorkQueueSpec], C3, C4, C14 to C16): refinement of a
      specification on the table, its error paths, the round trip of a row,
      lock ids.  [failed_claim_executes_nothing] and
      [stop_discards_drained_work] are proved beside them.
    - Whole processes ([FleetSpec], C5 to C8): the composition is simulated by
      [System], so the safety results carry over; every byte the master
      writes becomes one message; nothing is ever stuck; and shutdown ends
      under every schedule.  [main_thread_follows_worker], proved beside them,
      checks the two models of the main thread against each other.
    - The worker process as functions ([Worker], C18 to C21): which thread a
      message goes to, what a read of the channel queues, shutdown, and the
      order of module calls.  [job_types_registered] is proved beside them.
    - The master and the daemon ([Server], [Daemon], [Channel], C22 to C27,
      C32, C37): the event loop serves until the first signal, a write to a
      worker that has gone or a worker that cannot be waited for; wake-ups go
      round robin, the idle timer is bounded, [main] cleans up, and what it
      leaves behind when it fails.
    - A job's child ([Capture], [RunJob], C28 to C31): every schedule of child
      and reader ends, in the return of the loop when the output fits the
      pipes and in a deadlock when one stream is overrun first; the exit status
      and the descriptors of [execute].
    - Data ([Records], [Settings], [Adaptor], [PString], C17, C33 to C36, C38):
      typing of rows, buffers, getters.
    - The demonstrations ([Json], [Obj], C39, C40): the tree printer equals a
      declarative one, the object program prints what was written.

    Several theorems describe what the code does where that is not what was
    meant: rows stranded after a failed SELECT, the inverted choice of a
    thread in [schedule], the growing pending count, the double wake-up byte,
    the pid file left behind, the output loop that can hang, the master that
    dies of SIGPIPE.

    ** Fuel and bounds

    Loops that C bounds by a count are recursions on that count.  [visit] has
    as much fuel as stored rows ([rows_of_stored]); [print_json] needs the depth
    of the tree and [array_loop] the number of elements plus one
    ([print_json_renders], in which running out of fuel is a different
    result).  [run_step], [main_step] and the steps of [Capture] need none:
    their termination is proved on the step relations.  The capacity of a pipe
    and of a [FILE]'s buffer are any positive numbers.

    ** Parameters

    MySQL, libev, libyaml, json-glib, GLib's file, shell and module functions
    and the system calls are arguments of the definitions that use them; the
    hypotheses on them are the classes of [JobTable], [time_ok] for the clock
    and [creators_keep_id] for job modules, and each is instantiated in the
    witnesses.

    ** Not modelled

    - The insides of a job's child process: it ends in [execve], and what the
      program then writes is an argument (a list of [child_act]).  [execute], [load_data] and [generate_preview] of the pdf
      module are declared in its header and defined in no file.
    - Memory: allocation never fails and reference counts are left out, except
      where a pointer is used unset or freed ([Undef], [HFreed]).  [Undef]
      also stands for the abort of [g_error].
    - [send_work] adds to the pending count and pushes its message in one step
      of [Fleet] and [System].
    - In [System] and [Fleet] an execution is one that returns; a run_job whose
      output loop hangs keeps its thread for ever, and with it a shutdown of
      its process, which joins that thread.  In [Fleet] the master's writes
      succeed, and in [Server] none waits for room in the pipe.
    - A callback already pending when the event loop is left is not run.
    - Log messages other than the lines [main] itself writes.
    - The test programs and the mock adaptor (src/tests), the Ruby front end
      (src/webviz), the build files, and the option parser of GLib, whose
      result is an argument of [cli_setup]. *)

From stdpp Require Export base tactics numbers list gmap strings pretty.
From Stdlib Require Export ZArith Lia.
From Stdlib Require Import Ascii.

#[export] Set Default Goal Selector "!".

(** ** Notations *)

Declare Scope workq_scope.
Delimit Scope workq_scope with workq.
Open Scope workq_scope.

(** ** Tactics *)

(** Case analysis on the scrutinee of every [match] in the goal, then the
    usual clean-up; the work horse of the "every branch" lemmas. *)
Ltac cases :=
  repeat (case_match || case_decide || case_bool_decide); simplify_eq/=.

(** Split every conjunction and existential hypothesis. *)
Ltac split_hyps :=
  repeat match goal with
  | H : exists x, _ |- _ => let y := fresh x in destruct H as [y H]
  | H : _ /\ _ |- _ => destruct H
  end.

(** ** Hint databases *)

(** [workq] holds the closing lemmas, [workq_simpl] the rewrite rules. *)
Create HintDb workq discriminated.

(** ** Results of code that can end the process *)

(** A value, the end of the process with its exit code, or behaviour C++
    leaves undefined. *)
Inductive res (A : Type) := Val (a : A) | Exit (code : Z) | Undef.
Arguments Val {A} a.
Arguments Exit {A} code.
Arguments Undef {A}.

#[export] Instance res_ret : MRet res := @Val.
#[export] Instance res_bind : MBind res := fun A B f m =>
  match m with Val a => f a | Exit c => Exit c | Undef => Undef end.

Lemma res_bind_Val {A B} (f : A -> res B) (m : res A) b :
  m ≫= f = Val b -> exists a, m = Val a /\ f a = Val b.
Proof. destruct m; simpl; naive_solver. Qed.

(** ** Generic lemmas on strings *)

Lemma str_app_cons c (s t : string) : String c s +:+ t = String c (s +:+ t).
Proof. done. Qed.

Lemma str_app_nil_l (s : string) : "" +:+ s = s.
Proof. done. Qed.

Lemma str_app_nil_r (s : string) : s +:+ "" = s.
Proof. induction s; [done|]. rewrite str_app_cons; congruence. Qed.

Lemma str_app_assoc (a b c : string) : (a +:+ b) +:+ c = a +:+ (b +:+ c).
Proof. induction a; [done|]. rewrite !str_app_cons; congruence. Qed.

Lemma str_length_app (a b : string) :
  String.length (a +:+ b) = String.length a + String.length b.
Proof. induction a; [done|]. rewrite str_app_cons; simpl; congruence. Qed.

#[export] Hint Rewrite str_app_cons str_app_nil_l str_app_nil_r str_app_assoc
  str_length_app : workq_simpl.

(** [str_forall P s]: every character of [s] satisfies the test [P]. *)
Fixpoint str_forall (P : ascii -> bool) (s : string) : bool :=
  match s with
  | EmptyString => true
  | String c s' => P c && str_forall P s'
  end.

Lemma str_forall_app P a b :
  str_forall P (a +:+ b) = str_forall P a && str_forall P b.
Proof. induction a; [done|]. rewrite str_app_cons; simpl. rewrite IHa. by destruct (P a). Qed.

Lemma str_forall_impl (P Q : ascii -> bool) s :
  (forall c, P c = true -> Q c = true) ->
  str_forall P s = true -> str_forall Q s = true.
Proof.
  intros HPQ; induction s as [|c s IH]; simpl; [done|].
  rewrite !andb_true_iff. intros [??]; auto.
Qed.

(** The first [n] characters. *)
Fixpoint str_take (n : nat) (s : string) : string :=
  match n, s with
  | S n', String c s' => String c (str_take n' s')
  | _, _ => ""
  end.

Lemma str_take_length n s : String.length (str_take n s) <= n.
Proof. revert s; induction n; intros [|c s]; simpl; try lia. specialize (IHn s); lia. Qed.

Lemma str_take_ge n s : String.length s <= n -> str_take n s = s.
Proof.
  revert s; induction n; intros [|c s]; simpl; intros; try done; try lia.
  f_equal; apply IHn; lia.
Qed.

Lemma str_take_app_le n a b :
  String.length a <= n -> str_take n (a +:+ b) = a +:+ str_take (n - String.length a) b.
Proof.
  revert n; induction a as [|c a IH]; intros n; simpl; [by rewrite Nat.sub_0_r|].
  destruct n; intros; [lia|]. rewrite !str_app_cons; simpl. f_equal. apply IH; lia.
Qed.

Lemma str_forall_take P n s : str_forall P s = true -> str_forall P (str_take n s) = true.
Proof.
  revert s; induction n; intros [|c s]; simpl; try done.
  rewrite !andb_true_iff; intros [??]; auto.
Qed.

#[export] Hint Resolve str_take_length str_forall_take : workq.

(** [str_prefix p s]: [s] starts with [p]. *)
Definition str_prefix (p s : string) : Prop := exists t, s = p +:+ t.

Lemma str_prefix_app p t : str_prefix p (p +:+ t).
Proof. by exists t. Qed.

#[export] Hint Resolve str_prefix_app : workq.

(** ** Generic lemmas on lists *)

(** The first [n] elements that satisfy [P], in order: what [LIMIT n]
    keeps of the rows a [WHERE] clause selects. *)
Definition take_filter {A} (P : A -> bool) (n : nat) (l : list A) : list A :=
  take n (filter (fun x => P x = true) l).

Lemma take_filter_cons {A} (P : A -> bool) n x (l : list A) :
  take_filter P n (x :: l) =
  if P x then match n with O => [] | S k => x :: take_filter P k l end
  else take_filter P n l.
Proof.
  unfold take_filter. rewrite filter_cons. destruct (P x); [|done].
  rewrite decide_True by done. by destruct n.
Qed.

Lemma take_filter_0 {A} (P : A -> bool) (l : list A) : take_filter P 0 l = [].
Proof. done. Qed.

Lemma take_filter_In {A} (P : A -> bool) n (l : list A) x :
  x ∈ take_filter P n l -> P x = true /\ x ∈ l.
Proof.
  unfold take_filter; intros Hx.
  apply (subseteq_take n) in Hx. by apply list_elem_of_filter in Hx.
Qed.

Lemma sublist_NoDup {A B} (f : A -> B) (l1 l2 : list A) :
  l1 `sublist_of` l2 -> NoDup (f <$> l2) -> NoDup (f <$> l1).
Proof.
  induction 1 as [|x l1 l2 Hs IH|x l1 l2 Hs IH]; simpl; [done|..].
  - rewrite !NoDup_cons. intros [Hx ?]. split; [|by apply IH].
    intros Hin. apply Hx. apply list_elem_of_fmap in Hin as (y & -> & Hy).
    apply list_elem_of_fmap. exists y; split; [done|]. by eapply sublist_subseteq.
  - rewrite NoDup_cons. intros [_ ?]. by apply IH.
Qed.

Lemma take_filter_sublist {A} (P : A -> bool) n (l : list A) :
  take_filter P n l `sublist_of` l.
Proof.
  unfold take_filter. etrans; [apply sublist_take|]. apply sublist_filter.
Qed.

#[export] Hint Resolve take_filter_sublist : workq.
