(* ===== verification/CLib.v ===== *)
(** * CLib: the C library functions and machine integers the sources use

    Machine integers ([wrap32], [wrap64]: LP64, two's complement), the
    decimal conversions [atoi]/[atol]/[atof], the [printf] conversions the
    program writes ([%d], [%ld], [%s], [%f], [%%]), bounded printing
    ([snprintf]) and [double] as IEEE 754 binary64.  These are the language
    and its library (glibc on LP64, "C" locale); nothing here is a
    definition of a file under src/.  Used by every component. *)

From S2P Require Import Prelude.
From Stdlib Require Import Ascii.
From Stdlib Require Import Floats.SpecFloat.

Local Open Scope Z_scope.

(** ** Machine integers *)

Definition wrap (w z : Z) : Z := (z + 2 ^ (w - 1)) `mod` 2 ^ w - 2 ^ (w - 1).

(** Conversion to [int]/[gint]. *)
Definition wrap32 : Z -> Z := wrap 32.
(** Conversion to [long]/[glong]. *)
Definition wrap64 : Z -> Z := wrap 64.

Definition int32 (z : Z) : Prop := - 2 ^ 31 <= z < 2 ^ 31.
Definition int64 (z : Z) : Prop := - 2 ^ 63 <= z < 2 ^ 63.

(** ** Characters and C strings *)

Definition code (c : ascii) : Z := Z.of_N (N_of_ascii c).
Definition is_digit (c : ascii) : bool := (48 <=? code c) && (code c <=? 57).
Definition digit_val (c : ascii) : Z := code c - 48.
(** [isspace] in the "C" locale. *)
Definition is_space (c : ascii) : bool :=
  (code c =? 32) || ((9 <=? code c) && (code c <=? 13)).

(** What a [const char *] denotes: the characters before the first NUL. *)
Fixpoint cstr (s : string) : string :=
  match s with
  | EmptyString => ""
  | String c s' => if code c =? 0 then "" else String c (cstr s')
  end.

(** [!strcmp(a, b)] *)
Definition streq (a b : string) : bool := bool_decide (a = b).

(** ** [strtol] base 10, [atoi], [atol] *)

Fixpoint skip_space (s : string) : string :=
  match s with
  | String c s' => if is_space c then skip_space s' else s
  | EmptyString => ""
  end.

Fixpoint digits_val (s : string) (acc : Z) : Z :=
  match s with
  | String c s' => if is_digit c then digits_val s' (acc * 10 + digit_val c) else acc
  | EmptyString => acc
  end.

(** An optional sign: (negative?, rest). *)
Definition sign_of (s : string) : bool * string :=
  match s with
  | String c s' =>
      if code c =? 45 then (true, s') else if code c =? 43 then (false, s') else (false, s)
  | EmptyString => (false, "")
  end.

(** Out of range values saturate (ERANGE). *)
Definition clamp64 (z : Z) : Z := Z.max (- 2 ^ 63) (Z.min (2 ^ 63 - 1) z).

Definition strtol (s : string) : Z :=
  let '(neg, r) := sign_of (skip_space s) in
  let v := digits_val r 0 in
  clamp64 (if neg then - v else v).

Definition atol (s : string) : Z := strtol s.
Definition atoi (s : string) : Z := wrap32 (strtol s).

(** ** [printf] *)

Inductive arg :=
| AInt (z : Z)       (** an [int] or [long] argument *)
| AStr (s : string). (** a [char *] argument *)

Definition dec (z : Z) : string := pretty z.

(** The conversions [%d], [%ld], [%s], [%%]; a conversion without a matching
    argument (undefined in C, never written by the program) prints nothing. *)
Fixpoint format (f : string) (args : list arg) {struct f} : string :=
  match f with
  | EmptyString => ""
  | String c f1 =>
    if code c =? 37 then
      match f1 with
      | String c1 f2 =>
        if code c1 =? 100 then          (* %d *)
          match args with AInt z :: a => dec z +:+ format f2 a | _ => format f2 args end
        else if code c1 =? 115 then     (* %s *)
          match args with AStr s :: a => s +:+ format f2 a | _ => format f2 args end
        else if code c1 =? 37 then String c1 (format f2 args)
        else
          match f2 with
          | String c2 f3 =>
            if (code c1 =? 108) && (code c2 =? 100) then  (* %ld *)
              match args with AInt z :: a => dec z +:+ format f3 a | _ => format f3 args end
            else String c (format f1 args)
          | EmptyString => f
          end
      | EmptyString => f
      end
    else String c (format f1 args)
  end.

(** [snprintf(buf, size, fmt, ...)]: the buffer's contents afterwards and the
    returned length, that of the untruncated text. *)
Definition snprintf (size : Z) (f : string) (args : list arg) : string * Z :=
  let s := format f args in
  (str_take (Z.to_nat (size - 1)) s, Z.of_nat (String.length s)).

(** [snprintf(buf, size, "%.*s", prec, p)]: a negative precision is as if
    omitted; glibc prints a NULL pointer as "(null)" when the precision leaves
    room for it and as nothing otherwise. *)
Definition snprintf_prec (size prec : Z) (p : option string) : string :=
  let limit s := if prec <? 0 then s else str_take (Z.to_nat prec) s in
  let text := match p with
              | Some s => limit (cstr s)
              | None => if (prec <? 0) || (6 <=? prec) then "(null)" else ""
              end in
  str_take (Z.to_nat (size - 1)) text.

(** ** [double]: IEEE 754 binary64 *)

Definition double : Type := spec_float.
Definition d_add : double -> double -> double := SFadd 53 1024.
Definition d_sub : double -> double -> double := SFsub 53 1024.
Definition d_mul : double -> double -> double := SFmul 53 1024.
Definition d_ltb : double -> double -> bool := SFltb.
Definition d_leb : double -> double -> bool := SFleb.
Definition d_abs : double -> double := SFabs.
Definition d_of_Z (z : Z) : double := binary_normalize 53 1024 z 0 false.
Definition d_is_nan (d : double) : bool := match d with S754_nan => true | _ => false end.

(** ** [strtod], [atof] *)

Definition digit_in (base : Z) (c : ascii) : option Z :=
  if is_digit c then Some (digit_val c)
  else if base =? 16 then
    if (97 <=? code c) && (code c <=? 102) then Some (code c - 87)
    else if (65 <=? code c) && (code c <=? 70) then Some (code c - 55) else None
  else None.

(** Accumulated value, number of digits and rest. *)
Fixpoint scan_digits (base : Z) (s : string) (acc : Z) (n : Z) : Z * Z * string :=
  match s with
  | String c s' =>
      match digit_in base c with
      | Some v => scan_digits base s' (acc * base + v) (n + 1)
      | None => (acc, n, s)
      end
  | EmptyString => (acc, n, "")
  end.

(** Optional exponent introduced by [e] (lower-case code; upper is 32 less). *)
Definition scan_exp (e : Z) (s : string) : Z :=
  match s with
  | String c s' =>
      if (code c =? e) || (code c =? e - 32) then
        let '(neg, r) := sign_of s' in
        let '(v, n, _) := scan_digits 10 r 0 0 in
        if n =? 0 then 0 else if neg then - v else v
      else 0
  | EmptyString => 0
  end.

(** Mantissa, number of fraction digits and exponent, when there is a digit. *)
Definition scan_number (base e : Z) (s : string) : option (Z * Z * Z) :=
  let '(ip, n1, r) := scan_digits base s 0 0 in
  let '(m, n2, r2) :=
    match r with
    | String c r' => if code c =? 46 then scan_digits base r' ip 0 else (ip, 0, r)
    | EmptyString => (ip, 0, "")
    end in
  if n1 + n2 =? 0 then None else Some (m, n2, scan_exp e r2).

(** [m * 10 ^ e], correctly rounded. *)
Definition d_of_decimal (neg : bool) (m e : Z) : double :=
  match m with
  | Zpos p =>
    if 0 <=? e then binary_normalize 53 1024 (cond_Zopp neg (m * 10 ^ e)) 0 neg
    else
      let '(mz, ez, lz) := SFdiv_core_binary 53 1024 m 0 (10 ^ (- e)) 0 in
      binary_round_aux 53 1024 neg mz ez lz
  | _ => S754_zero neg
  end.

Definition lower (c : ascii) : Z :=
  if (65 <=? code c) && (code c <=? 90) then code c + 32 else code c.

(** Case-insensitive: does [s] start with the lower-case word [w]? *)
Fixpoint starts_with (w s : string) : bool :=
  match w, s with
  | EmptyString, _ => true
  | String a w', String b s' => (code a =? lower b) && starts_with w' s'
  | String _ _, EmptyString => false
  end.

Definition strtod (s : string) : double :=
  let '(neg, r) := sign_of (skip_space s) in
  if starts_with "inf" r then S754_infinity neg
  else if starts_with "nan" r then S754_nan
  else
    let hex := if starts_with "0x" r
               then match r with String _ (String _ h) => scan_number 16 112 h | _ => None end
               else None in
    match hex with
    | Some (m, n, e) => binary_normalize 53 1024 (cond_Zopp neg m) (e - 4 * n) neg
    | None =>
      match scan_number 10 101 r with
      | Some (m, n, e) => d_of_decimal neg m (e - n)
      | None => S754_zero false
      end
    end.

Definition atof (s : string) : double := strtod s.

(** ** [printf]'s [%f] *)

(** [m / 2 ^ k] rounded to the nearest integer, ties to even. *)
Definition round_half_even (m k : Z) : Z :=
  let q := Z.shiftr m k in
  let r := m - Z.shiftl q k in
  let half := Z.shiftl 1 (k - 1) in
  if r <? half then q else if half <? r then q + 1 else if Z.even q then q else q + 1.

(** [n] decimal digits of [z], with leading zeros. *)
Fixpoint dec_digits_n (n : nat) (z : Z) (acc : string) : string :=
  match n with
  | O => acc
  | S n' => dec_digits_n n' (z / 10) (String (Ascii.ascii_of_N (Z.to_N (48 + z mod 10))) acc)
  end.

(** The exact binary value rounded to six decimals, as glibc prints it; a NaN
    is printed without its sign. *)
Definition format_f (d : double) : string :=
  let sign (neg : bool) (s : string) := if neg then String "-" s else s in
  match d with
  | S754_zero neg => sign neg "0.000000"
  | S754_infinity neg => sign neg "inf"
  | S754_nan => "nan"
  | S754_finite neg m e =>
      let n := Z.pos m * 10 ^ 6 in
      let v := if 0 <=? e then Z.shiftl n e else round_half_even n (- e) in
      sign neg (dec (v / 10 ^ 6) +:+ "." +:+ dec_digits_n 6 (v mod 10 ^ 6) "")
  end.

(** ** Lemmas: integers *)

Lemma wrap32_id z : int32 z -> wrap32 z = z.
Proof. unfold int32, wrap32, wrap; intros. rewrite Z.mod_small; lia. Qed.

Lemma wrap64_id z : int64 z -> wrap64 z = z.
Proof. unfold int64, wrap64, wrap; intros. rewrite Z.mod_small; lia. Qed.

Lemma wrap32_range z : int32 (wrap32 z).
Proof.
  unfold int32, wrap32, wrap. pose proof (Z.mod_pos_bound (z + 2 ^ (32 - 1)) (2 ^ 32)). lia.
Qed.

Lemma int32_int64 z : int32 z -> int64 z.
Proof. unfold int32, int64; lia. Qed.

#[export] Hint Resolve wrap32_id wrap64_id wrap32_range int32_int64 : workq.

(** ** Lemmas: decimal printing and parsing *)

Lemma N_lt_10_cases (P : N -> Prop) :
  P 0%N -> P 1%N -> P 2%N -> P 3%N -> P 4%N -> P 5%N -> P 6%N -> P 7%N -> P 8%N -> P 9%N ->
  forall n, (n < 10)%N -> P n.
Proof.
  intros. assert (n = 0 ∨ n = 1 ∨ n = 2 ∨ n = 3 ∨ n = 4 ∨ n = 5 ∨ n = 6 ∨ n = 7
    ∨ n = 8 ∨ n = 9)%N as Hn by lia.
  by destruct_or!; subst.
Qed.

Lemma pretty_char_digit n : (n < 10)%N -> is_digit (pretty_N_char n) = true.
Proof. revert n; by apply N_lt_10_cases. Qed.

Lemma pretty_char_val n : (n < 10)%N -> digit_val (pretty_N_char n) = Z.of_N n.
Proof. revert n; by apply N_lt_10_cases. Qed.

Lemma digits_val_go x s :
  digits_val (pretty_N_go x s) 0 = digits_val s (Z.of_N x).
Proof.
  revert s. induction (N.lt_wf_0 x) as [x _ IH]; intros s.
  destruct (decide (x = 0)%N) as [->|]; [by rewrite pretty_N_go_0|].
  rewrite pretty_N_go_step by lia. rewrite IH by (apply N.div_lt; lia). simpl.
  rewrite pretty_char_digit, pretty_char_val by (by apply N.mod_lt).
  f_equal. rewrite N2Z.inj_div, N2Z.inj_mod. pose proof (Z.div_mod (Z.of_N x) 10). lia.
Qed.

Lemma pretty_N_digits_val (n : N) s :
  str_forall is_digit (str_take 1 s) = false \/ s = "" ->
  digits_val (pretty n +:+ s) 0 = Z.of_N n.
Proof.
  intros Hs. assert (forall a, digits_val s a = a) as Hend.
  { intros a. destruct Hs as [Hs| ->]; [|done].
    destruct s as [|c s]; [done|]. simpl in *. destruct (is_digit c); [|done].
    by destruct s. }
  unfold pretty, pretty_N. case_decide as Hn.
  { subst. change ("0" +:+ s) with (String "0" s). simpl. by rewrite Hend. }
  assert (forall t, pretty_N_go n t +:+ s = pretty_N_go n (t +:+ s)) as Happ.
  { clear. induction (N.lt_wf_0 n) as [x _ IH]; intros t.
    destruct (decide (x = 0)%N) as [->|]; [done|].
    rewrite !(pretty_N_go_step x) by lia. by rewrite IH by (apply N.div_lt; lia). }
  rewrite Happ, digits_val_go. by rewrite Hend.
Qed.

Lemma pretty_N_go_forall x s :
  str_forall is_digit s = true -> str_forall is_digit (pretty_N_go x s) = true.
Proof.
  revert s. induction (N.lt_wf_0 x) as [x _ IH]; intros s Hs.
  destruct (decide (x = 0)%N) as [->|]; [by rewrite pretty_N_go_0|].
  rewrite pretty_N_go_step by lia. apply IH; [apply N.div_lt; lia|]. simpl.
  by rewrite pretty_char_digit by (by apply N.mod_lt).
Qed.

Lemma pretty_N_forall (n : N) : str_forall is_digit (pretty n) = true.
Proof.
  unfold pretty, pretty_N. case_decide; [done|]. by apply pretty_N_go_forall.
Qed.

Lemma dec_nonneg z : 0 <= z -> dec z = pretty (Z.to_N z).
Proof. destruct z; [done..|lia]. Qed.

Lemma dec_digits z : 0 <= z -> str_forall is_digit (dec z) = true.
Proof. intros. rewrite dec_nonneg by done. apply pretty_N_forall. Qed.

Lemma digit_not_space c : is_digit c = true -> is_space c = false.
Proof. unfold is_digit, is_space. lia. Qed.

Lemma digit_not_sign c : is_digit c = true -> (code c =? 45) = false /\ (code c =? 43) = false.
Proof. unfold is_digit. lia. Qed.

Lemma sign_of_digits s :
  s ≠ "" -> str_forall is_digit s = true -> sign_of (skip_space s) = (false, s).
Proof.
  destruct s as [|c s]; [done|]. intros _. simpl. rewrite andb_true_iff. intros [Hc _].
  rewrite (digit_not_space _ Hc); simpl.
  destruct (digit_not_sign _ Hc) as [-> ->]. done.
Qed.

Lemma pretty_N_nonempty (n : N) : pretty n ≠ "".
Proof.
  intros E. pose proof (pretty_N_digits_val n "" (or_intror eq_refl)) as H.
  rewrite str_app_nil_r, E in H. simpl in H.
  assert (n = 0%N) as -> by lia. done.
Qed.

(** Printing an integer with [%d] and reading it back with [atol]. *)
Lemma strtol_dec z : int64 z -> strtol (dec z) = z.
Proof.
  intros Hz. pose proof Hz as [??]. unfold strtol. destruct z as [|p|p]; [done|..].
  - rewrite sign_of_digits.
    + rewrite <-(str_app_nil_r (dec (Z.pos p))).
      change (dec (Z.pos p)) with (pretty (N.pos p)).
      rewrite pretty_N_digits_val by auto. unfold clamp64; lia.
    + apply pretty_N_nonempty.
    + by apply dec_digits.
  - change (dec (Z.neg p)) with (String "-" (pretty (N.pos p))).
    change (sign_of (skip_space (String "-" (pretty (N.pos p))))) with (true, pretty (N.pos p)).
    rewrite <-(str_app_nil_r (pretty (N.pos p))), pretty_N_digits_val by auto.
    unfold clamp64; lia.
Qed.

Lemma atoi_dec z : int32 z -> atoi (dec z) = z.
Proof.
  intros Hz. unfold atoi. rewrite strtol_dec by auto with workq. by apply wrap32_id.
Qed.

#[export] Hint Resolve dec_digits strtol_dec atoi_dec : workq.
#[export] Hint Rewrite strtol_dec atoi_dec using (auto with workq) : workq_simpl.

(** The number of digits printed. *)
Lemma pretty_N_go_length x k s :
  (x < 10 ^ N.of_nat k)%N -> (String.length (pretty_N_go x s) <= k + String.length s)%nat.
Proof.
  revert x s; induction k as [|k IH]; intros x s Hx.
  { change (10 ^ N.of_nat 0)%N with 1%N in Hx. assert (x = 0%N) as -> by lia. done. }
  destruct (decide (x = 0)%N) as [->|]; [rewrite pretty_N_go_0; lia|].
  rewrite pretty_N_go_step by lia. etrans; [apply IH|simpl; lia].
  apply N.Div0.div_lt_upper_bound. rewrite <-N.pow_succ_r', <-Nnat.Nat2N.inj_succ. done.
Qed.

Lemma dec_length z k :
  (0 < k)%nat -> 0 <= z < 10 ^ Z.of_nat k -> (String.length (dec z) <= k)%nat.
Proof.
  intros Hk Hz. rewrite dec_nonneg by lia. unfold pretty, pretty_N. case_decide; [simpl; lia|].
  etrans; [apply (pretty_N_go_length _ k)|simpl; lia].
  apply N2Z.inj_lt. rewrite N2Z.inj_pow, Z2N.id, nat_N_Z by lia. simpl. lia.
Qed.

Lemma dec_length_neg z k :
  (0 < k)%nat -> - 10 ^ Z.of_nat k < z < 10 ^ Z.of_nat k -> (String.length (dec z) <= S k)%nat.
Proof.
  intros Hk Hz. destruct z as [|p|p].
  - simpl; lia.
  - pose proof (dec_length (Z.pos p) k Hk) as Hp.
    assert (0 <= Z.pos p < 10 ^ Z.of_nat k) as Hr by lia. specialize (Hp Hr). lia.
  - pose proof (dec_length (Z.pos p) k Hk) as Hp.
    assert (0 <= Z.pos p < 10 ^ Z.of_nat k) as Hr by lia. specialize (Hp Hr).
    change (dec (Z.neg p)) with (String "-" (dec (Z.pos p))). simpl in *. lia.
Qed.
