(* ===== verification/Settings.v ===== *)
(** * Settings: the configuration table (workq/settings.h, workq/settings.cc)

    The two keyed data lists ([m_table] in use, [m_loaded] being read), the
    YAML event loop that fills the second, the key checks of [verify],
    [commit] and the typed getters.  A keyed data list (GData) is the finite
    map its documentation describes and a quark is the string it interns
    ([None] is quark 0); the order in which [g_datalist_foreach] visits the
    elements, the file tests, the path functions and the YAML parser are
    parameters. *)

From S2P Require Import Prelude CLib.

Notation GData V := (gmap string V).
(** [GQuark]: 0 or the quark of a string. *)
Notation GQuark := (option string).

(** ** The YAML events the loader distinguishes *)

Inductive yaml_event :=
| YAML_SCALAR_EVENT (value : string)
| YAML_SEQUENCE_START_EVENT
| YAML_SEQUENCE_END_EVENT
| YAML_MAPPING_START_EVENT
| YAML_MAPPING_END_EVENT
| YAML_STREAM_END_EVENT
| YAML_OTHER_EVENT. (** stream start, document start and end, alias *)

Record Settings := mkSettings {
  m_binpath : string;
  m_env : string;
  m_table : GData string;
  m_loaded : GData string;
}.

Definition set_loaded (t : GData string) (s : Settings) : Settings :=
  {| m_binpath := m_binpath s; m_env := m_env s; m_table := m_table s; m_loaded := t |}.

Definition set_env (env : string) (s : Settings) : Settings :=
  {| m_binpath := m_binpath s; m_env := env; m_table := m_table s; m_loaded := m_loaded s |}.

(** ** [load_from_file] *)

(** The local variables of the event loop. *)
Record load_state := mkLoad {
  ls_count : Z;
  ls_use_keys : bool;
  ls_key : GQuark;
  ls_loaded : GData string;
}.

(** The [switch] on the event type. *)
Definition on_event (env : string) (e : yaml_event) (st : load_state) : load_state :=
  match e with
  | YAML_SCALAR_EVENT value =>
    let v := cstr value in                              (* g_strndup *)
    let count := (ls_count st + 1)%Z in
    if decide (Z.rem count 2 ≠ 0)%Z then
      mkLoad count (ls_use_keys st) (Some v) (ls_loaded st)
    else
      match ls_key st with
      | Some key =>
        if ls_use_keys st
        then mkLoad count true None (<[key := v]> (ls_loaded st))
        else mkLoad count false (Some key) (ls_loaded st)
      | None => mkLoad count (ls_use_keys st) None (ls_loaded st)
      end
  | YAML_MAPPING_START_EVENT =>
    let use_keys := match ls_key st with
                    | Some key => streq key env
                    | None => ls_use_keys st
                    end in
    mkLoad 0 use_keys (ls_key st) (ls_loaded st)
  | _ => st
  end.

(** The [while( !done )] loop.  The parser delivers the events of the list,
    then fails; a failure leaves the loop by [break]. *)
Fixpoint load_loop (env : string) (events : list yaml_event) (st : load_state) : load_state :=
  match events with
  | [] => st
  | YAML_STREAM_END_EVENT :: _ => st
  | e :: events' => load_loop env events' (on_event env e st)
  end.

(** [None]: the file cannot be opened. *)
Definition load_from_file (input : option (list yaml_event)) (s : Settings) : bool * Settings :=
  match input with
  | None => (false, s)
  | Some events =>
    let st := load_loop (m_env s) events (mkLoad 0 false None ∅) in
    (true, set_loaded (ls_loaded st) s)
  end.

(** ** [verify] *)

Record Verify := mkVerify {
  valid : bool;
  adapter : option string;
  database : option string;
  username : option string;
  password : option string;
  hostname : option string;
  vport : Z;
}.

Section Files.
(** [g_file_test] for the two tests used, and [g_path_get_dirname]. *)
Context (file_exists is_dir : string -> bool) (path_get_dirname : string -> string).
(** The order in which [g_datalist_foreach] visits the elements. *)
Context (foreach_order : GData string -> list (string * string)).

Definition set_valid (b : bool) (c : Verify) : Verify :=
  mkVerify b (adapter c) (database c) (username c) (password c) (hostname c) (vport c).

(** [Verify::test_key_value]; the check only ever looks at [valid]. *)
Definition test_key_value (key value : string) (c : Verify) : Verify :=
  if decide (key = "adapter") then
    mkVerify (valid c) (Some value) (database c) (username c) (password c) (hostname c) (vport c)
  else if decide (key = "database") then
    mkVerify (valid c) (adapter c) (Some value) (username c) (password c) (hostname c) (vport c)
  else if decide (key = "username") then
    mkVerify (valid c) (adapter c) (database c) (Some value) (password c) (hostname c) (vport c)
  else if decide (key = "password") then
    mkVerify (valid c) (adapter c) (database c) (username c) (Some value) (hostname c) (vport c)
  else if decide (key = "pool") then set_valid (bool_decide (0 < atoi value)%Z) c
  else if decide (key = "host") then
    mkVerify (valid c) (adapter c) (database c) (username c) (password c) (Some value) (vport c)
  else if decide (key = "port") then
    let port := atoi value in
    mkVerify (bool_decide (0 < port)%Z)
      (adapter c) (database c) (username c) (password c) (hostname c) port
  else if decide (key = "workers") then set_valid (bool_decide (0 < atoi value)%Z) c
  else if decide (key = "listen") then set_valid (bool_decide (0 < atoi value)%Z) c
  else if decide (key = "pollrate") then set_valid (bool_decide (0 < atoi value)%Z) c
  else if decide (key = "logfile") then set_valid (file_exists value) c
  else if decide (key = "pidfile") then
    let dir := path_get_dirname value in
    set_valid (file_exists dir || is_dir dir) c
  else set_valid false c.

Definition final_confirm (c : Verify) : bool := valid c.

Definition verify (s : Settings) : bool :=
  let check0 := mkVerify true None None None None None 0 in
  final_confirm
    (fold_left (fun c kv => test_key_value (fst kv) (snd kv) c)
       (foreach_order (m_loaded s)) check0).
End Files.

(** ** [commit] and the getters *)

Definition commit (s : Settings) : Settings :=
  {| m_binpath := m_binpath s; m_env := m_env s; m_table := m_loaded s; m_loaded := ∅ |}.

Definition get_str (s : Settings) (key : string) (default : option string) : option string :=
  match m_table s !! key with Some v => Some v | None => default end.

Definition get_int (s : Settings) (key : string) (default : Z) : Z :=
  match m_table s !! key with Some v => atoi v | None => default end.

Definition get_double (s : Settings) (key : string) (default : double) : double :=
  match m_table s !! key with Some v => atof v | None => default end.

Definition get_bool (s : Settings) (key : string) (default : bool) : bool :=
  match m_table s !! key with
  | Some v => streq "yes" v || streq "true" v
  | None => default
  end.

(** ** Construction *)

Section Construct.
Context (path_is_absolute : string -> bool) (path_get_dirname : string -> string)
  (get_current_dir : string) (build_path : string -> string -> string).

Definition new_Settings (binpath environment : string) : Settings :=
  let bp := if path_is_absolute binpath then path_get_dirname binpath
            else build_path get_current_dir (path_get_dirname binpath) in
  {| m_binpath := bp; m_env := environment; m_table := ∅; m_loaded := ∅ |}.
End Construct.

(** ** Specification: a two-level document *)

(** The events of a document that maps environment names to flat mappings,
    the shape of config/jobs.yml. *)
Definition pair_events (kv : string * string) : list yaml_event :=
  [YAML_SCALAR_EVENT (fst kv); YAML_SCALAR_EVENT (snd kv)].

Definition section_events (sec : string * list (string * string)) : list yaml_event :=
  YAML_SCALAR_EVENT (fst sec) :: YAML_MAPPING_START_EVENT ::
  concat (pair_events <$> snd sec) ++ [YAML_MAPPING_END_EVENT].

Definition document_events (doc : list (string * list (string * string))) : list yaml_event :=
  [YAML_OTHER_EVENT; YAML_OTHER_EVENT; YAML_MAPPING_START_EVENT] ++
  concat (section_events <$> doc) ++
  [YAML_MAPPING_END_EVENT; YAML_OTHER_EVENT; YAML_STREAM_END_EVENT].

(** The bindings the environment [env] of the document gives; a key that
    occurs again overrides. *)
Definition add_pairs (t : GData string) (kvs : list (string * string)) : GData string :=
  fold_left (fun t kv => <[cstr (fst kv) := cstr (snd kv)]> t) kvs t.

Definition env_bindings (env : string) (doc : list (string * list (string * string))) :
    GData string :=
  fold_left (fun t sec => if streq (cstr (fst sec)) env then add_pairs t (snd sec) else t) doc ∅.

(** The flag a key's check leaves in [valid]; [None] for the keys that do not
    write it. *)
Definition key_flag (file_exists is_dir : string -> bool) (dirname : string -> string)
    (kv : string * string) : option bool :=
  let '(k, v) := kv in
  if decide (k ∈ ["adapter"; "database"; "username"; "password"; "host"]) then None
  else if decide (k ∈ ["pool"; "port"; "workers"; "listen"; "pollrate"]) then
    Some (bool_decide (0 < atoi v)%Z)
  else if decide (k = "logfile") then Some (file_exists v)
  else if decide (k = "pidfile") then Some (file_exists (dirname v) || is_dir (dirname v))
  else Some false.

(** ** Lemmas *)

Lemma Zrem_even_odd c : (0 <= c)%Z -> Z.rem c 2 = 0%Z -> Z.rem (c + 1) 2 ≠ 0%Z /\ Z.rem (c + 2) 2 = 0%Z.
Proof.
  intros Hc. rewrite !Z.rem_mod_nonneg by lia. intros H. split; Z.to_euclidean_division_equations; lia.
Qed.

(** A scalar read at an even [count] is a key, at an odd one a value. *)
Lemma on_scalar_key env v c uk key t :
  Z.rem (c + 1) 2 ≠ 0%Z ->
  on_event env (YAML_SCALAR_EVENT v) (mkLoad c uk key t) = mkLoad (c + 1) uk (Some (cstr v)) t.
Proof. intros H. unfold on_event; cbn [ls_count]. by rewrite decide_True. Qed.

Lemma on_scalar_value env v c uk key t :
  Z.rem (c + 1) 2 = 0%Z ->
  on_event env (YAML_SCALAR_EVENT v) (mkLoad c uk (Some key) t)
  = if uk then mkLoad (c + 1) true None (<[key := cstr v]> t) else mkLoad (c + 1) false (Some key) t.
Proof. intros H. unfold on_event; cbn [ls_count]. by rewrite decide_False by naive_solver. Qed.

(** One key/value pair, read at an even [count]. *)
Lemma load_pair env kv rest c uk key t :
  (0 <= c)%Z -> Z.rem c 2 = 0%Z ->
  load_loop env (pair_events kv ++ rest) (mkLoad c uk key t)
  = load_loop env rest
      (if uk then mkLoad (c + 2) true None (<[cstr (fst kv) := cstr (snd kv)]> t)
       else mkLoad (c + 2) false (Some (cstr (fst kv))) t).
Proof.
  intros H0 H. destruct (Zrem_even_odd c H0 H) as [H1 H2].
  unfold pair_events; cbn [app load_loop].
  rewrite on_scalar_key by done. cbn [load_loop].
  rewrite on_scalar_value; replace (c + 1 + 1)%Z with (c + 2)%Z by lia; done.
Qed.

Lemma load_pairs env kvs rest c uk key t :
  (0 <= c)%Z -> Z.rem c 2 = 0%Z ->
  exists c' key', (0 <= c')%Z /\ Z.rem c' 2 = 0%Z /\
  load_loop env (concat (pair_events <$> kvs) ++ rest) (mkLoad c uk key t)
  = load_loop env rest (mkLoad c' uk key' (if uk then add_pairs t kvs else t)).
Proof.
  revert c key t; induction kvs as [|kv kvs IH]; intros c key t H0 H.
  { exists c, key. by destruct uk. }
  rewrite fmap_cons. change (concat (pair_events kv :: (pair_events <$> kvs)))
    with (pair_events kv ++ concat (pair_events <$> kvs)).
  rewrite <-app_assoc, load_pair by done.
  destruct (Zrem_even_odd c H0 H) as [_ H2].
  destruct uk; eapply IH; eauto; lia.
Qed.

(** One environment section, read at an even [count]. *)
Lemma load_section env sec rest c uk key t :
  (0 <= c)%Z -> Z.rem c 2 = 0%Z ->
  exists c' uk' key', (0 <= c')%Z /\ Z.rem c' 2 = 0%Z /\
  load_loop env (section_events sec ++ rest) (mkLoad c uk key t)
  = load_loop env rest
      (mkLoad c' uk' key' (if streq (cstr (fst sec)) env then add_pairs t (snd sec) else t)).
Proof.
  intros H0 H. destruct (Zrem_even_odd c H0 H) as [H1 H2].
  unfold section_events; cbn [app load_loop]. rewrite on_scalar_key by done.
  cbn [load_loop on_event ls_key ls_loaded]. rewrite <-app_assoc.
  destruct (load_pairs env (snd sec) ([YAML_MAPPING_END_EVENT] ++ rest) 0
    (streq (cstr (fst sec)) env) (Some (cstr (fst sec))) t) as (c' & key' & ? & ? & ->); [lia|done|].
  eauto 10.
Qed.

Lemma load_sections env doc rest c uk key t :
  (0 <= c)%Z -> Z.rem c 2 = 0%Z ->
  exists c' uk' key',
  load_loop env (concat (section_events <$> doc) ++ rest) (mkLoad c uk key t)
  = load_loop env rest
      (mkLoad c' uk' key'
        (fold_left (fun t sec => if streq (cstr (fst sec)) env then add_pairs t (snd sec) else t)
           doc t)).
Proof.
  revert c uk key t; induction doc as [|sec doc IH]; intros c uk key t H0 H.
  { simpl. eauto. }
  rewrite fmap_cons. change (concat (section_events sec :: (section_events <$> doc)))
    with (section_events sec ++ concat (section_events <$> doc)).
  rewrite <-app_assoc.
  destruct (load_section env sec (concat (section_events <$> doc) ++ rest) c uk key t)
    as (c' & uk' & key' & ? & ? & ->); [done..|].
  by apply IH.
Qed.

Lemma test_key_value_valid fe di dn k v c :
  valid (test_key_value fe di dn k v c) =
  match key_flag fe di dn (k, v) with Some b => b | None => valid c end.
Proof.
  unfold test_key_value, key_flag.
  repeat (case_decide; [subst; simpl; try done|]).
  all: repeat case_decide; set_solver.
Qed.

Lemma fold_verify fe di dn kvs c :
  valid (fold_left (fun c kv => test_key_value fe di dn (fst kv) (snd kv) c) kvs c)
  = match last (omap (key_flag fe di dn) kvs) with Some b => b | None => valid c end.
Proof.
  revert c; induction kvs as [|[k v] kvs IH]; intros c; [done|].
  cbn [fold_left fst snd]. rewrite IH, test_key_value_valid.
  change (omap (key_flag fe di dn) ((k, v) :: kvs)) with
    (match key_flag fe di dn (k, v) with
     | Some b => b :: omap (key_flag fe di dn) kvs
     | None => omap (key_flag fe di dn) kvs end).
  destruct (key_flag fe di dn (k, v)) as [b|]; [|done].
  rewrite last_cons. by destruct (last _).
Qed.

(** A value that is not a key's flag never makes [verify] fail. *)
Lemma last_omap_valid {A} (f : A -> option bool) l :
  Forall (fun x => f x ≠ Some false) l ->
  default true (last (omap f l)) = true.
Proof.
  intros H. destruct (last (omap f l)) as [b|] eqn:E; [|done]. simpl.
  apply last_Some_elem_of, list_elem_of_omap in E as (x & Hx & Hf).
  rewrite Forall_forall in H. specialize (H x Hx). destruct b; congruence.
Qed.

(** ** Properties *)

(** C33: loading a two-level YAML document succeeds and stages exactly the bindings
    of the selected environment (later keys override, other environments are
    ignored), leaves the table in use alone, and [commit] then makes the
    staged bindings the table in use and empties the stage. *)
Theorem load_commit_selects_environment s doc :
  let '(ok, s') := load_from_file (Some (document_events doc)) s in
  ok = true /\ m_loaded s' = env_bindings (m_env s) doc /\ m_table s' = m_table s /\
  m_table (commit s') = env_bindings (m_env s) doc /\ m_loaded (commit s') = ∅ /\
  m_env (commit s') = m_env s.
Proof.
  unfold load_from_file, document_events.
  cbn [app load_loop on_event ls_key ls_use_keys ls_loaded].
  destruct (load_sections (m_env s) doc
    [YAML_MAPPING_END_EVENT; YAML_OTHER_EVENT; YAML_STREAM_END_EVENT] 0 false None ∅)
    as (c' & uk' & key' & ->); done.
Qed.

(** C34: the result of [verify] is the flag of the last visited key that writes
    the flag, and [true] when no key writes it: every earlier failed check is
    overwritten.  In particular a table all of whose checks succeed is
    accepted, whatever the visiting order. *)
Theorem verify_is_last_flag fe di dn order s :
  verify fe di dn order s = default true (last (omap (key_flag fe di dn) (order (m_loaded s)))) /\
  (Forall (fun kv => key_flag fe di dn kv ≠ Some false) (order (m_loaded s)) ->
   verify fe di dn order s = true).
Proof.
  assert (verify fe di dn order s
    = default true (last (omap (key_flag fe di dn) (order (m_loaded s))))) as Hv.
  { unfold verify, final_confirm. rewrite fold_verify. by destruct (last _). }
  split; [done|]. rewrite Hv. apply last_omap_valid.
Qed.

Lemma verify_is_last_flag_witness :
  let s := set_loaded {[ "workers" := "2" ]} (mkSettings "" "development" ∅ ∅) in
  verify (fun _ => true) (fun _ => true) (fun d => d) (fun _ => [("workers", "2")]) s = true.
Proof.
  intros s.
  apply (proj2 (verify_is_last_flag (fun _ => true) (fun _ => true) (fun d => d)
    (fun _ => [("workers", "2")]) s)).
  constructor; [|constructor]. vm_compute. discriminate.
Defined.

(** [verify] is not sound: a configuration that asks for no worker at all is
    accepted when a good key is visited after the bad one, and rejected in
    the other order. *)
Theorem verify_accepts_bad_workers :
  let t : GData string := {[ "workers" := "0"; "listen" := "4488" ]} in
  let s := set_loaded t (mkSettings "" "development" ∅ ∅) in
  let run order := verify (fun _ => true) (fun _ => true) (fun d => d) order s in
  (exists order, order t ≡ₚ map_to_list t /\ run order = true) /\
  (exists order, order t ≡ₚ map_to_list t /\ run order = false).
Proof.
  split; [exists (fun _ => [("workers", "0"); ("listen", "4488")])
         |exists (fun _ => [("listen", "4488"); ("workers", "0")])].
  all: split; [|done]; vm_compute; solve [reflexivity | apply Permutation_swap].
Qed.

(** C35: a numeric setting survives the file: if the selected environment binds
    [key] to the decimal text of a 32-bit [n], then after load and commit
    [get_int] returns [n] whatever the default, while before the commit every
    getter still answers from the old table. *)
Theorem get_int_after_load s doc key n d :
  env_bindings (m_env s) doc !! key = Some (dec n) -> int32 n ->
  let s' := snd (load_from_file (Some (document_events doc)) s) in
  get_int (commit s') key d = n /\
  (forall k dflt, get_int s' k dflt = get_int s k dflt) /\
  (forall k dflt, get_str s' k dflt = get_str s k dflt) /\
  (forall k dflt, get_bool s' k dflt = get_bool s k dflt) /\
  (forall k dflt, get_double s' k dflt = get_double s k dflt).
Proof.
  intros Hk Hn s'.
  assert (m_loaded s' = env_bindings (m_env s) doc) as Hl.
  { subst s'. unfold load_from_file, document_events.
    cbn [app load_loop on_event ls_key ls_use_keys ls_loaded].
    destruct (load_sections (m_env s) doc
      [YAML_MAPPING_END_EVENT; YAML_OTHER_EVENT; YAML_STREAM_END_EVENT] 0 false None ∅)
      as (? & ? & ? & ->); done. }
  split; [|done]. unfold get_int, commit; cbn [m_table]. rewrite Hl, Hk. by apply atoi_dec.
Qed.

Lemma get_int_after_load_witness :
  let s := mkSettings "" "test" ∅ ∅ in
  let doc := [("development", [("workers", "2")]); ("test", [("workers", "5")])] in
  get_int (commit (snd (load_from_file (Some (document_events doc)) s))) "workers" 1 = 5%Z.
Proof.
  intros s doc. apply (get_int_after_load s doc "workers" 5 1).
  - vm_compute. reflexivity.
  - unfold int32; lia.
Defined.
