(* ===== verification/Records.v ===== *)
(** * Records: rows and result sets (workq/adaptor.h, workq/mysql_adaptor.cc)

    The client library's result set, the typed columns [MyRow] builds from it
    ([create_column]), the row accessors, and [MysqlIterator].  A column's
    [union Data] is read through the member an accessor names; reading the
    bits of another member (a pointer or a [double] read as a [long]) is
    [None]. *)

From S2P Require Import Prelude CLib.

(** ** What the client library delivers *)

Inductive enum_field_types :=
| MYSQL_TYPE_DECIMAL | MYSQL_TYPE_NEWDECIMAL | MYSQL_TYPE_TINY | MYSQL_TYPE_SHORT
| MYSQL_TYPE_LONG | MYSQL_TYPE_LONGLONG | MYSQL_TYPE_INT24
| MYSQL_TYPE_FLOAT | MYSQL_TYPE_DOUBLE | MYSQL_TYPE_NULL
| MYSQL_TYPE_TIMESTAMP | MYSQL_TYPE_DATE | MYSQL_TYPE_TIME | MYSQL_TYPE_DATETIME
| MYSQL_TYPE_NEWDATE | MYSQL_TYPE_YEAR | MYSQL_TYPE_ENUM | MYSQL_TYPE_SET
| MYSQL_TYPE_TINY_BLOB | MYSQL_TYPE_MEDIUM_BLOB | MYSQL_TYPE_LONG_BLOB | MYSQL_TYPE_BLOB
| MYSQL_TYPE_VAR_STRING | MYSQL_TYPE_STRING | MYSQL_TYPE_GEOMETRY | MYSQL_TYPE_BIT
| MYSQL_TYPE_OTHER.

(** [MYSQL_FIELD]: the name, the type and the column's declared width. *)
Record MYSQL_FIELD := mkField { f_name : string; f_type : enum_field_types; f_length : Z }.

(** A stored result: the columns and the rows, [None] being SQL NULL. *)
Record MYSQL_RES := mkRes {
  res_fields : list MYSQL_FIELD;
  res_rows : list (list (option string));
}.

(** ** Columns *)

Inductive ColType := FIXED | NUMERIC | STRING | UNDEFINED.

Inductive Data :=
| DZero                    (** all bytes zero, as the constructor leaves it *)
| DFixed (z : Z)           (** [fixed_value], a [glong] *)
| DNumeric (d : double)    (** [numeric_value] *)
| DString (s : string).    (** [string_value], a heap copy *)

Record Col := mkCol { c_type : ColType; c_data : Data }.

Definition new_Col : Col := mkCol UNDEFINED DZero.

Definition create_column (size : Z) (field : MYSQL_FIELD) (row_field : option string) : Col :=
  let buffer := snprintf_prec size (wrap32 (f_length field)) row_field in
  match f_type field with
  | MYSQL_TYPE_DECIMAL | MYSQL_TYPE_NEWDECIMAL | MYSQL_TYPE_TINY | MYSQL_TYPE_SHORT
  | MYSQL_TYPE_LONG | MYSQL_TYPE_LONGLONG | MYSQL_TYPE_INT24 =>
      mkCol FIXED (DFixed (atol buffer))
  | MYSQL_TYPE_FLOAT | MYSQL_TYPE_DOUBLE => mkCol NUMERIC (DNumeric (atof buffer))
  | MYSQL_TYPE_TINY_BLOB | MYSQL_TYPE_MEDIUM_BLOB | MYSQL_TYPE_LONG_BLOB | MYSQL_TYPE_BLOB
  | MYSQL_TYPE_VAR_STRING | MYSQL_TYPE_STRING => mkCol STRING (DString buffer)
  | _ => new_Col
  end.

(** The constructor's loop over the columns; a repeated name replaces. *)
Definition MyRow : Type := gmap string Col.

Definition new_MyRow (size : Z) (fields : list MYSQL_FIELD) (row : list (option string)) : MyRow :=
  fold_left (fun m fv => <[f_name (fst fv) := create_column size (fst fv) (snd fv)]> m)
    (zip fields row) ∅.

Definition columns (r : MyRow) : Z := Z.of_nat (size r).

Definition col_type (r : MyRow) (col : string) : ColType :=
  match r !! col with Some c => c_type c | None => UNDEFINED end.

(** The value of [data.fixed_value] converted to [int]. *)
Definition int_field (r : MyRow) (col : string) : option Z :=
  match r !! col with
  | Some c => match c_data c with
              | DZero => Some 0%Z
              | DFixed z => Some (wrap32 z)
              | _ => None
              end
  | None => Some 0%Z
  end.

Definition double_field (r : MyRow) (col : string) : option double :=
  match r !! col with
  | Some c => match c_data c with
              | DZero => Some (d_of_Z 0)
              | DNumeric d => Some d
              | _ => None
              end
  | None => Some (d_of_Z 0)
  end.

(** [None] is NULL.  A [STRING] column always holds a [DString]. *)
Definition str_field (r : MyRow) (col : string) : option string :=
  match r !! col with
  | Some c => match c_type c with
              | STRING => match c_data c with DString s => Some s | _ => None end
              | _ => None
              end
  | None => None
  end.

(** ** [MysqlIterator] *)

(** [it_stored]: what [mysql_store_result] will return on the connection;
    [it_rows]: the rows [mysql_fetch_row] has still to deliver. *)
Record MysqlIterator := mkIter {
  it_size : Z;
  it_stored : option MYSQL_RES;
  it_fields : list MYSQL_FIELD;
  it_rows : list (list (option string));
}.

Definition new_MysqlIterator (size : Z) (stored : option MYSQL_RES) : MysqlIterator :=
  mkIter size stored [] [].

Definition next (it : MysqlIterator) : option MyRow * MysqlIterator :=
  match it_rows it with
  | [] => (None, it)
  | row :: rows =>
      (Some (new_MyRow (it_size it) (it_fields it) row),
       mkIter (it_size it) (it_stored it) (it_fields it) rows)
  end.

Definition begin (it : MysqlIterator) : option MyRow * MysqlIterator :=
  match it_stored it with
  | None => (None, it)
  | Some res => next (mkIter (it_size it) None (res_fields res) (res_rows res))
  end.

(** The rows a loop [for( row = it->begin(); row; row = it->next() )] visits. *)
Fixpoint visit (fuel : nat) (cur : option MyRow * MysqlIterator) : list MyRow :=
  match fuel, cur with
  | S fuel', (Some row, it) => row :: visit fuel' (next it)
  | _, _ => []
  end.

Definition rows_of (it : MysqlIterator) : list MyRow :=
  visit (match it_stored it with Some res => length (res_rows res) | None => 0 end) (begin it).

#[global] Arguments new_MyRow : simpl never.

(** ** Lemmas *)

(** The fuel is enough: every stored row is visited, in order. *)
Lemma rows_of_stored size res :
  rows_of (new_MysqlIterator size (Some res))
  = new_MyRow size (res_fields res) <$> res_rows res.
Proof.
  unfold rows_of, begin; cbn [it_stored new_MysqlIterator it_size].
  generalize (res_fields res) as fs.
  induction (res_rows res) as [|row rows IH]; intros fs; [done|].
  cbn [length next it_rows visit fmap list_fmap it_size it_stored it_fields].
  f_equal. apply IH.
Qed.

Lemma rows_of_none size : rows_of (new_MysqlIterator size None) = [].
Proof. done. Qed.

(** Printing into the buffer loses nothing when everything fits. *)
Lemma snprintf_prec_fits size prec s :
  cstr s = s ->
  (Z.of_nat (String.length s) <= prec)%Z -> (Z.of_nat (String.length s) < size)%Z ->
  snprintf_prec size prec (Some s) = s.
Proof.
  intros Hc Hp Hs. unfold snprintf_prec. rewrite Hc.
  destruct (Z.ltb_spec prec 0); [lia|].
  rewrite (str_take_ge (Z.to_nat prec) s) by lia. apply str_take_ge; lia.
Qed.

Lemma digits_cstr s : str_forall is_digit s = true -> cstr s = s.
Proof.
  induction s as [|c s IH]; simpl; [done|]. rewrite andb_true_iff. intros [Hc Hs].
  destruct (Z.eqb_spec (code c) 0) as [E|]; [|by rewrite IH].
  unfold is_digit in Hc. rewrite E in Hc. done.
Qed.

#[export] Hint Resolve digits_cstr : workq.

(** ** Columns are well typed *)

(** The member of the union that a column's type names is the one that was
    written. *)
Definition col_ok (size : Z) (c : Col) : Prop :=
  match c_type c, c_data c with
  | FIXED, DFixed z => int64 z
  | NUMERIC, DNumeric _ => True
  | STRING, DString s => (Z.of_nat (String.length s) < size)%Z
  | UNDEFINED, DZero => True
  | _, _ => False
  end.

Lemma atol_range s : int64 (atol s).
Proof. unfold atol, strtol, clamp64, int64. cases; lia. Qed.

Lemma snprintf_prec_length size prec p :
  (0 < size)%Z -> (Z.of_nat (String.length (snprintf_prec size prec p)) < size)%Z.
Proof.
  intros Hs. unfold snprintf_prec.
  match goal with |- context [str_take ?k ?s] => pose proof (str_take_length k s) end. lia.
Qed.

Lemma create_column_ok size f v : (0 < size)%Z -> col_ok size (create_column size f v).
Proof.
  intros Hs. unfold create_column, col_ok. destruct (f_type f); cbn; try done;
    first [apply atol_range|by apply snprintf_prec_length].
Qed.

Lemma new_MyRow_ok size fields row col c :
  (0 < size)%Z -> new_MyRow size fields row !! col = Some c -> col_ok size c.
Proof.
  intros Hs. unfold new_MyRow.
  assert (forall fvs (m : MyRow), (forall k x, m !! k = Some x -> col_ok size x) ->
    forall k x, fold_left (fun m fv => <[f_name (fst fv) := create_column size (fst fv) (snd fv)]> m) fvs m !! k
      = Some x -> col_ok size x) as H; [|apply H; intros k x Hk; by destruct (lookup_empty_Some (M:=gmap string) k x)].
  induction fvs as [|fv fvs IH]; intros m Hm k x; [apply Hm|]. cbn [fold_left]. apply IH.
  intros k' x' [[<- <-]|[_ Hk]]%lookup_insert_Some; [by apply create_column_ok|by eapply Hm].
Qed.

(** C17: rows are well typed.  Whatever columns and text the client library
    delivers, each accessor reads the member of the union that [create_column]
    wrote: a [FIXED] column gives an [int], a [NUMERIC] one a [double], a
    [STRING] one text that fits the buffer it went through, and a column that
    is absent or of another type gives 0 or NULL.  No accessor guarded by
    [col_type] reads the bits of another member. *)
Theorem row_well_typed size fields row col :
  (0 < size)%Z ->
  let r := new_MyRow size fields row in
  match col_type r col with
  | FIXED => exists z, int_field r col = Some z /\ int32 z /\ str_field r col = None
  | NUMERIC => exists d, double_field r col = Some d /\ str_field r col = None
  | STRING => exists s, str_field r col = Some s /\ (Z.of_nat (String.length s) < size)%Z
  | UNDEFINED => int_field r col = Some 0%Z /\ double_field r col = Some (d_of_Z 0) /\ str_field r col = None
  end.
Proof.
  intros Hs r. unfold col_type, int_field, double_field, str_field.
  destruct (r !! col) as [c|] eqn:Hc; [|done].
  apply new_MyRow_ok in Hc; [|done]. unfold col_ok in Hc.
  destruct c as [[] []]; cbn [c_type c_data] in *; try done; eauto using wrap32_range.
Qed.

Module RowDemo.
Definition fields : list MYSQL_FIELD :=
  [mkField "id" MYSQL_TYPE_LONG 11; mkField "name" MYSQL_TYPE_VAR_STRING 255;
   mkField "created_at" MYSQL_TYPE_DATETIME 19].
Definition row : MyRow := new_MyRow 4098 fields [Some "4294967297"; Some "run"; None].
End RowDemo.

Lemma row_well_typed_witness :
  let r := RowDemo.row in
  (exists z, int_field r "id" = Some z /\ int32 z /\ str_field r "id" = None) /\
  (exists s, str_field r "name" = Some s /\ (Z.of_nat (String.length s) < 4098)%Z) /\
  int_field r "created_at" = Some 0%Z.
Proof.
  assert (0 < 4098)%Z as Hs by lia.
  assert (col_type RowDemo.row "id" = FIXED) as Ht1 by (vm_compute; reflexivity).
  assert (col_type RowDemo.row "name" = STRING) as Ht2 by (vm_compute; reflexivity).
  assert (col_type RowDemo.row "created_at" = UNDEFINED) as Ht3 by (vm_compute; reflexivity).
  pose proof (row_well_typed 4098 RowDemo.fields [Some "4294967297"; Some "run"; None]) as H.
  cbv zeta in H. change (new_MyRow 4098 _ _) with RowDemo.row in H.
  pose proof (H "id" Hs) as H1. pose proof (H "name" Hs) as H2. pose proof (H "created_at" Hs) as H3.
  rewrite Ht1 in H1. rewrite Ht2 in H2. rewrite Ht3 in H3.
  split; [exact H1|split; [exact H2|exact (proj1 H3)]].
Defined.
