(* ===== verification/GObject.v ===== *)
(** * GObject: objects with named properties

    What modules/run_job.cc, modules/pdf_preview_job.cc and json/obj.cc each
    declare to the GObject type system: the properties [class_init] installs
    and the two handlers.  [GObjectClass] is that interface, [GObjectLaws]
    what a class owes its clients; the type system itself is used only through
    the sequence of handler calls it makes.  The three classes are instances
    (RunJob.v, Pdf.v, Obj.v). *)

From S2P Require Import Prelude CLib.

(** ** Values *)

(** A [GValue] initialised to one of the types the classes use. *)
Inductive GValue :=
| GInt (z : Z)
| GBoolean (b : bool)
| GString (s : option string).   (** [None]: NULL *)

(** The accessors; [None]: the value holds another type, which GLib reports as
    a critical error of the program. *)
Definition g_value_get_int (v : GValue) : option Z :=
  match v with GInt z => Some z | _ => None end.
Definition g_value_get_boolean (v : GValue) : option bool :=
  match v with GBoolean b => Some b | _ => None end.
Definition g_value_dup_string (v : GValue) : option (option string) :=
  match v with GString s => Some s | _ => None end.

Definition g_value_set_int (v : GValue) (z : Z) : option GValue :=
  match v with GInt _ => Some (GInt z) | _ => None end.
Definition g_value_set_boolean (v : GValue) (b : bool) : option GValue :=
  match v with GBoolean _ => Some (GBoolean b) | _ => None end.
Definition g_value_set_string (v : GValue) (s : option string) : option GValue :=
  match v with GString _ => Some (GString s) | _ => None end.

(** ** Parameter specifications *)

Inductive GParamKind :=
| ParamString (default_value : string)
| ParamInt (minimum maximum default_value : Z)
| ParamBoolean (default_value : bool).

(** Every property of the program is [G_PARAM_READWRITE]. *)
Record GParamSpec := mkSpec { p_name : string; p_nick : string; p_blurb : string; p_kind : GParamKind }.

(** A value of the type the specification asks for. *)
Definition value_type (p : GParamSpec) (v : GValue) : Prop :=
  match p_kind p, v with
  | ParamString _, GString _ | ParamInt _ _ _, GInt _ | ParamBoolean _, GBoolean _ => True
  | _, _ => False
  end.

(** ** The interface *)

(** [class_init]: the installed properties in order, each under its id. *)
Class GObjectClass (T : Type) := {
  class_init : list (Z * GParamSpec);
  set_property : Z -> GValue -> T -> option T;
  get_property : Z -> GValue -> T -> option GValue;
}.

(** What a class promises: property ids are positive, ids and names are
    distinct; a handler accepts any value of the installed type; reading gives
    what was written last, and writing one property leaves the others; an id
    that was not installed changes nothing. *)
Class GObjectLaws (T : Type) `{GObjectClass T} : Prop := {
  ids_positive : Forall (fun ip => 0 < fst ip)%Z class_init;
  ids_distinct : NoDup (fst <$> class_init);
  names_distinct : NoDup (p_name ∘ snd <$> class_init);
  set_accepts i p v (o : T) : (i, p) ∈ class_init -> value_type p v -> is_Some (set_property i v o);
  get_set i p v old (o o' : T) :
    (i, p) ∈ class_init -> value_type p v -> value_type p old ->
    set_property i v o = Some o' -> get_property i old o' = Some v;
  get_set_ne i j v old (o o' : T) :
    i ≠ j -> set_property i v o = Some o' -> get_property j old o' = get_property j old o;
  unknown_id i v (o : T) :
    i ∉ (fst <$> class_init) -> set_property i v o = Some o /\ get_property i v o = Some v;
}.

(** ** Sequences of writes *)

Section Writes.
Context {T : Type} `{GObjectLaws T}.

(** The property calls the type system makes on an object, oldest first. *)
Fixpoint set_properties (ws : list (Z * GValue)) (o : T) : option T :=
  match ws with
  | [] => Some o
  | (i, v) :: ws' => o' ← set_property i v o; set_properties ws' o'
  end.

(** The value the last write to property [i] carried. *)
Definition last_write (i : Z) (ws : list (Z * GValue)) : option GValue :=
  snd <$> last (filter (fun w => fst w = i) ws).

(** The writes carry values of the installed types. *)
Definition well_typed (ws : list (Z * GValue)) : Prop :=
  forall i p v, (i, p) ∈ class_init -> (i, v) ∈ ws -> value_type p v.

Lemma well_typed_cons w ws : well_typed (w :: ws) -> well_typed ws.
Proof. intros Hw i p v Hi Hv. apply (Hw i p v Hi). by apply list_elem_of_further. Qed.

Lemma set_properties_app ws1 ws2 (o : T) :
  set_properties (ws1 ++ ws2) o = set_properties ws1 o ≫= set_properties ws2.
Proof.
  revert o; induction ws1 as [|[i v] ws1 IH]; intros o; [done|]. simpl.
  destruct (set_property i v o); simpl; [apply IH|done].
Qed.

Lemma set_properties_ok ws (o : T) : well_typed ws -> is_Some (set_properties ws o).
Proof.
  revert o; induction ws as [|[i v] ws IH]; intros o Hw; [by eexists|]. simpl.
  assert (is_Some (set_property i v o)) as [o' ->].
  { destruct (decide (i ∈ (fst <$> class_init))) as [Hi|Hi].
    - apply list_elem_of_fmap in Hi as ([j p] & -> & Hp). apply (set_accepts j p v o Hp).
      apply (Hw j p v Hp). by apply list_elem_of_here.
    - exists o. by apply unknown_id. }
  apply IH. by eapply well_typed_cons.
Qed.

(** Any sequence of well-typed writes succeeds, and each property then reads
    as the value last written to it, or as it was. *)
Lemma get_last_write ws (o : T) :
  well_typed ws ->
  exists o', set_properties ws o = Some o' /\
    forall i p old, (i, p) ∈ class_init -> value_type p old ->
      get_property i old o' =
        match last_write i ws with Some v => Some v | None => get_property i old o end.
Proof.
  intros Hw. destruct (set_properties_ok ws o Hw) as [o' Ho]. exists o'. split; [done|].
  revert o' Ho. induction ws as [|[j v] ws IH] using rev_ind; intros o' Ho i p old Hi Hold.
  { by injection Ho as <-. }
  assert (well_typed ws) as Hws.
  { intros i' p' v' Hi' Hv'. apply (Hw i' p' v' Hi'). apply elem_of_app. by left. }
  rewrite set_properties_app in Ho. destruct (set_properties ws o) as [o1|] eqn:E; [|done].
  simpl in Ho. destruct (set_property j v o1) as [o2|] eqn:E2; [|done]. injection Ho as <-.
  unfold last_write. rewrite filter_app, filter_cons, filter_nil. cbn [fst].
  case_decide as Hj.
  - subst j. rewrite last_snoc. cbn [fmap option_fmap option_map snd].
    eapply get_set; [done| |done|done]. apply (Hw i p v Hi). apply elem_of_app. right. by apply list_elem_of_here.
  - rewrite app_nil_r. rewrite (get_set_ne j i v old o1) by done. by eapply IH.
Qed.
End Writes.

(** ** Reading by name *)

(** [g_object_get] looks the name up among the installed properties. *)
Definition find_property {T} `{GObjectClass T} (name : string) : option (Z * GParamSpec) :=
  snd <$> list_find (fun ip => p_name (snd ip) = name) class_init.

(** The value the caller's variable is filled from, of the installed type. *)
Definition zero_value (p : GParamSpec) : GValue :=
  match p_kind p with
  | ParamString _ => GString None
  | ParamInt _ _ _ => GInt 0
  | ParamBoolean _ => GBoolean false
  end.

Definition g_object_get {T} `{GObjectClass T} (name : string) (o : T) : option GValue :=
  '(i, p) ← find_property name; get_property i (zero_value p) o.

Lemma zero_value_type p : value_type p (zero_value p).
Proof. unfold value_type, zero_value. by destruct (p_kind p). Qed.

#[export] Hint Resolve zero_value_type : workq.

Lemma find_property_elem {T} `{GObjectClass T} name i p :
  find_property name = Some (i, p) -> (i, p) ∈ class_init /\ p_name p = name.
Proof.
  unfold find_property. intros ([k ip] & Hf & Hip)%fmap_Some.
  cbn [snd] in Hip. subst ip.
  apply list_find_Some in Hf as (Hk & Hn & _). split; [by eapply list_elem_of_lookup_2|done].
Qed.

(** Reading by name after any well-typed writes. *)
Lemma g_object_get_writes {T} `{GObjectLaws T} ws (o : T) name i p :
  well_typed ws -> find_property name = Some (i, p) ->
  exists o', set_properties ws o = Some o' /\
    g_object_get name o' = match last_write i ws with Some v => Some v | None => g_object_get name o end.
Proof.
  intros Hw Hf. destruct (get_last_write ws o Hw) as (o' & Ho & Hg). exists o'. split; [done|].
  destruct (find_property_elem _ _ _ Hf) as [Hi _]. unfold g_object_get. rewrite Hf. simpl.
  apply (Hg i p); auto with workq.
Qed.

(** ** Discharging the laws *)

(** Membership in a literal list of properties, one case per property. *)
Ltac property_cases :=
  repeat match goal with
  | H : _ ∈ [] |- _ => by apply not_elem_of_nil in H
  | H : _ ∈ _ :: _ |- _ => apply elem_of_cons in H as [H|H]
  end; simplify_eq.

(** The laws of a class whose handlers switch on the property id; [inst] is
    the instance, [specs] what it installs, [setter] and [getter] are its handlers. *)
Ltac class_laws inst specs setter getter :=
  split; unfold class_init, set_property, get_property, inst, specs;
  [ apply (bool_decide_unpack _); vm_compute; reflexivity
  | apply (bool_decide_unpack _); vm_compute; reflexivity
  | apply (bool_decide_unpack _); vm_compute; reflexivity
  | intros i p v o Hi Hv; property_cases; destruct v; done
  | intros i p v old o o' Hi Hv Hold Hset; property_cases; destruct v, old; try done;
    unfold setter, getter in *; simpl in *; by simplify_eq
  | intros i j v old o o' Hij Hset; unfold setter, getter in *; simpl in *;
    repeat case_decide; simplify_eq/=; try done; destruct v; simpl in *; by simplify_eq
  | intros i v o Hi; unfold setter, getter;
    repeat (case_decide; [subst; exfalso; apply Hi; set_solver|]); done ].
