(* ===== verification/Job.v ===== *)
(** * Job: the job base class (workq/job.h, workq/job.cc)

    A job holds its id, its name and the row it was created from, of which it
    takes ownership.  [real_execute] is the template method over the virtual
    [load_data] and [execute]. *)

From S2P Require Import Prelude CLib Records.

Record Job := mkJob { m_id : Z; m_name : string; m_record : MyRow }.

(** [Job::Job]; [g_strdup] copies the C string. *)
Definition new_Job (id : Z) (name : string) (record : MyRow) : Job :=
  mkJob id (cstr name) record.

Definition id (j : Job) : Z := m_id j.
Definition name (j : Job) : string := m_name j.
Definition record (j : Job) : MyRow := m_record j.

(** [job_creator_t]: a module's [creator]; [None] is NULL. *)
Definition job_creator_t : Type := Z -> string -> MyRow -> option Job.

(** [Job::real_execute] over a job state [St]. *)
Section Virtual.
Context {St : Type} (load_data : St -> res (bool * St)) (execute : St -> res (Z * St)).

Definition real_execute (s : St) : res (Z * St) :=
  '(ok, s1) ← load_data s;
  if ok : bool then execute s1 else Val (0%Z, s1).
End Virtual.
