(* ===== verification/Effects.v ===== *)
(** * Effects: the calls a worker thread makes to the outside

    A thread's code is a [prog]: a tree of calls with the continuation on
    their result.  One definition of the code then has both a sequential
    reading ([WorkQueue.exec_prog]) and an interleaved one (the step relation
    of System.v).  [OUndefined] marks behaviour C++ leaves undefined; it has
    no result, so a thread that reaches it is stuck. *)

From S2P Require Import Prelude CLib Records Job.

Inductive op :=
| ORealQuery (sql : string)   (** [mysql_real_query] on the thread's connection *)
| OTime                       (** [g_get_current_time]: seconds and microseconds *)
| OExecute (j : Job)          (** [job->real_execute()] *)
| OPendingAdd (d : Z)         (** [g_atomic_int_add(&m_pending, d)] *)
| OUndefined.

(** The result of a call.  For a query: the status and what
    [mysql_store_result] will return on this connection. *)
Definition resp (o : op) : Type :=
  match o with
  | ORealQuery _ => Z * option MYSQL_RES
  | OTime => Z * Z
  | OExecute _ => Z
  | OPendingAdd _ => unit
  | OUndefined => Empty_set
  end.

Inductive prog (A : Type) : Type :=
| Ret (a : A)
| Op (o : op) (k : resp o -> prog A).
Arguments Ret {A} a.
Arguments Op {A} o k.

Fixpoint pbind {A B} (f : A -> prog B) (p : prog A) : prog B :=
  match p with
  | Ret a => f a
  | Op o k => Op o (fun r => pbind f (k r))
  end.

#[export] Instance prog_ret : MRet prog := @Ret.
#[export] Instance prog_bind : MBind prog := @pbind.

Definition call (o : op) : prog (resp o) := Op o Ret.
Definition undefined {A} : prog A := Op OUndefined (fun e => match e with end).
