(* ===== verification/Adaptor.v ===== *)
(** * Adaptor: the adaptor registry and the MySQL adaptor
    (workq/adaptor.cc, workq/mysql_adaptor.h, workq/mysql_adaptor.cc)

    The registry of adaptor constructors, the connection handle of
    [MysqlAdaptor] with its life cycle, and the two query entry points, which
    format the statement into the 4098-byte [m_query_buffer] and hand it to
    the client library. *)

From S2P Require Import Prelude CLib Records Job Effects.
From Stdlib Require Import Ascii.

(** ** The registry *)

(** The connection handle [m_mysql]: 0, a live connection, or the dangling
    pointer [disconnect] leaves behind. *)
Inductive handle := HNull | HLive | HFreed.

#[export] Instance handle_eq_dec : EqDecision handle.
Proof. solve_decision. Defined.

(** [leaked] counts the connections whose handle was overwritten. *)
Record MysqlAdaptor := mkMysql { m_mysql : handle; leaked : Z }.

Definition new_MysqlAdaptor : MysqlAdaptor := mkMysql HNull 0.

(** The C++ function pointers of this type make every kind of adaptor; the
    program only has the MySQL one. *)
Definition adaptor_creator_t : Type := unit -> MysqlAdaptor.

(** [wq_adaptor_set]. *)
Definition registry : Type := gmap string adaptor_creator_t.

Definition initialize : registry := ∅.
Definition finalize (reg : registry) : registry := ∅.

Definition register_adaptor (name : string) (creator : adaptor_creator_t) (reg : registry) :
    registry := <[name := creator]> reg.

(** An empty data list is the NULL pointer; a name without constructor and an
    empty registry both give NULL. *)
Definition create (reg : registry) (ats : string) : option MysqlAdaptor :=
  if decide (reg = ∅) then None
  else match reg !! ats with Some creator_func => Some (creator_func tt) | None => None end.

(** [MysqlAdaptor::create] *)
Definition mysql_create (_ : unit) : MysqlAdaptor := new_MysqlAdaptor.

(** ** Connection life cycle *)

(** [init_ok], [connect_ok]: the outcome of [mysql_init] and
    [mysql_real_connect].  The handle is overwritten without a look at the
    old one. *)
Definition connect (init_ok connect_ok : bool) (a : MysqlAdaptor) : bool * MysqlAdaptor :=
  let lost := if decide (m_mysql a = HLive) then (leaked a + 1)%Z else leaked a in
  if init_ok && connect_ok then (true, mkMysql HLive lost)
  else (false, mkMysql HNull lost).

(** [None]: [mysql_close] on freed memory. *)
Definition disconnect (a : MysqlAdaptor) : option MysqlAdaptor :=
  match m_mysql a with
  | HNull => Some a
  | HLive => Some (mkMysql HFreed (leaked a))
  | HFreed => None
  end.

(** [~MysqlAdaptor] *)
Definition destroy : MysqlAdaptor -> option MysqlAdaptor := disconnect.

(** [ping_ok]: [mysql_ping] returned 0. *)
Definition alive (ping_ok : bool) (a : MysqlAdaptor) : option bool :=
  match m_mysql a with
  | HNull => Some false
  | HLive => Some ping_ok
  | HFreed => None
  end.

(** [info], [error] and [affected] are what [mysql_info], [mysql_error] and
    [mysql_affected_rows] return on a live connection. *)
Definition details (info : option string) (a : MysqlAdaptor) : res (option string) :=
  match m_mysql a with HNull => Val None | HLive => Val info | HFreed => Undef end.

Definition errors (error : option string) (a : MysqlAdaptor) : res (option string) :=
  match m_mysql a with HNull => Val None | HLive => Val error | HFreed => Undef end.

(** The only accessor that does not test [m_mysql]. *)
Definition rows_affected (affected : Z) (a : MysqlAdaptor) : res Z :=
  match m_mysql a with HLive => Val (wrap32 affected) | _ => Undef end.

(** ** Queries *)

(** [sizeof(m_query_buffer)] *)
Definition query_buffer_size : Z := 4098.

Definition prepare_query (sql : string) (args : list arg) : string * Z :=
  snprintf query_buffer_size sql args.

(** The terminating NUL. *)
Definition terminator : string := String "000"%char "".

(** [mysql_real_query(m_mysql, m_query_buffer, size)] sends [size] bytes of
    the buffer, which holds the text and its terminator.  [size] is the length
    of the untruncated text: it exceeds that of the text in the buffer only
    when it reaches the buffer's length; beyond that, bytes after the buffer
    are read. *)
Definition send_query (buf : string) (size : Z) : prog (Z * option MYSQL_RES) :=
  if decide (size <= query_buffer_size)%Z
  then call (ORealQuery (str_take (Z.to_nat size) (buf +:+ terminator)))
  else undefined.

Definition query (db : MysqlAdaptor) (sql : string) (args : list arg) : prog Z :=
  match m_mysql db with
  | HNull => Ret (-1)%Z
  | HFreed => undefined
  | HLive =>
    let '(buf, size) := prepare_query sql args in
    r ← send_query buf size; Ret (fst r)
  end.

Definition query_with_result (db : MysqlAdaptor) (sql : string) (args : list arg) :
    prog (option MysqlIterator) :=
  match m_mysql db with
  | HNull => Ret None
  | HFreed => undefined
  | HLive =>
    let '(buf, size) := prepare_query sql args in
    r ← send_query buf size;
    if decide (fst r ≠ 0%Z) then Ret None
    else Ret (Some (new_MysqlIterator query_buffer_size (snd r)))
  end.

#[global] Arguments query : simpl never.
#[global] Arguments query_with_result : simpl never.

(** ** Lemmas *)

(** A statement that fits is sent exactly as formatted. *)
Lemma prepare_fits sql args :
  (Z.of_nat (String.length (format sql args)) < query_buffer_size)%Z ->
  prepare_query sql args
  = (format sql args, Z.of_nat (String.length (format sql args))).
Proof.
  unfold prepare_query, snprintf, query_buffer_size; intros H.
  by rewrite str_take_ge by lia.
Qed.

Lemma send_fits buf :
  (Z.of_nat (String.length buf) < query_buffer_size)%Z ->
  send_query buf (Z.of_nat (String.length buf)) = call (ORealQuery buf).
Proof.
  intros H. unfold send_query. rewrite decide_True by lia.
  rewrite Nat2Z.id, str_take_app_le, Nat.sub_diag by done. by rewrite str_app_nil_r.
Qed.

Lemma query_fits sql args leaks :
  (Z.of_nat (String.length (format sql args)) < query_buffer_size)%Z ->
  query (mkMysql HLive leaks) sql args
  = Op (ORealQuery (format sql args)) (fun r => Ret (fst r)).
Proof.
  intros H. unfold query; cbn [m_mysql]. rewrite prepare_fits by done. by rewrite send_fits.
Qed.

Lemma query_with_result_fits sql args leaks :
  (Z.of_nat (String.length (format sql args)) < query_buffer_size)%Z ->
  query_with_result (mkMysql HLive leaks) sql args
  = Op (ORealQuery (format sql args)) (fun r : Z * option MYSQL_RES =>
      if decide (fst r ≠ 0%Z) then Ret None
      else Ret (Some (new_MysqlIterator query_buffer_size (snd r)))).
Proof.
  intros H. unfold query_with_result; cbn [m_mysql].
  rewrite prepare_fits by done. by rewrite send_fits.
Qed.

(** ** Properties *)

(** The next thing the program does is undefined. *)
Definition goes_wrong {A} (p : prog A) : Prop :=
  match p with Op OUndefined _ => True | _ => False end.

(** C36: the query buffer.  On a live connection a statement is sent exactly as
    formatted when it is shorter than 4098 bytes; one of exactly 4098 bytes is
    sent with a NUL in the place of its last byte; a longer one makes the
    client library read beyond the buffer.  Without a connection nothing is
    sent, and after [disconnect] every query uses freed memory. *)
Theorem query_buffer_bound sql args leaks :
  let text := format sql args in
  let a := mkMysql HLive leaks in
  match (Z.of_nat (String.length text) ?= query_buffer_size)%Z with
  | Lt => query a sql args = Op (ORealQuery text) (fun r => Ret (fst r))
  | Eq => query a sql args = Op (ORealQuery (str_take 4097 text +:+ terminator)) (fun r => Ret (fst r))
  | Gt => goes_wrong (query a sql args) /\ goes_wrong (query_with_result a sql args)
  end /\
  query (mkMysql HNull leaks) sql args = Ret (-1)%Z /\
  match disconnect (mkMysql HLive leaks) with
  | Some a =>
    goes_wrong (query a sql args) /\ goes_wrong (query_with_result a sql args) /\
    disconnect a = None /\ destroy a = None /\ (forall ok, alive ok a = None) /\
    rows_affected 1 a = Undef
  | None => False
  end.
Proof.
  intros text a. split; [|split; [done|by repeat split]].
  destruct (Z.compare_spec (Z.of_nat (String.length text)) query_buffer_size) as [H|H|H].
  - unfold query, prepare_query, snprintf, send_query; cbn [m_mysql a]. fold text.
    rewrite decide_True by lia. rewrite H. change (Z.to_nat (query_buffer_size - 1)) with 4097.
    change (Z.to_nat query_buffer_size) with 4098. rewrite (str_take_ge 4098); [done|].
    rewrite str_length_app. pose proof (str_take_length 4097 text). change (String.length terminator) with 1. lia.
  - by apply query_fits.
  - unfold query, query_with_result, prepare_query, snprintf, send_query; cbn [m_mysql a]. fold text.
    by rewrite decide_False by lia.
Qed.
