(* ===== verification/JobTable.v ===== *)
(** * JobTable: the jobs table and the statements sent to the server

    The MySQL server is not part of the repository: it is the class [MySQL],
    and what the program relies on is [MySQLSpec], the documented meaning of
    the UPDATE and SELECT statements the program writes, run one at a time
    and possibly failing.  The meaning is given on an abstract view of the
    [jobs] table (schema: workqd.cc, [cli_setup]); [render] is the text of a
    statement, so that the strings the sources format can be compared with
    it. *)

From S2P Require Import Prelude CLib Records.
From Stdlib Require Import Ascii Sorted.

(** ** Rows *)

(** The values of the [status] column the program and its clients use. *)
Inductive status := Pending | Loading | Processing | Complete | Error.

#[export] Instance status_eq_dec : EqDecision status.
Proof. solve_decision. Defined.

Definition status_text (s : status) : string :=
  match s with
  | Pending => "pending" | Loading => "loading" | Processing => "processing"
  | Complete => "complete" | Error => "error"
  end.

Record job_row := mkRow {
  jr_id : Z;
  jr_name : string;
  jr_status : status;
  jr_lock : string;              (** [locked_queue_id] *)
  jr_data : option string;       (** [None]: SQL NULL *)
}.

(** A table in primary key order. *)
Notation table := (list job_row).

Definition set_status (s : status) (r : job_row) : job_row :=
  mkRow (jr_id r) (jr_name r) s (jr_lock r) (jr_data r).
Definition set_lock (l : string) (r : job_row) : job_row :=
  mkRow (jr_id r) (jr_name r) (jr_status r) l (jr_data r).

(** ** Statements *)

Inductive assign := SetStatus (s : status) | SetLock (l : string).

Inductive cond :=
| StatusIs (s : status) | StatusIsNot (s : status) | LockIs (l : string) | IdIs (z : Z).

Record update := mkUpdate {
  u_set : list assign;
  u_where : list cond;
  u_ordered : bool;
  u_limit : option Z;
}.

Inductive stmt :=
| Update (u : update)
| SelectJobs (c : list cond) (n : Z)
| CountPending
| SetNames.

(** ** Meaning *)

Definition assign_eval (a : assign) (r : job_row) : job_row :=
  match a with SetStatus s => set_status s r | SetLock l => set_lock l r end.

Definition cond_eval (r : job_row) (c : cond) : bool :=
  match c with
  | StatusIs s => bool_decide (jr_status r = s)
  | StatusIsNot s => bool_decide (jr_status r ≠ s)
  | LockIs l => bool_decide (jr_lock r = l)
  | IdIs z => bool_decide (jr_id r = z)
  end.

Definition matches (c : list cond) (r : job_row) : bool := forallb (cond_eval r) c.

Definition assign_all (a : list assign) (r : job_row) : job_row :=
  fold_left (fun r a => assign_eval a r) a r.

(** Apply [f] to the first [n] rows that satisfy [P]; all of them for [None]. *)
Fixpoint update_first (P : job_row -> bool) (f : job_row -> job_row) (n : option nat)
    (t : table) : table :=
  match t with
  | [] => []
  | r :: t' =>
    if P r then
      match n with
      | Some O => r :: t'
      | Some (S k) => f r :: update_first P f (Some k) t'
      | None => f r :: update_first P f None t'
      end
    else r :: update_first P f n t'
  end.

Definition exec_update (u : update) (t : table) : table :=
  update_first (matches (u_where u)) (assign_all (u_set u)) (Z.to_nat <$> u_limit u) t.

Definition select_rows (c : list cond) (n : Z) (t : table) : list job_row :=
  take_filter (matches c) (Z.to_nat n) t.

(** What comparing a string with the number 0 means in MySQL: its numeric
    prefix is 0. *)
Definition lock_is_zero (l : string) : bool := bool_decide (digits_val l 0 = 0)%Z.

Definition count_pending (t : table) : Z :=
  Z.of_nat (length (filter (fun r =>
    bool_decide (jr_status r = Pending) && lock_is_zero (jr_lock r) = true) t)).

(** ** Text *)

Definition render_assign (a : assign) (k : string) : string :=
  match a with
  | SetStatus s => "status='" +:+ status_text s +:+ "'" +:+ k
  | SetLock l => "locked_queue_id='" +:+ l +:+ "'" +:+ k
  end.

Definition render_cond (c : cond) (k : string) : string :=
  match c with
  | StatusIs s => "status='" +:+ status_text s +:+ "'" +:+ k
  | StatusIsNot s => "status!='" +:+ status_text s +:+ "'" +:+ k
  | LockIs l => "locked_queue_id='" +:+ l +:+ "'" +:+ k
  | IdIs z => "id=" +:+ dec z +:+ k
  end.

Fixpoint render_sep {A} (r : A -> string -> string) (sep : string) (l : list A) (k : string) :
    string :=
  match l with
  | [] => k
  | [x] => r x k
  | x :: l' => r x (sep +:+ render_sep r sep l' k)
  end.

Definition render_limit (n : option Z) : string :=
  match n with Some n => " LIMIT " +:+ dec n +:+ "" | None => "" end.

Definition render (st : stmt) : string :=
  match st with
  | Update u =>
      "UPDATE jobs SET " +:+ render_sep render_assign ", " (u_set u)
        (" WHERE " +:+ render_sep render_cond " AND " (u_where u)
          ((if u_ordered u then " ORDER BY id" else "") +:+ render_limit (u_limit u)))
  | SelectJobs c n =>
      "SELECT id, name, data FROM jobs WHERE " +:+ render_sep render_cond " AND " c
        (" ORDER BY id" +:+ render_limit (Some n))
  | CountPending =>
      "select count(id) as pending from jobs where status='pending' and locked_queue_id=0"
  | SetNames => "SET NAMES UTF8"
  end.

#[global] Arguments render : simpl never.

(** ** Well-formed tables and statements *)

(** Lock ids consist of digits and colons: no quoting is needed. *)
Definition lock_char (c : ascii) : bool := is_digit c || (code c =? 58)%Z.
Definition lock_ok (l : string) : bool := str_forall lock_char l.

Definition row_ok (r : job_row) : Prop :=
  (0 < jr_id r < 2 ^ 31)%Z /\ lock_ok (jr_lock r) = true /\
  cstr (jr_name r) = jr_name r /\ (Z.of_nat (String.length (jr_name r)) <= 765)%Z.

Definition table_ok (t : table) : Prop :=
  StronglySorted Z.lt (jr_id <$> t) /\ Forall row_ok t.

Definition assign_ok (a : assign) : bool :=
  match a with SetLock l => lock_ok l | _ => true end.
(** ** The program's statements *)

Definition claim_stmt (l : string) (n : Z) : update :=
  mkUpdate [SetLock l; SetStatus Loading] [StatusIs Pending; LockIs ""] true (Some n).
Definition claimed_cond (l : string) : list cond := [StatusIs Loading; LockIs l].
Definition unlock_stmt (l : string) : update :=
  mkUpdate [SetLock ""] [StatusIsNot Pending; LockIs l] true None.
Definition discard_stmt (z : Z) : update :=
  mkUpdate [SetStatus Error; SetLock ""] [IdIs z] true None.
Definition processing_stmt (z : Z) : update :=
  mkUpdate [SetStatus Processing] [IdIs z] false None.
Definition finish_stmt (s : status) (z : Z) : update :=
  mkUpdate [SetLock ""; SetStatus s] [IdIs z] true None.

(** What the program sends as UPDATE. *)
Inductive program_update : update -> Prop :=
| pu_claim l n : lock_ok l = true -> (0 <= n < 2 ^ 31)%Z -> program_update (claim_stmt l n)
| pu_unlock l : lock_ok l = true -> program_update (unlock_stmt l)
| pu_discard z : (0 < z < 2 ^ 31)%Z -> program_update (discard_stmt z)
| pu_processing z : (0 < z < 2 ^ 31)%Z -> program_update (processing_stmt z)
| pu_complete z : (0 < z < 2 ^ 31)%Z -> program_update (finish_stmt Complete z)
| pu_error z : (0 < z < 2 ^ 31)%Z -> program_update (finish_stmt Error z).

(** ** The server *)

Class MySQL (Srv : Type) := {
  (** [mysql_real_query]: the status, what [mysql_store_result] will return on
      the connection, and the server afterwards. *)
  real_query : Srv -> string -> (Z * option MYSQL_RES) * Srv;
  (** The rows of the [jobs] table. *)
  jobs : Srv -> table;
  (** The declared width of a TEXT column. *)
  data_width : Z;
}.

Section Result.
Context {Srv : Type} `{!MySQL Srv}.

Definition jobs_fields : list MYSQL_FIELD :=
  [mkField "id" MYSQL_TYPE_LONG 11; mkField "name" MYSQL_TYPE_VAR_STRING 765;
   mkField "data" MYSQL_TYPE_BLOB data_width].

Definition jobs_result (rs : list job_row) : MYSQL_RES :=
  mkRes jobs_fields ((fun r => [Some (dec (jr_id r)); Some (jr_name r); jr_data r]) <$> rs).

Definition count_result (n : Z) : MYSQL_RES :=
  mkRes [mkField "pending" MYSQL_TYPE_LONGLONG 21] [[Some (dec n)]].
End Result.

(** The documented behaviour relied on.  A statement runs atomically; a
    failed query (the connection may be lost before or after the server ran
    it) has had its whole effect or none; a stored result may be lost. *)
Class MySQLSpec (Srv : Type) `{!MySQL Srv} := {
  data_width_ok : (4098 <= data_width < 2 ^ 31)%Z;
  update_spec s u :
    table_ok (jobs s) -> program_update u ->
    let '((r, _), s') := real_query s (render (Update u)) in
    (r = 0%Z /\ jobs s' = exec_update u (jobs s)) \/
    (r ≠ 0%Z /\ (jobs s' = jobs s \/ jobs s' = exec_update u (jobs s)));
  select_spec s l n (c := claimed_cond l) :
    table_ok (jobs s) -> lock_ok l = true -> (0 <= n < 2 ^ 31)%Z ->
    let '((r, res), s') := real_query s (render (SelectJobs c n)) in
    jobs s' = jobs s /\
    (r = 0%Z -> res = None \/ res = Some (jobs_result (select_rows c n (jobs s))));
  count_spec s :
    table_ok (jobs s) ->
    let '((r, res), s') := real_query s (render CountPending) in
    jobs s' = jobs s /\
    (r = 0%Z -> res = None \/ res = Some (count_result (count_pending (jobs s))));
  names_spec s :
    let '(_, s') := real_query s (render SetNames) in jobs s' = jobs s;
}.

(** A server and a connection that do not fail. *)
Class MySQLReliable (Srv : Type) `{!MySQL Srv} := {
  reliable_update s u :
    table_ok (jobs s) -> program_update u ->
    (real_query s (render (Update u))).1.1 = 0%Z;
  reliable_select s l n (c := claimed_cond l) :
    table_ok (jobs s) -> lock_ok l = true -> (0 <= n < 2 ^ 31)%Z ->
    (real_query s (render (SelectJobs c n))).1
    = (0%Z, Some (jobs_result (select_rows c n (jobs s))));
}.

(** ** Looking rows up *)

(** The row with primary key [z]. *)
Definition lookup_job (t : table) (z : Z) : option job_row :=
  head (filter (fun r => jr_id r = z) t).

(** A row a claim may take. *)
Definition claimable (r : job_row) : bool := matches [StatusIs Pending; LockIs ""] r.

(** ** Lemmas: updates *)

Lemma lookup_job_cons r t z :
  lookup_job (r :: t) z = if decide (jr_id r = z) then Some r else lookup_job t z.
Proof. unfold lookup_job. rewrite filter_cons. by case_decide. Qed.

Lemma lookup_job_Some t z r : lookup_job t z = Some r -> r ∈ t /\ jr_id r = z.
Proof.
  unfold lookup_job. intros H. apply head_Some_elem_of in H.
  apply list_elem_of_filter in H. naive_solver.
Qed.

Lemma assign_all_id a r : jr_id (assign_all a r) = jr_id r.
Proof.
  unfold assign_all. revert r; induction a as [|x a IH]; intros r; [done|]. simpl.
  rewrite IH. by destruct x.
Qed.

Lemma assign_all_ok a r : forallb assign_ok a = true -> row_ok r -> row_ok (assign_all a r).
Proof.
  unfold assign_all. revert r; induction a as [|x a IH]; intros r; [done|]. simpl.
  rewrite andb_true_iff. intros [Hx Ha] (?&?&?&?). apply IH; [done|].
  destruct x; repeat split; simpl in *; try done; lia.
Qed.

Lemma update_first_ids P f n t :
  (forall r, jr_id (f r) = jr_id r) -> jr_id <$> update_first P f n t = jr_id <$> t.
Proof.
  intros Hf. revert n; induction t as [|r t IH]; intros n; [done|]. simpl.
  destruct (P r); [destruct n as [[|k]|]|]; rewrite ?fmap_cons, ?Hf, ?IH; done.
Qed.

Lemma update_first_Forall P f n t (Q : job_row -> Prop) :
  (forall r, Q r -> Q (f r)) -> Forall Q t -> Forall Q (update_first P f n t).
Proof.
  intros Hf Ht. revert n; induction Ht as [|r t Hr Ht IH]; intros n; simpl; [constructor|].
  destruct (P r); [destruct n as [[|k]|]|]; constructor; auto.
Qed.

Lemma exec_update_ids u t : jr_id <$> exec_update u t = jr_id <$> t.
Proof. apply update_first_ids. intros; apply assign_all_id. Qed.

Lemma exec_update_ok u t : program_update u -> table_ok t -> table_ok (exec_update u t).
Proof.
  intros Hu [Hsort Hrows]. split; [by rewrite exec_update_ids|].
  apply update_first_Forall; [|done]. intros; apply assign_all_ok; [|done].
  destruct Hu as [l n Hl ?| | | | |]; simpl; rewrite ?Hl; done.
Qed.

(** What an update does to one row: nothing, or the assignment if the row
    matches; without a limit, the assignment exactly when it matches. *)
Lemma update_first_lookup P f n t z :
  (forall r, jr_id (f r) = jr_id r) ->
  match lookup_job t z with
  | None => lookup_job (update_first P f n t) z = None
  | Some r =>
      lookup_job (update_first P f n t) z = Some r \/
      (P r = true /\ lookup_job (update_first P f n t) z = Some (f r))
  end.
Proof.
  intros Hf. revert n; induction t as [|r t IH]; intros n; [done|].
  rewrite lookup_job_cons; simpl.
  destruct (P r) eqn:HP; [destruct n as [[|k]|]|]; rewrite ?lookup_job_cons, ?Hf;
    case_decide; auto; try apply IH.
  destruct (lookup_job t z); auto.
Qed.

Lemma update_all_lookup P f t z :
  (forall r, jr_id (f r) = jr_id r) ->
  lookup_job (update_first P f None t) z
  = (fun r => if P r then f r else r) <$> lookup_job t z.
Proof.
  intros Hf. induction t as [|r t IH]; [done|].
  rewrite lookup_job_cons; simpl.
  destruct (P r) eqn:HP; rewrite lookup_job_cons, ?Hf; case_decide; simpl; rewrite ?HP; auto.
Qed.

Lemma exec_update_lookup u t z :
  match lookup_job t z with
  | None => lookup_job (exec_update u t) z = None
  | Some r =>
      lookup_job (exec_update u t) z = Some r \/
      (matches (u_where u) r = true /\
       lookup_job (exec_update u t) z = Some (assign_all (u_set u) r))
  end.
Proof. apply update_first_lookup. intros; apply assign_all_id. Qed.

Lemma exec_update_lookup_all u t z :
  u_limit u = None ->
  lookup_job (exec_update u t) z
  = (fun r => if matches (u_where u) r then assign_all (u_set u) r else r) <$> lookup_job t z.
Proof.
  intros E. unfold exec_update. rewrite E. apply update_all_lookup. intros; apply assign_all_id.
Qed.

(** An update without a limit is a map over the table. *)
Lemma update_all_map P f t : update_first P f None t = (fun r => if P r then f r else r) <$> t.
Proof. induction t as [|r t IH]; [done|]. simpl. rewrite IH. by destruct (P r). Qed.

Lemma exec_update_map u t :
  u_limit u = None ->
  exec_update u t = (fun r => if matches (u_where u) r then assign_all (u_set u) r else r) <$> t.
Proof. intros E. unfold exec_update. rewrite E. apply update_all_map. Qed.

(** ** Lemmas: sorted tables *)

Lemma sorted_NoDup t : StronglySorted Z.lt (jr_id <$> t) -> NoDup (jr_id <$> t).
Proof.
  generalize (jr_id <$> t). induction 1 as [|x l Hs IH Hx]; constructor; [|done].
  intros Hin. rewrite Forall_forall in Hx. specialize (Hx x Hin). lia.
Qed.

Lemma table_ok_NoDup t : table_ok t -> NoDup (jr_id <$> t).
Proof. intros [Hs _]. by apply sorted_NoDup. Qed.

Lemma lookup_job_In t r : NoDup (jr_id <$> t) -> r ∈ t -> lookup_job t (jr_id r) = Some r.
Proof.
  induction t as [|r' t IH]; [set_solver|].
  rewrite fmap_cons, NoDup_cons, elem_of_cons, lookup_job_cons. intros [Hn Ht] [->|Hr].
  - by rewrite decide_True.
  - rewrite decide_False; [by apply IH|]. intros E. apply Hn. rewrite E.
    apply list_elem_of_fmap. eauto.
Qed.

Lemma select_rows_In c n t r :
  table_ok t -> r ∈ select_rows c n t -> matches c r = true /\ lookup_job t (jr_id r) = Some r.
Proof.
  intros Ht Hr. apply take_filter_In in Hr as [??]. split; [done|].
  apply lookup_job_In; [by apply table_ok_NoDup|done].
Qed.

Lemma select_rows_NoDup c n t : table_ok t -> NoDup (jr_id <$> select_rows c n t).
Proof.
  intros Ht. eapply sublist_NoDup; [apply take_filter_sublist|by apply table_ok_NoDup].
Qed.

(** A limited update as a map: it changes exactly the first [n] matching rows. *)
Lemma update_first_map P f n t :
  NoDup (jr_id <$> t) ->
  update_first P f (Some n) t
  = (fun r => if decide (jr_id r ∈ jr_id <$> take_filter P n t) then f r else r) <$> t.
Proof.
  revert n; induction t as [|r t IH]; intros n Hd; [done|].
  rewrite fmap_cons, NoDup_cons in Hd. destruct Hd as [Hr Hd].
  assert ((if decide (jr_id r ∈ jr_id <$> take_filter P n t) then f r else r) = r) as Hout.
  { rewrite decide_False; [done|]. intros Hin. apply Hr.
    apply list_elem_of_fmap in Hin as (r' & E & Hr'). rewrite E. apply list_elem_of_fmap.
    exists r'. split; [done|]. by apply take_filter_In in Hr' as [_ ?]. }
  cbn [update_first]. rewrite fmap_cons, take_filter_cons. destruct (P r) eqn:HP.
  - destruct n as [|k].
    + rewrite decide_False by set_solver. f_equal.
      rewrite <-(list_fmap_id t) at 1. apply list_fmap_ext. intros i r' _.
      by rewrite decide_False by set_solver.
    + rewrite IH by done. rewrite fmap_cons, decide_True by set_solver. f_equal.
      apply list_fmap_ext. intros i r' Hr'%list_elem_of_lookup_2.
      assert (jr_id r' ≠ jr_id r).
      { intros E. apply Hr. rewrite <-E. apply list_elem_of_fmap. eauto. }
      destruct (decide (jr_id r' ∈ jr_id <$> take_filter P k t)).
      * by rewrite decide_True by set_solver.
      * by rewrite decide_False by set_solver.
  - by rewrite IH, Hout by done.
Qed.

(** ** Lemmas: the strings of the program's statements *)

Lemma dec_length_int32 z : int32 z -> (String.length (dec z) <= 11)%nat.
Proof. intros [??]. apply (dec_length_neg z 10); lia. Qed.

#[export] Hint Resolve exec_update_ok table_ok_NoDup dec_length_int32 : workq.
