(* ===== verification/WorkQueue.v ===== *)
(** * WorkQueue: a worker thread (workq/worker.cc, Worker::WorkQueue)

    [find_jobs] claims pending rows for this thread and turns them into job
    objects, [process_jobs] executes and reports them, and [run_step] is one
    step of the thread's [run] loop, whose control points are [pc].  The
    calls to the outside go through [handle]: the server [Srv], the clock
    [now] (a function of the number of readings so far) and the outcome of a
    job's [real_execute]. *)

From S2P Require Import Prelude CLib Settings Records Job Effects Adaptor JobTable.
From Stdlib Require Import Ascii.

(** What identifies a thread: [getpid()] and the address of its WorkQueue. *)
Record identity := mkIdentity { pid_id : Z; thread_id : Z }.

(** The 40-byte lock id. *)
Definition lockid (i : identity) (curtm : Z * Z) : string :=
  fst (snprintf 40 "%ld:%ld:%ld:%ld"
    [AInt (pid_id i); AInt (thread_id i); AInt (fst curtm); AInt (snd curtm)]).

(** ** The statements, as the source formats them *)

Definition claim_format : string :=
  "UPDATE jobs SET locked_queue_id='%s', status='loading' WHERE status='pending' AND locked_queue_id='' ORDER BY id LIMIT %d".
Definition select_format : string :=
  "SELECT id, name, data FROM jobs WHERE status='loading' AND locked_queue_id='%s' ORDER BY id LIMIT %d".
Definition unlock_format : string :=
  "UPDATE jobs SET locked_queue_id='' WHERE status!='pending' AND locked_queue_id='%s' ORDER BY id".
Definition discard_format : string :=
  "UPDATE jobs SET status='error', locked_queue_id='' WHERE id=%d ORDER BY id".
Definition processing_format : string := "UPDATE jobs SET status='processing' WHERE id=%d".
Definition complete_format : string :=
  "UPDATE jobs SET locked_queue_id='', status='complete' WHERE id=%d ORDER BY id".
Definition error_format : string :=
  "UPDATE jobs SET locked_queue_id='', status='error' WHERE id=%d ORDER BY id".

(** ** Claiming and executing jobs *)

Section Code.
Context (m_config : Settings) (m_job_types : GData job_creator_t) (m_db : MysqlAdaptor)
  (self : identity).

(** The quark of a NULL name is 0, which no type is registered under. *)
Definition type_creator (job_name : option string) : option job_creator_t :=
  match job_name with Some n => m_job_types !! n | None => None end.

Definition discard_job (job_id : Z) : prog Z :=
  if get_bool m_config "discard_unknown_jobs" true
  then query m_db discard_format
         [AInt job_id]
  else Ret 0%Z.

(** The body of the loop over the selected rows. *)
Definition load_row (row : MyRow) (jobs : list Job) : prog (list Job) :=
  match int_field row "id" with
  | None => undefined
  | Some job_id =>
    let job_name := str_field row "name" in
    match type_creator job_name with
    | Some creator =>
      let job := creator job_id (default "" job_name) row in
      _ ← match job with
          | Some _ => Ret 0%Z
          | None => discard_job job_id
          end;
      _ ← query m_db processing_format [AInt job_id];
      Ret (jobs ++ option_list job)
    | None =>
      _ ← discard_job job_id;
      Ret jobs
    end
  end.

Fixpoint load_rows (rows : list MyRow) (jobs : list Job) : prog (list Job) :=
  match rows with
  | [] => Ret jobs
  | row :: rows' => jobs' ← load_row row jobs; load_rows rows' jobs'
  end.

(** [None] is the NULL result. *)
Definition find_jobs (workload : Z) : prog (option (list Job)) :=
  curtm ← call OTime;
  let lock := lockid self curtm in
  r ← query m_db claim_format [AStr lock; AInt workload];
  if decide (r ≠ 0%Z) then Ret None else
  it ← query_with_result m_db select_format [AStr lock; AInt workload];
  match it with
  | None =>
    _ ← query m_db unlock_format [AStr lock];
    Ret None
  | Some it =>
    jobs ← load_rows (rows_of it) [];
    Ret (Some jobs)
  end.

(** The execution loop of [run]. *)
Fixpoint process_jobs (jobs : list Job) : prog unit :=
  match jobs with
  | [] => Ret tt
  | job :: jobs' =>
    ok ← call (OExecute job);
    _ ← (if decide (ok ≠ 0%Z)
         then query m_db complete_format [AInt (id job)]
         else query m_db error_format [AInt (id job)]);
    _ ← call (OPendingAdd (-1));
    process_jobs jobs'
  end.

(** The rest of the loop body of [run], once the workload is known to be
    positive. *)
Definition work (workload : Z) : prog unit :=
  jobs ← find_jobs workload;
  match jobs with
  | None => Ret tt
  | Some jobs => process_jobs jobs
  end.
End Code.

(** ** The thread's state *)

Record local := mkLocal {
  l_queue : list Z;      (** [m_queue]: 1 per work message, -1 to stop *)
  l_pending : Z;         (** [m_pending] *)
  l_ticks : nat;         (** readings of the clock by [find_jobs] so far *)
  l_trace : list Z;      (** ids of the jobs executed, the latest first *)
}.

Definition set_queue (q : list Z) (l : local) : local :=
  mkLocal q (l_pending l) (l_ticks l) (l_trace l).
Definition add_pending (d : Z) (l : local) : local :=
  mkLocal (l_queue l) (wrap32 (l_pending l + d)) (l_ticks l) (l_trace l).

(** The constructor leaves [m_pending] unset: [garbage] is what the memory held. *)
Definition new_WorkQueue (garbage : Z) : local := mkLocal [] garbage 0 [].

Definition pending (l : local) : Z := l_pending l.

Definition send_work (l : local) : local :=
  let l1 := add_pending 1 l in set_queue (l_queue l1 ++ [1%Z]) l1.
Definition send_stop (l : local) : local := set_queue (l_queue l ++ [(-1)%Z]) l.

(** [WorkQueue::compare] *)
Definition compare (w1 w2 : local) : Z := wrap32 (pending w1 - pending w2).

(** [WorkQueue::initialize]: the adaptor of the configured type, connected;
    a second call finds it and returns at once. *)
Section Initialize.
Context (m_config : Settings) (reg : registry).
(** [mysql_init] and [mysql_real_connect] with the credentials and port. *)
Context (init_ok : bool)
  (connect_ok : option string -> option string -> option string -> option string -> Z -> bool).

Definition wq_initialize (m_db : option MysqlAdaptor) : prog (bool * option MysqlAdaptor) :=
  match m_db with
  | Some db => Ret (true, Some db)
  | None =>
    let adaptor_type := default "" (get_str m_config "adapter" (Some "mysql")) in
    match create reg adaptor_type with
    | None => Ret (false, None)
    | Some db =>
      let ok := connect_ok (get_str m_config "username" None) (get_str m_config "password" None)
        (get_str m_config "host" None) (get_str m_config "database" None)
        (get_int m_config "port" 3306) in
      let '(connected, db') := connect init_ok ok db in
      if connected then
        _ ← query db' "SET NAMES UTF8" []; Ret (true, Some db')
      else Ret (false, Some db')
    end
  end.
End Initialize.

(** ** Running *)

Section Run.
Context {Srv : Type} `{!MySQL Srv}.
Context (now : nat -> Z * Z) (outcome : Job -> Z).

(** One call; [None]: undefined behaviour. *)
Definition handle (o : op) (l : local) (s : Srv) : option (resp o * local * Srv) :=
  match o return option (resp o * local * Srv) with
  | ORealQuery sql => let '(r, s') := real_query s sql in Some (r, l, s')
  | OTime =>
      Some (now (l_ticks l), mkLocal (l_queue l) (l_pending l) (S (l_ticks l)) (l_trace l), s)
  | OExecute j =>
      Some (outcome j, mkLocal (l_queue l) (l_pending l) (l_ticks l) (id j :: l_trace l), s)
  | OPendingAdd d => Some (tt, add_pending d l, s)
  | OUndefined => None
  end.

(** A program run to its end, alone. *)
Fixpoint exec_prog {A} (p : prog A) (l : local) (s : Srv) : option (A * local * Srv) :=
  match p with
  | Ret a => Some (a, l, s)
  | Op o k =>
    match handle o l s with
    | Some (r, l', s') => exec_prog (k r) l' s'
    | None => None
    end
  end.

(** The control points of [run]. *)
Inductive pc :=
| PWhile                       (** the test of [while( m_active )] *)
| PDrain (message workload : Z) (** the body of the [do] loop *)
| PBody (p : prog unit)        (** [find_jobs] and the processing *)
| PExit.                       (** [g_thread_exit] *)

Context (m_config : Settings) (m_job_types : GData job_creator_t) (m_db : MysqlAdaptor)
  (self : identity).

(** One step.  The timed pop gives up (NULL) only on an empty queue.
    [None]: undefined behaviour, or the thread has exited. *)
Definition run_step (m_active : bool) (c : pc) (l : local) (s : Srv) : option (pc * local * Srv) :=
  match c with
  | PWhile =>
    if m_active then
      match l_queue l with
      | [] => Some (PWhile, l, s)                   (* workload <= 0: continue *)
      | m :: q => Some (PDrain m 0, set_queue q l, s)
      end
    else Some (PExit, l, s)
  | PDrain value workload =>
    if decide (value = -1)%Z then Some (PWhile, l, s) (* workload = 0: continue *)
    else
      let workload' := wrap32 (workload + value) in
      match l_queue l with
      | m :: q => Some (PDrain m workload', set_queue q l, s)
      | [] =>
        if decide (workload' <= 0)%Z then Some (PWhile, l, s)
        else Some (PBody (work m_config m_job_types m_db self workload'), l, s)
      end
  | PBody (Ret _) => Some (PWhile, l, s)
  | PBody (Op o k) =>
    match handle o l s with
    | Some (r, l', s') => Some (PBody (k r), l', s')
    | None => None
    end
  | PExit => None
  end.

(** [n] steps of the thread alone. *)
Fixpoint run_steps (m_active : bool) (n : nat) (c : pc) (l : local) (s : Srv) :
    option (pc * local * Srv) :=
  match n with
  | O => Some (c, l, s)
  | S n' =>
    match run_step m_active c l s with
    | Some (c', l', s') => run_steps m_active n' c' l' s'
    | None => None
    end
  end.
End Run.

(** ** Lemmas: lock ids *)

Lemma lockid_text i tv :
  lockid i tv = str_take 39 (dec (pid_id i) +:+ ":" +:+ dec (thread_id i) +:+ ":" +:+
                             dec (fst tv) +:+ ":" +:+ dec (snd tv)).
Proof.
  unfold lockid, snprintf. cbn [fst].
  change (format "%ld:%ld:%ld:%ld" [AInt (pid_id i); AInt (thread_id i); AInt tv.1; AInt tv.2])
    with (dec (pid_id i) +:+ ":" +:+ dec (thread_id i) +:+ ":" +:+
          dec (fst tv) +:+ ":" +:+ dec (snd tv) +:+ "").
  by rewrite str_app_nil_r.
Qed.

(** Addresses and process ids of a Linux process (47-bit user space,
    [PID_MAX_LIMIT]), and a clock after 1970. *)
Definition identity_ok (i : identity) : Prop :=
  (0 < pid_id i <= 4194304)%Z /\ (0 < thread_id i < 2 ^ 47)%Z.
Definition time_ok (tv : Z * Z) : Prop := (0 <= fst tv)%Z /\ (0 <= snd tv < 1000000)%Z.

(** The part of a lock id that names the thread. *)
Definition lock_prefix (i : identity) : string :=
  dec (pid_id i) +:+ ":" +:+ dec (thread_id i) +:+ ":".

Lemma lock_prefix_length i : identity_ok i -> String.length (lock_prefix i) <= 24.
Proof.
  intros [Hp Ht]. unfold lock_prefix. rewrite !str_length_app; cbn [String.length].
  pose proof (dec_length (pid_id i) 7). pose proof (dec_length (thread_id i) 15). lia.
Qed.

Lemma lockid_prefix i tv : identity_ok i -> str_prefix (lock_prefix i) (lockid i tv).
Proof.
  intros Hi. pose proof (lock_prefix_length i Hi) as Hl. rewrite lockid_text.
  replace (dec (pid_id i) +:+ ":" +:+ dec (thread_id i) +:+ ":" +:+ dec (fst tv) +:+ ":" +:+ dec (snd tv))
    with (lock_prefix i +:+ (dec (fst tv) +:+ ":" +:+ dec (snd tv)))
    by (unfold lock_prefix; by rewrite !str_app_assoc).
  rewrite str_take_app_le by lia. apply str_prefix_app.
Qed.

Lemma lock_char_digit c : is_digit c = true -> lock_char c = true.
Proof. unfold lock_char. by intros ->. Qed.

Lemma lockid_ok i tv : identity_ok i -> time_ok tv -> lock_ok (lockid i tv) = true.
Proof.
  intros [Hp Ht] [Hs Hu]. rewrite lockid_text. apply str_forall_take.
  unfold lock_ok. rewrite !str_forall_app. cbn [str_forall].
  assert (forall z, (0 <= z)%Z -> str_forall lock_char (dec z) = true) as Hd.
  { intros z Hz. eapply str_forall_impl; [apply lock_char_digit|by apply dec_digits]. }
  rewrite !Hd by lia. done.
Qed.

Lemma lockid_length i tv : String.length (lockid i tv) <= 39.
Proof. rewrite lockid_text. apply str_take_length. Qed.

(** Digits before a colon are determined. *)
Lemma digits_split a b s t :
  str_forall is_digit a = true -> str_forall is_digit b = true ->
  a +:+ String ":"%char s = b +:+ String ":"%char t -> a = b /\ s = t.
Proof.
  revert b; induction a as [|c a IH]; intros [|d b]; rewrite ?str_app_cons, ?str_app_nil_l; simpl;
    intros Ha Hb [=]; subst; try done.
  - apply andb_true_iff in Ha, Hb. destruct (IH b) as [-> ->]; tauto.
Qed.

Lemma dec_inj a b : dec a = dec b -> a = b.
Proof. apply (inj pretty). Qed.

(** Two threads with a common lock id prefix are the same thread. *)
Lemma lock_prefix_inj i j l :
  identity_ok i -> identity_ok j ->
  str_prefix (lock_prefix i) l -> str_prefix (lock_prefix j) l -> i = j.
Proof.
  intros [Hp Ht] [Hp' Ht'] [s ->] [t E]. unfold lock_prefix in E.
  rewrite !str_app_assoc in E. rewrite !str_app_cons, !str_app_nil_l in E.
  apply digits_split in E as [Epid E]; [|apply dec_digits; lia..].
  apply digits_split in E as [Etid _]; [|apply dec_digits; lia..].
  apply dec_inj in Epid, Etid. destruct i, j; simpl in *; congruence.
Qed.

Lemma lock_prefix_nonempty i l : str_prefix (lock_prefix i) l -> l ≠ "".
Proof.
  intros [t ->] E. unfold lock_prefix in E. rewrite !str_app_assoc in E.
  assert (String.length (dec (pid_id i) +:+ ":" +:+ dec (thread_id i) +:+ ":" +:+ t) = 0) as Hl.
  { by rewrite E. }
  rewrite !str_length_app in Hl. cbn [String.length] in Hl. lia.
Qed.

#[export] Hint Resolve lockid_prefix lockid_ok lockid_length lock_prefix_nonempty : workq.

(** ** Lemmas: the strings sent are the statements of JobTable *)

Lemma claim_text l n :
  format claim_format [AStr l; AInt n] = render (Update (claim_stmt l n)).
Proof. reflexivity. Qed.
Lemma select_text l n :
  format select_format [AStr l; AInt n] = render (SelectJobs (claimed_cond l) n).
Proof. reflexivity. Qed.
Lemma unlock_text l : format unlock_format [AStr l] = render (Update (unlock_stmt l)).
Proof. reflexivity. Qed.
Lemma discard_text z : format discard_format [AInt z] = render (Update (discard_stmt z)).
Proof. done. Qed.
Lemma processing_text z : format processing_format [AInt z] = render (Update (processing_stmt z)).
Proof. reflexivity. Qed.
Lemma complete_text z :
  format complete_format [AInt z] = render (Update (finish_stmt Complete z)).
Proof. done. Qed.
Lemma error_text z :
  format error_format [AInt z] = render (Update (finish_stmt Error z)).
Proof. done. Qed.

(** ** Lemmas: each query call is one statement *)

(** The statements are far shorter than the buffer. *)
Ltac solve_length :=
  cbv [claim_stmt unlock_stmt discard_stmt processing_stmt finish_stmt claimed_cond render
    render_sep render_assign render_cond render_limit u_set u_where u_ordered u_limit status_text];
  rewrite ?str_length_app; cbn [String.length];
  repeat (rewrite ?str_length_app; cbn [String.length]);
  unfold query_buffer_size;
  repeat match goal with
  | H : int32 ?n |- _ => pose proof (dec_length_int32 n H); clear H
  end; lia.

Section Statements.
Context (leaks : Z).
Let db := mkMysql HLive leaks.

Lemma query_claim l n :
  String.length l <= 39 -> int32 n ->
  query db claim_format [AStr l; AInt n]
  = Op (ORealQuery (render (Update (claim_stmt l n)))) (fun r => Ret (fst r)).
Proof. intros. subst db. rewrite query_fits; rewrite claim_text; [done|]. solve_length. Qed.

Lemma query_select l n :
  String.length l <= 39 -> int32 n ->
  query_with_result db select_format [AStr l; AInt n]
  = Op (ORealQuery (render (SelectJobs (claimed_cond l) n))) (fun r : Z * option MYSQL_RES =>
      if decide (fst r ≠ 0%Z) then Ret None
      else Ret (Some (new_MysqlIterator query_buffer_size (snd r)))).
Proof.
  intros. subst db. rewrite query_with_result_fits; rewrite select_text; [done|]. solve_length.
Qed.

Lemma query_unlock l :
  String.length l <= 39 ->
  query db unlock_format [AStr l]
  = Op (ORealQuery (render (Update (unlock_stmt l)))) (fun r => Ret (fst r)).
Proof. intros. subst db. rewrite query_fits; rewrite unlock_text; [done|]. solve_length. Qed.

Lemma query_discard z :
  int32 z ->
  query db discard_format [AInt z]
  = Op (ORealQuery (render (Update (discard_stmt z)))) (fun r => Ret (fst r)).
Proof. intros. subst db. rewrite query_fits; rewrite discard_text; [done|]. solve_length. Qed.

Lemma query_processing z :
  int32 z ->
  query db processing_format [AInt z]
  = Op (ORealQuery (render (Update (processing_stmt z)))) (fun r => Ret (fst r)).
Proof. intros. subst db. rewrite query_fits; rewrite processing_text; [done|]. solve_length. Qed.

Lemma query_complete z :
  int32 z ->
  query db complete_format [AInt z]
  = Op (ORealQuery (render (Update (finish_stmt Complete z)))) (fun r => Ret (fst r)).
Proof. intros. subst db. rewrite query_fits; rewrite complete_text; [done|]. solve_length. Qed.

Lemma query_error z :
  int32 z ->
  query db error_format [AInt z]
  = Op (ORealQuery (render (Update (finish_stmt Error z)))) (fun r => Ret (fst r)).
Proof. intros. subst db. rewrite query_fits; rewrite error_text; [done|]. solve_length. Qed.
End Statements.

(** ** Lemmas: the row a job is created from *)

Section Rows.
Context {Srv : Type} `{!MySQL Srv} `{!MySQLSpec Srv}.

(** The [MyRow] the iterator builds for a row of the jobs table. *)
Definition myrow (r : job_row) : MyRow :=
  new_MyRow query_buffer_size (jobs_fields (Srv := Srv))
    [Some (dec (jr_id r)); Some (jr_name r); jr_data r].

#[global] Arguments myrow : simpl never.

Definition data_text (d : option string) : string :=
  match d with Some s => str_take 4097 (cstr s) | None => "(null)" end.

Lemma rows_of_jobs rs :
  rows_of (new_MysqlIterator query_buffer_size (Some (jobs_result (Srv := Srv) rs))) = myrow <$> rs.
Proof.
  rewrite rows_of_stored. unfold jobs_result; cbn [res_fields res_rows].
  rewrite <-list_fmap_compose. done.
Qed.

Lemma str_take_twice n m s : n <= m -> str_take n (str_take m s) = str_take n s.
Proof.
  revert m s; induction n; intros [|m] [|c s]; simpl; intros; try done; try lia.
  f_equal. apply IHn; lia.
Qed.

Lemma data_column d :
  create_column query_buffer_size (mkField "data" MYSQL_TYPE_BLOB data_width) d
  = mkCol STRING (DString (data_text d)).
Proof.
  pose proof data_width_ok as Hw. unfold create_column; cbn [f_type f_length].
  rewrite wrap32_id by (unfold int32; lia). unfold snprintf_prec, query_buffer_size, data_text.
  destruct (Z.ltb_spec data_width 0); [lia|].
  destruct d as [s|]; [by rewrite str_take_twice by lia|].
  destruct (Z.leb_spec 6 data_width); [|lia]. done.
Qed.

Lemma id_column z :
  (0 < z < 2 ^ 31)%Z ->
  create_column query_buffer_size (mkField "id" MYSQL_TYPE_LONG 11) (Some (dec z))
  = mkCol FIXED (DFixed z).
Proof.
  intros Hz. unfold create_column; cbn [f_type f_length].
  assert (String.length (dec z) <= 10) by (apply dec_length; lia).
  rewrite snprintf_prec_fits.
  - unfold atol. by rewrite strtol_dec by (unfold int64; lia).
  - apply digits_cstr, dec_digits; lia.
  - rewrite wrap32_id by (unfold int32; lia). lia.
  - unfold query_buffer_size; lia.
Qed.

Lemma name_column n :
  cstr n = n -> (Z.of_nat (String.length n) <= 765)%Z ->
  create_column query_buffer_size (mkField "name" MYSQL_TYPE_VAR_STRING 765) (Some n)
  = mkCol STRING (DString n).
Proof.
  intros Hc Hn. unfold create_column; cbn [f_type f_length]. rewrite snprintf_prec_fits; try done.
  unfold query_buffer_size; lia.
Qed.

Lemma myrow_columns r :
  row_ok r ->
  int_field (myrow r) "id" = Some (jr_id r) /\
  str_field (myrow r) "name" = Some (jr_name r) /\
  str_field (myrow r) "data" = Some (data_text (jr_data r)).
Proof.
  intros (Hid & _ & Hc & Hn). unfold myrow, new_MyRow, jobs_fields.
  cbn [zip zip_with fold_left fst snd f_name].
  rewrite id_column, name_column, data_column by done.
  unfold int_field, str_field. repeat split; simplify_map_eq; try done.
  by rewrite wrap32_id by (unfold int32; lia).
Qed.
End Rows.
