(* ===== verification/System.v ===== *)
(** * System: all worker threads over one jobs table

    The threads of every worker process share the table.  [step] interleaves
    single steps of the threads' [run] loops (one statement at a time) with
    work and stop messages, the shutdown of a worker process, and clients
    that insert jobs.  [row_step] is the life cycle of a row as one thread
    may advance it; the ownership discipline [safe] shows that the code of
    [WorkQueue.work] follows it, whatever the other threads do and whichever
    queries fail. *)

From S2P Require Import Prelude CLib Settings Records Job Effects Adaptor JobTable WorkQueue.

(** ** The system *)

Record thread := mkThread {
  t_id : identity;
  t_worker : nat;      (** the worker process it belongs to *)
  t_pc : pc;
  t_local : local;
}.

Record system (Srv : Type) := mkSystem {
  sys_server : Srv;
  sys_active : nat -> bool;   (** [Worker::m_active], per process *)
  sys_threads : list thread;
}.
Arguments mkSystem {Srv} _ _ _.
Arguments sys_server {Srv} _.
Arguments sys_active {Srv} _.
Arguments sys_threads {Srv} _.

Definition deactivate (w : nat) (active : nat -> bool) : nat -> bool :=
  fun v => if decide (v = w) then false else active v.

Section System.
Context {Srv : Type} `{!MySQL Srv}.
Context (now : identity -> nat -> Z * Z) (outcome : identity -> Job -> Z).
Context (m_config : Settings) (m_job_types : GData job_creator_t) (m_db : MysqlAdaptor).

Definition thread_step (active : bool) (th : thread) (s : Srv) : option (thread * Srv) :=
  match run_step (now (t_id th)) (outcome (t_id th)) m_config m_job_types m_db (t_id th)
          active (t_pc th) (t_local th) s with
  | Some (c', l', s') => Some (mkThread (t_id th) (t_worker th) c' l', s')
  | None => None
  end.

Definition set_local (f : local -> local) (th : thread) : thread :=
  mkThread (t_id th) (t_worker th) (t_pc th) (f (t_local th)).

(** A row a client may insert: a new key, pending and unlocked. *)
Definition client_row (t : table) (r : job_row) : Prop :=
  row_ok r /\ jr_status r = Pending /\ jr_lock r = "" /\
  Forall (fun r' => (jr_id r' < jr_id r)%Z) t.

Inductive step : system Srv -> system Srv -> Prop :=
| step_thread s a ts i th th' s' :
    ts !! i = Some th -> thread_step (a (t_worker th)) th s = Some (th', s') ->
    step (mkSystem s a ts) (mkSystem s' a (<[i := th']> ts))
| step_send_work s a ts i th :
    ts !! i = Some th ->
    step (mkSystem s a ts) (mkSystem s a (<[i := set_local send_work th]> ts))
| step_send_stop s a ts i th :
    ts !! i = Some th ->
    step (mkSystem s a ts) (mkSystem s a (<[i := set_local send_stop th]> ts))
| step_shutdown s a ts w :
    step (mkSystem s a ts) (mkSystem s (deactivate w a) ts)
| step_client s a ts r s' :
    client_row (jobs s) r -> jobs s' = jobs s ++ [r] ->
    step (mkSystem s a ts) (mkSystem s' a ts).

(** Freshly started threads on a well-formed table. *)
Definition initial (y : system Srv) : Prop :=
  table_ok (jobs (sys_server y)) /\
  NoDup (t_id <$> sys_threads y) /\
  Forall (fun th => identity_ok (t_id th) /\ t_pc th = PWhile /\ l_ticks (t_local th) = 0 /\
                    l_trace (t_local th) = []) (sys_threads y).

Definition reachable (y : system Srv) : Prop := exists y0, initial y0 /\ rtc step y0 y.

(** The job whose [real_execute()] a thread is about to return from. *)
Definition executing_job (th : thread) : option Z :=
  match t_pc th with PBody (Op (OExecute j) _) => Some (id j) | _ => None end.

(** Thread [i] is inside [job->real_execute()] of job [z]. *)
Definition executing (y : system Srv) (i : nat) (z : Z) : Prop :=
  (sys_threads y !! i ≫= executing_job) = Some z.

(** Every execution that has taken place. *)
Definition executed (y : system Srv) : list Z :=
  concat ((fun th => l_trace (t_local th)) <$> sys_threads y).

(** Steps of the threads in a given order. *)
Fixpoint run_schedule (order : list nat) (y : system Srv) : option (system Srv) :=
  match order with
  | [] => Some y
  | i :: order' =>
    th ← sys_threads y !! i;
    '(th', s') ← thread_step (sys_active y (t_worker th)) th (sys_server y);
    run_schedule order' (mkSystem s' (sys_active y) (<[i := th']> (sys_threads y)))
  end.

Lemma run_schedule_steps order y y' : run_schedule order y = Some y' -> rtc step y y'.
Proof.
  revert y; induction order as [|i order IH]; intros [s a ts] H; [by simplify_eq/=|].
  cbn [run_schedule sys_threads sys_active sys_server] in H.
  apply bind_Some in H as (th & Hi & H). apply bind_Some in H as ([th' s'] & Hst & H).
  eapply rtc_l; [by eapply step_thread|]. by apply IH.
Qed.
End System.

(** A module's creator passes the id it is given on to the [Job] constructor. *)
Definition creators_keep_id (m_job_types : GData job_creator_t) : Prop :=
  forall n c z nm row j, m_job_types !! n = Some c -> c z nm row = Some j -> id j = z.

(** ** The life cycle of a row *)

Definition dead (r : job_row) : Prop := jr_lock r = "" /\ jr_status r ≠ Pending.

(** How thread [i] may change a row. *)
Inductive row_step (i : identity) (r : job_row) : job_row -> Prop :=
| rs_keep : row_step i r r
| rs_claim l :
    claimable r = true -> str_prefix (lock_prefix i) l ->
    row_step i r (set_status Loading (set_lock l r))
| rs_processing :
    str_prefix (lock_prefix i) (jr_lock r) -> jr_status r ≠ Pending ->
    row_step i r (set_status Processing r)
| rs_release s :
    str_prefix (lock_prefix i) (jr_lock r) -> s ≠ Pending ->
    row_step i r (set_status s (set_lock "" r))
| rs_dead s :
    dead r -> s ≠ Pending -> row_step i r (set_status s (set_lock "" r)).

(** A table changed by thread [i]: no row appears, disappears or moves, and
    each row takes a [row_step]. *)
Definition table_step (i : identity) (t t' : table) : Prop :=
  Forall2 (fun r r' => row_step i r r') t t'.

(** ** The ownership discipline *)

Record ghost := mkGhost {
  g_own : gset Z;     (** rows locked by the current lock id, not yet executed *)
  g_done : gset Z;    (** rows executed or discarded in this batch *)
  g_lock : string;    (** the current lock id *)
  g_fresh : bool;     (** the lock id has not been used in a SELECT *)
}.

Definition ghost0 : ghost := mkGhost ∅ ∅ "" false.

Section Safe.
Context {Srv : Type} `{!MySQL Srv} (i : identity).

Definition ids (rs : list job_row) : gset Z := list_to_set (jr_id <$> rs).

(** What thread [i] may send in ghost state [g], and the ghost states in
    which its continuation [K] must then be safe. *)
Inductive query_rule (g : ghost) (K : Z * option MYSQL_RES -> ghost -> Prop) : string -> Prop :=
| q_claim n :
    str_prefix (lock_prefix i) (g_lock g) -> lock_ok (g_lock g) = true ->
    (0 <= n < 2 ^ 31)%Z -> (forall r, K r g) ->
    query_rule g K (render (Update (claim_stmt (g_lock g) n)))
| q_select n :
    str_prefix (lock_prefix i) (g_lock g) -> lock_ok (g_lock g) = true ->
    (0 <= n < 2 ^ 31)%Z -> g_fresh g = true ->
    (forall r res, r ≠ 0%Z -> K (r, res) g) -> K (0%Z, None) g ->
    (forall rs, Forall row_ok rs -> NoDup (jr_id <$> rs) ->
       K (0%Z, Some (jobs_result (Srv := Srv) rs))
         (mkGhost (ids rs) (g_done g) (g_lock g) false)) ->
    query_rule g K (render (SelectJobs (claimed_cond (g_lock g)) n))
| q_unlock :
    str_prefix (lock_prefix i) (g_lock g) -> lock_ok (g_lock g) = true ->
    g_own g = ∅ -> (forall r, K r g) ->
    query_rule g K (render (Update (unlock_stmt (g_lock g))))
| q_discard z :
    z ∈ g_own g ->
    (forall r, K r (mkGhost (g_own g ∖ {[z]}) ({[z]} ∪ g_done g) (g_lock g) (g_fresh g))) ->
    query_rule g K (render (Update (discard_stmt z)))
| q_processing z :
    z ∈ g_own g ∪ g_done g -> (forall r, K r g) ->
    query_rule g K (render (Update (processing_stmt z)))
| q_finish s z :
    z ∈ g_done g -> s = Complete \/ s = Error -> (forall r, K r g) ->
    query_rule g K (render (Update (finish_stmt s z))).

(** A program that keeps to the discipline from ghost state [g]. *)
Fixpoint safe {A} (Q : A -> ghost -> Prop) (p : prog A) (g : ghost) : Prop :=
  match p with
  | Ret a => Q a g
  | Op o k =>
    match o return (resp o -> prog A) -> Prop with
    | ORealQuery sql => fun k => query_rule g (fun r g' => safe Q (k r) g') sql
    | OTime => fun k =>
        forall tv, time_ok tv -> safe Q (k tv) (mkGhost ∅ ∅ (lockid i tv) true)
    | OExecute j => fun k =>
        id j ∈ g_own g /\
        forall z, safe Q (k z)
          (mkGhost (g_own g ∖ {[id j]}) ({[id j]} ∪ g_done g) (g_lock g) (g_fresh g))
    | OPendingAdd _ => fun k => safe Q (k tt) g
    | OUndefined => fun _ => False
    end k
  end.
End Safe.

(** ** Lemmas: the discipline *)

Section SafeLemmas.
Context {Srv : Type} `{!MySQL Srv} `{!MySQLSpec Srv} (i : identity).
Notation safe := (safe (Srv := Srv) i).
Notation query_rule := (query_rule (Srv := Srv) i).

Lemma query_rule_mono g (K1 K2 : Z * option MYSQL_RES -> ghost -> Prop) sql :
  (forall r g', K1 r g' -> K2 r g') -> query_rule g K1 sql -> query_rule g K2 sql.
Proof. intros HK []; econstructor; eauto. Qed.

Lemma safe_bind {A B} (f : A -> prog B) (Q : B -> ghost -> Prop) (p : prog A) g :
  safe (fun a g' => safe Q (f a) g') p g -> safe Q (p ≫= f) g.
Proof.
  revert g; induction p as [a|o k IH]; intros g; [done|].
  destruct o; simpl in *.
  - apply query_rule_mono; auto.
  - auto.
  - naive_solver.
  - auto.
  - done.
Qed.

Lemma safe_mono {A} (Q1 Q2 : A -> ghost -> Prop) (p : prog A) g :
  (forall a g', Q1 a g' -> Q2 a g') -> safe Q1 p g -> safe Q2 p g.
Proof.
  intros HQ; revert g; induction p as [a|o k IH]; intros g; [apply HQ|].
  destruct o; simpl in *.
  - apply query_rule_mono; auto.
  - auto.
  - naive_solver.
  - auto.
  - done.
Qed.

(** Introduction rules: one per constructor, so that proofs about programs
    never unfold the programs themselves. *)
Lemma safe_ret {A} (Q : A -> ghost -> Prop) a g : Q a g -> safe Q (Ret a) g.
Proof. done. Qed.
Lemma safe_query {A} (Q : A -> ghost -> Prop) sql k g :
  query_rule g (fun r g' => safe Q (k r) g') sql -> safe Q (Op (ORealQuery sql) k) g.
Proof. done. Qed.
Lemma safe_time {A} (Q : A -> ghost -> Prop) k g :
  (forall tv, time_ok tv -> safe Q (k tv) (mkGhost ∅ ∅ (lockid i tv) true)) ->
  safe Q (Op OTime k) g.
Proof. done. Qed.
Lemma safe_execute {A} (Q : A -> ghost -> Prop) j k g :
  id j ∈ g_own g ->
  (forall z, safe Q (k z)
     (mkGhost (g_own g ∖ {[id j]}) ({[id j]} ∪ g_done g) (g_lock g) (g_fresh g))) ->
  safe Q (Op (OExecute j) k) g.
Proof. done. Qed.
Lemma safe_pending {A} (Q : A -> ghost -> Prop) d k g :
  safe Q (k tt) g -> safe Q (Op (OPendingAdd d) k) g.
Proof. done. Qed.

(** *** The code *)

Context (leaks : Z).
Let m_db := mkMysql HLive leaks.

Lemma safe_process js g (Q : unit -> ghost -> Prop) :
  Forall (fun j => (0 < id j < 2 ^ 31)%Z) js -> NoDup (id <$> js) ->
  (forall z, z ∈ id <$> js -> z ∈ g_own g) -> (forall g', Q tt g') ->
  safe Q (process_jobs m_db js) g.
Proof.
  intros Hjs; revert g; induction Hjs as [|j js Hj Hjs IH]; intros g Hd Ho HQ; [apply HQ|].
  rewrite fmap_cons in Hd, Ho. apply NoDup_cons in Hd as [Hn Hd].
  cbn [process_jobs]. apply safe_bind, safe_execute; [apply Ho, elem_of_cons; by left|].
  intros ok. apply safe_ret. set (g1 := mkGhost _ _ _ _).
  assert (safe Q (call (OPendingAdd (-1)) ≫= (fun _ => process_jobs m_db js)) g1) as Hrest.
  { apply safe_bind, safe_pending, safe_ret. apply IH; [done| |done]. intros z Hz. subst g1; cbn [g_own].
    assert (z ≠ id j) by congruence. set_solver. }
  assert (id j ∈ g_done g1) as Hdone by (subst g1; set_solver).
  unfold m_db in *. apply safe_bind. case_decide.
  - rewrite query_complete by (unfold int32; lia).
    apply safe_query, q_finish; [done|by left|]. intros r. by apply safe_ret.
  - rewrite query_error by (unfold int32; lia).
    apply safe_query, q_finish; [done|by right|]. intros r. by apply safe_ret.
Qed.
Context (m_config : Settings) (m_job_types : GData job_creator_t).
(** A module's creator passes the id on to the [Job] constructor. *)
Context (creators_ok : forall n c z nm row j,
  m_job_types !! n = Some c -> c z nm row = Some j -> id j = z).

(** The ghost state while rows are turned into jobs: the rows still to
    come and the jobs made so far are owned, all different. *)
Definition loading_inv (rs : list job_row) (jobs : list Job) (g : ghost) : Prop :=
  NoDup ((jr_id <$> rs) ++ (id <$> jobs)) /\
  (forall z, z ∈ (jr_id <$> rs) ++ (id <$> jobs) -> z ∈ g_own g /\ (0 < z < 2 ^ 31)%Z).

Lemma safe_discard z g (Q : Z -> ghost -> Prop) :
  (0 < z < 2 ^ 31)%Z -> z ∈ g_own g ->
  (forall r, Q r g) ->
  (forall r, Q r (mkGhost (g_own g ∖ {[z]}) ({[z]} ∪ g_done g) (g_lock g) (g_fresh g))) ->
  safe Q (discard_job m_config m_db z) g.
Proof.
  intros Hz Hown H1 H2. unfold discard_job. destruct (get_bool _ _ _); [|exact (safe_ret Q 0%Z g (H1 0%Z))].
  unfold m_db. rewrite query_discard by (unfold int32; lia).
  apply safe_query, q_discard; [done|]. intros r. apply safe_ret, H2.
Qed.

Lemma loading_inv_drop r rs jobs g g' :
  loading_inv (r :: rs) jobs g ->
  (g' = g \/ g' = mkGhost (g_own g ∖ {[jr_id r]}) ({[jr_id r]} ∪ g_done g) (g_lock g) (g_fresh g)) ->
  loading_inv rs jobs g'.
Proof.
  intros [Hd Ho] Hg. rewrite fmap_cons in Hd, Ho. simpl in Hd.
  apply NoDup_cons in Hd as [Hn Hd]. split; [done|].
  intros z Hz. assert (z ≠ jr_id r) by congruence.
  destruct (Ho z) as [Hz' ?]; [by apply elem_of_cons; right|]. split; [|done].
  destruct Hg as [-> | ->]; [done|]. cbn [g_own].
  apply elem_of_difference. split; [done|]. by apply not_elem_of_singleton.
Qed.

Lemma loading_inv_take r rs jobs g j :
  loading_inv (r :: rs) jobs g -> id j = jr_id r -> loading_inv rs (jobs ++ [j]) g.
Proof.
  intros [Hd Ho] Hj. rewrite fmap_cons in Hd, Ho. unfold loading_inv.
  rewrite fmap_app. simpl. rewrite Hj.
  assert ((jr_id <$> rs) ++ (id <$> jobs) ++ [jr_id r] ≡ₚ
          jr_id r :: (jr_id <$> rs) ++ (id <$> jobs)) as Hp.
  { by rewrite app_assoc, <-Permutation_cons_append. }
  split; [by rewrite Hp|]. intros z Hz. apply Ho. by rewrite <-Hp.
Qed.

Lemma safe_load_row r rs jobs g :
  row_ok r -> loading_inv (r :: rs) jobs g ->
  safe (fun jobs' g' => loading_inv rs jobs' g')
    (load_row m_config m_job_types m_db (myrow (Srv := Srv) r) jobs) g.
Proof.
  intros Hr Hinv. destruct (myrow_columns (Srv := Srv) r Hr) as (Hid & Hname & _).
  destruct Hr as (Hz & _). unfold load_row. rewrite Hid, Hname.
  cbn [type_creator default from_option]. clear Hid Hname.
  assert (jr_id r ∈ g_own g) as Hown by (apply Hinv, elem_of_app; left; apply elem_of_cons; by left).
  assert (forall g' (Q : Z -> ghost -> Prop), jr_id r ∈ g_own g' ∪ g_done g' ->
    (forall z, Q z g') -> safe Q (query m_db processing_format [AInt (jr_id r)]) g') as Hproc.
  { intros g' Q Hin HQ. unfold m_db. rewrite query_processing by (unfold int32; lia).
    apply safe_query, q_processing; [done|]. intros ?. apply safe_ret, HQ. }
  destruct (m_job_types !! jr_name r) as [c|] eqn:Ec.
  - destruct (c _ _ _) as [j|] eqn:Ej; cbn [option_list].
    + apply safe_bind, safe_ret, safe_bind, Hproc; [by apply elem_of_union_l|]. intros _.
      apply safe_ret. eapply loading_inv_take; [done|]. by eapply creators_ok.
    + apply safe_bind, safe_discard; [done..| |]; intros _; apply safe_bind, Hproc;
        cbn [g_own g_done]; rewrite ?elem_of_union, ?elem_of_singleton; [by auto| |by auto|];
        intros _; apply safe_ret; rewrite app_nil_r;
        eapply loading_inv_drop; eauto.
  - apply safe_bind, safe_discard; [done..| |]; intros _; apply safe_ret;
      eapply loading_inv_drop; eauto.
Qed.

Lemma safe_load_rows rs jobs g :
  Forall row_ok rs -> loading_inv rs jobs g ->
  safe (fun jobs' g' => loading_inv [] jobs' g')
    (load_rows m_config m_job_types m_db (myrow (Srv := Srv) <$> rs) jobs) g.
Proof.
  intros Hrs; revert jobs g; induction Hrs as [|r rs Hr Hrs IH]; intros jobs g Hinv; [done|].
  cbn [fmap list_fmap load_rows]. apply safe_bind. eapply safe_mono; [|by apply safe_load_row].
  intros jobs' g' Hinv'. by apply IH.
Qed.

End SafeLemmas.

Section SafeWork.
Context {Srv : Type} `{!MySQL Srv} `{!MySQLSpec Srv} (i : identity).
Notation safe := (safe (Srv := Srv) i).
Context (m_config : Settings) (m_job_types : GData job_creator_t) (leaks : Z).
Let m_db := mkMysql HLive leaks.
Context (creators_ok : forall n c z nm row j,
  m_job_types !! n = Some c -> c z nm row = Some j -> id j = z).
Context (Q : option (list Job) -> ghost -> Prop).

(** The three outcomes of the SELECT: an error, nothing stored, rows. *)
Lemma safe_unlock l :
  String.length l <= 39 -> str_prefix (lock_prefix i) l -> lock_ok l = true ->
  Q None (mkGhost ∅ ∅ l true) ->
  safe Q (_ ← query m_db unlock_format [AStr l]; Ret None) (mkGhost ∅ ∅ l true).
Proof.
  intros Hlen Hpre Hlok HQ. apply safe_bind. unfold m_db. rewrite query_unlock by done.
  apply safe_query, (q_unlock i (mkGhost ∅ ∅ l true)); [done..|]. intros r. by apply safe_ret, safe_ret.
Qed.

Lemma loading_inv_ids rs l b :
  Forall row_ok rs -> NoDup (jr_id <$> rs) -> loading_inv rs [] (mkGhost (ids rs) ∅ l b).
Proof.
  intros Hrs Hd. split; [by rewrite app_nil_r|]. intros z. rewrite app_nil_r. intros Hz.
  split; [by apply elem_of_list_to_set|].
  apply list_elem_of_fmap in Hz as (r' & -> & Hr'). rewrite Forall_forall in Hrs. by apply Hrs.
Qed.

Lemma safe_select l w :
  int32 w -> (0 < w)%Z -> String.length l <= 39 ->
  str_prefix (lock_prefix i) l -> lock_ok l = true ->
  (forall g, Q None g) ->
  (forall js g, loading_inv [] js g -> Q (Some js) g) ->
  safe Q (it ← query_with_result m_db select_format [AStr l; AInt w];
          match it with
          | None => _ ← query m_db unlock_format [AStr l]; Ret None
          | Some it => jobs ← load_rows m_config m_job_types m_db (rows_of it) []; Ret (Some jobs)
          end) (mkGhost ∅ ∅ l true).
Proof.
  intros Hw32 Hw Hlen Hpre Hlok HN HS. unfold m_db.
  apply safe_bind. rewrite query_select by done.
  apply safe_query, (q_select i (mkGhost ∅ ∅ l true)); [done..|unfold int32 in *; lia|done| | |].
  - intros r' res Hr'. destruct (decide _) as [_|Hn]; [|by destruct Hn].
    by apply safe_ret, safe_unlock.
  - destruct (decide _) as [[]|_]; [done|]. apply safe_ret. cbn [snd]. rewrite rows_of_none.
    cbn [load_rows]. apply safe_bind, safe_ret, safe_ret, HS. split; [constructor|]. by intros z Hz%not_elem_of_nil.
  - intros rs Hrs Hd. destruct (decide _) as [[]|_]; [done|]. apply safe_ret. cbn [snd].
    rewrite rows_of_jobs. apply safe_bind.
    eapply safe_mono; [|apply safe_load_rows; [done..|by apply loading_inv_ids]].
    intros js g' Hinv. by apply safe_ret, HS.
Qed.
End SafeWork.

(** The code keeps to the discipline, from any ghost state. *)
Lemma safe_work {Srv : Type} `{!MySQL Srv} `{!MySQLSpec Srv} i m_config m_job_types leaks w g :
  (forall n c z nm row j,
    m_job_types !! n = Some c -> c z nm row = Some j -> id j = z) ->
  identity_ok i -> (0 < w)%Z -> int32 w ->
  safe (Srv := Srv) i (fun _ _ => True) (work m_config m_job_types (mkMysql HLive leaks) i w) g.
Proof.
  intros Hc Hi Hw Hw32. unfold work, find_jobs.
  apply safe_bind, safe_bind, safe_time. intros tv Htv. apply safe_ret. cbn zeta.
  pose proof (lockid_prefix i tv Hi) as Hpre. pose proof (lockid_ok i tv Hi Htv) as Hlok.
  pose proof (lockid_length i tv) as Hlen.
  generalize dependent (lockid i tv). intros l Hpre Hlok Hlen.
  apply safe_bind. rewrite query_claim by done.
  apply safe_query, (q_claim i (mkGhost ∅ ∅ l true)); [done..|unfold int32 in *; lia|].
  intros r. apply safe_ret. case_decide; [by apply safe_ret, safe_ret|].
  apply safe_select; [done..|intros; by apply safe_ret|].
  intros js g' [Hjd Hjo]. simpl in Hjd, Hjo.
  apply safe_process; [|done|naive_solver|done].
  apply Forall_forall. intros j Hj. apply Hjo. apply list_elem_of_fmap; eauto.
Qed.
