(* ===== verification/RefServer.v ===== *)
(** * RefServer: a server that satisfies the contract

    [MySQLSpec] states what the program relies on.  Here it is discharged for
    a concrete server: a table, an interpreter of the statement texts (a
    recursive-descent parser of the fragment of SQL the program writes,
    inverse to [render]) and, for the second instance, a script of faults.
    The properties that assume the contract are applied to it in their
    witnesses. *)

From S2P Require Import Prelude CLib Records JobTable.
From Stdlib Require Import Ascii.

(** ** Parsing *)

(** The rest of the text after the literal [p]. *)
Fixpoint lit (p s : string) : option string :=
  match p, s with
  | EmptyString, _ => Some s
  | String a p', String b s' => if decide (a = b) then lit p' s' else None
  | String _ _, EmptyString => None
  end.

Fixpoint span (P : ascii -> bool) (s : string) : string * string :=
  match s with
  | String c s' => if P c then let '(a, b) := span P s' in (String c a, b) else ("", s)
  | EmptyString => ("", "")
  end.

Definition alpha (c : ascii) : bool := (97 <=? code c)%Z && (code c <=? 122)%Z.

Definition parse_status (w : string) : option status :=
  head (filter (fun s => status_text s = w) [Pending; Loading; Processing; Complete; Error]).

(** A quoted word of characters that satisfy [P], after its opening quote. *)
Definition quoted (P : ascii -> bool) (s : string) : option (string * string) :=
  let '(w, r) := span P s in k ← lit "'" r; Some (w, k).

Definition parse_assign (s : string) : option (assign * string) :=
  match lit "status='" s with
  | Some r => '(w, k) ← quoted alpha r; st ← parse_status w; Some (SetStatus st, k)
  | None => r ← lit "locked_queue_id='" s; '(l, k) ← quoted lock_char r; Some (SetLock l, k)
  end.

Definition parse_cond (s : string) : option (cond * string) :=
  match lit "status='" s, lit "status!='" s, lit "locked_queue_id='" s with
  | Some r, _, _ => '(w, k) ← quoted alpha r; st ← parse_status w; Some (StatusIs st, k)
  | _, Some r, _ => '(w, k) ← quoted alpha r; st ← parse_status w; Some (StatusIsNot st, k)
  | _, _, Some r => '(l, k) ← quoted lock_char r; Some (LockIs l, k)
  | _, _, _ => r ← lit "id=" s; let '(d, k) := span is_digit r in Some (IdIs (atol d), k)
  end.

Fixpoint parse_sep {A} (fuel : nat) (p : string -> option (A * string)) (sep s : string) :
    option (list A * string) :=
  match fuel with
  | O => None
  | S fuel' =>
    '(x, k) ← p s;
    match lit sep k with
    | Some k' => '(l, k'') ← parse_sep fuel' p sep k'; Some (x :: l, k'')
    | None => Some ([x], k)
    end
  end.

Definition parse_limit (s : string) : option (option Z) :=
  match lit " LIMIT " s with
  | Some r => Some (Some (atol r))
  | None => if decide (s = "") then Some None else None
  end.

Definition parse_stmt (s : string) : option stmt :=
  match lit "UPDATE jobs SET " s with
  | Some r =>
    '(a, r1) ← parse_sep 8 parse_assign ", " r;
    r2 ← lit " WHERE " r1;
    '(c, r3) ← parse_sep 8 parse_cond " AND " r2;
    let '(o, r4) := match lit " ORDER BY id" r3 with Some r4 => (true, r4) | None => (false, r3) end in
    n ← parse_limit r4;
    Some (Update (mkUpdate a c o n))
  | None =>
    match lit "SELECT id, name, data FROM jobs WHERE " s with
    | Some r =>
      '(c, r1) ← parse_sep 8 parse_cond " AND " r;
      r2 ← lit " ORDER BY id" r1;
      n ← parse_limit r2;
      match n with Some n => Some (SelectJobs c n) | None => None end
    | None =>
      if decide (s = render CountPending) then Some CountPending
      else if decide (s = render SetNames) then Some SetNames
      else None
    end
  end.

(** ** The server *)

Section Server.
(** What becomes of a statement. *)
Inductive fault :=
| FNone       (** executed, result delivered *)
| FBefore     (** connection lost before execution *)
| FAfter      (** connection lost after execution *)
| FNoResult.  (** executed, the result cannot be stored *)

Record ref_server := mkServer { srv_jobs : table; srv_faults : list fault }.

Definition run_stmt (st : stmt) (t : table) : option MYSQL_RES * table :=
  match st with
  | Update u => (None, exec_update u t)
  | SelectJobs c n =>
      (Some (mkRes
        [mkField "id" MYSQL_TYPE_LONG 11; mkField "name" MYSQL_TYPE_VAR_STRING 765;
         mkField "data" MYSQL_TYPE_BLOB 65535]
        ((fun r => [Some (dec (jr_id r)); Some (jr_name r); jr_data r]) <$> select_rows c n t)), t)
  | CountPending => (Some (count_result (count_pending t)), t)
  | SetNames => (None, t)
  end.

Definition ref_query (s : ref_server) (sql : string) : (Z * option MYSQL_RES) * ref_server :=
  let '(f, fs) := match srv_faults s with f :: fs => (f, fs) | [] => (FNone, []) end in
  match parse_stmt sql with
  | None => ((1%Z, None), mkServer (srv_jobs s) fs)
  | Some st =>
    let '(res, t') := run_stmt st (srv_jobs s) in
    match f with
    | FNone => ((0%Z, res), mkServer t' fs)
    | FBefore => ((1%Z, None), mkServer (srv_jobs s) fs)
    | FAfter => ((1%Z, None), mkServer t' fs)
    | FNoResult => ((0%Z, None), mkServer t' fs)
    end
  end.
End Server.

#[export] Instance ref_mysql : MySQL ref_server :=
  {| real_query := ref_query; jobs := srv_jobs; data_width := 65535 |}.

(** The server without faults: a table. *)
Record table_server := mkTableServer { ts_jobs : table }.

Definition table_query (s : table_server) (sql : string) :
    (Z * option MYSQL_RES) * table_server :=
  let '(r, s') := ref_query (mkServer (ts_jobs s) []) sql in (r, mkTableServer (srv_jobs s')).

#[export] Instance table_mysql : MySQL table_server :=
  {| real_query := table_query; jobs := ts_jobs; data_width := 65535 |}.

(** ** Lemmas: the parser inverts [render] *)

Lemma lit_app p s : lit p (p +:+ s) = Some s.
Proof. induction p; [done|]. rewrite str_app_cons; simpl. by rewrite decide_True. Qed.

(** The text does not start with a character that satisfies [P]. *)
Definition stops (P : ascii -> bool) (k : string) : Prop :=
  match k with String c _ => P c = false | EmptyString => True end.

Lemma span_app P a k : str_forall P a = true -> stops P k -> span P (a +:+ k) = (a, k).
Proof.
  intros Ha Hk. induction a as [|c a IH]; [destruct k; [done|]; cbn [span]; simpl in Hk; by rewrite str_app_nil_l; simpl; rewrite Hk|].
  rewrite str_app_cons. simpl in *. apply andb_true_iff in Ha as [-> Ha]. by rewrite (IH Ha).
Qed.

Lemma quoted_app P w k :
  str_forall P w = true -> P "'"%char = false -> quoted P (w +:+ "'" +:+ k) = Some (w, k).
Proof. intros Hw Hq. unfold quoted. by rewrite span_app. Qed.

Lemma status_alpha s : str_forall alpha (status_text s) = true.
Proof. by destruct s. Qed.

Lemma parse_status_text s : parse_status (status_text s) = Some s.
Proof. by destruct s. Qed.

Lemma parse_render_assign a k : assign_ok a = true -> parse_assign (render_assign a k) = Some (a, k).
Proof.
  destruct a as [s|l]; intros Hl; unfold parse_assign, render_assign.
  - rewrite lit_app, quoted_app by (try apply status_alpha; done). simpl. by rewrite parse_status_text.
  - change (lit "status='" _) with (@None string) at 1. cbv match. rewrite lit_app. simpl.
    by rewrite quoted_app.
Qed.

Definition cond_ok (c : cond) : bool :=
  match c with
  | LockIs l => lock_ok l
  | IdIs z => bool_decide (0 <= z < 2 ^ 31)%Z
  | _ => true
  end.

Lemma span_digits z k : (0 <= z)%Z -> stops is_digit k -> span is_digit (dec z +:+ k) = (dec z, k).
Proof. intros Hz Hk. apply span_app; [by apply dec_digits|done]. Qed.

Lemma parse_render_cond c k :
  cond_ok c = true -> stops is_digit k -> parse_cond (render_cond c k) = Some (c, k).
Proof.
  destruct c as [s|s|l|z]; intros Hl Hk; unfold parse_cond, render_cond.
  - rewrite lit_app, quoted_app by (try apply status_alpha; done). simpl. by rewrite parse_status_text.
  - change (lit "status='" _) with (@None string) at 1. cbv match. rewrite lit_app.
    rewrite quoted_app by (try apply status_alpha; done). simpl. by rewrite parse_status_text.
  - change (lit "status='" _) with (@None string) at 1.
    change (lit "status!='" _) with (@None string) at 1. cbv match. rewrite lit_app.
    by rewrite quoted_app.
  - change (lit "status='" _) with (@None string) at 1.
    change (lit "status!='" _) with (@None string) at 1.
    change (lit "locked_queue_id='" _) with (@None string) at 1. cbv match.
    rewrite lit_app. simpl. apply bool_decide_eq_true in Hl.
    rewrite span_digits by (done || lia). unfold atol. by rewrite strtol_dec by (unfold int64; lia).
Qed.

Lemma parse_render_sep {A} (p : string -> option (A * string)) r sep (ok : A -> bool) (stop : string -> Prop)
    fuel l k :
  (forall x k, ok x = true -> stop k -> p (r x k) = Some (x, k)) ->
  (forall t, stop (sep +:+ t)) -> stop k -> lit sep k = None ->
  l ≠ [] -> length l <= fuel -> forallb ok l = true ->
  parse_sep fuel p sep (render_sep r sep l k) = Some (l, k).
Proof.
  intros Hp Hsep Hk Hl. revert fuel; induction l as [|x l IH]; intros fuel Hn Hf Hok; [done|].
  destruct fuel as [|fuel]; [simpl in Hf; lia|].
  change (forallb ok (x :: l)) with (ok x && forallb ok l) in Hok.
  apply andb_true_iff in Hok as [Hx Hok]. destruct l as [|y l].
  - cbn [parse_sep render_sep]. rewrite Hp by done. cbn [mbind option_bind]. by rewrite Hl.
  - change (render_sep r sep (x :: y :: l) k) with (r x (sep +:+ render_sep r sep (y :: l) k)).
    cbn [parse_sep]. rewrite Hp by done. cbn [mbind option_bind].
    rewrite lit_app, IH; [done|done|simpl in *; lia|done].
Qed.

Definition limit_ok (n : option Z) : bool :=
  match n with Some n => bool_decide (0 <= n < 2 ^ 31)%Z | None => true end.

Definition update_ok (u : update) : bool :=
  negb (bool_decide (u_set u = [] \/ u_where u = [])) &&
  (length (u_set u) <=? 8)%nat && (length (u_where u) <=? 8)%nat &&
  forallb assign_ok (u_set u) && forallb cond_ok (u_where u) && limit_ok (u_limit u).

Lemma parse_render_limit n : limit_ok n = true -> parse_limit (render_limit n) = Some n.
Proof.
  destruct n as [n|]; [|done]. intros Hn. unfold render_limit, parse_limit.
  rewrite lit_app, str_app_nil_r. apply bool_decide_eq_true in Hn. unfold atol.
  by rewrite strtol_dec by (unfold int64; lia).
Qed.

(** The text after the WHERE clause: it starts neither with a digit nor with
    another condition. *)
Lemma tail_stops o n (k := (if o : bool then " ORDER BY id" else "") +:+ render_limit n) :
  stops is_digit k /\ lit " AND " k = None.
Proof. subst k. by destruct o, n. Qed.

Lemma parse_render_update u : update_ok u = true -> parse_stmt (render (Update u)) = Some (Update u).
Proof.
  destruct u as [a c o n]. unfold update_ok; cbn [u_set u_where u_limit u_ordered].
  rewrite !andb_true_iff, negb_true_iff, bool_decide_eq_false, !Nat.leb_le.
  intros (((((Hn & Ha8) & Hc8) & Ha) & Hc) & Hl).
  unfold render, parse_stmt; cbn [u_set u_where u_ordered u_limit]. rewrite lit_app.
  rewrite (parse_render_sep _ _ _ assign_ok (fun _ => True)); [|by intros; apply parse_render_assign|done|done|done|naive_solver|done|done].
  cbn [mbind option_bind]. rewrite lit_app. cbn [mbind option_bind].
  destruct (tail_stops o n) as [Hs Hand].
  rewrite (parse_render_sep _ _ _ cond_ok (stops is_digit)); [|by intros; apply parse_render_cond|done|done|done|naive_solver|done|done].
  cbn [mbind option_bind].
  destruct o.
  - rewrite lit_app. by rewrite parse_render_limit by done.
  - rewrite str_app_nil_l.
    replace (lit " ORDER BY id" (render_limit n)) with (@None string) by (by destruct n).
    cbv match. by rewrite parse_render_limit.
Qed.

Lemma parse_render_select c n :
  c ≠ [] -> length c <= 8 -> forallb cond_ok c = true -> (0 <= n < 2 ^ 31)%Z ->
  parse_stmt (render (SelectJobs c n)) = Some (SelectJobs c n).
Proof.
  intros Hne Hlen Hc Hn. unfold render, parse_stmt.
  change (lit "UPDATE jobs SET " _) with (@None string) at 1. cbv match. rewrite lit_app.
  destruct (tail_stops true (Some n)) as [Hs Hand].
  rewrite (parse_render_sep _ _ _ cond_ok (stops is_digit)); [|by intros; apply parse_render_cond|done|done|done|done|done|done].
  cbn [mbind option_bind]. rewrite lit_app. cbn [mbind option_bind].
  rewrite parse_render_limit; [done|]. by apply bool_decide_eq_true.
Qed.

Lemma program_update_ok u : program_update u -> update_ok u = true.
Proof.
  intros Hu. unfold update_ok. rewrite !andb_true_iff.
  destruct Hu; split_and!; simpl; rewrite ?andb_true_iff; split_and?; try done; try (by apply bool_decide_eq_true);
    try (apply bool_decide_eq_true; lia).
Qed.

#[export] Hint Resolve program_update_ok : workq.

(** ** The contract holds *)

#[export] Instance ref_mysql_spec : MySQLSpec ref_server.
Proof.
  split.
  - done.
  - intros s u Hok Hu. simpl. unfold ref_query.
    rewrite parse_render_update by auto with workq. cbn [run_stmt].
    destruct (srv_faults s) as [|[] fs]; simpl; auto.
  - intros s l n c Hok Hl Hn. simpl. unfold ref_query.
    rewrite parse_render_select; [|done|simpl; lia|simpl; by rewrite Hl|done]. cbn [run_stmt].
    destruct (srv_faults s) as [|[] fs]; simpl; auto.
  - intros s Hok. simpl. unfold ref_query. change (parse_stmt (render CountPending)) with (Some CountPending).
    cbn [run_stmt]. destruct (srv_faults s) as [|[] fs]; simpl; auto.
  - intros s. simpl. unfold ref_query. change (parse_stmt (render SetNames)) with (Some SetNames).
    cbn [run_stmt]. by destruct (srv_faults s) as [|[] fs].
Qed.

#[export] Instance table_mysql_spec : MySQLSpec table_server.
Proof.
  split.
  - done.
  - intros s u Hok Hu. simpl. unfold table_query, ref_query; cbn [srv_faults].
    rewrite parse_render_update by auto with workq. simpl. auto.
  - intros s l n c Hok Hl Hn. simpl. unfold table_query, ref_query; cbn [srv_faults].
    rewrite parse_render_select; [|done|simpl; lia|simpl; by rewrite Hl|done]. simpl. auto.
  - intros s Hok. simpl. unfold table_query, ref_query; cbn [srv_faults].
    change (parse_stmt (render CountPending)) with (Some CountPending). simpl. auto.
  - intros s. simpl. unfold table_query, ref_query; cbn [srv_faults].
    by change (parse_stmt (render SetNames)) with (Some SetNames).
Qed.

#[export] Instance table_mysql_reliable : MySQLReliable table_server.
Proof.
  split.
  - intros s u Hok Hu. simpl. unfold table_query, ref_query; cbn [srv_faults].
    by rewrite parse_render_update by auto with workq.
  - intros s l n c Hok Hl Hn. simpl. unfold table_query, ref_query; cbn [srv_faults].
    by rewrite parse_render_select; [|done|simpl; lia|simpl; by rewrite Hl|done].
Qed.
