(* ===== verification/Exclusion.v ===== *)
(** * Exclusion: the invariant of the running system

    [thread_ok] says what a thread's ghost state claims about the shared
    table, [sys_inv] that every thread's code is safe and every claim holds.
    Each step preserves it, and each step advances the rows of the table
    along [row_step].  The properties at the end: no two threads execute the
    same job at the same time, no job is executed twice, the table only moves
    along the life cycle, and no thread reaches undefined behaviour. *)

From S2P Require Import Prelude CLib Settings Records Job Effects Adaptor JobTable WorkQueue System RefServer.

(** ** Rows under table steps *)

Lemma row_step_id i r r' : row_step i r r' -> jr_id r' = jr_id r /\ jr_name r' = jr_name r /\ jr_data r' = jr_data r.
Proof. by intros []. Qed.

Lemma table_step_lookup i t t' z :
  table_step i t t' ->
  match lookup_job t z with
  | Some r => exists r', lookup_job t' z = Some r' /\ row_step i r r'
  | None => lookup_job t' z = None
  end.
Proof.
  induction 1 as [|r r' t t' Hr Ht IH]; [done|].
  rewrite !lookup_job_cons. destruct (row_step_id _ _ _ Hr) as (-> & _ & _).
  case_decide; [eauto|done].
Qed.

Lemma table_step_refl i t : table_step i t t.
Proof. apply Forall2_same_length_lookup. split; [done|]. intros ? ? ? ? ?; simplify_eq. constructor. Qed.

Lemma update_first_step i P f n t :
  (forall r, r ∈ t -> P r = true -> row_step i r (f r)) -> table_step i t (update_first P f n t).
Proof.
  revert n; induction t as [|r t IH]; intros n H; [constructor|]. simpl.
  assert (forall n, table_step i t (update_first P f n t)) as Ht
    by (intros; apply IH; intros; apply H; [by right|done]).
  destruct (P r) eqn:HP; [destruct n as [[|k]|]|]; constructor; try apply Ht; try apply rs_keep.
  - apply table_step_refl.
  - apply H; [by left|done].
  - apply H; [by left|done].
Qed.

Lemma exec_update_step i u t :
  (forall r, r ∈ t -> matches (u_where u) r = true -> row_step i r (assign_all (u_set u) r)) ->
  table_step i t (exec_update u t).
Proof. apply update_first_step. Qed.

(** A row that is not pending is never pending again. *)
Lemma row_step_not_pending i r r' : row_step i r r' -> jr_status r ≠ Pending -> jr_status r' ≠ Pending.
Proof. intros [] ?; simpl; try done. Qed.

(** A lock that is held is kept or given up. *)
Lemma row_step_lock i r r' :
  row_step i r r' -> jr_status r ≠ Pending -> jr_lock r' = jr_lock r \/ jr_lock r' = "".
Proof.
  intros [|l Hc Hl| | |] Hs; simpl; auto.
  unfold claimable, matches in Hc; simpl in Hc. rewrite !andb_true_iff, !bool_decide_eq_true in Hc.
  naive_solver.
Qed.

Lemma claimable_spec r : claimable r = true <-> jr_status r = Pending /\ jr_lock r = "".
Proof.
  unfold claimable, matches; simpl. rewrite !andb_true_iff, !bool_decide_eq_true. naive_solver.
Qed.

Lemma dead_step i r r' : row_step i r r' -> dead r -> dead r'.
Proof.
  intros [|l Hc _|Hp _|s Hp ?|s ? ?] [Hl Hs]; [done| | | |]; try done.
  apply claimable_spec in Hc. naive_solver.
Qed.

(** Another thread's row is left alone. *)
Lemma foreign_step i j r r' :
  identity_ok i -> identity_ok j -> i ≠ j ->
  row_step i r r' -> str_prefix (lock_prefix j) (jr_lock r) -> r' = r.
Proof.
  intros Hi Hj Hij [|l Hc Hl|Hp _|s Hp _|s [Hd _] _] Hpj; try done.
  - apply claimable_spec in Hc as [_ Hc]. by apply lock_prefix_nonempty in Hpj.
  - by destruct Hij; eapply lock_prefix_inj.
  - by destruct Hij; eapply lock_prefix_inj.
  - by apply lock_prefix_nonempty in Hpj.
Qed.

(** ** What a ghost state claims *)

Definition locked_row (t : table) (l : string) (z : Z) : Prop :=
  exists r, lookup_job t z = Some r /\ jr_lock r = l /\ (jr_status r = Loading \/ jr_status r = Processing).

Definition dead_row (t : table) (z : Z) : Prop :=
  exists r, lookup_job t z = Some r /\ dead r.

Section Inv.
Context {Srv : Type} `{!MySQL Srv} `{!MySQLSpec Srv}.
Context (now : identity -> nat -> Z * Z).
Hypothesis now_ok : forall i n, time_ok (now i n).

(** The first [ticks] lock ids thread [i] draws are all different. *)
Definition draws_fresh (i : identity) (ticks : nat) : Prop :=
  forall n m, n < ticks -> m < ticks -> lockid i (now i n) = lockid i (now i m) -> n = m.

(** No thread has drawn the same lock id twice so far. *)
Definition fresh_locks (y : system Srv) : Prop :=
  forall th, th ∈ sys_threads y -> draws_fresh (t_id th) (l_ticks (t_local th)).

Definition drawn (i : identity) (ticks : nat) (l : string) : Prop :=
  exists k, k < ticks /\ l = lockid i (now i k).

Section Claims.
(** The condition under which no job is executed twice. *)
Context (F : Prop).

(** [X]: the jobs executed so far. *)
Record thread_ok (X : list Z) (t : table) (i : identity) (ticks : nat) (g : ghost) : Prop := {
  to_lock : g = ghost0 \/ drawn i ticks (g_lock g);
  to_own z : z ∈ g_own g -> locked_row t (g_lock g) z /\ (F -> z ∉ X);
  to_done z : z ∈ g_done g -> locked_row t (g_lock g) z \/ dead_row t z;
  to_disj z : z ∈ g_own g -> z ∉ g_done g;
  to_fresh : g_fresh g = true ->
    g_own g = ∅ /\ g_done g = ∅ /\
    (F -> forall z r, z ∈ X -> lookup_job t z = Some r -> jr_lock r ≠ g_lock g);
}.

(** What is known of a job that has been executed. *)
Definition executed_ok (ths : list thread) (t : table) (z : Z) : Prop :=
  exists r, lookup_job t z = Some r /\ jr_status r ≠ Pending /\
  (jr_lock r = "" \/
   exists th, th ∈ ths /\ drawn (t_id th) (l_ticks (t_local th)) (jr_lock r)).

Lemma ghost0_ok X t i ticks : thread_ok X t i ticks ghost0.
Proof. constructor; simpl; [by left|set_solver|set_solver|set_solver|done]. Qed.

Lemma drawn_prefix i ticks l : identity_ok i -> drawn i ticks l -> str_prefix (lock_prefix i) l.
Proof. intros Hi (k & _ & ->). by apply lockid_prefix. Qed.

Lemma drawn_mono i n m l : n <= m -> drawn i n l -> drawn i m l.
Proof. intros Hnm (k & ? & ->). exists k. split; [lia|done]. Qed.

(** A thread that owns something has a lock id of its own. *)
Lemma own_drawn X t i ticks g z :
  thread_ok X t i ticks g -> z ∈ g_own g ∪ g_done g -> drawn i ticks (g_lock g).
Proof. intros H Hz. destruct (to_lock _ _ _ _ _ H) as [-> | ?]; [simpl in Hz; set_solver|done]. Qed.

Lemma locked_row_foreign i j t t' l z :
  identity_ok i -> identity_ok j -> i ≠ j -> str_prefix (lock_prefix j) l ->
  table_step i t t' -> locked_row t l z -> locked_row t' l z.
Proof.
  intros Hi Hj Hij Hl Ht (r & Hr & Hlock & Hs).
  pose proof (table_step_lookup i t t' z Ht) as H. rewrite Hr in H.
  destruct H as (r' & Hr' & Hstep).
  eapply foreign_step in Hstep; [|done..|by rewrite Hlock]. subst. by exists r.
Qed.

Lemma dead_row_step i t t' z : table_step i t t' -> dead_row t z -> dead_row t' z.
Proof.
  intros Ht (r & Hr & Hd). pose proof (table_step_lookup i t t' z Ht) as H. rewrite Hr in H.
  destruct H as (r' & Hr' & Hstep). exists r'. split; [done|]. by eapply dead_step.
Qed.

(** Another thread's step leaves a thread's claims valid; [X'] may have
    grown by a job the other thread owned. *)
Lemma thread_ok_foreign X X' t t' i j ticks g :
  identity_ok i -> identity_ok j -> i ≠ j -> table_step i t t' ->
  (forall z, z ∈ X -> z ∈ X') ->
  (forall z, z ∈ X -> exists r, lookup_job t z = Some r /\ jr_status r ≠ Pending) ->
  (forall z, z ∈ X' -> z ∈ X \/ exists l, str_prefix (lock_prefix i) l /\ locked_row t l z) ->
  thread_ok X t j ticks g -> thread_ok X' t' j ticks g.
Proof.
  intros Hi Hj Hij Ht Hsub HXp HX [Hlock Hown Hdone Hdisj Hfresh].
  assert (forall z, z ∈ g_own g ∪ g_done g -> str_prefix (lock_prefix j) (g_lock g)) as Hpre.
  { intros z Hz. destruct Hlock as [-> |?]; [simpl in Hz; set_solver|]. by eapply drawn_prefix. }
  assert (forall z l, str_prefix (lock_prefix i) l -> locked_row t l z ->
    str_prefix (lock_prefix j) (g_lock g) -> ~ locked_row t (g_lock g) z) as Hne.
  { intros z l Hl (r & Hr & El & _) Hlj (r' & Hr' & El' & _). simplify_eq.
    destruct Hij. eapply lock_prefix_inj; [done..|by rewrite El']. }
  constructor; [done|..|done|].
  - intros z Hz. destruct (Hown z Hz) as [Hr HnX].
    assert (str_prefix (lock_prefix j) (g_lock g)) by (apply (Hpre z); set_solver).
    split; [by eapply (locked_row_foreign i j t)|].
    intros Hf [HzX|(l & Hl & Hrow)]%HX; [by apply HnX|]. by eapply Hne.
  - intros z Hz. assert (str_prefix (lock_prefix j) (g_lock g)) by (apply (Hpre z); set_solver).
    destruct (Hdone z Hz); [left; by eapply (locked_row_foreign i j t)|right; by eapply dead_row_step].
  - intros Hfr. destruct (Hfresh Hfr) as (? & ? & HXf). split_and!; [done..|].
    intros Hf z r' Hz Hr' Hl'.
    assert (str_prefix (lock_prefix j) (g_lock g)) as Hlj.
    { destruct Hlock as [-> |?]; [done|]. by eapply drawn_prefix. }
    pose proof (table_step_lookup i t t' z Ht) as Hstep.
    destruct (HX z Hz) as [HzX|(l & Hl & (r & Hr & El & _))].
    + destruct (HXp z HzX) as (r & Hr & Hnp). rewrite Hr in Hstep.
      destruct Hstep as (r'' & Hr'' & Hrs). simplify_eq.
      destruct (row_step_lock _ _ _ Hrs Hnp) as [E|E].
      * apply (HXf Hf z r HzX Hr). congruence.
      * apply lock_prefix_nonempty in Hlj. congruence.
    + rewrite Hr in Hstep. destruct Hstep as (r'' & Hr'' & Hrs). simplify_eq.
      assert (jr_lock r' = jr_lock r \/ jr_lock r' = "") as [E|E].
      { destruct Hrs as [|l' Hc _| | |]; simpl; auto.
        apply claimable_spec in Hc as [_ Hc]. rewrite Hc in Hl. by apply lock_prefix_nonempty in Hl. }
      * destruct Hij. eapply lock_prefix_inj; [done..| |]; [done|]. congruence.
      * apply lock_prefix_nonempty in Hlj. congruence.
Qed.

(** *** The thread's own statements *)

Lemma lookup_exec_sat (P : job_row -> Prop) u t z :
  (forall r, jr_id r = z -> matches (u_where u) r = true -> P r -> P (assign_all (u_set u) r)) ->
  (exists r, lookup_job t z = Some r /\ P r) ->
  exists r, lookup_job (exec_update u t) z = Some r /\ P r.
Proof.
  intros HP (r & Hr & HPr). pose proof (exec_update_lookup u t z) as H. rewrite Hr in H.
  apply lookup_job_Some in Hr as [_ Hid]. destruct H as [?|[??]]; eauto.
Qed.

(** Both the claims of a thread about its own rows, in one predicate. *)
Definition mine (l : string) (r : job_row) : Prop :=
  (jr_lock r = l /\ (jr_status r = Loading \/ jr_status r = Processing)) \/ dead r.

Lemma mine_row t l z :
  locked_row t l z \/ dead_row t z <-> exists r, lookup_job t z = Some r /\ mine l r.
Proof. unfold locked_row, dead_row, mine. naive_solver. Qed.

(** What remains to be shown when the acting thread has changed the table. *)
Lemma thread_ok_self X t t' i ticks g g' :
  thread_ok X t i ticks g -> identity_ok i -> table_step i t t' ->
  (forall z, z ∈ X -> exists r, lookup_job t z = Some r /\ jr_status r ≠ Pending) ->
  g_lock g' = g_lock g -> (g_fresh g' = true -> g_fresh g = true /\ g_own g' = ∅ /\ g_done g' = ∅) ->
  drawn i ticks (g_lock g) ->
  (forall z, z ∈ g_own g' -> z ∈ g_own g /\ locked_row t' (g_lock g) z) ->
  (forall z, z ∈ g_done g' -> locked_row t' (g_lock g) z \/ dead_row t' z) ->
  (forall z, z ∈ g_own g' -> z ∉ g_done g') ->
  thread_ok X t' i ticks g'.
Proof.
  intros [_ Hown _ _ Hfresh] Hi Ht HX El Hfr' Hdr Hown' Hdone' Hdisj'.
  constructor; rewrite ?El; auto.
  - intros z Hz. destruct (Hown' z Hz) as [Hz' ?]. split; [done|]. by apply Hown.
  - intros Hf. destruct (Hfr' Hf) as (Hf' & -> & ->). split_and!; [done..|].
    intros Hinj z r' Hz Hr' E. destruct (HX z Hz) as (r & Hr & Hnp).
    pose proof (table_step_lookup i t t' z Ht) as Hs. rewrite Hr in Hs.
    destruct Hs as (r'' & Hr'' & Hs). simplify_eq.
    destruct (row_step_lock _ _ _ Hs Hnp) as [E'|E'].
    + destruct (Hfresh Hf') as (_ & _ & HXf). apply (HXf Hinj z r Hz Hr). congruence.
    + eapply (lock_prefix_nonempty i); [by eapply drawn_prefix|]. congruence.
Qed.

Lemma matches_id z u r :
  u_where u = [IdIs z] -> matches (u_where u) r = true -> jr_id r = z.
Proof. intros ->. unfold matches; simpl. rewrite andb_true_r, bool_decide_eq_true. done. Qed.

(** A statement on one row [z0] that is the thread's own or dead. *)
Lemma id_stmt_step X t i ticks g u z0 :
  identity_ok i -> table_ok t -> thread_ok X t i ticks g -> u_where u = [IdIs z0] ->
  z0 ∈ g_own g ∪ g_done g ->
  (forall r, str_prefix (lock_prefix i) (jr_lock r) -> jr_status r ≠ Pending ->
     row_step i r (assign_all (u_set u) r)) ->
  (forall r, dead r -> row_step i r (assign_all (u_set u) r)) ->
  table_step i t (exec_update u t).
Proof.
  intros Hi Hok Hth Hu Hz Hlk Hdd. apply exec_update_step. intros r Hr Hm.
  pose proof (own_drawn _ _ _ _ _ _ Hth Hz) as Hdr.
  apply matches_id with (z := z0) in Hm; [|done].
  assert (exists r', lookup_job t z0 = Some r' /\ mine (g_lock g) r') as (r' & Hr' & Hmine).
  { apply mine_row. apply elem_of_union in Hz as [Hz|Hz];
      [left; by apply (to_own _ _ _ _ _ Hth)|by apply (to_done _ _ _ _ _ Hth)]. }
  assert (r' = r) as ->.
  { pose proof (lookup_job_In t r (table_ok_NoDup _ Hok) Hr) as E. rewrite Hm in E. congruence. }
  destruct Hmine as [[El Hs]|Hd]; [|by apply Hdd]. apply Hlk; [|by destruct Hs as [-> | ->]].
  rewrite El. by eapply drawn_prefix.
Qed.

Section OneStatement.
Context (X : list Z) (t : table) (i : identity) (ticks : nat) (g : ghost).
Hypothesis Hi : identity_ok i.
Hypothesis Hok : table_ok t.
Hypothesis Hth : thread_ok X t i ticks g.
Hypothesis HX : forall z, z ∈ X -> exists r, lookup_job t z = Some r /\ jr_status r ≠ Pending.

Lemma mine_of z : z ∈ g_own g ∪ g_done g -> exists r, lookup_job t z = Some r /\ mine (g_lock g) r.
Proof.
  intros [Hz|Hz]%elem_of_union; apply mine_row;
    [left; by apply (to_own _ _ _ _ _ Hth)|by apply (to_done _ _ _ _ _ Hth)].
Qed.

Lemma mine_range z : z ∈ g_own g ∪ g_done g -> (0 < z < 2 ^ 31)%Z.
Proof.
  intros Hz. destruct (mine_of z Hz) as (r & Hr & _). apply lookup_job_Some in Hr as [Hr <-].
  destruct Hok as [_ Hrows]. rewrite Forall_forall in Hrows. by apply Hrows.
Qed.

Lemma done_exec u z :
  (forall r, mine (g_lock g) r -> matches (u_where u) r = true ->
     mine (g_lock g) (assign_all (u_set u) r)) ->
  z ∈ g_own g ∪ g_done g ->
  locked_row (exec_update u t) (g_lock g) z \/ dead_row (exec_update u t) z.
Proof. intros Hm Hz. apply mine_row, lookup_exec_sat; [auto|by apply mine_of]. Qed.

Lemma own_exec u z :
  (forall r, jr_id r = z -> jr_lock r = g_lock g -> jr_status r = Loading \/ jr_status r = Processing ->
     matches (u_where u) r = true ->
     jr_lock (assign_all (u_set u) r) = g_lock g /\
     (jr_status (assign_all (u_set u) r) = Loading \/ jr_status (assign_all (u_set u) r) = Processing)) ->
  z ∈ g_own g ->
  z ∈ g_own g /\ locked_row (exec_update u t) (g_lock g) z.
Proof.
  intros Hm Hz. split; [done|]. apply lookup_exec_sat; [|by apply (to_own _ _ _ _ _ Hth)].
  naive_solver.
Qed.

Lemma claim_step n :
  drawn i ticks (g_lock g) ->
  table_step i t (exec_update (claim_stmt (g_lock g) n) t) /\
  thread_ok X (exec_update (claim_stmt (g_lock g) n) t) i ticks g.
Proof.
  intros Hdr. assert (table_step i t (exec_update (claim_stmt (g_lock g) n) t)) as Hst.
  { apply exec_update_step. intros r Hr Hm. apply rs_claim; [done|]. by eapply drawn_prefix. }
  assert (forall r, matches (u_where (claim_stmt (g_lock g) n)) r = true ->
    jr_status r = Pending /\ jr_lock r = "") as Hc by (intros; by apply claimable_spec).
  split; [done|].
  eapply thread_ok_self; [apply Hth|apply Hi|apply Hst|apply HX|done| |done| | |].
  - intros Hf. by destruct (to_fresh _ _ _ _ _ Hth Hf) as (? & ? & _).
  - intros z. apply own_exec. intros r _ El Hs Hm. apply Hc in Hm as [Hm _].
    destruct Hs; congruence.
  - intros z Hz. apply done_exec; [|set_solver].
    intros r [[_ Hs]|[_ Hd]] Hm; apply Hc in Hm as [Hm _]; [destruct Hs; congruence|done].
  - apply (to_disj _ _ _ _ _ Hth).
Qed.

Lemma unlock_step :
  drawn i ticks (g_lock g) -> g_own g = ∅ ->
  table_step i t (exec_update (unlock_stmt (g_lock g)) t) /\
  thread_ok X (exec_update (unlock_stmt (g_lock g)) t) i ticks g.
Proof.
  intros Hdr Hown.
  assert (str_prefix (lock_prefix i) (g_lock g)) as Hp by by eapply drawn_prefix.
  assert (forall r, matches (u_where (unlock_stmt (g_lock g))) r = true ->
    jr_status r ≠ Pending /\ jr_lock r = g_lock g) as Hc.
  { intros r. unfold matches; simpl. rewrite !andb_true_iff, !bool_decide_eq_true. naive_solver. }
  assert (table_step i t (exec_update (unlock_stmt (g_lock g)) t)) as Hst.
  { apply exec_update_step. intros r Hr [Hs El]%Hc.
    change (assign_all _ r) with (set_lock "" r).
    replace (set_lock "" r) with (set_status (jr_status r) (set_lock "" r)) by done.
    apply rs_release; [by rewrite El|done]. }
  split; [done|].
  eapply thread_ok_self; [apply Hth|apply Hi|apply Hst|apply HX|done| |done| | |].
  - intros Hf. by destruct (to_fresh _ _ _ _ _ Hth Hf) as (? & ? & _).
  - rewrite Hown. set_solver.
  - intros z Hz. apply done_exec; [|set_solver].
    intros r _ Hm. apply Hc in Hm as [Hs _]. by right.
  - apply (to_disj _ _ _ _ _ Hth).
Qed.

(** The statements on one row.  [g'] moves the row out of [g_own], or
    leaves it where it is when the statement keeps the row's claim. *)
Lemma discard_step z0 (g' := mkGhost (g_own g ∖ {[z0]}) ({[z0]} ∪ g_done g) (g_lock g) (g_fresh g)) :
  z0 ∈ g_own g ->
  thread_ok X t i ticks g' /\
  table_step i t (exec_update (discard_stmt z0) t) /\
  thread_ok X (exec_update (discard_stmt z0) t) i ticks g'.
Proof.
  intros Hz0. assert (drawn i ticks (g_lock g)) as Hdr by (eapply (own_drawn X t i ticks g z0); [done|set_solver]).
  assert (g_fresh g' = true -> g_fresh g = true /\ g_own g' = ∅ /\ g_done g' = ∅) as Hf.
  { simpl. intros Hf. destruct (to_fresh _ _ _ _ _ Hth Hf) as (E & _). set_solver. }
  assert (forall z, z ∈ g_own g' -> z ∉ g_done g') as Hdisj.
  { simpl. intros z Hz. pose proof (to_disj _ _ _ _ _ Hth z). set_solver. }
  assert (table_step i t (exec_update (discard_stmt z0) t)) as Hst.
  { eapply (id_stmt_step X t i ticks g _ z0); [done..|set_solver| |].
    - intros r Hp _. by apply (rs_release i r Error).
    - intros r Hd. by apply (rs_dead i r Error). }
  split_and!; [|done|].
  - eapply thread_ok_self; [apply Hth|apply Hi|apply table_step_refl|apply HX|done|done|done| | |done].
    + simpl. intros z Hz. split; [set_solver|]. apply (to_own _ _ _ _ _ Hth). set_solver.
    + simpl. intros z Hz. apply mine_row, mine_of. set_solver.
  - eapply thread_ok_self; [apply Hth|apply Hi|apply Hst|apply HX|done|done|done| | |done].
    + simpl. intros z Hz. apply own_exec; [|set_solver].
      intros r Hid _ _ Hm. apply matches_id with (z := z0) in Hm; [|done]. set_solver.
    + simpl. intros z Hz. apply done_exec; [|set_solver]. intros r _ _. by right.
Qed.

Lemma processing_step z0 :
  z0 ∈ g_own g ∪ g_done g ->
  table_step i t (exec_update (processing_stmt z0) t) /\
  thread_ok X (exec_update (processing_stmt z0) t) i ticks g.
Proof.
  intros Hz0. assert (drawn i ticks (g_lock g)) as Hdr by by apply (own_drawn X t i ticks g z0).
  assert (table_step i t (exec_update (processing_stmt z0) t)) as Hst.
  { eapply (id_stmt_step X t i ticks g _ z0); [done..| |].
    - intros r Hp Hs. by apply rs_processing.
    - intros r [El Hs]. change (assign_all _ r) with (set_status Processing r).
      replace (set_status Processing r) with (set_status Processing (set_lock "" r))
        by (unfold set_status, set_lock; simpl; congruence).
      by apply rs_dead. }
  split; [done|].
  eapply thread_ok_self; [apply Hth|apply Hi|apply Hst|apply HX|done| |done| | |].
  - intros Hf. by destruct (to_fresh _ _ _ _ _ Hth Hf) as (? & ? & _).
  - intros z. apply own_exec. simpl. auto.
  - intros z Hz. apply done_exec; [|set_solver].
    intros r [[El Hs]|[El Hd]] Hm; [left|right]; unfold dead; simpl; auto.
  - apply (to_disj _ _ _ _ _ Hth).
Qed.

Lemma finish_step s z0 :
  z0 ∈ g_done g -> s = Complete \/ s = Error ->
  table_step i t (exec_update (finish_stmt s z0) t) /\
  thread_ok X (exec_update (finish_stmt s z0) t) i ticks g.
Proof.
  intros Hz0 Hs. assert (drawn i ticks (g_lock g)) as Hdr by (eapply (own_drawn X t i ticks g z0); [done|set_solver]).
  assert (s ≠ Pending) as Hnp by (by destruct Hs as [-> | ->]).
  assert (table_step i t (exec_update (finish_stmt s z0) t)) as Hst.
  { eapply (id_stmt_step X t i ticks g _ z0); [done..|set_solver| |].
    - intros r Hp _. by apply (rs_release i r s).
    - intros r Hd. by apply (rs_dead i r s). }
  split; [done|].
  eapply thread_ok_self; [apply Hth|apply Hi|apply Hst|apply HX|done| |done| | |].
  - intros Hf. by destruct (to_fresh _ _ _ _ _ Hth Hf) as (? & ? & _).
  - intros z Hz. apply own_exec; [|done].
    intros r Hid _ _ Hm. apply matches_id with (z := z0) in Hm; [|done].
    exfalso. apply (to_disj _ _ _ _ _ Hth z Hz). congruence.
  - intros z Hz. apply done_exec; [|set_solver]. intros r _ _. by right.
  - apply (to_disj _ _ _ _ _ Hth).
Qed.
End OneStatement.

(** A statement the discipline allows, with the server's answer to it:
    whichever way it goes, some continuation state is safe and its claims
    hold of the new table. *)
Lemma query_step X i ticks g K sql s r res s' :
  identity_ok i -> table_ok (jobs s) -> thread_ok X (jobs s) i ticks g ->
  (forall z, z ∈ X -> exists r, lookup_job (jobs s) z = Some r /\ jr_status r ≠ Pending) ->
  query_rule (Srv := Srv) i g K sql -> real_query s sql = ((r, res), s') ->
  exists g', K (r, res) g' /\ thread_ok X (jobs s') i ticks g' /\
    table_step i (jobs s) (jobs s') /\ table_ok (jobs s').
Proof.
  intros Hi Hok Hth HX Hrule Hq.
  assert (forall u g', program_update u -> sql = render (Update u) -> (forall x, K x g') ->
    thread_ok X (jobs s) i ticks g' ->
    table_step i (jobs s) (exec_update u (jobs s)) /\ thread_ok X (exec_update u (jobs s)) i ticks g' ->
    exists g', K (r, res) g' /\ thread_ok X (jobs s') i ticks g' /\
      table_step i (jobs s) (jobs s') /\ table_ok (jobs s')) as Hupd.
  { intros u g' Hu -> HK Hth' [Hst Hth'']. exists g'. split; [done|].
    pose proof (update_spec s u Hok Hu) as Hs. rewrite Hq in Hs.
    assert (jobs s' = jobs s \/ jobs s' = exec_update u (jobs s)) as [-> | ->] by tauto.
    - split_and!; [done|apply table_step_refl|done].
    - split_and!; [done|done|by apply exec_update_ok]. }
  assert (str_prefix (lock_prefix i) (g_lock g) -> drawn i ticks (g_lock g)) as Hdrawn.
  { intros Hp. destruct (to_lock _ _ _ _ _ Hth) as [-> | ?]; [|done].
    by apply lock_prefix_nonempty in Hp. }
  destruct Hrule as [n Hp Hlok Hn HK|n Hp Hlok Hn Hfr Herr Hnone Hrows|Hp Hlok Hown HK|z Hz HK|z Hz HK|st z Hz Hst HK].
  - eapply Hupd; [by apply pu_claim|done|done|done|]. by apply claim_step; auto.
  - pose proof (select_spec s (g_lock g) n Hok Hlok Hn) as Hs. rewrite Hq in Hs.
    destruct Hs as [Hj Hres]. rewrite Hj.
    destruct (decide (r = 0%Z)) as [->|Hr].
    2:{ exists g. split_and!; auto using table_step_refl. }
    destruct Hres as [-> | ->]; [done| |].
    { exists g. split_and!; auto using table_step_refl. }
    set (rs := select_rows (claimed_cond (g_lock g)) n (jobs s)).
    assert (forall r, r ∈ rs -> jr_status r = Loading /\ jr_lock r = g_lock g /\
      lookup_job (jobs s) (jr_id r) = Some r) as Hrs.
    { intros r Hr. apply select_rows_In in Hr as [Hm ?]; [|done].
      unfold matches in Hm; simpl in Hm. rewrite !andb_true_iff, !bool_decide_eq_true in Hm.
      naive_solver. }
    exists (mkGhost (ids rs) (g_done g) (g_lock g) false). split_and!; [| |apply table_step_refl|done].
    { apply Hrows; [|by apply select_rows_NoDup]. destruct Hok as [_ Hall].
      apply Forall_forall. intros x Hx. rewrite Forall_forall in Hall. apply Hall.
      by apply take_filter_In in Hx as [_ ?]. }
    destruct (to_fresh _ _ _ _ _ Hth Hfr) as (_ & Hd & HXf).
    constructor; simpl; [by right; auto| |by rewrite Hd; set_solver|by rewrite Hd; set_solver|done].
    intros z Hz. apply elem_of_list_to_set, list_elem_of_fmap in Hz as (x & -> & Hx).
    destruct (Hrs x Hx) as (Hs1 & Hs2 & Hs3). split; [exists x; auto|].
    intros Hinj HzX. by eapply HXf.
  - eapply Hupd; [by apply pu_unlock|done|done|done|]. by apply unlock_step; auto.
  - destruct (discard_step X (jobs s) i ticks g Hi Hok Hth HX z Hz) as (? & ? & ?).
    eapply Hupd; [|done|apply HK|done|done]. apply pu_discard. eapply mine_range; eauto. set_solver.
  - eapply Hupd; [|done|done|done|by apply processing_step]. apply pu_processing.
    by eapply mine_range.
  - eapply Hupd; [|done|done|done|by apply finish_step].
    assert (0 < z < 2 ^ 31)%Z by (eapply mine_range; eauto; set_solver).
    destruct Hst as [-> | ->]; [by apply pu_complete|by apply pu_error].
Qed.

(** ** The invariant *)

(** The rest of the thread's loop body is safe from its ghost state. *)
Definition pc_ok (th : thread) (g : ghost) : Prop :=
  match t_pc th with
  | PBody p => safe (Srv := Srv) (t_id th) (fun _ _ => True) p g
  | _ => True
  end.

Record thread_inv (X : list Z) (t : table) (th : thread) (g : ghost) : Prop := {
  ti_identity : identity_ok (t_id th);
  ti_pc : pc_ok th g;
  ti_ghost : thread_ok X t (t_id th) (l_ticks (t_local th)) g;
}.

End Claims.

Record sys_inv (y : system Srv) (gs : list ghost) : Prop := {
  si_table : table_ok (jobs (sys_server y));
  si_distinct : NoDup (t_id <$> sys_threads y);
  si_threads : Forall2 (thread_inv (fresh_locks y) (executed y) (jobs (sys_server y))) (sys_threads y) gs;
  si_executed z : z ∈ executed y -> executed_ok (sys_threads y) (jobs (sys_server y)) z;
  si_once : fresh_locks y -> NoDup (executed y);
}.

(** A weaker condition on lock ids is a stronger claim. *)
Lemma thread_ok_weaken (F F' : Prop) X t i ticks g :
  (F' -> F) -> thread_ok F X t i ticks g -> thread_ok F' X t i ticks g.
Proof.
  intros HF [Hl Ho Hd Hdis Hf]. constructor; [done| |done|done|].
  - intros z Hz. destruct (Ho z Hz) as [? HX]. split; [done|]. intros ?. by apply HX, HF.
  - intros E. destruct (Hf E) as (? & ? & HX). split_and!; [done..|]. intros ?. by apply HX, HF.
Qed.

Lemma draws_fresh_le i n m : n <= m -> draws_fresh i m -> draws_fresh i n.
Proof. intros Hnm H k l ???. apply H; lia || done. Qed.

(** Threads only ever draw more lock ids. *)
Lemma fresh_locks_insert s s' a a' ts i th th' :
  ts !! i = Some th -> t_id th' = t_id th -> l_ticks (t_local th) <= l_ticks (t_local th') ->
  fresh_locks (mkSystem s' a' (<[i := th']> ts)) -> fresh_locks (mkSystem s a ts).
Proof.
  intros Hi Hid Hticks H th0 (k & Hk)%list_elem_of_lookup. simpl in *.
  destruct (decide (k = i)) as [->|Hne]; simplify_eq.
  - eapply draws_fresh_le; [done|]. rewrite <-Hid. apply H.
    eapply list_elem_of_lookup_2, list_lookup_insert_eq, lookup_lt_Some, Hi.
  - apply H. eapply (list_elem_of_lookup_2 _ k). simpl. by rewrite list_lookup_insert_ne.
Qed.

Lemma executed_ok_row ths t z :
  executed_ok ths t z -> exists r, lookup_job t z = Some r /\ jr_status r ≠ Pending.
Proof. intros (r & ? & ? & _). eauto. Qed.

(** Executed jobs stay executed jobs when thread [i] acts. *)
Lemma executed_ok_step ths i th th' j t t' z :
  ths !! i = Some th -> t_id th' = t_id th -> l_ticks (t_local th) <= l_ticks (t_local th') ->
  table_step j t t' -> executed_ok ths t z -> executed_ok (<[i := th']> ths) t' z.
Proof.
  intros Hi Hid Hticks Ht (r & Hr & Hs & Hl).
  pose proof (table_step_lookup j t t' z Ht) as H. rewrite Hr in H.
  destruct H as (r' & Hr' & Hstep). exists r'. split; [done|].
  split; [by eapply row_step_not_pending|].
  destruct (row_step_lock _ _ _ Hstep Hs) as [El|El]; rewrite El; [|by left].
  destruct Hl as [->|(th0 & Hth0 & Hdr)]; [by left|right].
  apply list_elem_of_lookup in Hth0 as (k & Hk). destruct (decide (k = i)) as [->|Hne].
  - simplify_eq. exists th'. split.
    + eapply list_elem_of_lookup_2, list_lookup_insert_eq, lookup_lt_Some, Hi.
    + rewrite Hid. by eapply drawn_mono.
  - exists th0. split; [|done]. eapply list_elem_of_lookup_2. by rewrite list_lookup_insert_ne.
Qed.

Lemma concat_insert {A} (ls : list (list A)) i l n :
  ls !! i = Some l -> concat (<[i := n ++ l]> ls) ≡ₚ n ++ concat ls.
Proof.
  revert i; induction ls as [|l' ls IH]; intros [|i]; simpl; intros; simplify_eq.
  - by rewrite app_assoc.
  - rewrite IH by done. by rewrite Permutation_app_swap_app.
Qed.

(** The frame of every step of a thread: the acting thread re-establishes
    its own part, and everything else follows. *)
Lemma sys_inv_thread s a ts gs i th th' g g' s' a' new :
  sys_inv (mkSystem s a ts) gs -> ts !! i = Some th -> gs !! i = Some g ->
  t_id th' = t_id th -> l_ticks (t_local th) <= l_ticks (t_local th') ->
  l_trace (t_local th') = new ++ l_trace (t_local th) ->
  table_step (t_id th) (jobs s) (jobs s') -> table_ok (jobs s') ->
  (forall z, z ∈ new -> exists l, drawn (t_id th) (l_ticks (t_local th)) l /\ locked_row (jobs s) l z) ->
  (fresh_locks (mkSystem s a ts) -> NoDup (new ++ executed (mkSystem s a ts))) ->
  (forall X', (forall z, z ∈ X' <-> z ∈ new \/ z ∈ executed (mkSystem s a ts)) ->
     thread_inv (fresh_locks (mkSystem s' a' (<[i := th']> ts))) X' (jobs s') th' g') ->
  sys_inv (mkSystem s' a' (<[i := th']> ts)) (<[i := g']> gs).
Proof.
  intros [Htab Hd Hths Hex Honce] Hi Hgi Hid Hticks Htr Hst Htab' Hnew Hfr Hth'. simpl in *.
  assert (executed (mkSystem s' a' (<[i:=th']> ts)) ≡ₚ new ++ executed (mkSystem s a ts)) as HX.
  { unfold executed; simpl. rewrite list_fmap_insert, Htr. apply concat_insert.
    by rewrite list_lookup_fmap, Hi. }
  assert (forall z, z ∈ executed (mkSystem s' a' (<[i:=th']> ts)) <->
    z ∈ new \/ z ∈ executed (mkSystem s a ts)) as HXin by (intros z; by rewrite HX, elem_of_app).
  assert (identity_ok (t_id th)) as Hidok by (rewrite <-Hid; by apply (Hth' _ HXin)).
  assert (forall z, z ∈ new -> executed_ok ts (jobs s) z) as Hnewok.
  { intros z (l & Hdr & r & Hr & El & Hs)%Hnew. exists r. split; [done|].
    split; [by destruct Hs as [-> | ->]|]. right. exists th. rewrite El.
    split; [by eapply list_elem_of_lookup_2|done]. }
  split; simpl; [done| | | |].
  4:{ intros Hf%(fresh_locks_insert s s' a a' _ _ th); [|done..]. rewrite HX. auto. }
  - rewrite list_fmap_insert, Hid, list_insert_id; [done|]. by rewrite list_lookup_fmap, Hi.
  - apply Forall2_same_length_lookup. rewrite !length_insert.
    split; [by eapply Forall2_length|]. intros k thk gk Hk Hgk.
    destruct (decide (k = i)) as [->|Hne].
    { rewrite list_lookup_insert_eq in Hk by (by eapply lookup_lt_Some).
      rewrite list_lookup_insert_eq in Hgk by (by eapply lookup_lt_Some). simplify_eq. auto. }
    rewrite list_lookup_insert_ne in Hk by done. rewrite list_lookup_insert_ne in Hgk by done.
    destruct (Forall2_lookup_lr _ _ _ _ _ _ Hths Hk Hgk) as [Hidk Hpck Hgk'].
    split; [done|done|].
    eapply thread_ok_weaken; [by eapply fresh_locks_insert|].
    eapply (thread_ok_foreign _ _ _ _ _ (t_id th)); [done|done| |done| | | |done].
    + intros E. apply Hne. eapply (NoDup_lookup _ k i (t_id th) Hd); rewrite list_lookup_fmap.
      * rewrite Hk. simpl. congruence.
      * by rewrite Hi.
    + intros z Hz. apply HXin. by right.
    + intros z Hz. by eapply executed_ok_row, Hex.
    + intros z [Hz|Hz]%HXin; [right|by left]. destruct (Hnew z Hz) as (l & Hdr & Hl).
      exists l. split; [by eapply drawn_prefix|done].
  - intros z Hz%HXin. eapply executed_ok_step; [done..|]. destruct Hz; auto.
Qed.

(** *** A client inserts a row *)

Lemma lookup_job_app t1 t2 z r : lookup_job t1 z = Some r -> lookup_job (t1 ++ t2) z = Some r.
Proof.
  induction t1 as [|r' t1 IH]; [done|]. rewrite <-app_comm_cons, !lookup_job_cons. by case_decide; auto.
Qed.

Lemma table_ok_snoc t r :
  table_ok t -> row_ok r -> Forall (fun r' => (jr_id r' < jr_id r)%Z) t -> table_ok (t ++ [r]).
Proof.
  intros [Hs Hrows] Hr Hlt. split; [|apply Forall_app; split; [done|by constructor]].
  rewrite fmap_app. clear Hrows. induction Hlt as [|r' t Hr' Hlt IH]; [repeat constructor|].
  simpl in *. inversion Hs as [|? ? Hs' Hf]; subst. constructor; [by apply IH|].
  apply Forall_app; split; [done|]. by repeat constructor.
Qed.

Lemma thread_ok_snoc F X t r i ticks g :
  (forall z, z ∈ X -> exists r, lookup_job t z = Some r /\ jr_status r ≠ Pending) ->
  thread_ok F X t i ticks g -> thread_ok F X (t ++ [r]) i ticks g.
Proof.
  intros HX [Hl Ho Hd Hdis Hf].
  assert (forall l z, locked_row t l z -> locked_row (t ++ [r]) l z) as Hlk.
  { intros l z (r' & ? & ?). exists r'. split; [by apply lookup_job_app|done]. }
  constructor; [done| | |done|].
  - intros z Hz. destruct (Ho z Hz). auto.
  - intros z Hz. destruct (Hd z Hz) as [?|(r' & ? & ?)]; [left; auto|right].
    exists r'. split; [by apply lookup_job_app|done].
  - intros E. destruct (Hf E) as (? & ? & Hf'). split_and!; [done..|].
    intros Hfr z r' Hz Hr'. destruct (HX z Hz) as (r0 & Hr0 & _).
    rewrite (lookup_job_app _ _ _ _ Hr0) in Hr'. simplify_eq. by apply (Hf' Hfr z).
Qed.

Lemma sys_inv_client s s' a ts gs r :
  sys_inv (mkSystem s a ts) gs -> client_row (jobs s) r -> jobs s' = jobs s ++ [r] ->
  sys_inv (mkSystem s' a ts) gs.
Proof.
  intros [Htab Hd Hths Hex Honce] (Hr & _ & _ & Hlt) Hs'. simpl in *.
  split; simpl; rewrite ?Hs'; [by apply table_ok_snoc|done| | |done].
  - eapply Forall2_impl; [exact Hths|]. intros th g [??]. split; [done..|].
    apply thread_ok_snoc; [|done]. intros z Hz. by eapply executed_ok_row, Hex.
  - intros z (r' & Hr' & Hrest)%Hex. exists r'. split; [by apply lookup_job_app|done].
Qed.

(** *** Steps *)

Section Steps.
Context (outcome : identity -> Job -> Z).
Context (m_config : Settings) (m_job_types : GData job_creator_t) (leaks : Z).
Let m_db := mkMysql HLive leaks.
Hypothesis creators_ok : forall n c z nm row j,
  m_job_types !! n = Some c -> c z nm row = Some j -> id j = z.

Notation step := (step now outcome m_config m_job_types m_db).
Notation thread_step := (thread_step now outcome m_config m_job_types m_db).

Section Call.
Context (F : Prop).
Notation thread_ok := (thread_ok F).
Notation thread_inv := (thread_inv F).

Lemma thread_ok_ext X X' t i n m g :
  (forall z, z ∈ X' <-> z ∈ X) -> n <= m -> thread_ok X t i n g -> thread_ok X' t i m g.
Proof.
  intros HX Hnm [Hl Ho Hd Hdis Hf]. constructor; [|..|done|].
  - destruct Hl; [by left|right]. by eapply drawn_mono.
  - intros z Hz. rewrite HX. auto.
  - auto.
  - intros E. destruct (Hf E) as (? & ? & Hf'). split_and!; [done..|].
    intros Hfr z r Hz. apply Hf'; [done|]. by apply HX.
Qed.

(** What an executed job's row says about its lock, as thread [i] sees it. *)
Definition lock_seen (i : identity) (ticks : nat) (t : table) (z : Z) : Prop :=
  exists r, lookup_job t z = Some r /\ jr_status r ≠ Pending /\
  (jr_lock r = "" \/ exists j n, identity_ok j /\ drawn j n (jr_lock r) /\ (j = i -> n <= ticks)).

(** A new lock id is held by no executed job. *)
Lemma thread_ok_time X t i ticks :
  identity_ok i -> (forall z, z ∈ X -> lock_seen i ticks t z) -> (F -> draws_fresh i (S ticks)) ->
  thread_ok X t i (S ticks) (mkGhost ∅ ∅ (lockid i (now i ticks)) true).
Proof.
  intros Hi HX HF. constructor; simpl; [right; exists ticks; split; [lia|done]|set_solver..|].
  intros _. split_and!; [done..|]. intros Hfr z r Hz Hr E.
  destruct (HX z Hz) as (r' & Hr' & _ & Hl). simplify_eq.
  destruct Hl as [El|(j & n & Hj & (k & Hk & El) & Hn)].
  - eapply (lock_prefix_nonempty i); [by apply (lockid_prefix i)|]. by rewrite <-E.
  - assert (j = i) as ->.
    { eapply (lock_prefix_inj j i (jr_lock r)); [done..| |].
      - rewrite El. by apply lockid_prefix.
      - rewrite E. by apply lockid_prefix. }
    assert (n <= ticks) by auto. assert (k = ticks) by (apply (HF Hfr); lia || congruence). specialize (Hn eq_refl). lia.
Qed.

(** Executing an owned job makes it a done one. *)
Lemma thread_ok_execute X X' t i ticks g z0 :
  thread_ok X t i ticks g -> z0 ∈ g_own g -> (forall z, z ∈ X' <-> z = z0 \/ z ∈ X) ->
  thread_ok X' t i ticks (mkGhost (g_own g ∖ {[z0]}) ({[z0]} ∪ g_done g) (g_lock g) (g_fresh g)).
Proof.
  intros [Hl Ho Hd Hdis Hf] Hz0 HX. constructor; simpl.
  - right. by eapply (own_drawn F X t i ticks g z0); [constructor|set_solver].
  - intros z [Hz Hne]%elem_of_difference. destruct (Ho z Hz) as [? HnX]. split; [done|].
    intros Hfr [->|?]%HX; [set_solver|]. by apply HnX.
  - intros z [->%elem_of_singleton|Hz]%elem_of_union; [left; by apply Ho|auto].
  - intros z [Hz Hne]%elem_of_difference. specialize (Hdis z Hz). set_solver.
  - intros E. destruct (Hf E) as (E' & _). set_solver.
Qed.

(** What a step of a safe thread does: it keeps its claims, follows the life
    cycle of the rows, and executes only a job it owns. *)
Definition step_ok (X : list Z) (th : thread) (g : ghost) (s : Srv) (th' : thread) (s' : Srv) : Prop :=
  t_id th' = t_id th /\ l_ticks (t_local th) <= l_ticks (t_local th') /\
  table_step (t_id th) (jobs s) (jobs s') /\ table_ok (jobs s') /\
  exists new g', l_trace (t_local th') = new ++ l_trace (t_local th) /\
    (forall z, z ∈ new -> z ∈ g_own g) /\ NoDup new /\
    forall X', (forall z, z ∈ X' <-> z ∈ new \/ z ∈ X) -> thread_inv X' (jobs s') th' g'.

Lemma step_ok_quiet X i w c l g s c' l' :
  thread_inv X (jobs s) (mkThread i w c l) g -> table_ok (jobs s) ->
  l_ticks l' = l_ticks l -> l_trace l' = l_trace l -> pc_ok (mkThread i w c' l') g ->
  step_ok X (mkThread i w c l) g s (mkThread i w c' l') s.
Proof.
  intros [Hi _ Hth] Htab E1 E2 Hpc. simpl in *.
  split_and!; simpl; [done|lia|apply table_step_refl|done|].
  exists [], g. split_and!; [done|set_solver|constructor|]. intros X' HX'. split; simpl; [done..|].
  rewrite E1. eapply thread_ok_ext; [|done|done]. set_solver.
Qed.

(** One call of a safe program. *)
Lemma handle_inv X i w o k l g s r l' s' :
  thread_inv X (jobs s) (mkThread i w (PBody (Op o k)) l) g -> table_ok (jobs s) ->
  (forall z, z ∈ X -> lock_seen i (l_ticks l) (jobs s) z) -> (F -> draws_fresh i (l_ticks l')) ->
  handle (now i) (outcome i) o l s = Some (r, l', s') ->
  step_ok X (mkThread i w (PBody (Op o k)) l) g s (mkThread i w (PBody (k r)) l') s'.
Proof.
  intros Hinv Htab HX HF Hh. pose proof Hinv as [Hi Hpc Hth].
  destruct o; cbn [handle] in Hh; unfold pc_ok in Hpc;
    cbn [t_pc t_id t_local] in Hi, Hpc, Hth.
  - destruct (real_query s sql) as [[r0 res] s0] eqn:Eq. simplify_eq.
    edestruct (query_step F X i (l_ticks l') g) as (g' & HK & Hth' & Hst & Htab');
      [exact Hi|exact Htab|exact Hth| |exact Hpc|exact Eq|].
    { intros z Hz. destruct (HX z Hz) as (r & ? & ? & _). eauto. }
    split_and!; simpl; [done|done|done|done|]. exists [], g'.
    split_and!; [done|set_solver|constructor|]. intros X' HX'. split; simpl; [done..|].
    eapply thread_ok_ext; [|done|done]. set_solver.
  - simplify_eq. split_and!; simpl; [done|lia|apply table_step_refl|done|].
    exists [], (mkGhost ∅ ∅ (lockid i (now i (l_ticks l))) true).
    split_and!; [done|set_solver|constructor|]. intros X' HX'.
    split; simpl; [done|by apply Hpc|]. apply thread_ok_time; [done| |done]. intros z [Hz%not_elem_of_nil|Hz]%HX'; [done|auto].
  - simplify_eq. destruct Hpc as [Hown Hk]. split_and!; simpl; [done|lia|apply table_step_refl|done|].
    eexists [id j], _.
    split_and!; [done|set_solver|apply NoDup_singleton|]. intros X' HX'.
    split; simpl; [done|apply Hk|]. eapply thread_ok_execute; [done..|]. set_solver.
  - simplify_eq. by apply step_ok_quiet.
  - done.
Qed.

Lemma thread_step_inv X active th g s th' s' :
  thread_inv X (jobs s) th g -> table_ok (jobs s) ->
  (forall z, z ∈ X -> lock_seen (t_id th) (l_ticks (t_local th)) (jobs s) z) ->
  (F -> draws_fresh (t_id th) (l_ticks (t_local th'))) ->
  thread_step active th s = Some (th', s') -> step_ok X th g s th' s'.
Proof.
  intros Hinv Htab HX HF Hstep. destruct th as [i w c l].
  unfold thread_step in Hstep; cbn [t_id t_worker t_pc t_local] in *.
  destruct c as [|m wl|[[]|o k]|]; cbn [run_step] in Hstep.
  - destruct active; [destruct (l_queue l)|]; simplify_eq; by apply step_ok_quiet.
  - case_decide; [simplify_eq; by apply step_ok_quiet|]. cbn zeta in Hstep.
    destruct (l_queue l); [|simplify_eq; by apply step_ok_quiet].
    case_decide as Hwl; [simplify_eq; by apply step_ok_quiet|].
    injection Hstep as <- <-. apply step_ok_quiet; [exact Hinv|exact Htab|reflexivity..|].
    change (safe (Srv := Srv) i (fun _ _ => True)
      (work m_config m_job_types (mkMysql HLive leaks) i (wrap32 (wl + m))) g).
    apply safe_work; [exact creators_ok|apply Hinv|lia|apply wrap32_range].
  - simplify_eq. by apply step_ok_quiet.
  - destruct (handle _ _ _ _ _) as [[[r l'] s0]|] eqn:Eh; simplify_eq. by apply handle_inv.
  - done.
Qed.
End Call.

(** *** Every reachable state *)

Lemma executed_seen y gs i th z :
  sys_inv y gs -> sys_threads y !! i = Some th -> z ∈ executed y ->
  lock_seen (t_id th) (l_ticks (t_local th)) (jobs (sys_server y)) z.
Proof.
  intros [Htab Hd Hths Hex Honce] Hi Hz. destruct (Hex z Hz) as (r & Hr & Hs & Hl).
  exists r. split_and!; [done..|]. destruct Hl as [?|(th0 & Hth0 & Hdr)]; [by left|right].
  exists (t_id th0), (l_ticks (t_local th0)).
  apply list_elem_of_lookup in Hth0 as (k & Hk).
  destruct (Forall2_lookup_l _ _ _ _ _ Hths Hk) as (g & _ & Hinv).
  split_and!; [apply Hinv|done|]. intros E.
  assert (k = i) as ->; [|by simplify_eq].
  eapply (NoDup_lookup _ k i (t_id th) Hd); rewrite list_lookup_fmap.
  - rewrite Hk. simpl. congruence.
  - by rewrite Hi.
Qed.

(** A step that only touches the queue of a thread. *)
Lemma sys_inv_local s a ts gs i th (f : local -> local) :
  (forall l, l_ticks (f l) = l_ticks l /\ l_trace (f l) = l_trace l) ->
  sys_inv (mkSystem s a ts) gs -> ts !! i = Some th ->
  sys_inv (mkSystem s a (<[i := set_local f th]> ts)) gs.
Proof.
  intros Hf Hinv Hi. destruct (Hf (t_local th)) as [Et Ex].
  destruct (Forall2_lookup_l _ _ _ _ _ (si_threads _ _ Hinv) Hi) as (g & Hg & [Hid Hpc Hth]).
  simpl in Hth. rewrite <-(list_insert_id gs i g Hg).
  eapply (sys_inv_thread _ _ _ _ _ _ _ g g _ _ []); [done..| | | | | | |]; simpl; try done; try lia.
  - apply table_step_refl.
  - apply Hinv.
  - set_solver.
  - apply Hinv.
  - intros X' HX'. split; [done..|]. simpl. rewrite Et.
    eapply (thread_ok_ext _ (executed (mkSystem s a ts))); [set_solver|done|].
    eapply thread_ok_weaken; [|exact Hth].
    eapply fresh_locks_insert; [done..|]. simpl. by rewrite Et.
Qed.

Lemma step_inv y y' gs : sys_inv y gs -> step y y' -> exists gs', sys_inv y' gs'.
Proof.
  intros Hinv Hstep. destruct Hstep as [s a ts i th th' s' Hi Hst|s a ts i th Hi|s a ts i th Hi|s a ts w|s a ts r s' Hr Hs'].
  - destruct (Forall2_lookup_l _ _ _ _ _ (si_threads _ _ Hinv) Hi) as (g & Hg & Hth).
    pose proof (fun z => executed_seen _ _ i th z Hinv Hi) as Hseen.
    assert (forall F : Prop, (F -> fresh_locks (mkSystem s a ts)) -> (F -> draws_fresh (t_id th) (l_ticks (t_local th'))) ->
      step_ok F (executed (mkSystem s a ts)) th g s th' s') as Hok.
    { intros F HF HF'. eapply thread_step_inv; [|apply (si_table _ _ Hinv)|exact Hseen|exact HF'|exact Hst].
      destruct Hth as [? ? Hth]. split; [done..|]. eapply thread_ok_weaken; [exact HF|exact Hth]. }
    destruct (Hok False) as (Hid & Hticks & _); [intros []..|].
    destruct (Hok (fresh_locks (mkSystem s' a (<[i := th']> ts))))
      as (_ & _ & Htst & Htab' & new & g' & Htr & Hown & Hnd & Hth').
    { by eapply fresh_locks_insert. }
    { intros HF. rewrite <-Hid. apply HF.
      eapply list_elem_of_lookup_2, list_lookup_insert_eq, lookup_lt_Some, Hi. }
    exists (<[i := g']> gs). eapply sys_inv_thread; [done..| | |done].
    + intros z Hz%Hown. destruct (to_own _ _ _ _ _ _ (ti_ghost _ _ _ _ _ Hth) z Hz) as [Hrow _].
      exists (g_lock g). split; [|done].
      eapply (own_drawn _ _ _ _ _ _ z); [apply Hth|by apply elem_of_union_l].
    + intros Hfr. apply NoDup_app. split_and!; [done| |by apply Hinv].
      intros z Hz%Hown. by apply (to_own _ _ _ _ _ _ (ti_ghost _ _ _ _ _ Hth) z Hz).
  - exists gs. by apply sys_inv_local.
  - exists gs. by apply sys_inv_local.
  - exists gs. destruct Hinv. by split.
  - exists gs. by eapply sys_inv_client.
Qed.

Lemma initial_inv y : initial y -> sys_inv y (replicate (length (sys_threads y)) ghost0).
Proof.
  intros (Htab & Hd & Hths). rewrite Forall_forall in Hths.
  assert (executed y = []) as HX.
  { unfold executed. apply concat_nil_Forall, Forall_fmap, Forall_forall.
    intros th Hth. by destruct (Hths th Hth) as (_ & _ & _ & ?). }
  split; [done|done| | |].
  - apply Forall2_same_length_lookup. rewrite length_replicate. split; [done|].
    intros k th g Hk%list_elem_of_lookup_2 [-> _]%lookup_replicate.
    destruct (Hths th Hk) as (? & Hpc & _). split; [done| |apply ghost0_ok]. unfold pc_ok. by rewrite Hpc.
  - rewrite HX. set_solver.
  - rewrite HX. constructor.
Qed.

Lemma reachable_inv y :
  reachable now outcome m_config m_job_types m_db y -> exists gs, sys_inv y gs.
Proof.
  intros (y0 & H0%initial_inv & Hrun). revert H0. generalize (replicate (length (sys_threads y0)) ghost0).
  induction Hrun as [y|y1 y2 y3 Hstep _ IH]; intros gs Hinv; [eauto|].
  destruct (step_inv _ _ _ Hinv Hstep) as (gs' & Hinv'). eauto.
Qed.

(** A thread inside [real_execute] holds the claim on the job's row. *)
Lemma executing_owned y gs i z :
  sys_inv y gs -> executing y i z ->
  exists th, sys_threads y !! i = Some th /\ identity_ok (t_id th) /\
  exists l, str_prefix (lock_prefix (t_id th)) l /\ locked_row (jobs (sys_server y)) l z.
Proof.
  intros Hinv (th & Hi & Hex)%bind_Some. exists th. split; [done|].
  destruct (Forall2_lookup_l _ _ _ _ _ (si_threads _ _ Hinv) Hi) as (g & _ & [Hid Hsafe Hth]).
  split; [done|]. unfold pc_ok in Hsafe. unfold executing_job in Hex.
  destruct (t_pc th) as [| |[|[]]|]; try discriminate Hex. injection Hex as Hz.
  destruct Hsafe as [Hown _]. rewrite Hz in Hown. exists (g_lock g). split.
  - eapply drawn_prefix; [done|].
    eapply (own_drawn _ _ _ _ _ _ z); [apply Hth|by apply elem_of_union_l].
  - by apply (to_own _ _ _ _ _ _ Hth).
Qed.

(** Two threads never hold the claim on the same row. *)
Lemma executing_distinct y gs i j z z' :
  sys_inv y gs -> i ≠ j -> executing y i z -> executing y j z' -> z ≠ z'.
Proof.
  intros Hinv Hij Hi Hj.
  destruct (executing_owned _ _ _ _ Hinv Hi) as (th & Hth & Hid & l & Hl & r & Hr & El & _).
  destruct (executing_owned _ _ _ _ Hinv Hj) as (th' & Hth' & Hid' & l' & Hl' & r' & Hr' & El' & _).
  intros ->. simplify_eq. apply Hij.
  eapply (NoDup_lookup _ i j (t_id th) (si_distinct _ _ Hinv)); rewrite list_lookup_fmap.
  - by rewrite Hth.
  - rewrite Hth'. simpl. f_equal. by eapply lock_prefix_inj.
Qed.

(** A safe thread is never stuck before its exit. *)
Lemma safe_progress F X t th g active s :
  thread_inv F X t th g -> t_pc th ≠ PExit -> is_Some (thread_step active th s).
Proof.
  intros [_ Hpc _] Hex. destruct th as [i w c l]. unfold pc_ok in Hpc. unfold thread_step.
  cbn [t_pc t_id t_local t_worker] in *.
  destruct c as [|m wl|[[]|[] k]|]; cbn [run_step handle]; try done.
  - destruct active, (l_queue l); eauto.
  - case_decide; [eauto|]. cbn zeta. destruct (l_queue l); [|eauto]. case_decide; eauto.
  - destruct (real_query s sql) as [[? ?] ?]. eauto.
Qed.

Lemma sys_thread_step s a ts gs i th th' s' :
  sys_inv (mkSystem s a ts) gs -> ts !! i = Some th ->
  thread_step (a (t_worker th)) th s = Some (th', s') -> table_step (t_id th) (jobs s) (jobs s').
Proof.
  intros Hinv Hi Hst.
  destruct (Forall2_lookup_l _ _ _ _ _ (si_threads _ _ Hinv) Hi) as (g & _ & [Hid Hpc Hth]).
  assert (step_ok False (executed (mkSystem s a ts)) th g s th' s') as (_ & _ & Ht & _); [|exact Ht].
  eapply thread_step_inv; [|exact (si_table _ _ Hinv)| |intros []|exact Hst].
  - split; [exact Hid|exact Hpc|]. eapply thread_ok_weaken; [intros []|exact Hth].
  - intros z. exact (executed_seen _ gs i th z Hinv Hi).
Qed.

(** What a step does to the table. *)
Lemma step_table y y' gs :
  sys_inv y gs -> step y y' ->
  let t := jobs (sys_server y) in
  let t' := jobs (sys_server y') in
  t' = t \/
  (exists th, th ∈ sys_threads y /\ table_step (t_id th) t t') \/
  (exists r, client_row t r /\ t' = t ++ [r]).
Proof.
  intros Hinv Hstep. destruct Hstep as [s a ts i th th' s' Hi Hst| | | |]; simpl; eauto.
  right; left. exists th. split; [by eapply list_elem_of_lookup_2|].
  by eapply sys_thread_step.
Qed.

(** A row keeps its key, its name and its data, and never returns to pending. *)
Definition row_kept (r r' : job_row) : Prop :=
  jr_name r' = jr_name r /\ jr_data r' = jr_data r /\
  (jr_status r ≠ Pending -> jr_status r' ≠ Pending).

Lemma step_row_kept y y' gs z r :
  sys_inv y gs -> step y y' -> lookup_job (jobs (sys_server y)) z = Some r ->
  exists r', lookup_job (jobs (sys_server y')) z = Some r' /\ row_kept r r'.
Proof.
  intros Hinv Hst Hr.
  destruct (step_table _ _ _ Hinv Hst) as [E|[(th & _ & Ht)|(rn & _ & E)]].
  - rewrite E. by exists r.
  - pose proof (table_step_lookup _ _ _ z Ht) as Hl. rewrite Hr in Hl.
    destruct Hl as (r' & Hr' & Hs). exists r'. destruct (row_step_id _ _ _ Hs) as (_ & ? & ?).
    split; [done|]. split_and!; [done|done|]. by eapply row_step_not_pending.
  - rewrite E. exists r. split; [by apply lookup_job_app|done].
Qed.

Lemma steps_row_kept y y' gs z r :
  sys_inv y gs -> rtc step y y' -> lookup_job (jobs (sys_server y)) z = Some r ->
  exists r', lookup_job (jobs (sys_server y')) z = Some r' /\ row_kept r r'.
Proof.
  intros Hinv Hrun. revert gs r Hinv.
  induction Hrun as [y|y1 y2 y3 Hstep _ IH]; intros gs r Hinv Hr; [by exists r|].
  destruct (step_row_kept _ _ _ _ _ Hinv Hstep Hr) as (r2 & Hr2 & Hk).
  destruct (step_inv _ _ _ Hinv Hstep) as (gs' & Hinv').
  destruct (IH _ _ Hinv' Hr2) as (r3 & Hr3 & Hk'). exists r3. split; [done|].
  destruct Hk as (? & ? & ?), Hk' as (? & ? & ?). split_and!; [congruence|congruence|auto].
Qed.
End Steps.
End Inv.

(** ** A running example *)

Module Demo.
Definition now (i : identity) (n : nat) : Z * Z := (Z.of_nat n, 0%Z).
Definition outcome (i : identity) (j : Job) : Z := 1%Z.
Definition config : Settings := mkSettings "/usr/bin" "test" ∅ ∅.
Definition types : GData job_creator_t := {[ "n" := fun z nm row => Some (new_Job z nm row) ]}.
Definition row (z : Z) : job_row := mkRow z "n" Pending "" None.

(** A thread with [k] work messages waiting. *)
Definition worker_thread (pid tid : Z) (k : nat) : thread :=
  mkThread (mkIdentity pid tid) 0 PWhile (mkLocal (replicate k 1%Z) (Z.of_nat k) 0 []).

(** Two threads of two processes, two pending jobs. *)
Definition start : system table_server :=
  mkSystem (mkTableServer [row 1; row 2]) (fun _ => true)
    [worker_thread 100 4096 1; worker_thread 101 4096 1].

Notation run order :=
  (run_schedule now outcome config types (mkMysql HLive 0) order start).

(** Both threads claim, interleaved; each is then inside [real_execute]. *)
Definition claims : list nat := [0; 1; 0; 1; 0; 1; 0; 1; 0; 1; 0; 1].
Definition both_executing : system table_server := default start (run claims).

(** Then both finish. *)
Definition executions : list nat := claims ++ [0; 1; 0; 1; 0; 1; 0; 1].
Definition both_done : system table_server := default start (run executions).

Definition nth_thread (y : system table_server) (i : nat) : thread :=
  default (worker_thread 0 0 0) (sys_threads y !! i).

Lemma start_initial : initial start.
Proof.
  split; [|split].
  - split; [repeat constructor|]. repeat constructor; simpl; try done; lia.
  - simpl. repeat constructor; set_solver.
  - repeat constructor; simpl; lia.
Qed.

Lemma demo_now_ok i n : time_ok (now i n).
Proof. split; simpl; lia. Qed.

Lemma demo_types_ok : creators_keep_id types.
Proof.
  intros n c z nm row j Hc Hj. unfold types in Hc.
  apply lookup_singleton_Some in Hc as [_ <-]. by injection Hj as <-.
Qed.

Lemma run_reachable order :
  reachable now outcome config types (mkMysql HLive 0) (default start (run order)).
Proof.
  exists start. split; [apply start_initial|].
  destruct (run order) eqn:E; [by eapply run_schedule_steps|done].
Qed.

Lemma start_reachable : reachable now outcome config types (mkMysql HLive 0) start.
Proof. exists start. split; [apply start_initial|done]. Qed.

Lemma both_executing_reachable :
  reachable now outcome config types (mkMysql HLive 0) both_executing.
Proof. exact (run_reachable claims). Qed.

Lemma both_done_reachable : reachable now outcome config types (mkMysql HLive 0) both_done.
Proof. exact (run_reachable executions). Qed.

Lemma both_executing_steps :
  rtc (step now outcome config types (mkMysql HLive 0)) start both_executing.
Proof.
  unfold both_executing. destruct (run claims) eqn:E; [by eapply run_schedule_steps|done].
Qed.

Lemma both_executing_threads :
  sys_threads both_executing = [nth_thread both_executing 0; nth_thread both_executing 1].
Proof.
  assert (length (sys_threads both_executing) = 2) as E by (vm_compute; reflexivity).
  unfold nth_thread. by destruct (sys_threads both_executing) as [|? [|? []]].
Qed.
End Demo.

(** ** Properties *)

Section Properties.
Context {Srv : Type} `{!MySQL Srv} `{!MySQLSpec Srv}.
Context (now : identity -> nat -> Z * Z) (outcome : identity -> Job -> Z).
Context (m_config : Settings) (m_job_types : GData job_creator_t) (leaks : Z).
Hypothesis now_ok : forall i n, time_ok (now i n).
Hypothesis creators_ok : creators_keep_id m_job_types.
Notation reachable := (reachable now outcome m_config m_job_types (mkMysql HLive leaks)).
Notation step := (step now outcome m_config m_job_types (mkMysql HLive leaks)).
Notation thread_step := (thread_step now outcome m_config m_job_types (mkMysql HLive leaks)).

(** C1: mutual exclusion.  In every reachable state of any number of worker
    threads in any number of processes, with statements interleaved and
    queries failing arbitrarily, two different threads are never inside
    [real_execute] of the same job. *)
Theorem mutual_exclusion (y : system Srv) i j z z' :
  reachable y -> i ≠ j -> executing y i z -> executing y j z' -> z ≠ z'.
Proof.
  intros [gs Hinv]%reachable_inv Hij Hi Hj; [|done..]. by eapply executing_distinct.
Qed.

(** C2: at most once.  As long as no thread draws the same lock id twice (its
    clock readings differ), no job is executed a second time, by any thread,
    however the queries that mark it fail. *)
Theorem executed_at_most_once (y : system Srv) :
  reachable y -> fresh_locks now y -> NoDup (executed y).
Proof. intros [gs Hinv]%reachable_inv Hf; [|done..]. by apply (si_once _ _ _ Hinv). Qed.

(** C9: the life cycle.  Every step of the system leaves the table alone, or
    is a step of one thread under which every row keeps its place, key, name
    and data and moves along [row_step] (claim when pending and unlocked;
    start, finish or release only what the thread has locked; or touch an
    unlocked row that is past pending), or appends a client's new row. *)
Theorem table_life_cycle (y y' : system Srv) :
  reachable y -> step y y' ->
  jobs (sys_server y') = jobs (sys_server y) \/
  (exists th, th ∈ sys_threads y /\ table_step (t_id th) (jobs (sys_server y)) (jobs (sys_server y'))) \/
  (exists r, client_row (jobs (sys_server y)) r /\ jobs (sys_server y') = jobs (sys_server y) ++ [r]).
Proof. intros [gs Hinv]%reachable_inv Hst; [|done..]. by eapply step_table. Qed.

(** C10: nothing is lost or queued again.  Whatever happens after a reachable
    state, a row of its table is still there later with the same name and
    data, and once it has left pending it is never pending again. *)
Theorem never_requeued (y y' : system Srv) z r :
  reachable y -> rtc step y y' -> lookup_job (jobs (sys_server y)) z = Some r ->
  exists r', lookup_job (jobs (sys_server y')) z = Some r' /\ row_kept r r'.
Proof. intros [gs Hinv]%reachable_inv Hrun Hr; [|done..]. by eapply steps_row_kept. Qed.

(** C11: while a thread is inside [real_execute], the row of its job is locked
    under an id that starts with the thread's own pid and address, its status
    is loading or processing, and a step of any other thread leaves that row
    exactly as it is. *)
Theorem running_row_untouched (y : system Srv) i k z th th' s' :
  reachable y -> executing y i z ->
  sys_threads y !! k = Some th -> k ≠ i ->
  thread_step (sys_active y (t_worker th)) th (sys_server y) = Some (th', s') ->
  exists me r, sys_threads y !! i = Some me /\
    lookup_job (jobs (sys_server y)) z = Some r /\
    str_prefix (lock_prefix (t_id me)) (jr_lock r) /\
    (jr_status r = Loading \/ jr_status r = Processing) /\
    lookup_job (jobs s') z = Some r.
Proof.
  intros [gs Hinv]%reachable_inv Hi Hk Hki Hst; [|done..].
  destruct (executing_owned now now_ok _ _ _ _ Hinv Hi) as (me & Hme & Hid & l & Hl & Hrow).
  destruct (Forall2_lookup_l _ _ _ _ _ (si_threads _ _ _ Hinv) Hk) as (g & _ & [Hidk _ _]).
  assert (table_step (t_id th) (jobs (sys_server y)) (jobs s')) as Ht.
  { destruct y. by eapply sys_thread_step. }
  assert (t_id th ≠ t_id me) as Hne.
  { intros E. apply Hki. eapply (NoDup_lookup _ k i (t_id th) (si_distinct _ _ _ Hinv)); rewrite list_lookup_fmap.
    - by rewrite Hk.
    - rewrite Hme. simpl. congruence. }
  pose proof Hrow as (r & Hr & El & Hs). exists me, r. rewrite El. split_and!; [done..|].
  pose proof (table_step_lookup _ _ _ z Ht) as Hstep. rewrite Hr in Hstep.
  destruct Hstep as (r' & Hr' & Hstep).
  apply (foreign_step (t_id th) (t_id me)) in Hstep; [by subst|done|done|done|by rewrite El].
Qed.

(** C12: no undefined behaviour and no deadlock.  In every reachable state each
    thread that has not left its loop can take a step: it never over-reads the
    query buffer, uses a closed connection or reads the wrong member of a
    column. *)
Theorem threads_never_stuck (y : system Srv) i th active :
  reachable y -> sys_threads y !! i = Some th -> t_pc th ≠ PExit ->
  is_Some (thread_step active th (sys_server y)).
Proof.
  intros [gs Hinv]%reachable_inv Hi Hpc; [|done..].
  destruct (Forall2_lookup_l _ _ _ _ _ (si_threads _ _ _ Hinv) Hi) as (g & _ & Hth).
  by eapply safe_progress.
Qed.

(** *** A thread of a process that shuts down *)

Notation run_schedule := (run_schedule now outcome m_config m_job_types (mkMysql HLive leaks)).

Definition exits (y : system Srv) (i : nat) : Prop :=
  exists n y' th', run_schedule (replicate n i) y = Some y' /\
    sys_threads y' !! i = Some th' /\ t_pc th' = PExit.

Lemma exits_step s a ts i th th' s' :
  ts !! i = Some th -> thread_step (a (t_worker th)) th s = Some (th', s') ->
  exits (mkSystem s' a (<[i := th']> ts)) i -> exits (mkSystem s a ts) i.
Proof.
  intros Hi Hst (n & y' & th'' & Hrun & Hth & Hpc). exists (S n), y', th''. split; [|done].
  cbn [replicate System.run_schedule sys_threads sys_active sys_server]. rewrite Hi.
  cbn [mbind option_bind]. rewrite Hst. exact Hrun.
Qed.

(** The next state of a thread that has not exited, in an inactive process. *)
Definition next_pc (c : pc) (l : local) (c' : pc) (l' : local) : Prop :=
  match c with
  | PWhile => c' = PExit
  | PDrain _ _ => c' = PWhile \/ (exists p, c' = PBody p) \/
      exists m w q x, c' = PDrain m w /\ l_queue l = x :: q /\ l_queue l' = q
  | PBody (Ret _) => c' = PWhile
  | PBody (Op o k) => exists r, c' = PBody (k r)
  | PExit => False
  end.

Lemma inactive_step th s th' s' :
  thread_step false th s = Some (th', s') ->
  t_id th' = t_id th /\ t_worker th' = t_worker th /\
  next_pc (t_pc th) (t_local th) (t_pc th') (t_local th').
Proof.
  destruct th as [i w c l]. unfold thread_step. cbn [t_id t_worker t_pc t_local].
  destruct c as [|m wl|[[]|o k]|]; cbn [run_step].
  - intros [= <- <-]. done.
  - case_decide; [intros [= <- <-]; simpl; auto|]. cbn zeta. destruct (l_queue l) as [|x q] eqn:Eq.
    + case_decide; intros E; injection E as <- <-; cbn [t_id t_worker t_pc t_local next_pc];
        (split; [reflexivity|split; [reflexivity|]]); [by left|right; left; eexists; reflexivity].
    + intros [= <- <-]. cbn [t_id t_worker t_pc t_local next_pc]. split_and!; [done|done|].
      right; right. exists x, (wrap32 (wl + m)), q, x. done.
  - intros [= <- <-]. done.
  - destruct (handle _ _ _ _ _) as [[[r l'] s0]|]; intros E; [|done].
    injection E as <- <-. simpl. eauto.
  - done.
Qed.

Lemma inactive_exits n : forall c s a ts i th,
  reachable (mkSystem s a ts) -> ts !! i = Some th -> a (t_worker th) = false -> t_pc th = c ->
  length (l_queue (t_local th)) <= n -> exits (mkSystem s a ts) i.
Proof.
  assert (forall s a ts i th, reachable (mkSystem s a ts) -> ts !! i = Some th -> a (t_worker th) = false ->
    t_pc th ≠ PExit ->
    (forall th' s', reachable (mkSystem s' a (<[i := th']> ts)) ->
       <[i := th']> ts !! i = Some th' -> a (t_worker th') = false ->
       next_pc (t_pc th) (t_local th) (t_pc th') (t_local th') ->
       exits (mkSystem s' a (<[i := th']> ts)) i) ->
    exits (mkSystem s a ts) i) as Hnext.
  { intros s a ts i th Hreach Hi Ha Hpc Hk.
    assert (exists gs, sys_inv now (mkSystem s a ts) gs) as [gs Hinv] by (eapply reachable_inv; eauto).
    destruct (Forall2_lookup_l _ _ _ _ _ (si_threads _ _ _ Hinv) Hi) as (g & _ & Hth).
    destruct (safe_progress now outcome m_config m_job_types leaks _ _ _ _ _ (a (t_worker th)) s Hth Hpc) as [[th' s'] Hst].
    eapply exits_step; [exact Hi|exact Hst|].
    pose proof Hst as Hst'. rewrite Ha in Hst'. destruct (inactive_step _ _ _ _ Hst') as (Eid & Ew & Hn).
    apply Hk; [|by eapply list_lookup_insert_eq, lookup_lt_Some|by rewrite Ew|done].
    destruct Hreach as (y0 & H0 & Hrun). exists y0. split; [done|].
    eapply rtc_r; [exact Hrun|]. by eapply step_thread. }
  assert (forall s a ts i th, reachable (mkSystem s a ts) -> ts !! i = Some th -> a (t_worker th) = false ->
    t_pc th = PExit -> exits (mkSystem s a ts) i) as Hexit.
  { intros s a ts i th _ Hi _ Hpc. by exists 0, (mkSystem s a ts), th. }
  assert (forall s a ts i th, reachable (mkSystem s a ts) -> ts !! i = Some th -> a (t_worker th) = false ->
    t_pc th = PWhile -> exits (mkSystem s a ts) i) as Hwhile.
  { intros s a ts i th Hr Hi Ha Hpc. eapply Hnext; [done..|by rewrite Hpc|].
    rewrite Hpc. intros. by eapply Hexit. }
  assert (forall p s a ts i th, reachable (mkSystem s a ts) -> ts !! i = Some th -> a (t_worker th) = false ->
    t_pc th = PBody p -> exits (mkSystem s a ts) i) as Hbody.
  { induction p as [[]|o k IH]; intros s a ts i th Hr Hi Ha Hpc; eapply Hnext; try done; try (by rewrite Hpc);
      rewrite Hpc; cbn [next_pc].
    - intros. by eapply Hwhile.
    - intros th' s' ? ? ? [r Hr']. by eapply IH. }
  assert (forall m wl s a ts i th, reachable (mkSystem s a ts) -> ts !! i = Some th ->
    a (t_worker th) = false -> t_pc th = PDrain m wl -> length (l_queue (t_local th)) <= n ->
    exits (mkSystem s a ts) i) as Hdrain.
  { induction n as [|n IH]; intros m wl s a ts i th Hr Hi Ha Hpc Hlen;
      (eapply Hnext; [exact Hr|exact Hi|exact Ha|rewrite Hpc; discriminate|]); rewrite Hpc; cbn [next_pc];
      intros th' s' Hr' Hi' Ha' [E|[[p E]|(m' & w' & q & x & E & Hq & Hq')]];
      try exact (Hwhile _ _ _ _ _ Hr' Hi' Ha' E); try exact (Hbody _ _ _ _ _ _ Hr' Hi' Ha' E);
      rewrite Hq in Hlen; simpl in Hlen; [lia|].
    apply (IH m' w' _ _ _ _ _ Hr' Hi' Ha' E). rewrite Hq'. lia. }
  intros [|m wl|p|] s a ts i th Hr Hi Ha Hpc Hlen.
  - exact (Hwhile _ _ _ _ _ Hr Hi Ha Hpc).
  - exact (Hdrain _ _ _ _ _ _ _ Hr Hi Ha Hpc Hlen).
  - exact (Hbody _ _ _ _ _ _ Hr Hi Ha Hpc).
  - exact (Hexit _ _ _ _ _ Hr Hi Ha Hpc).
Qed.

(** C13: shutdown.  Once [m_active] of its process is false, a thread left to
    run always leaves its loop after finitely many steps, wherever it was: the
    batch it is working on is finished first, no matter which queries fail. *)
Theorem inactive_thread_exits (y : system Srv) i th :
  reachable y -> sys_threads y !! i = Some th -> sys_active y (t_worker th) = false ->
  exists n y' th', run_schedule (replicate n i) y = Some y' /\
    sys_threads y' !! i = Some th' /\ t_pc th' = PExit.
Proof. destruct y as [s a ts]. intros Hr Hi Ha. by eapply inactive_exits. Qed.
End Properties.

(** ** Witnesses *)

Lemma mutual_exclusion_witness :
  executing Demo.both_executing 0 1 /\ executing Demo.both_executing 1 2 /\ (1 ≠ 2)%Z.
Proof.
  assert (executing Demo.both_executing 0 1) as H0 by (vm_compute; reflexivity).
  assert (executing Demo.both_executing 1 2) as H1 by (vm_compute; reflexivity).
  split; [exact H0|split; [exact H1|]].
  exact (mutual_exclusion Demo.now Demo.outcome Demo.config Demo.types 0 Demo.demo_now_ok Demo.demo_types_ok
    Demo.both_executing 0 1 1 2 Demo.both_executing_reachable ltac:(lia) H0 H1).
Defined.

Lemma executed_at_most_once_witness :
  executed Demo.both_done = [1; 2]%Z /\ NoDup (executed Demo.both_done).
Proof.
  split; [vm_compute; reflexivity|].
  apply (executed_at_most_once Demo.now Demo.outcome Demo.config Demo.types 0 Demo.demo_now_ok
    Demo.demo_types_ok); [exact Demo.both_done_reachable|].
  intros th Hth n m Hn Hm _.
  assert (l_ticks <$> (t_local <$> sys_threads Demo.both_done) = [1; 1]) as E
    by (vm_compute; reflexivity).
  assert (l_ticks (t_local th) ∈ [1; 1]) as Hin.
  { rewrite <-E. apply list_elem_of_fmap. exists (t_local th). split; [reflexivity|].
    apply list_elem_of_fmap. exists th. split; [reflexivity|exact Hth]. }
  rewrite !elem_of_cons, elem_of_nil in Hin. clear E Hth. lia.
Defined.

Lemma table_life_cycle_witness :
  exists y', step Demo.now Demo.outcome Demo.config Demo.types (mkMysql HLive 0) Demo.start y' /\
  jobs (sys_server y') = jobs (sys_server Demo.start).
Proof.
  exists (mkSystem (sys_server Demo.start) (deactivate 0 (sys_active Demo.start))
    (sys_threads Demo.start)).
  assert (step Demo.now Demo.outcome Demo.config Demo.types (mkMysql HLive 0) Demo.start
    (mkSystem (sys_server Demo.start) (deactivate 0 (sys_active Demo.start))
       (sys_threads Demo.start))) as Hst by apply step_shutdown.
  split; [exact Hst|].
  destruct (table_life_cycle Demo.now Demo.outcome Demo.config Demo.types 0 Demo.demo_now_ok
    Demo.demo_types_ok _ _ Demo.start_reachable Hst) as [E|_]; [exact E|reflexivity].
Defined.

Lemma never_requeued_witness :
  exists r', lookup_job (jobs (sys_server Demo.both_executing)) 1 = Some r' /\
  row_kept (Demo.row 1) r' /\ jr_status r' = Processing.
Proof.
  destruct (never_requeued Demo.now Demo.outcome Demo.config Demo.types 0 Demo.demo_now_ok
    Demo.demo_types_ok Demo.start Demo.both_executing 1 (Demo.row 1)) as (r' & Hr' & Hk).
  - exact Demo.start_reachable.
  - exact Demo.both_executing_steps.
  - reflexivity.
  - exists r'. split; [exact Hr'|split; [exact Hk|]].
    assert (jr_status <$> lookup_job (jobs (sys_server Demo.both_executing)) 1 = Some Processing) as E
      by (vm_compute; reflexivity).
    rewrite Hr' in E. injection E as E. exact E.
Defined.

Lemma running_row_untouched_witness :
  exists th' s' r,
  thread_step Demo.now Demo.outcome Demo.config Demo.types (mkMysql HLive 0) true
    (Demo.nth_thread Demo.both_executing 1) (sys_server Demo.both_executing) = Some (th', s') /\
  lookup_job (jobs s') 1 = Some r /\ jr_status r ≠ Pending.
Proof.
  destruct (thread_step Demo.now Demo.outcome Demo.config Demo.types (mkMysql HLive 0) true
    (Demo.nth_thread Demo.both_executing 1) (sys_server Demo.both_executing)) as [[th' s']|] eqn:E.
  - destruct (running_row_untouched Demo.now Demo.outcome Demo.config Demo.types 0 Demo.demo_now_ok
      Demo.demo_types_ok Demo.both_executing 0 1 1 (Demo.nth_thread Demo.both_executing 1) th' s'
      Demo.both_executing_reachable) as (me & r & _ & _ & _ & Hs & Hr).
    + vm_compute. reflexivity.
    + rewrite Demo.both_executing_threads at 1. reflexivity.
    + lia.
    + assert (sys_active Demo.both_executing (t_worker (Demo.nth_thread Demo.both_executing 1)) = true)
        as -> by (vm_compute; reflexivity).
      exact E.
    + exists th', s', r. split; [reflexivity|split; [exact Hr|]]. destruct Hs as [-> | ->]; discriminate.
  - assert (is_Some (thread_step Demo.now Demo.outcome Demo.config Demo.types (mkMysql HLive 0) true
      (Demo.nth_thread Demo.both_executing 1) (sys_server Demo.both_executing))) as [x Ex]
      by (vm_compute; eexists; reflexivity).
    rewrite E in Ex. discriminate Ex.
Defined.

Lemma threads_never_stuck_witness :
  exists th, sys_threads Demo.start !! 0 = Some th /\
  is_Some (thread_step Demo.now Demo.outcome Demo.config Demo.types (mkMysql HLive 0) true th
    (sys_server Demo.start)).
Proof.
  exists (Demo.worker_thread 100 4096 1). split; [reflexivity|].
  apply (threads_never_stuck Demo.now Demo.outcome Demo.config Demo.types 0 Demo.demo_now_ok
    Demo.demo_types_ok Demo.start 0 (Demo.worker_thread 100 4096 1) true Demo.start_reachable);
    [reflexivity|discriminate].
Defined.

Lemma inactive_thread_exits_witness :
  exists n y' th', run_schedule Demo.now Demo.outcome Demo.config Demo.types (mkMysql HLive 0)
    (replicate n 0) (mkSystem (sys_server Demo.both_executing) (deactivate 0 (sys_active Demo.both_executing))
       (sys_threads Demo.both_executing)) = Some y' /\
  sys_threads y' !! 0 = Some th' /\ t_pc th' = PExit.
Proof.
  apply (inactive_thread_exits Demo.now Demo.outcome Demo.config Demo.types 0 Demo.demo_now_ok Demo.demo_types_ok
    (mkSystem (sys_server Demo.both_executing) (deactivate 0 (sys_active Demo.both_executing))
       (sys_threads Demo.both_executing)) 0 (Demo.nth_thread Demo.both_executing 0)).
  - destruct Demo.both_executing_reachable as (y0 & H0 & Hrun). exists y0. split; [exact H0|].
    eapply rtc_r; [exact Hrun|]. exact (step_shutdown _ _ _ _ _ (sys_server Demo.both_executing)
      (sys_active Demo.both_executing) (sys_threads Demo.both_executing) 0).
  - cbn [sys_threads]. rewrite Demo.both_executing_threads at 1. reflexivity.
  - vm_compute. reflexivity.
Defined.
