(* ===== verification/WorkQueueSpec.v ===== *)
(** * WorkQueueSpec: what one batch of a worker thread does

    The specification of [WorkQueue.work] against a server that answers: the
    rows claimed are the first [workload] pending, unlocked ones in key order,
    each ends in the state [final_row] says, everything else is unchanged and
    the jobs execute in key order, once each.  Then what a batch does when
    queries fail, and the loop of [run] around it. *)

From S2P Require Import Prelude CLib Settings Records Job Effects Adaptor JobTable WorkQueue System RefServer.

Section Batch.
Context {Srv : Type} `{!MySQL Srv} `{!MySQLSpec Srv}.
Context (now : nat -> Z * Z) (outcome : Job -> Z).
Context (m_config : Settings) (m_job_types : GData job_creator_t) (leaks : Z) (self : identity).
Let m_db := mkMysql HLive leaks.
Notation exec_prog := (exec_prog now outcome).
Notation discard := (get_bool m_config "discard_unknown_jobs" true).

(** ** The specification *)

(** The job a row is turned into: no registered type, or what the type's
    creator makes of it. *)
Definition row_job (r : job_row) : option (option Job) :=
  (fun c : job_creator_t => c (jr_id r) (jr_name r) (myrow (Srv := Srv) r)) <$> m_job_types !! jr_name r.

(** The row a batch with lock id [l] leaves behind. *)
Definition final_row (l : string) (r : job_row) : job_row :=
  match row_job r with
  | Some (Some j) => set_status (if decide (outcome j ≠ 0%Z) then Complete else Error) (set_lock "" r)
  | Some None => set_status Processing (set_lock (if discard then "" else l) r)
  | None => if discard then set_status Error (set_lock "" r) else set_status Loading (set_lock l r)
  end.

Definition batch (w : Z) (t : table) : list job_row := take_filter claimable (Z.to_nat w) t.

Definition batch_jobs (w : Z) (t : table) : list Job :=
  omap (fun r => mjoin (row_job r)) (batch w t).

Definition batch_table (l : string) (w : Z) (t : table) : table :=
  (fun r => if decide (jr_id r ∈ jr_id <$> batch w t) then final_row l r else r) <$> t.

(** ** Running programs *)

Lemma exec_bind {A B} (f : A -> prog B) (p : prog A) l (s : Srv) :
  exec_prog (p ≫= f) l s
  = match exec_prog p l s with Some (a, l', s') => exec_prog (f a) l' s' | None => None end.
Proof.
  revert l s; induction p as [a|o k IH]; intros l s; [done|].
  change (exec_prog (Op o k ≫= f) l s) with
    (match handle now outcome o l s with
     | Some (r, l', s') => exec_prog (k r ≫= f) l' s' | None => None end).
  cbn [WorkQueue.exec_prog]. destruct (handle now outcome o l s) as [[[r l'] s']|]; [|done]. apply IH.
Qed.

(** Only the id, the name and the data of a row go into its job. *)
Definition same_payload (r r' : job_row) : Prop :=
  jr_id r' = jr_id r /\ jr_name r' = jr_name r /\ jr_data r' = jr_data r.

Lemma row_job_payload r r' : same_payload r r' -> row_job r' = row_job r.
Proof. intros (E1 & E2 & E3). unfold row_job, myrow. by rewrite E1, E2, E3. Qed.

(** A statement on one row as a map. *)
Lemma id_update_map u z (t : table) :
  u_where u = [IdIs z] -> u_limit u = None ->
  exec_update u t = (fun r => if decide (jr_id r = z) then assign_all (u_set u) r else r) <$> t.
Proof.
  intros Hw Hl. rewrite exec_update_map by done. apply list_fmap_ext. intros _ r _. rewrite Hw.
  unfold matches; simpl. rewrite andb_true_r.
  by destruct (decide (jr_id r = z)); [rewrite bool_decide_true|rewrite bool_decide_false].
Qed.

Lemma wrap32_sub a b : wrap32 (wrap32 a - b) = wrap32 (a - b).
Proof.
  unfold wrap32, wrap. f_equal.
  replace ((a + 2 ^ (32 - 1)) `mod` 2 ^ 32 - 2 ^ (32 - 1) - b + 2 ^ (32 - 1))%Z
    with ((a + 2 ^ (32 - 1)) `mod` 2 ^ 32 - b)%Z by lia.
  rewrite Zminus_mod_idemp_l. f_equal. lia.
Qed.

Section Reliable.
Context `{!MySQLReliable Srv}.

Lemma exec_update_ok_query u l s :
  table_ok (jobs s) -> program_update u ->
  exists s', exec_prog (Op (ORealQuery (render (Update u))) (fun r => Ret (fst r))) l s = Some (0%Z, l, s') /\
  jobs s' = exec_update u (jobs s).
Proof.
  intros Ht Hu. pose proof (update_spec s u Ht Hu) as Hs. pose proof (reliable_update s u Ht Hu) as Hr.
  cbn [WorkQueue.exec_prog handle]. destruct (real_query s _) as [[r res] s']. simpl in Hr. subst r.
  exists s'. split; [done|]. destruct Hs as [[_ ?]|[? _]]; done.
Qed.

(** *** Turning rows into jobs *)

Definition load_effect (r : job_row) : job_row :=
  match row_job r with
  | Some (Some _) => set_status Processing r
  | Some None => set_status Processing (if discard then set_status Error (set_lock "" r) else r)
  | None => if discard then set_status Error (set_lock "" r) else r
  end.

Definition on_id (z : Z) (f : job_row -> job_row) (r : job_row) : job_row :=
  if decide (jr_id r = z) then f r else r.

Lemma exec_discard z l s :
  table_ok (jobs s) -> (0 < z < 2 ^ 31)%Z ->
  exists s', exec_prog (discard_job m_config m_db z) l s = Some (0%Z, l, s') /\
  jobs s' = on_id z (fun r => if discard then set_status Error (set_lock "" r) else r) <$> jobs s.
Proof.
  intros Ht Hz. unfold discard_job. destruct discard.
  - unfold m_db. rewrite query_discard by (unfold int32; lia).
    destruct (exec_update_ok_query (discard_stmt z) l s Ht) as (s' & He & Hj); [by apply pu_discard|].
    exists s'. split; [exact He|]. rewrite Hj, (id_update_map _ z) by done. done.
  - exists s. split; [done|]. rewrite <-(list_fmap_id (jobs s)) at 1. apply list_fmap_ext.
    intros _ r _. unfold on_id. by case_decide.
Qed.

Lemma exec_processing z l s :
  table_ok (jobs s) -> (0 < z < 2 ^ 31)%Z ->
  exists s', exec_prog (query m_db processing_format [AInt z]) l s = Some (0%Z, l, s') /\
  jobs s' = on_id z (set_status Processing) <$> jobs s.
Proof.
  intros Ht Hz. unfold m_db. rewrite query_processing by (unfold int32; lia).
  destruct (exec_update_ok_query (processing_stmt z) l s Ht) as (s' & He & Hj); [by apply pu_processing|].
  exists s'. split; [exact He|]. rewrite Hj, (id_update_map _ z) by done. done.
Qed.

Lemma on_id_ok z f t :
  (forall r, row_ok r -> row_ok (f r)) -> (forall r, jr_id (f r) = jr_id r) ->
  table_ok t -> table_ok (on_id z f <$> t).
Proof.
  intros Hf Hid [Hs Hr]. split.
  - rewrite <-list_fmap_compose. erewrite list_fmap_ext; [exact Hs|].
    intros _ r _. simpl. unfold on_id. case_decide; auto.
  - apply Forall_fmap. eapply Forall_impl; [exact Hr|]. intros r Hr'. simpl. unfold on_id. case_decide; auto.
Qed.

Lemma set_status_ok x r : row_ok r -> row_ok (set_status x r).
Proof. done. Qed.
Lemma set_lock_empty_ok r : row_ok r -> row_ok (set_lock "" r).
Proof. intros (? & _ & ? & ?). done. Qed.

(** One row. *)
Lemma exec_load_row r js l s :
  table_ok (jobs s) -> row_ok r ->
  exists s', exec_prog (load_row m_config m_job_types m_db (myrow (Srv := Srv) r) js) l s
    = Some (js ++ option_list (mjoin (row_job r)), l, s') /\
  jobs s' = on_id (jr_id r) (fun r' => match row_job r with
     | Some (Some _) => set_status Processing r'
     | Some None => set_status Processing (if discard then set_status Error (set_lock "" r') else r')
     | None => if discard then set_status Error (set_lock "" r') else r'
     end) <$> jobs s.
Proof.
  intros Ht Hr. destruct (myrow_columns (Srv := Srv) r Hr) as (Hid & Hname & _).
  pose proof Hr as (Hz & _). unfold load_row, row_job. rewrite Hid, Hname. cbn [type_creator default].
  destruct (m_job_types !! jr_name r) as [c|]; cbn [fmap option_fmap option_map].
  - destruct (c _ _ _) as [j|]; cbn [option_list mjoin option_join].
    + destruct (exec_processing (jr_id r) l s Ht Hz) as (s' & He & Hj). exists s'. split; [|done].
      rewrite exec_bind; cbn [WorkQueue.exec_prog]. by rewrite exec_bind, He.
    + destruct (exec_discard (jr_id r) l s Ht Hz) as (s1 & He1 & Hj1).
      destruct (exec_processing (jr_id r) l s1) as (s' & He & Hj); [|done|].
      { rewrite Hj1. apply on_id_ok; [|intros; cbn beta; by destruct discard|done].
        cbn beta. intros r' ?. destruct discard; [by apply set_status_ok, set_lock_empty_ok|done]. }
      exists s'. split.
      * by rewrite exec_bind, He1, exec_bind, He.
      * rewrite Hj, Hj1, <-list_fmap_compose. apply list_fmap_ext. intros _ r' _. simpl.
        unfold on_id. destruct (decide (jr_id r' = jr_id r)); [|by rewrite decide_False].
        by rewrite decide_True by (by destruct discard).
  - destruct (exec_discard (jr_id r) l s Ht Hz) as (s' & He & Hj). exists s'.
    split; [|done]. rewrite exec_bind, He. simpl. by rewrite app_nil_r.
Qed.

(** *** Maps over part of a table *)

Definition map_in (zs : list Z) (f : job_row -> job_row) (t : table) : table :=
  (fun r => if decide (jr_id r ∈ zs) then f r else r) <$> t.

Lemma map_in_cons z zs f t :
  z ∉ zs -> (forall r, jr_id (f r) = jr_id r) ->
  map_in zs f (on_id z f <$> t) = map_in (z :: zs) f t.
Proof.
  intros Hz Hf. unfold map_in. rewrite <-list_fmap_compose. apply list_fmap_ext. intros _ r _. simpl.
  unfold on_id. destruct (decide (jr_id r = z)) as [E|Hne].
  - rewrite Hf, E, decide_False by done. by rewrite decide_True by (by left).
  - destruct (decide (jr_id r ∈ zs)).
    + by rewrite decide_True by set_solver.
    + by rewrite decide_False by set_solver.
Qed.

Lemma on_id_ext z f g (t : table) :
  (forall r, r ∈ t -> jr_id r = z -> f r = g r) -> on_id z f <$> t = on_id z g <$> t.
Proof.
  intros H. apply list_fmap_ext. intros k r Hr%list_elem_of_lookup_2. unfold on_id. case_decide; auto.
Qed.

Lemma load_effect_ok r : row_ok r -> row_ok (load_effect r).
Proof.
  intros Hr. unfold load_effect. destruct (row_job r) as [[j|]|], discard; auto;
    by repeat apply set_status_ok; try apply set_lock_empty_ok.
Qed.

Lemma load_effect_payload r : same_payload r (load_effect r).
Proof. unfold load_effect. by destruct (row_job r) as [[j|]|], discard. Qed.

Lemma on_id_payload z f (t : table) r' :
  (forall r, same_payload r (f r)) -> r' ∈ on_id z f <$> t ->
  exists r, r ∈ t /\ same_payload r r'.
Proof.
  intros Hf (r & -> & Hr)%list_elem_of_fmap. exists r. split; [done|]. unfold on_id. by case_decide.
Qed.

(** All the rows. *)
Lemma exec_load_rows rs js l s :
  table_ok (jobs s) -> Forall row_ok rs -> NoDup (jr_id <$> rs) ->
  (forall r r', r ∈ rs -> r' ∈ jobs s -> jr_id r' = jr_id r -> same_payload r r') ->
  exists s', exec_prog (load_rows m_config m_job_types m_db (myrow (Srv := Srv) <$> rs) js) l s
    = Some (js ++ omap (fun r => mjoin (row_job r)) rs, l, s') /\
  jobs s' = map_in (jr_id <$> rs) load_effect (jobs s) /\ table_ok (jobs s').
Proof.
  intros Ht Hrs. revert js s Ht; induction Hrs as [|r rs Hr Hrs IH]; intros js s Ht Hd Hp.
  { exists s. rewrite app_nil_r. split_and!; [done| |done]. unfold map_in.
    rewrite <-(list_fmap_id (jobs s)) at 1. apply list_fmap_ext. intros. by rewrite decide_False by set_solver. }
  rewrite fmap_cons in Hd. apply NoDup_cons in Hd as [Hn Hd].
  destruct (exec_load_row r js l s Ht Hr) as (s1 & He1 & Hj1).
  rewrite (on_id_ext _ _ load_effect) in Hj1.
  2:{ intros r' Hr' Hid. unfold load_effect.
      by rewrite (row_job_payload r r') by (apply Hp; [by left|done..]). }
  destruct (IH (js ++ option_list (mjoin (row_job r))) s1) as (s' & He & Hj & Ht').
  - rewrite Hj1. apply on_id_ok; [apply load_effect_ok|apply load_effect_payload|done].
  - done.
  - intros x r' Hx Hr' Hid. rewrite Hj1 in Hr'.
    apply on_id_payload in Hr' as (r0 & Hr0 & (E1 & E2 & E3)); [|apply load_effect_payload].
    destruct (Hp x r0) as (? & ? & ?); [by right|done|congruence|]. split_and!; congruence.
  - exists s'. split_and!; [|by rewrite Hj, Hj1, map_in_cons by (apply load_effect_payload || done)|done].
    rewrite fmap_cons. cbn [load_rows]. rewrite exec_bind, He1, He.
    rewrite <-app_assoc. do 3 f_equal. cbn [omap list_omap]. by destruct (mjoin (row_job r)).
Qed.

(** *** Executing the jobs *)

Definition finish (j : Job) (r : job_row) : job_row :=
  set_status (if decide (outcome j ≠ 0%Z) then Complete else Error) (set_lock "" r).

Definition finish_effect (r : job_row) : job_row :=
  match row_job r with Some (Some j) => finish j r | _ => r end.

(** The thread's state after executing jobs. *)
Definition after_jobs (js : list Job) (l : local) : local :=
  fold_left (fun l j => add_pending (-1)
    (mkLocal (l_queue l) (l_pending l) (l_ticks l) (id j :: l_trace l))) js l.

Lemma after_jobs_eq js l :
  int32 (l_pending l) ->
  after_jobs js l = mkLocal (l_queue l) (wrap32 (l_pending l - Z.of_nat (length js))) (l_ticks l)
    (rev (id <$> js) ++ l_trace l).
Proof.
  unfold after_jobs. revert l; induction js as [|j js IH]; intros l Hp.
  - simpl. rewrite Z.sub_0_r, wrap32_id by done. by destruct l.
  - cbn [fold_left]. rewrite IH by (apply wrap32_range). unfold add_pending; cbn [l_queue l_pending l_ticks l_trace].
    f_equal.
    + rewrite wrap32_sub. f_equal. simpl length. lia.
    + simpl. by rewrite <-app_assoc.
Qed.

Lemma finish_effect_payload r : same_payload r (finish_effect r).
Proof. unfold finish_effect, finish. by destruct (row_job r) as [[]|]. Qed.

Lemma exec_finish j l s :
  table_ok (jobs s) -> (0 < id j < 2 ^ 31)%Z ->
  exists s', exec_prog (if decide (outcome j ≠ 0%Z) then query m_db complete_format [AInt (id j)]
    else query m_db error_format [AInt (id j)]) l s = Some (0%Z, l, s') /\
  jobs s' = on_id (id j) (finish j) <$> jobs s.
Proof.
  intros Ht Hz. unfold m_db, finish. case_decide.
  - rewrite query_complete by (unfold int32; lia).
    destruct (exec_update_ok_query (finish_stmt Complete (id j)) l s Ht) as (s' & He & Hj); [by apply pu_complete|].
    exists s'. split; [exact He|]. rewrite Hj, (id_update_map _ (id j)) by done. done.
  - rewrite query_error by (unfold int32; lia).
    destruct (exec_update_ok_query (finish_stmt Error (id j)) l s Ht) as (s' & He & Hj); [by apply pu_error|].
    exists s'. split; [exact He|]. rewrite Hj, (id_update_map _ (id j)) by done. done.
Qed.

Lemma exec_process js l s :
  table_ok (jobs s) -> Forall (fun j => (0 < id j < 2 ^ 31)%Z) js -> NoDup (id <$> js) ->
  (forall j r, j ∈ js -> r ∈ jobs s -> jr_id r = id j -> row_job r = Some (Some j)) ->
  exists s', exec_prog (process_jobs m_db js) l s = Some (tt, after_jobs js l, s') /\
  jobs s' = map_in (id <$> js) finish_effect (jobs s).
Proof.
  intros Ht Hjs. revert l s Ht; induction Hjs as [|j js Hj Hjs IH]; intros l s Ht Hd Hp.
  { exists s. split; [done|]. unfold map_in. rewrite <-(list_fmap_id (jobs s)) at 1.
    apply list_fmap_ext. intros. by rewrite decide_False by set_solver. }
  rewrite fmap_cons in Hd. apply NoDup_cons in Hd as [Hn Hd].
  set (l1 := mkLocal (l_queue l) (l_pending l) (l_ticks l) (id j :: l_trace l)).
  destruct (exec_finish j l1 s Ht Hj) as (s1 & He1 & Hj1).
  rewrite (on_id_ext _ _ finish_effect) in Hj1.
  2:{ intros r Hr Hid. unfold finish_effect. by rewrite (Hp j r) by (done || by left). }
  destruct (IH (add_pending (-1) l1) s1) as (s' & He & Hj').
  - rewrite Hj1. apply on_id_ok; [|apply finish_effect_payload|done].
    intros r Hr. unfold finish_effect, finish. destruct (row_job r) as [[]|]; [|done..].
    by apply set_status_ok, set_lock_empty_ok.
  - done.
  - intros x r' Hx Hr' Hid. rewrite Hj1 in Hr'.
    apply on_id_payload in Hr' as (r0 & Hr0 & E); [|apply finish_effect_payload].
    rewrite (row_job_payload r0 r' E). apply Hp; [by right|done|]. destruct E; congruence.
  - exists s'. split; [|by rewrite Hj', Hj1, fmap_cons, map_in_cons by (apply finish_effect_payload || done)].
    change (after_jobs (j :: js) l) with (after_jobs js (add_pending (-1) l1)).
    cbn [process_jobs]. rewrite exec_bind. cbn [call WorkQueue.exec_prog handle]. fold l1.
    rewrite exec_bind, He1, exec_bind. cbn [call WorkQueue.exec_prog handle]. exact He.
Qed.

(** *** Claiming *)

Lemma claim_effect_select l w t :
  Forall (fun r => matches (claimed_cond l) r = false) t ->
  (forall r, matches (claimed_cond l) (set_status Loading (set_lock l r)) = true) ->
  take_filter (matches (claimed_cond l)) w
    (update_first claimable (fun r => set_status Loading (set_lock l r)) (Some w) t)
  = (fun r => set_status Loading (set_lock l r)) <$> take_filter claimable w t.
Proof.
  intros Ht Hm. revert w; induction Ht as [|r t Hr Ht IH]; intros w; [by destruct w|].
  cbn [update_first]. rewrite (take_filter_cons claimable). destruct (claimable r).
  - destruct w as [|w]; [apply take_filter_0|]. rewrite take_filter_cons, Hm, IH. done.
  - by rewrite take_filter_cons, Hr, IH.
Qed.

(** *** The batch *)

Hypothesis creators_ok : forall n c z nm row j,
  m_job_types !! n = Some c -> c z nm row = Some j -> id j = z.

Lemma row_job_id r j : row_job r = Some (Some j) -> id j = jr_id r.
Proof.
  unfold row_job. intros (c & [= Hc] & Hn)%fmap_Some. symmetry in Hc. by eapply creators_ok.
Qed.

Lemma mjoin_row_job r j : mjoin (row_job r) = Some j <-> row_job r = Some (Some j).
Proof. destruct (row_job r) as [[]|]; naive_solver. Qed.

Lemma jobs_sublist rs : (id <$> omap (fun r => mjoin (row_job r)) rs) `sublist_of` (jr_id <$> rs).
Proof.
  induction rs as [|r rs IH]; [constructor|]. cbn [omap list_omap]. rewrite fmap_cons.
  destruct (mjoin (row_job r)) as [j|] eqn:E; [|by constructor].
  apply mjoin_row_job, row_job_id in E. rewrite fmap_cons, E. by constructor.
Qed.

Lemma batch_same_id w t r r' : table_ok t -> r ∈ t -> r' ∈ batch w t -> jr_id r = jr_id r' -> r = r'.
Proof.
  intros Ht Hr [_ Hr']%take_filter_In E. apply table_ok_NoDup in Ht.
  pose proof (lookup_job_In t r Ht Hr) as E1. pose proof (lookup_job_In t r' Ht Hr') as E2. congruence.
Qed.

Lemma batch_jobs_In w t z :
  z ∈ id <$> batch_jobs w t <-> exists r j, r ∈ batch w t /\ row_job r = Some (Some j) /\ z = jr_id r.
Proof.
  unfold batch_jobs. rewrite list_elem_of_fmap. setoid_rewrite list_elem_of_omap.
  setoid_rewrite mjoin_row_job. split.
  - intros (j & -> & r & Hr & Hj). exists r, j. rewrite (row_job_id _ _ Hj). auto.
  - intros (r & j & Hr & Hj & ->). exists j. rewrite (row_job_id _ _ Hj). eauto.
Qed.

Definition claim_effect (l : string) (r : job_row) : job_row := set_status Loading (set_lock l r).

(** The three passes over the table compose to [final_row]. *)
Lemma batch_compose l w t :
  table_ok t ->
  map_in (id <$> batch_jobs w t) finish_effect
    (map_in (jr_id <$> batch w t) load_effect (map_in (jr_id <$> batch w t) (claim_effect l) t))
  = batch_table l w t.
Proof.
  intros Ht. unfold map_in, batch_table. rewrite <-!list_fmap_compose. apply list_fmap_ext.
  intros k r Hr%list_elem_of_lookup_2. simpl. destruct (decide (jr_id r ∈ jr_id <$> batch w t)) as [Hin|Hout].
  - change (jr_id (claim_effect l r)) with (jr_id r).
    rewrite (decide_True (P := jr_id r ∈ jr_id <$> batch w t)) by done.
    destruct (load_effect_payload (claim_effect l r)) as (Eid & _). rewrite Eid.
    assert (row_job (claim_effect l r) = row_job r) as Ej by by apply row_job_payload.
    assert (row_job (load_effect (claim_effect l r)) = row_job r) as Ej'.
    { rewrite <-Ej. apply row_job_payload, load_effect_payload. }
    unfold finish_effect, final_row. rewrite Ej'. unfold load_effect. rewrite Ej.
    destruct (row_job r) as [[j|]|] eqn:E.
    + rewrite decide_True; [reflexivity|]. apply batch_jobs_In. exists r, j. split; [|done].
      apply list_elem_of_fmap in Hin as (r' & Ei & Hr'). by rewrite (batch_same_id w t r r').
    + destruct (decide _), discard; done.
    + destruct (decide _), discard; done.
  - rewrite (decide_False (P := jr_id r ∈ jr_id <$> batch w t)) by done.
    rewrite decide_False; [done|].
    intros (r' & j & Hr' & _ & Ei)%batch_jobs_In. apply Hout. rewrite Ei. apply list_elem_of_fmap. eauto.
Qed.

Lemma jobs_claimed l (rs : table) :
  omap (fun r => mjoin (row_job r)) (claim_effect l <$> rs) = omap (fun r => mjoin (row_job r)) rs.
Proof.
  induction rs as [|r rs IH]; [done|]. rewrite fmap_cons. cbn [omap list_omap].
  rewrite (row_job_payload r (claim_effect l r)) by done. by rewrite IH.
Qed.

Lemma sublist_NoDup_list (l1 l2 : list Z) : l1 `sublist_of` l2 -> NoDup l2 -> NoDup l1.
Proof.
  intros Hs Hn. rewrite <-(list_fmap_id l1). eapply sublist_NoDup; [exact Hs|]. by rewrite list_fmap_id.
Qed.

(** Claiming and loading. *)
Lemma exec_find_jobs w l0 s (l := lockid self (now (l_ticks l0)))
    (l1 := mkLocal (l_queue l0) (l_pending l0) (S (l_ticks l0)) (l_trace l0)) :
  table_ok (jobs s) -> identity_ok self -> time_ok (now (l_ticks l0)) ->
  (0 < w)%Z -> int32 w -> Forall (fun r => jr_lock r ≠ l) (jobs s) ->
  exists s', exec_prog (find_jobs m_config m_job_types m_db self w) l0 s
    = Some (Some (batch_jobs w (jobs s)), l1, s') /\
  jobs s' = map_in (jr_id <$> batch w (jobs s)) load_effect
              (map_in (jr_id <$> batch w (jobs s)) (claim_effect l) (jobs s)) /\
  table_ok (jobs s').
Proof.
  intros Ht Hi Htm Hw Hw32 Hfresh. unfold find_jobs. rewrite exec_bind.
  cbn [call WorkQueue.exec_prog handle]. fold l l1.
  pose proof (lockid_ok self _ Hi Htm : lock_ok l = true) as Hlok.
  pose proof (lockid_length self (now (l_ticks l0)) : String.length l <= 39) as Hlen.
  generalize dependent l. intros l Hfresh Hlok Hlen. unfold int32 in Hw32.
  assert (claim_pu : program_update (claim_stmt l w)) by (apply pu_claim; [done|lia]).
  rewrite exec_bind. unfold m_db. rewrite query_claim by (unfold int32; lia || done).
  destruct (exec_update_ok_query (claim_stmt l w) l1 s Ht claim_pu) as (s1 & He1 & Hj1). rewrite He1. cbv iota.
  rewrite decide_False by (intros []; done).
  assert (Ht1 : table_ok (jobs s1)) by (rewrite Hj1; by apply exec_update_ok).
  assert (Hj1' : jobs s1 = map_in (jr_id <$> batch w (jobs s)) (claim_effect l) (jobs s)).
  { rewrite Hj1. apply update_first_map. by apply table_ok_NoDup. }
  assert (Hsel : select_rows (claimed_cond l) w (jobs s1) = claim_effect l <$> batch w (jobs s)).
  { rewrite Hj1. apply claim_effect_select.
    - eapply Forall_impl; [exact Hfresh|]. intros r Hr. unfold matches; simpl.
      rewrite (bool_decide_false (jr_lock r = l)) by done. by rewrite andb_false_r.
    - intros r. unfold matches; simpl. by rewrite !bool_decide_true by done. }
  pose proof (select_spec s1 l w Ht1 Hlok ltac:(lia)) as Hs1.
  pose proof (reliable_select s1 l w Ht1 Hlok ltac:(lia)) as Hr1.
  rewrite exec_bind, query_select by (unfold int32; lia || done).
  cbn [WorkQueue.exec_prog handle]. destruct (real_query s1 _) as [rr s2].
  simpl in Hr1; subst rr. destruct Hs1 as [Hj2 _]. cbn [fst snd].
  rewrite decide_False by (intros []; done). cbn [WorkQueue.exec_prog].
  rewrite rows_of_jobs, Hsel, exec_bind. rewrite <-Hj2 in Ht1, Hj1'.
  assert (Hids : jr_id <$> (claim_effect l <$> batch w (jobs s)) = jr_id <$> batch w (jobs s)).
  { rewrite <-list_fmap_compose. by apply list_fmap_ext. }
  destruct (exec_load_rows (claim_effect l <$> batch w (jobs s)) [] l1 s2) as (s' & He & Hj & Ht').
  - done.
  - rewrite <-Hsel. destruct Ht1 as [_ Hall]. rewrite <-Hj2. eapply Forall_forall. intros x [_ Hx]%take_filter_In.
    rewrite Forall_forall in Hall. by apply Hall.
  - rewrite <-Hsel, <-Hj2. by apply select_rows_NoDup.
  - intros x y Hx Hy E. rewrite <-Hsel, <-Hj2 in Hx. apply select_rows_In in Hx as [_ Hx]; [|done].
    rewrite <-E in Hx. rewrite (lookup_job_In _ y) in Hx by (by try apply table_ok_NoDup).
    injection Hx as ->. done.
  - fold m_db. exists s'. rewrite He. split_and!; [|by rewrite Hj, Hids, Hj1'|done].
    cbn [WorkQueue.exec_prog]. by rewrite app_nil_l, jobs_claimed.
Qed.

(** A whole batch. *)
Lemma exec_work w l0 s (l := lockid self (now (l_ticks l0))) :
  table_ok (jobs s) -> identity_ok self -> time_ok (now (l_ticks l0)) ->
  (0 < w)%Z -> int32 w -> int32 (l_pending l0) -> Forall (fun r => jr_lock r ≠ l) (jobs s) ->
  exists s', exec_prog (work m_config m_job_types m_db self w) l0 s
    = Some (tt, mkLocal (l_queue l0) (wrap32 (l_pending l0 - Z.of_nat (length (batch_jobs w (jobs s)))))
         (S (l_ticks l0)) (rev (id <$> batch_jobs w (jobs s)) ++ l_trace l0), s') /\
  jobs s' = batch_table l w (jobs s).
Proof.
  intros Ht Hi Htm Hw Hw32 Hp Hfresh. unfold work. rewrite exec_bind.
  destruct (exec_find_jobs w l0 s Ht Hi Htm Hw Hw32 Hfresh) as (s1 & -> & Hj1 & Ht1).
  assert (Hin : forall j, j ∈ batch_jobs w (jobs s) ->
    exists r, r ∈ batch w (jobs s) /\ row_job r = Some (Some j) /\ id j = jr_id r).
  { intros j (r & Hr & Hj)%list_elem_of_omap. apply mjoin_row_job in Hj. exists r.
    by rewrite (row_job_id _ _ Hj). }
  destruct (exec_process (batch_jobs w (jobs s))
    (mkLocal (l_queue l0) (l_pending l0) (S (l_ticks l0)) (l_trace l0)) s1 Ht1) as (s' & He & Hj).
  - apply Forall_forall. intros j (r & Hr & _ & ->)%Hin. apply take_filter_In in Hr as [_ Hr].
    destruct Ht as [_ Hall]. rewrite Forall_forall in Hall. by apply Hall.
  - eapply sublist_NoDup_list; [apply jobs_sublist|].
    eapply sublist_NoDup; [apply take_filter_sublist|by apply table_ok_NoDup].
  - intros j r' (r & Hr & Hrj & Eid)%Hin Hr' Eid'. rewrite Hj1 in Hr'.
    assert (exists r0, r0 ∈ jobs s /\ same_payload r0 r') as (r0 & Hr0 & Hp0).
    { unfold map_in in Hr'. rewrite <-list_fmap_compose in Hr'.
      apply list_elem_of_fmap in Hr' as (r0 & -> & Hr0). exists r0. split; [done|]. simpl.
      repeat case_decide;
        first [done|exact (load_effect_payload (claim_effect l r0))|exact (load_effect_payload r0)]. }
    rewrite (row_job_payload _ _ Hp0). rewrite (batch_same_id w (jobs s) r0 r Ht Hr0 Hr); [done|].
    destruct Hp0; congruence.
  - exists s'. rewrite He. split; [by rewrite after_jobs_eq|]. rewrite Hj, Hj1. by apply batch_compose.
Qed.
End Reliable.

(** ** The loop of [run] *)

Notation run_steps := (run_steps now outcome m_config m_job_types m_db self).

Lemma run_steps_add active n m c l (s : Srv) :
  run_steps active (n + m) c l s
  = match run_steps active n c l s with
    | Some (c', l', s') => run_steps active m c' l' s' | None => None end.
Proof.
  revert c l s; induction n as [|n IH]; intros c l s; [done|].
  cbn [WorkQueue.run_steps Nat.add]. destruct (run_step _ _ _ _ _ _ _ _ _ _) as [[[c' l'] s']|]; [apply IH|done].
Qed.

(** A stop message met while draining: back to the test of the loop. *)
Lemma drain_stop active k wl l rest (s : Srv) :
  (0 <= wl)%Z -> (wl + 1 + Z.of_nat k < 2 ^ 31)%Z -> l_queue l = replicate k 1%Z ++ (-1)%Z :: rest ->
  run_steps active (S (S k)) (PDrain 1 wl) l s = Some (PWhile, set_queue rest l, s).
Proof.
  revert wl l; induction k as [|k IH]; intros wl l Hwl Hk Hq.
  - cbn [WorkQueue.run_steps run_step]. rewrite decide_False by lia. rewrite Hq.
    cbn [replicate app]. reflexivity.
  - change (run_steps active (S (S (S k))) (PDrain 1 wl) l s) with
      (match run_step now outcome m_config m_job_types m_db self active (PDrain 1 wl) l s with
       | Some (c', l', s') => run_steps active (S (S k)) c' l' s' | None => None end).
    cbn [run_step]. rewrite decide_False by lia. rewrite Hq, wrap32_id by (unfold int32; lia).
    cbn [replicate app]. rewrite IH; [done|lia|lia|done].
Qed.

(** A program that runs to its end does so in finitely many steps of the
    thread, which is then back at the test of its loop. *)
Lemma exec_run_steps active p l (s : Srv) l' s' :
  exec_prog p l s = Some (tt, l', s') ->
  exists n, run_steps active n (PBody p) l s = Some (PWhile, l', s').
Proof.
  revert l s; induction p as [a|o k IH]; intros l s H; cbn [WorkQueue.exec_prog] in H.
  - simplify_eq. by exists 1.
  - destruct (handle now outcome o l s) as [[[r l1] s1]|] eqn:E; [|done].
    destruct (IH r l1 s1 H) as [n Hn]. exists (S n). cbn [WorkQueue.run_steps run_step]. by rewrite E.
Qed.

(** The [do] loop adds up all the waiting messages. *)
Lemma drain_ones active k wl l (s : Srv) :
  (0 <= wl)%Z -> (wl + 1 + Z.of_nat k < 2 ^ 31)%Z -> l_queue l = replicate k 1%Z ->
  run_steps active (S k) (PDrain 1 wl) l s
  = Some (PBody (work m_config m_job_types m_db self (wl + 1 + Z.of_nat k)), set_queue [] l, s).
Proof.
  revert wl l; induction k as [|k IH]; intros wl l Hwl Hk Hq.
  - cbn [WorkQueue.run_steps run_step]. rewrite decide_False by lia. rewrite Hq, wrap32_id by (unfold int32; lia).
    cbn [replicate]. rewrite decide_False by lia. rewrite Z.add_0_r. destruct l; simpl in Hq. by subst.
  - change (run_steps active (S (S k)) (PDrain 1 wl) l s) with
      (match run_step now outcome m_config m_job_types m_db self active (PDrain 1 wl) l s with
       | Some (c', l', s') => run_steps active (S k) c' l' s' | None => None end).
    cbn [run_step]. rewrite decide_False by lia. rewrite Hq, wrap32_id by (unfold int32; lia).
    cbn [replicate]. rewrite IH; [|lia|lia|done].
    replace (wl + 1 + 1 + Z.of_nat k)%Z with (wl + 1 + Z.of_nat (S k))%Z by lia. reflexivity.
Qed.

Lemma wrap32_add a b : wrap32 (wrap32 a + b) = wrap32 (a + b).
Proof. rewrite <-(Z.opp_involutive b), !Z.add_opp_r. apply wrap32_sub. Qed.

Lemma iter_send k l :
  int32 (l_pending l) ->
  Nat.iter k send_work l
  = mkLocal (l_queue l ++ replicate k 1%Z) (wrap32 (l_pending l + Z.of_nat k)) (l_ticks l) (l_trace l).
Proof.
  intros Hp. induction k as [|k IH].
  - simpl. rewrite app_nil_r, Z.add_0_r, wrap32_id by done. by destruct l.
  - change (Nat.iter (S k) send_work l) with (send_work (Nat.iter k send_work l)). rewrite IH.
    unfold send_work, add_pending, set_queue. cbn [l_queue l_pending l_ticks l_trace].
    rewrite wrap32_add, <-app_assoc, <-replicate_cons_app. do 2 f_equal; lia.
Qed.
End Batch.

(** ** A batch whose SELECT fails *)

Section Faults.
Context {Srv : Type} `{!MySQL Srv} `{!MySQLSpec Srv}.
Context (now : nat -> Z * Z) (outcome : Job -> Z).
Context (m_config : Settings) (m_job_types : GData job_creator_t) (leaks : Z) (self : identity).

(** The rows claimed and given up again. *)
Lemma claim_unlock l w t :
  table_ok t -> l ≠ "" -> Forall (fun r => jr_lock r ≠ l) t ->
  exec_update (unlock_stmt l) (exec_update (claim_stmt l w) t)
  = map_in (jr_id <$> batch w t) (set_status Loading) t.
Proof.
  intros Ht Hl Hfresh. rewrite (exec_update_map (unlock_stmt l)) by done.
  assert (exec_update (claim_stmt l w) t = map_in (jr_id <$> batch w t) (claim_effect l) t) as ->
    by (apply update_first_map; by apply table_ok_NoDup).
  unfold map_in. rewrite <-list_fmap_compose. apply list_fmap_ext. intros k r Hr%list_elem_of_lookup_2. simpl.
  unfold matches. cbn [u_where unlock_stmt forallb cond_eval].
  destruct (decide (jr_id r ∈ jr_id <$> batch w t)) as [Hin|Hout].
  - rewrite !bool_decide_true by done. simpl.
    apply list_elem_of_fmap in Hin as (r' & E & Hr'). pose proof Hr' as [Hc _]%take_filter_In.
    rewrite <-(batch_same_id w t r r' Ht Hr Hr' E) in Hc.
    unfold claimable, matches in Hc; simpl in Hc. rewrite !andb_true_iff, !bool_decide_eq_true in Hc.
    destruct Hc as (_ & Hlk & _). unfold set_status; simpl. by rewrite Hlk.
  - rewrite Forall_forall in Hfresh. rewrite (bool_decide_false (jr_lock r = l)) by auto.
    by rewrite andb_false_r.
Qed.

(** The rows of the batch, claimed under [l] or given up again. *)
Definition stranded (l : string) (w : Z) (t t' : table) : Prop :=
  t' = map_in (jr_id <$> batch w t) (claim_effect l) t \/ t' = map_in (jr_id <$> batch w t) (set_status Loading) t.

Lemma claim_map l w t :
  table_ok t -> exec_update (claim_stmt l w) t = map_in (jr_id <$> batch w t) (claim_effect l) t.
Proof. intros Ht. apply update_first_map. by apply table_ok_NoDup. Qed.

Lemma map_in_lookup zs f t r :
  table_ok t -> (forall x, jr_id (f x) = jr_id x) -> r ∈ t ->
  lookup_job (map_in zs f t) (jr_id r) = Some (if decide (jr_id r ∈ zs) then f r else r).
Proof.
  intros Ht Hf Hr.
  replace (jr_id r) with (jr_id (if decide (jr_id r ∈ zs) then f r else r)) at 1 by (case_decide; auto).
  apply lookup_job_In.
  - unfold map_in. rewrite <-list_fmap_compose. erewrite list_fmap_ext; [by apply table_ok_NoDup|].
    intros _ x _. simpl. by case_decide.
  - unfold map_in. apply list_elem_of_fmap. by exists r.
Qed.

Lemma update_first_count f n t :
  (forall r, jr_status (f r) = Loading) ->
  (count_pending (update_first claimable f (Some n) t)
   = count_pending t - Z.of_nat (length (take_filter claimable n t)))%Z.
Proof.
  intros Hf. unfold count_pending. revert n; induction t as [|r t IH]; intros n; [by destruct n|].
  cbn [update_first]. rewrite take_filter_cons, filter_cons. destruct (claimable r) eqn:Hc.
  - assert (bool_decide (jr_status r = Pending) && lock_is_zero (jr_lock r) = true) as Hp.
    { unfold claimable, matches in Hc; simpl in Hc. rewrite !andb_true_iff in Hc. destruct Hc as (H1 & H2 & _).
      rewrite H1. apply bool_decide_eq_true in H2. by rewrite H2. }
    destruct n as [|n].
    + rewrite filter_cons, decide_True by done. simpl. lia.
    + rewrite decide_True by done. rewrite filter_cons, decide_False by (by rewrite Hf).
      cbn [length]. specialize (IH n). lia.
  - rewrite filter_cons. case_decide; cbn [length]; specialize (IH n); lia.
Qed.

Lemma stranded_count l w t t' :
  table_ok t -> stranded l w t t' -> (count_pending t' = count_pending t - Z.of_nat (length (batch w t)))%Z.
Proof.
  intros Ht [-> | ->]; unfold map_in, batch;
    rewrite <-update_first_map by (by apply table_ok_NoDup); by apply update_first_count.
Qed.

Lemma stranded_row l w t t' r :
  table_ok t -> stranded l w t t' -> r ∈ batch w t ->
  exists lock, lookup_job t' (jr_id r) = Some (set_status Loading (set_lock lock r)) /\ (lock = "" \/ lock = l).
Proof.
  intros Ht Hs Hr. pose proof Hr as [Hc Hin]%take_filter_In.
  assert (jr_id r ∈ jr_id <$> batch w t) as Hid by (apply list_elem_of_fmap; eauto).
  destruct Hs as [-> | ->]; rewrite map_in_lookup by done; rewrite decide_True by done.
  - exists l. split; [done|by right].
  - exists "". split; [|by left]. f_equal.
    unfold claimable, matches in Hc; simpl in Hc. rewrite !andb_true_iff, !bool_decide_eq_true in Hc.
    destruct Hc as (_ & Hlk & _). unfold set_status, set_lock; simpl. by rewrite Hlk.
Qed.

Lemma stranded_other l w t t' r :
  table_ok t -> stranded l w t t' -> r ∈ t -> r ∉ batch w t -> lookup_job t' (jr_id r) = Some r.
Proof.
  intros Ht Hs Hr Hb.
  assert (jr_id r ∉ jr_id <$> batch w t) as Hid.
  { intros (r' & E & Hr')%list_elem_of_fmap. apply Hb. by rewrite (batch_same_id w t r r' Ht Hr Hr' E). }
  by destruct Hs as [-> | ->]; rewrite map_in_lookup by done; rewrite decide_False by done.
Qed.

(** The claim goes through, the SELECT or its result is lost. *)
Lemma exec_select_lost w l0 s (l := lockid self (now (l_ticks l0))) s1 res1 r2 res2 s2 r3 res3 s3 :
  table_ok (jobs s) -> identity_ok self -> time_ok (now (l_ticks l0)) ->
  (0 < w)%Z -> int32 w -> Forall (fun r => jr_lock r ≠ l) (jobs s) ->
  real_query s (render (Update (claim_stmt l w))) = ((0%Z, res1), s1) ->
  real_query s1 (render (SelectJobs (claimed_cond l) w)) = ((r2, res2), s2) ->
  real_query s2 (render (Update (unlock_stmt l))) = ((r3, res3), s3) ->
  (r2 ≠ 0%Z \/ res2 = None) ->
  let l1 := mkLocal (l_queue l0) (l_pending l0) (S (l_ticks l0)) (l_trace l0) in
  exec_prog now outcome (find_jobs m_config m_job_types (mkMysql HLive leaks) self w) l0 s
  = Some (if decide (r2 ≠ 0%Z) then (None, l1, s3) else (Some [], l1, s2)) /\
  jobs s2 = map_in (jr_id <$> batch w (jobs s)) (claim_effect l) (jobs s) /\
  stranded l w (jobs s) (jobs s3) /\
  (r3 = 0%Z -> jobs s3 = map_in (jr_id <$> batch w (jobs s)) (set_status Loading) (jobs s)).
Proof.
  intros Ht Hi Htm Hw Hw32 Hfresh Q1 Q2 Q3 Hlost l1.
  pose proof (lockid_ok self _ Hi Htm : lock_ok l = true) as Hlok.
  pose proof (lockid_length self (now (l_ticks l0)) : String.length l <= 39) as Hlen.
  pose proof (lock_prefix_nonempty self l (lockid_prefix self _ Hi)) as Hne.
  assert (claim_pu : program_update (claim_stmt l w)) by (apply pu_claim; [done|unfold int32 in Hw32; lia]).
  pose proof (update_spec s _ Ht claim_pu) as H1. rewrite Q1 in H1. destruct H1 as [[_ Hj1]|[? _]]; [|done].
  assert (Ht1 : table_ok (jobs s1)) by (rewrite Hj1; by apply exec_update_ok).
  pose proof (select_spec s1 l w Ht1 Hlok ltac:(unfold int32 in Hw32; lia)) as H2. rewrite Q2 in H2.
  destruct H2 as [Hj2 _]. rewrite <-Hj2 in Ht1.
  pose proof (update_spec s2 _ Ht1 (pu_unlock l Hlok)) as H3. rewrite Q3, Hj2, Hj1, claim_unlock, claim_map in H3 by done.
  split_and!; [|by rewrite Hj2, Hj1, claim_map| |].
  - unfold find_jobs. rewrite exec_bind. cbn [call WorkQueue.exec_prog handle]. fold l l1.
    clearbody l. rewrite exec_bind, query_claim by (unfold int32 in *; lia || done).
    cbn [WorkQueue.exec_prog handle]. rewrite Q1. cbv iota. cbn [fst]. rewrite decide_False by (intros []; done).
    rewrite exec_bind, query_select by (unfold int32 in *; lia || done).
    cbn [WorkQueue.exec_prog handle]. rewrite Q2. cbv iota. cbn [fst snd].
    case_decide; cbn [WorkQueue.exec_prog].
    + rewrite exec_bind, query_unlock by done. cbn [WorkQueue.exec_prog handle]. by rewrite Q3.
    + destruct Hlost as [?| ->]; [done|]. by rewrite exec_bind.
  - destruct H3 as [[_ ->]|[_ [-> | ->]]]; [by right|by left|by right].
  - intros ->. destruct H3 as [[_ ->]|[? _]]; done.
Qed.
End Faults.

(** ** Properties *)

Section Properties.
Context {Srv : Type} `{!MySQL Srv} `{!MySQLSpec Srv}.
Context (now : nat -> Z * Z) (outcome : Job -> Z).
Context (m_config : Settings) (m_job_types : GData job_creator_t) (leaks : Z) (self : identity).

(** C3: functional correctness of a batch.  Against a server that answers, the
    loop body of [run] claims the first [w] pending, unlocked rows in key
    order and leaves each as [final_row] says (complete or error after
    execution, error when its type is unknown, loading or processing in the
    two remaining cases), leaves every other row alone, executes the jobs
    once each in key order, and takes their number off the pending count. *)
Theorem work_refines_batch `{!MySQLReliable Srv} w l0 (s : Srv) :
  let l := lockid self (now (l_ticks l0)) in
  let js := batch_jobs m_job_types w (jobs s) in
  creators_keep_id m_job_types ->
  table_ok (jobs s) -> identity_ok self -> time_ok (now (l_ticks l0)) ->
  (0 < w)%Z -> int32 w -> int32 (l_pending l0) -> Forall (fun r => jr_lock r ≠ l) (jobs s) ->
  exists s', exec_prog now outcome (work m_config m_job_types (mkMysql HLive leaks) self w) l0 s
    = Some (tt, mkLocal (l_queue l0) (wrap32 (l_pending l0 - Z.of_nat (length js)))
         (S (l_ticks l0)) (rev (id <$> js) ++ l_trace l0), s') /\
  jobs s' = batch_table outcome m_config m_job_types l w (jobs s).
Proof. intros l js Hc. by apply exec_work. Qed.

(** C4: a whole round of the thread.  From an empty queue, [k] work messages
    make the thread run one batch of [k] and come back to the test of its loop
    in finitely many steps, having executed the jobs of that batch; the pending
    count has grown by the number of messages that found no job. *)
Theorem thread_round `{!MySQLReliable Srv} k l0 (s : Srv) :
  let w := Z.of_nat k in
  let l := lockid self (now (l_ticks l0)) in
  let js := batch_jobs m_job_types w (jobs s) in
  creators_keep_id m_job_types ->
  table_ok (jobs s) -> identity_ok self -> time_ok (now (l_ticks l0)) ->
  0 < k -> (w < 2 ^ 31)%Z -> int32 (l_pending l0) -> l_queue l0 = [] ->
  Forall (fun r => jr_lock r ≠ l) (jobs s) ->
  exists n s', run_steps now outcome m_config m_job_types (mkMysql HLive leaks) self true n PWhile
      (Nat.iter k send_work l0) s
    = Some (PWhile, mkLocal [] (wrap32 (l_pending l0 + w - Z.of_nat (length js)))
         (S (l_ticks l0)) (rev (id <$> js) ++ l_trace l0), s') /\
  jobs s' = batch_table outcome m_config m_job_types l w (jobs s).
Proof.
  intros w l js Hc Ht Hi Htm Hk Hw Hp Hq Hfresh. rewrite iter_send, Hq by done.
  destruct k as [|k]; [lia|]. set (l1 := mkLocal _ _ _ _).
  destruct (exec_work now outcome m_config m_job_types leaks self Hc w (set_queue [] l1) s)
    as (s' & He & Hj); simpl; try done; try (unfold int32; lia); [apply wrap32_range|].
  destruct (exec_run_steps now outcome m_config m_job_types leaks self true _ _ _ _ _ He) as [n Hn].
  exists (1 + (S k + n)), s'. split; [|exact Hj].
  rewrite run_steps_add.
  change (run_steps now outcome m_config m_job_types (mkMysql HLive leaks) self true 1 PWhile l1 s)
    with (Some (PDrain 1 0, set_queue (replicate k 1%Z) l1, s)).
  cbv iota. rewrite (run_steps_add _ _ _ _ leaks), drain_ones by (done || lia). cbv iota.
  replace (0 + 1 + Z.of_nat k)%Z with w by lia.
  change (set_queue [] (set_queue (replicate k 1%Z) l1)) with (set_queue [] l1).
  rewrite Hn. cbn [l_pending l_queue l_ticks l_trace set_queue l1]. by rewrite wrap32_sub.
Qed.

(** A stop message met while the queue is drained discards the work
    messages drained before it: the thread returns to the test of its loop
    without a query, and the pending count keeps counting them. *)
Theorem stop_discards_drained_work k rest l0 (s : Srv) :
  (Z.of_nat k < 2 ^ 31)%Z -> l_queue l0 = replicate k 1%Z ++ (-1)%Z :: rest ->
  exists n, run_steps now outcome m_config m_job_types (mkMysql HLive leaks) self true n PWhile l0 s
    = Some (PWhile, set_queue rest l0, s).
Proof.
  intros Hk Hq. destruct k as [|k].
  - exists 2. cbn [run_steps run_step]. rewrite Hq. cbn [replicate app]. reflexivity.
  - exists (1 + S (S k)). rewrite run_steps_add. cbn [run_steps run_step]. rewrite Hq. cbn [replicate app].
    etransitivity; [apply (drain_stop now outcome m_config m_job_types leaks self true k 0 _ rest s)|done]; done || lia.
Qed.

(** A claim that fails executes nothing: one query is sent, no job is
    made, and the state of the thread changes only in its clock count. *)
Theorem failed_claim_executes_nothing w l0 (s : Srv) :
  let l := lockid self (now (l_ticks l0)) in
  let '((r, _), s') := real_query s (render (Update (claim_stmt l w))) in
  int32 w -> r ≠ 0%Z ->
  exec_prog now outcome (work m_config m_job_types (mkMysql HLive leaks) self w) l0 s
  = Some (tt, mkLocal (l_queue l0) (l_pending l0) (S (l_ticks l0)) (l_trace l0), s').
Proof.
  intros l. destruct (real_query s _) as [[r res] s'] eqn:E. intros Hw Hr.
  unfold work, find_jobs. rewrite !exec_bind. cbn [call exec_prog handle]. fold l.
  rewrite exec_bind, query_claim by (apply lockid_length || done).
  cbn [exec_prog handle]. rewrite E. cbv iota. cbn [fst]. by rewrite decide_True.
Qed.
End Properties.

(** C14: rows lost by a failing SELECT.  On any server that keeps the contract,
    when the claim succeeds and the SELECT after it fails, or its result is
    lost, [find_jobs] makes no job, and every claimed row is left loading:
    unlocked when the clean-up statement succeeds, still under the lock id
    when that fails without effect or, after a lost result, is not sent at
    all.  Either way none of them is claimable, the number of rows the idle
    check counts has gone down by the whole batch, and no other row changed. *)
Theorem select_failure_strands_rows {Srv : Type} `{!MySQL Srv} `{!MySQLSpec Srv}
    now outcome m_config m_job_types leaks self w l0 (s : Srv) s1 res1 r2 res2 s2 r3 res3 s3 :
  let l := lockid self (now (l_ticks l0)) in
  table_ok (jobs s) -> identity_ok self -> time_ok (now (l_ticks l0)) ->
  (0 < w)%Z -> int32 w -> Forall (fun r => jr_lock r ≠ l) (jobs s) ->
  real_query s (render (Update (claim_stmt l w))) = ((0%Z, res1), s1) ->
  real_query s1 (render (SelectJobs (claimed_cond l) w)) = ((r2, res2), s2) ->
  real_query s2 (render (Update (unlock_stmt l))) = ((r3, res3), s3) ->
  (r2 ≠ 0%Z \/ res2 = None) ->
  exists made s',
    exec_prog now outcome (find_jobs m_config m_job_types (mkMysql HLive leaks) self w) l0 s
    = Some (made, mkLocal (l_queue l0) (l_pending l0) (S (l_ticks l0)) (l_trace l0), s') /\
    default [] made = [] /\
    (forall r, r ∈ batch w (jobs s) -> exists lock,
       lookup_job (jobs s') (jr_id r) = Some (set_status Loading (set_lock lock r)) /\
       claimable (set_status Loading (set_lock lock r)) = false /\
       (lock = "" \/ lock = l) /\ (r2 ≠ 0%Z -> r3 = 0%Z -> lock = "") /\ (r2 = 0%Z -> lock = l)) /\
    (count_pending (jobs s') = count_pending (jobs s) - Z.of_nat (length (batch w (jobs s))))%Z /\
    (forall r, r ∈ jobs s -> r ∉ batch w (jobs s) -> lookup_job (jobs s') (jr_id r) = Some r).
Proof.
  intros l Ht Hi Htm Hw Hw32 Hfresh Q1 Q2 Q3 Hlost.
  destruct (exec_select_lost now outcome m_config m_job_types leaks self w l0 s s1 res1 r2 res2 s2 r3 res3 s3
    Ht Hi Htm Hw Hw32 Hfresh Q1 Q2 Q3 Hlost) as (He & Hj2 & Hst & Hunl). fold l in Hj2, Hst.
  pose proof (lock_prefix_nonempty self l (lockid_prefix self _ Hi)) as Hne.
  rewrite He. destruct (decide (r2 ≠ 0%Z)) as [Hr2|Hr2].
  - exists None, s3. split_and!; [done|done| |by eapply stranded_count|by intros; eapply stranded_other].
    intros r Hr. destruct (stranded_row l w _ _ r Ht Hst Hr) as (lock & Hlk & Hl). exists lock.
    split_and!; [done|done|done| |done]. intros _ H3.
    destruct (stranded_row "" w (jobs s) (jobs s3) r Ht) as (lock' & Hlk' & [-> | ->]); [right; by apply Hunl|done| |];
      rewrite Hlk in Hlk'; by injection Hlk'.
  - assert (stranded l w (jobs s) (jobs s2)) as Hst2 by by left.
    exists (Some []), s2. split_and!; [done|done| |by eapply stranded_count|by intros; eapply stranded_other].
    intros r Hr. exists l. split_and!; [|done|by right|done|done].
    pose proof Hr as [_ Hin]%take_filter_In. rewrite Hj2, map_in_lookup by done.
    rewrite decide_True; [done|]. apply list_elem_of_fmap; eauto.
Qed.

(** C15: a row survives the trip through the client library: the [MyRow] built
    from the text the server sends gives back the id and the name, and the
    data up to 4097 bytes; longer data is cut and NULL reads as (null). *)
Theorem row_roundtrip {Srv : Type} `{!MySQL Srv} `{!MySQLSpec Srv} (r : job_row) :
  row_ok r ->
  let row := myrow (Srv := Srv) r in
  int_field row "id" = Some (jr_id r) /\ str_field row "name" = Some (jr_name r) /\
  match jr_data r with
  | None => str_field row "data" = Some "(null)"
  | Some d => cstr d = d ->
      str_field row "data" = Some (str_take 4097 d) /\
      (String.length d <= 4097 -> str_field row "data" = Some d)
  end.
Proof.
  intros Hr row. destruct (myrow_columns (Srv := Srv) r Hr) as (Hid & Hname & Hdata).
  fold row in Hid, Hname, Hdata. split_and!; [done|done|].
  unfold data_text in Hdata. destruct (jr_data r) as [d|]; [|done].
  intros Hc. rewrite Hc in Hdata. split; [done|]. intros Hl. by rewrite Hdata, str_take_ge by lia.
Qed.

(** C16: lock ids name their thread.  A lock id fits its 40-byte buffer, needs
    no quoting in a statement, and two different threads never have the same
    one, whatever the clock says. *)
Theorem lock_ids_distinct i j tv tv' :
  identity_ok i -> identity_ok j -> time_ok tv -> i ≠ j ->
  String.length (lockid i tv) <= 39 /\ lock_ok (lockid i tv) = true /\ lockid i tv ≠ lockid j tv'.
Proof.
  intros Hi Hj Ht Hij. split_and!; [apply lockid_length|by apply lockid_ok|].
  intros E. apply Hij. eapply (lock_prefix_inj i j (lockid i tv)); [done|done|by apply lockid_prefix|].
  rewrite E. by apply lockid_prefix.
Qed.

(** ** Witnesses *)

Module Example.
Definition now (n : nat) : Z * Z := (1200000000 + Z.of_nat n, 250000)%Z.
(** Jobs named fail report failure. *)
Definition outcome (j : Job) : Z := if decide (name j = "fail") then 0%Z else 1%Z.
Definition config : Settings := mkSettings "/usr/bin" "test" ∅ ∅.
Definition creator : job_creator_t := fun z nm row => Some (new_Job z nm row).
Definition types : GData job_creator_t := {[ "ok" := creator; "fail" := creator ]}.
Definition self : identity := mkIdentity 4242 140737.
Definition rows : table :=
  [mkRow 1 "ok" Processing "7:7:7:7" None; mkRow 2 "ok" Pending "" (Some "a");
   mkRow 3 "nope" Pending "" None; mkRow 4 "fail" Pending "" None; mkRow 5 "ok" Pending "" None].
Definition loc : local := mkLocal [] 0 0 [].

Lemma rows_ok : table_ok rows.
Proof. split; [repeat constructor|]. repeat constructor; simpl; try done; lia. Qed.

Lemma types_ok : creators_keep_id types.
Proof.
  intros n c z nm row j Hc Hj. unfold types in Hc.
  apply lookup_insert_Some in Hc as [[_ <-]|[_ Hc]]; [by injection Hj as <-|].
  apply lookup_singleton_Some in Hc as [_ <-]. by injection Hj as <-.
Qed.

Lemma self_ok : identity_ok self.
Proof. split; simpl; lia. Qed.

Lemma now_ok n : time_ok (now n).
Proof. unfold time_ok; simpl; lia. Qed.

Lemma fresh : Forall (fun r => jr_lock r ≠ lockid self (now 0)) rows.
Proof. repeat constructor; simpl; intros E; vm_compute in E; discriminate. Qed.
End Example.

Lemma work_refines_batch_witness :
  exists s', (snd <$> exec_prog Example.now Example.outcome
    (work Example.config Example.types (mkMysql HLive 0) Example.self 3) Example.loc
    (mkTableServer Example.rows)) = Some s' /\
  jr_status <$> jobs s' = [Processing; Complete; Error; Error; Pending].
Proof.
  destruct (@work_refines_batch table_server table_mysql table_mysql_spec Example.now Example.outcome
    Example.config Example.types 0 Example.self table_mysql_reliable
    3 Example.loc (mkTableServer Example.rows) Example.types_ok Example.rows_ok Example.self_ok
    (Example.now_ok 0) ltac:(lia) ltac:(unfold int32; lia) ltac:(unfold int32; simpl; lia) Example.fresh)
    as (s' & He & Hj).
  exists s'. rewrite He, Hj. split; [reflexivity|]. vm_compute. reflexivity.
Defined.

Lemma thread_round_witness :
  exists n s' l', run_steps Example.now Example.outcome Example.config Example.types (mkMysql HLive 0)
    Example.self true n PWhile (Nat.iter 3 send_work Example.loc) (mkTableServer Example.rows)
    = Some (PWhile, l', s') /\ l_pending l' = 1%Z /\ l_trace l' = [4; 2]%Z.
Proof.
  destruct (@thread_round table_server table_mysql table_mysql_spec Example.now Example.outcome
    Example.config Example.types 0 Example.self table_mysql_reliable
    3 Example.loc (mkTableServer Example.rows) Example.types_ok Example.rows_ok Example.self_ok
    (Example.now_ok 0) ltac:(lia) ltac:(lia) ltac:(unfold int32; simpl; lia) eq_refl Example.fresh)
    as (n & s' & He & _).
  exists n, s'. eexists. split; [exact He|]. split; vm_compute; reflexivity.
Defined.

Lemma stop_discards_drained_work_witness :
  exists n, run_steps Example.now Example.outcome Example.config Example.types (mkMysql HLive 0)
    Example.self true n PWhile (mkLocal [1; 1; -1; 1]%Z 3 0 []) (mkTableServer Example.rows)
    = Some (PWhile, mkLocal [1]%Z 3 0 [], mkTableServer Example.rows).
Proof.
  apply (stop_discards_drained_work Example.now Example.outcome Example.config Example.types 0
    Example.self 2 [1]%Z (mkLocal [1; 1; -1; 1]%Z 3 0 [])); [lia|reflexivity].
Defined.

Lemma failed_claim_executes_nothing_witness :
  exec_prog Example.now Example.outcome
    (work Example.config Example.types (mkMysql HLive 0) Example.self 3) Example.loc
    (mkServer Example.rows [FBefore])
  = Some (tt, mkLocal [] 0 1 [], mkServer Example.rows []).
Proof.
  pose proof (failed_claim_executes_nothing Example.now Example.outcome Example.config Example.types 0
    Example.self 3 Example.loc (mkServer Example.rows [FBefore])) as H.
  cbv zeta in H.
  replace (real_query (mkServer Example.rows [FBefore])
    (render (Update (claim_stmt (lockid Example.self (Example.now (l_ticks Example.loc))) 3))))
    with ((1%Z, @None MYSQL_RES), mkServer Example.rows []) in H by (vm_compute; reflexivity).
  apply H; [unfold int32; lia|discriminate].
Defined.

(** Both the SELECT and the clean-up fail. *)
Lemma select_failure_strands_rows_witness :
  exists made l' s', exec_prog Example.now Example.outcome
    (find_jobs Example.config Example.types (mkMysql HLive 0) Example.self 2) Example.loc
    (mkServer Example.rows [FNone; FBefore; FBefore]) = Some (made, l', s') /\
  (exists lock, lookup_job (jobs s') 2 = Some (mkRow 2 "ok" Loading lock (Some "a"))) /\
  count_pending (jobs s') = 2%Z.
Proof.
  set (s := mkServer Example.rows [FNone; FBefore; FBefore]).
  assert (table_ok (jobs s)) as Ht by exact Example.rows_ok.
  assert (Forall (fun r => jr_lock r ≠ lockid Example.self (Example.now 0)) (jobs s)) as Hf by exact Example.fresh.
  destruct (select_failure_strands_rows (Srv := ref_server) Example.now Example.outcome Example.config Example.types 0
    Example.self 2 Example.loc s _ _ _ _ _ _ _ _
    Ht Example.self_ok (Example.now_ok 0) ltac:(lia) ltac:(unfold int32; lia) Hf
    ltac:(vm_compute; reflexivity) ltac:(vm_compute; reflexivity) ltac:(vm_compute; reflexivity)
    ltac:(left; discriminate)) as (made & s' & He & _ & Hr & Hc & _).
  exists made. eexists _, s'. split; [exact He|]. split.
  - destruct (Hr (mkRow 2 "ok" Pending "" (Some "a"))) as (lock & H & _); [|exists lock; exact H].
    assert (batch 2 Example.rows = [mkRow 2 "ok" Pending "" (Some "a"); mkRow 3 "nope" Pending "" None]) as E
      by reflexivity.
    change (jobs s) with Example.rows. rewrite E. left.
  - rewrite Hc. vm_compute. reflexivity.
Defined.

Lemma row_roundtrip_witness :
  str_field (myrow (Srv := table_server) (mkRow 7 "http" Pending "" (Some "{}"))) "data" = Some "{}".
Proof.
  destruct (row_roundtrip (Srv := table_server) (mkRow 7 "http" Pending "" (Some "{}"))) as (_ & _ & H).
  - repeat split; simpl; lia.
  - apply (H eq_refl). simpl. lia.
Defined.

Lemma lock_ids_distinct_witness :
  lockid (mkIdentity 100 4096) (5, 6)%Z ≠ lockid (mkIdentity 1004 96) (5, 6)%Z.
Proof.
  apply (lock_ids_distinct (mkIdentity 100 4096) (mkIdentity 1004 96) (5, 6)%Z (5, 6)%Z);
    [split; simpl; lia|split; simpl; lia|split; simpl; lia|discriminate].
Defined.
