(* ===== verification/Worker.v ===== *)
(** * Worker: the main thread of a worker process (workq/worker.h, workq/worker.cc)

    The state of [struct Worker] with its array of thread queues, the
    hand-over of work to the threads ([schedule], [on_io_work]), start and
    shutdown ([run], [shutdown], [on_signal_stop]), the event loop over them,
    and the registration of job types from modules ([execute]).  The threads
    themselves are WorkQueue.v; what a thread does with the messages queued
    here is proved there. *)

From S2P Require Import Prelude CLib Settings Records Job JobTable WorkQueue.

(** ** The state *)

(** An element of [m_threads]: as allocated, [NULL] after [shutdown], or a
    work queue. *)
Inductive slot := SGarbage | SNull | SLive (l : local).

Record Worker := mkWorker {
  m_active : bool;
  m_threads : list slot;
  m_job_types : GData job_creator_t;
  io_work_started : bool;           (** [m_io_work] *)
  signal_stop_started : bool;       (** [m_signal_stop] *)
  signal_block_int_started : bool;  (** [m_signal_block_int] *)
  m_loop : bool;                    (** the loop and the watchers exist *)
}.

Definition set_threads (ts : list slot) (w : Worker) : Worker :=
  mkWorker (m_active w) ts (m_job_types w) (io_work_started w) (signal_stop_started w)
    (signal_block_int_started w) (m_loop w).
Definition set_active (b : bool) (w : Worker) : Worker :=
  mkWorker b (m_threads w) (m_job_types w) (io_work_started w) (signal_stop_started w)
    (signal_block_int_started w) (m_loop w).
Definition set_watchers (b : bool) (w : Worker) : Worker :=
  mkWorker (m_active w) (m_threads w) (m_job_types w) b b b (m_loop w).
Definition set_io_work (b : bool) (w : Worker) : Worker :=
  mkWorker (m_active w) (m_threads w) (m_job_types w) b (signal_stop_started w)
    (signal_block_int_started w) (m_loop w).

(** The constructor leaves [m_active] unset; [run] sets it. *)
Definition new_Worker (garbage : bool) : Worker := 
  mkWorker garbage [] ∅ false false false false.

(** [loop_ok]: [ev_default_loop] gave a loop.  The watchers are only made, not
    started. *)
Definition initialize (loop_ok : bool) (w : Worker) : bool * Worker :=
  if loop_ok then
    (true, mkWorker (m_active w) (m_threads w) (m_job_types w) (io_work_started w)
             (signal_stop_started w) (signal_block_int_started w) true)
  else (false, w).

Definition register_job_type (job_name : string) (constructor : job_creator_t) (w : Worker) : Worker :=
  mkWorker (m_active w) (m_threads w) (<[job_name := constructor]> (m_job_types w))
    (io_work_started w) (signal_stop_started w) (signal_block_int_started w) (m_loop w).

(** [m_threads[i]] as a work queue; anything else is not one. *)
Definition thread_at (ts : list slot) (i : nat) : res local :=
  match ts !! i with Some (SLive l) => Val l | _ => Undef end.

Section Code.
Context (m_config : Settings).

Definition threads : Z := get_int m_config "threads" 2.

(** ** Handing out work *)

(** The loop of [schedule]; [n] iterations from index [i]. *)
Fixpoint schedule_loop (ts : list slot) (n i : nat) (smallest : Z) (selected : nat) : res nat :=
  match n with
  | O => Val selected
  | S n' =>
    l ← thread_at ts i;
    let value := pending l in
    if decide (smallest < value)%Z then schedule_loop ts n' (S i) value i
    else schedule_loop ts n' (S i) smallest selected
  end.

Definition schedule (w : Worker) : res Worker :=
  selected ← schedule_loop (m_threads w) (Z.to_nat threads) 0 10 0;
  l ← thread_at (m_threads w) selected;
  Val (set_threads (<[selected := SLive (send_work l)]> (m_threads w)) w).

Fixpoint schedule_times (n : nat) (w : Worker) : res Worker :=
  match n with O => Val w | S n' => w' ← schedule w; schedule_times n' w' end.

(** ** Shutdown *)

Fixpoint stop_loop (n i : nat) (ts : list slot) : res (list slot) :=
  match n with
  | O => Val ts
  | S n' =>
    l ← thread_at ts i;
    stop_loop n' (S i) (<[i := SLive (send_stop l)]> ts)
  end.

(** The destructor of a work queue joins its thread (see
    [Exclusion.inactive_thread_exits]) and frees it. *)
Fixpoint delete_loop (n i : nat) (ts : list slot) : res (list slot) :=
  match n with
  | O => Val ts
  | S n' =>
    match ts !! i with
    | Some SGarbage | None => Undef
    | Some _ => delete_loop n' (S i) (<[i := SNull]> ts)
    end
  end.

Definition shutdown (w : Worker) : res Worker :=
  let w1 := set_active false w in
  ts1 ← stop_loop (Z.to_nat threads) 0 (m_threads w1);
  ts2 ← delete_loop (Z.to_nat threads) 0 ts1;
  Val (set_threads ts2 w1).

(** [ev_unloop(m_loop,0)] cancels nothing and stops nothing; the loop ends
    because no watcher is left. *)
Definition on_signal_stop (w : Worker) : res Worker := shutdown (set_watchers false w).

(** [bytes]: what [read] on the channel returned. *)
Definition on_io_work (bytes : Z) (w : Worker) : res Worker :=
  w1 ← schedule w;
  if decide (bytes = -1 \/ bytes = 0)%Z then
    _ ← shutdown (set_io_work false w1);
    Exit 1
  else schedule_times (Z.to_nat (bytes - 1)) w1.

(** ** [run] *)

(** What the environment decides for thread [i]: whether [initialize] and
    [g_thread_create] succeed, and what [m_pending] starts with. *)
Context (init_ok create_ok : nat -> bool) (garbage : nat -> Z).

Fixpoint start_loop (n i : nat) (ts : list slot) : bool * list slot :=
  match n with
  | O => (true, ts)
  | S n' =>
    let ts' := <[i := SLive (new_WorkQueue (garbage i))]> ts in
    if negb (init_ok i) then (false, ts')
    else if negb (create_ok i) then (false, ts')
    else start_loop n' (S i) ts'
  end.

Inductive event := EIo (bytes : Z) | EStop | EInt.

(** Only a started watcher is called. *)
Definition dispatch (e : event) (w : Worker) : res Worker :=
  match e with
  | EIo bytes => if io_work_started w then on_io_work bytes w else Val w
  | EStop => if signal_stop_started w then on_signal_stop w else Val w
  | EInt => if signal_block_int_started w then on_signal_stop w else Val w
  end.

(** [ev_loop] returns ([true]) when no watcher is active; [false]: it waits for
    more events. *)
Fixpoint ev_loop (es : list event) (w : Worker) : res (bool * Worker) :=
  if io_work_started w || signal_stop_started w || signal_block_int_started w then
    match es with
    | [] => Val (false, w)
    | e :: es' => w' ← dispatch e w; ev_loop es' w'
    end
  else Val (true, w).

(** A negative thread count makes [g_malloc] abort; without a loop the first
    watcher started is a NULL pointer. *)
Definition run (es : list event) (w : Worker) : res (option Z * Worker) :=
  if decide (threads < 0)%Z then Undef else
  let w1 := set_threads (replicate (Z.to_nat threads) SGarbage) (set_active true w) in
  let '(ok, ts) := start_loop (Z.to_nat threads) 0 (m_threads w1) in
  let w2 := set_threads ts w1 in
  if ok then
    if m_loop w2 then
      '(returned, w') ← ev_loop es (set_watchers true w2);
      Val (if returned : bool then Some 0%Z else None, w')
    else Undef
  else Val (Some 1%Z, w2).
End Code.

(** ** [execute]: a worker process from start to end *)

(** What is looked up in a dynamic module. *)
Record GModule := mkModule {
  mod_creator : option job_creator_t;
  mod_initialize : bool;
  mod_finalize : bool;
}.

(** The calls that matter, in order. *)
Inductive call_log :=
| CChdir (path : string)
| CInitialize (module path : string)
| CReady               (** [worker_send_pipe[1]] closed: the server goes on *)
| CFinalize (module : string)
| CModuleClose (module : string).

Section Execute.
Context (path_is_absolute : string -> bool) (get_current_dir : string) (build_path : string -> string -> string).
(** [g_strsplit(s, ",", 0)], [g_strstrip], [g_module_open], [WQ_CONFIG_LIB_DIR]. *)
Context (g_strsplit : string -> list string) (g_strstrip : string -> string).
Context (g_module_open : string -> option GModule) (lib_dir : string).
Context (m_config : Settings).
Context (init_ok create_ok : nat -> bool) (garbage : nat -> Z).

Definition module_path (prefix name : string) : string :=
  format "%s/%s" [AStr prefix; AStr name].

(** One iteration of the loading loop: the worker, the modules opened so far
    ([None]: not opened) and the calls made. *)
Definition load_module (prefix change_path : string)
    (st : Worker * list (string * option GModule) * list call_log) (job_type : string) :
    Worker * list (string * option GModule) * list call_log :=
  let '(w, mods, log) := st in
  let job_module_name := g_strstrip job_type in
  match g_module_open (module_path prefix job_module_name) with
  | None => (w, mods ++ [(job_module_name, None)], log)
  | Some m =>
    match mod_creator m with
    | None => (w, mods ++ [(job_module_name, Some m)], log)
    | Some creator =>
      (register_job_type job_module_name creator w, mods ++ [(job_module_name, Some m)],
       log ++ (if mod_initialize m then [CInitialize job_module_name change_path] else []))
    end
  end.

(** The loop after [run]; [g_module_symbol] and [g_module_close] refuse a NULL
    module. *)
Definition unload (mods : list (string * option GModule)) : list call_log :=
  concat ((fun nm : string * option GModule =>
    match snd nm with
    | Some m => (if mod_finalize m then [CFinalize (fst nm)] else []) ++ [CModuleClose (fst nm)]
    | None => []
    end) <$> mods).

Definition change_path : string :=
  let exe_path := default "" (get_str m_config "execution_path" (Some (m_binpath m_config))) in
  if path_is_absolute exe_path then exe_path else build_path get_current_dir exe_path.

(** Up to the call of [run]; without a jobs key [g_strsplit] returns NULL,
    which is dereferenced. *)
Definition load_modules (w : Worker) : res (Worker * list (string * option GModule) * list call_log) :=
  match get_str m_config "jobs" None with
  | None => Undef
  | Some job_list =>
    let prefix := default "" (get_str m_config "job_prefix" (Some lib_dir)) in
    Val (fold_left (load_module prefix change_path) (g_strsplit job_list)
           (w, [], [CChdir change_path]))
  end.

(** The results of [initialize] and [run] are not looked at; the process exits
    with status 0. *)
Definition execute (loop_ok : bool) (es : list event) (w : Worker) : res (list call_log) :=
  let '(_, w0) := initialize loop_ok w in
  '(w1, mods, log) ← load_modules w0;
  '(r, w2) ← run m_config init_ok create_ok garbage es w1;
  Val (log ++ [CReady] ++ match r with Some _ => unload mods | None => [] end).
End Execute.

(** ** Lemmas: scheduling *)

(** What [schedule_loop] has found among the first [i] threads. *)
Definition best (ls : list local) (i : nat) (smallest : Z) (selected : nat) : Prop :=
  (smallest = 10%Z /\ selected = 0 /\ forall j l, j < i -> ls !! j = Some l -> (pending l <= 10)%Z) \/
  (selected < i /\ (10 < smallest)%Z /\
   (exists l, ls !! selected = Some l /\ pending l = smallest) /\
   (forall j l, j < i -> ls !! j = Some l -> (pending l <= smallest)%Z) /\
   (forall j l, j < selected -> ls !! j = Some l -> (pending l < smallest)%Z)).

Lemma thread_at_live ls i l : ls !! i = Some l -> thread_at (SLive <$> ls) i = Val l.
Proof. intros H. unfold thread_at. by rewrite list_lookup_fmap, H. Qed.

Lemma schedule_loop_best ls n i smallest selected :
  n + i = length ls -> best ls i smallest selected ->
  exists k v, schedule_loop (SLive <$> ls) n i smallest selected = Val k /\ best ls (length ls) v k.
Proof.
  revert i smallest selected; induction n as [|n IH]; intros i sm sel Hlen Hb.
  { exists sel, sm. by rewrite <-Hlen. }
  destruct (lookup_lt_is_Some_2 ls i) as [l Hl]; [lia|].
  cbn [schedule_loop]. rewrite (thread_at_live _ _ _ Hl). cbn [mbind res_bind].
  assert (forall j l', j < S i -> ls !! j = Some l' -> j < i \/ l' = l) as Hj.
  { intros j l' Hj Hl'. destruct (decide (j = i)) as [->|]; [right; congruence|left; lia]. }
  case_decide as Hlt; apply IH; try lia.
  - right. destruct Hb as [(-> & -> & Hb)|(Hsel & Hsm & _ & Hmax & _)].
    + split_and!; [lia|done|eauto| |].
      * intros j l' Hji Hl'. destruct (Hj j l' Hji Hl') as [Hji'| ->]; [specialize (Hb j l' Hji' Hl'); lia|lia].
      * intros j l' Hji Hl'. specialize (Hb j l' Hji Hl'). lia.
    + split_and!; [lia|lia|eauto| |].
      * intros j l' Hji Hl'. destruct (Hj j l' Hji Hl') as [Hji'| ->]; [specialize (Hmax j l' Hji' Hl'); lia|lia].
      * intros j l' Hji Hl'. specialize (Hmax j l' Hji Hl'). lia.
  - destruct Hb as [(-> & -> & Hb)|(Hsel & Hsm & Hs & Hmax & Hfirst)]; [left|right].
    + split_and!; [done..|]. intros j l' Hji Hl'. destruct (Hj j l' Hji Hl') as [?| ->]; [by eapply Hb|lia].
    + split_and!; [lia|done|done| |done].
      intros j l' Hji Hl'. destruct (Hj j l' Hji Hl') as [?| ->]; [by eapply Hmax|lia].
Qed.

Section Lemmas.
Context (m_config : Settings).

(** A worker all of whose configured threads run. *)
Definition running (w : Worker) (ls : list local) : Prop :=
  m_threads w = SLive <$> ls /\ Z.of_nat (length ls) = threads m_config /\ ls ≠ [].

Lemma running_schedule w ls :
  running w ls ->
  exists k v l, best ls (length ls) v k /\ ls !! k = Some l /\
    schedule m_config w = Val (set_threads (SLive <$> <[k := send_work l]> ls) w).
Proof.
  intros (Ht & Hn & Hne). unfold schedule. rewrite Ht, <-Hn, Nat2Z.id.
  destruct (schedule_loop_best ls (length ls) 0 10 0) as (k & v & -> & Hb); [lia|left; split_and!; [done..|lia]|].
  assert (k < length ls) as Hk.
  { destruct Hb as [(_ & -> & _)|[? _]]; [destruct ls; simpl; [done|lia]|lia]. }
  destruct (lookup_lt_is_Some_2 ls k Hk) as [l Hl]. exists k, v, l. split_and!; [done..|].
  cbn [mbind res_bind]. rewrite (thread_at_live _ _ _ Hl). cbn [mbind res_bind].
  by rewrite <-list_fmap_insert.
Qed.

(** The messages waiting in all the queues. *)
Definition messages (ls : list local) : nat := sum_list_with (fun l => length (l_queue l)) ls.

Lemma messages_insert ls k l :
  ls !! k = Some l -> messages (<[k := send_work l]> ls) = S (messages ls).
Proof.
  unfold messages. revert k; induction ls as [|l' ls IH]; intros [|k]; simpl; intros; simplify_eq.
  - unfold send_work, set_queue; simpl. rewrite length_app. simpl. lia.
  - rewrite IH by done. lia.
Qed.

Lemma running_schedule_times n w ls :
  running w ls ->
  exists ls', schedule_times m_config n w = Val (set_threads (SLive <$> ls') w) /\
    length ls' = length ls /\ messages ls' = n + messages ls.
Proof.
  revert w ls; induction n as [|n IH]; intros w ls Hr.
  { exists ls. destruct Hr as (<- & _). by destruct w. }
  destruct (running_schedule w ls Hr) as (k & v & l & _ & Hl & Hs). cbn [schedule_times]. rewrite Hs.
  cbn [mbind res_bind]. destruct Hr as (Ht & Hn & Hne).
  destruct (IH (set_threads (SLive <$> <[k := send_work l]> ls) w) (<[k := send_work l]> ls))
    as (ls' & -> & Hlen & Hm).
  { split_and!; [done|by rewrite length_insert|]. intros E%(f_equal length). rewrite length_insert in E.
    by destruct ls. }
  exists ls'. rewrite Hlen, Hm, length_insert, (messages_insert _ _ _ Hl). split_and!; [done..|lia].
Qed.

(** *** Shutdown *)

Lemma stop_loop_live ls1 ls2 :
  stop_loop (length ls2) (length ls1) (SLive <$> ls1 ++ ls2)
  = Val (SLive <$> ls1 ++ (send_stop <$> ls2)).
Proof.
  revert ls1; induction ls2 as [|l ls2 IH]; intros ls1; [done|].
  cbn [length stop_loop]. rewrite (thread_at_live _ _ l) by by rewrite list_lookup_middle.
  cbn [mbind res_bind]. rewrite <-list_fmap_insert.
  rewrite insert_app_r_alt, Nat.sub_diag by lia. cbn [insert list_insert].
  specialize (IH (ls1 ++ [send_stop l])). rewrite length_app, Nat.add_comm in IH. simpl in IH.
  rewrite <-!app_assoc in IH. exact IH.
Qed.

Lemma delete_loop_live n ls :
  delete_loop (length ls) n (replicate n SNull ++ (SLive <$> ls)) = Val (replicate (n + length ls) SNull).
Proof.
  revert n; induction ls as [|l ls IH]; intros n.
  { simpl. by rewrite app_nil_r, Nat.add_0_r. }
  cbn [length delete_loop]. rewrite fmap_cons. rewrite list_lookup_middle by by rewrite length_replicate.
  rewrite insert_app_r_alt, length_replicate, Nat.sub_diag by (rewrite length_replicate; lia).
  cbn [insert list_insert]. specialize (IH (S n)).
  change (replicate (S n) SNull) with (SNull :: replicate n SNull) in IH.
  rewrite replicate_cons_app, <-app_assoc in IH. rewrite Nat.add_succ_r. exact IH.
Qed.

Lemma running_shutdown w ls :
  running w ls ->
  shutdown m_config w = Val (set_threads (replicate (length ls) SNull) (set_active false w)).
Proof.
  intros (Ht & Hn & _). unfold shutdown. cbn [m_threads set_active]. rewrite Ht, <-Hn, Nat2Z.id.
  pose proof (stop_loop_live [] ls) as Hs. cbn [length app] in Hs. rewrite Hs. cbn [mbind res_bind].
  pose proof (delete_loop_live 0 (send_stop <$> ls)) as Hd. rewrite length_fmap in Hd.
  cbn [replicate app Nat.add] in Hd. by rewrite Hd.
Qed.
End Lemmas.

(** *** Start *)

Lemma start_loop_live init_ok create_ok garbage n ls :
  (forall i, i < length ls + n -> init_ok i = true /\ create_ok i = true) ->
  start_loop init_ok create_ok garbage n (length ls) ((SLive <$> ls) ++ replicate n SGarbage)
  = (true, SLive <$> ls ++ ((fun i => new_WorkQueue (garbage i)) <$> seq (length ls) n)).
Proof.
  revert ls; induction n as [|n IH]; intros ls Hok.
  { simpl. by rewrite !app_nil_r. }
  cbn [start_loop replicate seq]. destruct (Hok (length ls)) as [-> ->]; [lia|]. cbn [negb].
  rewrite insert_app_r_alt, length_fmap, Nat.sub_diag by (rewrite length_fmap; lia).
  cbn [insert list_insert].
  specialize (IH (ls ++ [new_WorkQueue (garbage (length ls))])).
  replace (length (ls ++ [new_WorkQueue (garbage (length ls))])) with (S (length ls)) in IH
    by (rewrite length_app; simpl; lia).
  rewrite fmap_app, <-app_assoc in IH. cbn [app fmap list_fmap] in IH. rewrite IH.
  - f_equal. rewrite fmap_cons, !fmap_app, <-app_assoc. done.
  - intros i Hi. apply Hok. lia.
Qed.

(** *** Stopping *)

Lemma worker_loop_stops m_config w ls bs stop rest :
  running m_config w ls -> Forall (fun b => 0 < b)%Z bs ->
  io_work_started w = true -> signal_stop_started w = true -> signal_block_int_started w = true ->
  stop = EStop \/ stop = EInt ->
  ev_loop m_config ((EIo <$> bs) ++ stop :: rest) w
  = Val (true, mkWorker false (replicate (length ls) SNull) (m_job_types w) false false false (m_loop w)).
Proof.
  intros Hr Hbs. revert w ls Hr. induction Hbs as [|b bs Hb Hbs IH]; intros w ls Hr H1 H2 H3 Hstop.
  - cbn [fmap list_fmap app ev_loop]. rewrite H1. cbn [orb].
    assert (dispatch m_config stop w = on_signal_stop m_config w) as ->
      by (destruct Hstop as [-> | ->]; simpl; by rewrite ?H2, ?H3).
    unfold on_signal_stop. rewrite (running_shutdown m_config _ ls) by done.
    cbn [mbind res_bind]. by destruct rest.
  - cbn [fmap list_fmap app ev_loop]. rewrite H1. cbn [orb dispatch]. rewrite H1.
    destruct Hr as (Ht & Hn & Hne).
    destruct (running_schedule_times m_config (Z.to_nat b) w ls) as (ls' & Hs & Hlen & _); [done|].
    unfold on_io_work. replace (Z.to_nat b) with (S (Z.to_nat (b - 1))) in Hs by lia.
    cbn [schedule_times] in Hs. destruct (schedule m_config w) as [w1| |]; [|done..].
    cbn [mbind res_bind] in *. rewrite decide_False, Hs by lia. cbn [mbind res_bind].
    rewrite <-Hlen. change (m_job_types w) with (m_job_types (set_threads (SLive <$> ls') w)).
    change (m_loop w) with (m_loop (set_threads (SLive <$> ls') w)).
    apply IH; try done. split_and!; [done|by rewrite Hlen|by destruct ls, ls'].
Qed.

(** Every thread starts, the loop runs until the first signal. *)
Lemma run_stops m_config init_ok create_ok garbage w bs stop rest :
  (0 < threads m_config)%Z -> m_loop w = true ->
  (forall i, init_ok i = true /\ create_ok i = true) ->
  Forall (fun b => 0 < b)%Z bs -> stop = EStop \/ stop = EInt ->
  run m_config init_ok create_ok garbage ((EIo <$> bs) ++ stop :: rest) w
  = Val (Some 0%Z, mkWorker false (replicate (Z.to_nat (threads m_config)) SNull) (m_job_types w)
                false false false (m_loop w)).
Proof.
  intros Ht Hloop Hok Hbs Hstop. unfold run. rewrite decide_False by lia.
  set (n := Z.to_nat (threads m_config)).
  pose proof (start_loop_live init_ok create_ok garbage n [] (fun i _ => Hok i)) as Hs.
  cbn [length app fmap list_fmap] in Hs. cbn [set_threads m_threads]. rewrite Hs.
  cbn [set_threads set_active m_loop]. rewrite Hloop.
  set (ls := (fun i => new_WorkQueue (garbage i)) <$> seq 0 n).
  assert (Hlen : length ls = n) by (unfold ls; by rewrite length_fmap, length_seq).
  set (w2 := set_watchers true _).
  assert (Hr : running m_config w2 ls).
  { split_and!; [done|rewrite Hlen; lia|]. intros E. rewrite E in Hlen. simpl in Hlen. lia. }
  pose proof (worker_loop_stops m_config w2 ls bs stop rest Hr Hbs eq_refl eq_refl eq_refl Hstop) as Hl.
  rewrite Hl, Hlen. unfold w2. cbn. by rewrite Hloop.
Qed.

(** A thread that does not start ends the start-up. *)
Lemma start_loop_fails init_ok create_ok garbage i n k ts :
  i <= k < i + n -> init_ok k && create_ok k = false ->
  fst (start_loop init_ok create_ok garbage n i ts) = false.
Proof.
  revert i ts; induction n as [|n IH]; intros i ts Hk Hbad; [lia|].
  cbn [start_loop]. destruct (decide (k = i)) as [->|].
  { by destruct (init_ok i), (create_ok i). }
  destruct (init_ok i); [|done]. destruct (create_ok i); [|done]. apply IH; [lia|done].
Qed.

Lemma run_fails m_config init_ok create_ok garbage w es k :
  (0 <= Z.of_nat k < threads m_config)%Z -> init_ok k && create_ok k = false ->
  exists w', run m_config init_ok create_ok garbage es w = Val (Some 1%Z, w').
Proof.
  intros Hk Hbad. unfold run. rewrite decide_False by lia.
  pose proof (start_loop_fails init_ok create_ok garbage 0 (Z.to_nat (threads m_config)) k) as Hs.
  destruct (start_loop _ _ _ _ _ _) as [ok ts] eqn:E.
  specialize (Hs (m_threads (set_threads (replicate (Z.to_nat (threads m_config)) SGarbage)
    (set_active true w))) ltac:(lia) Hbad).
  rewrite E in Hs. simpl in Hs. rewrite Hs. by eexists.
Qed.

(** *** Loading modules *)

Lemma load_module_types strip g_open prefix path w mods log x w' mods' log' :
  load_module strip g_open prefix path (w, mods, log) x = (w', mods', log') ->
  (exists o, mods' = mods ++ [(strip x, o)]) /\
  forall n, m_job_types w' !! n
    = if decide (n = strip x) then
        match g_open (module_path prefix n) ≫= mod_creator with
        | Some c => Some c | None => m_job_types w !! n end
      else m_job_types w !! n.
Proof.
  unfold load_module. destruct (g_open _) as [m|] eqn:Eo; [destruct (mod_creator m) as [c|] eqn:Ec|];
    intros E; injection E as <- <- <-; (split; [by eexists|]); intros n; case_decide as Hn; subst; rewrite ?Eo;
    cbn [mbind option_bind]; rewrite ?Ec; simpl; by simplify_map_eq.
Qed.

Lemma load_fold_gen strip g_open prefix path xs w mods log w' mods' log' :
  fold_left (load_module strip g_open prefix path) xs (w, mods, log) = (w', mods', log') ->
  fst <$> mods' = (fst <$> mods) ++ (strip <$> xs) /\
  forall n, m_job_types w' !! n
    = if decide (n ∈ strip <$> xs) then
        match g_open (module_path prefix n) ≫= mod_creator with
        | Some c => Some c | None => m_job_types w !! n end
      else m_job_types w !! n.
Proof.
  revert w mods log; induction xs as [|x xs IH]; intros w mods log E.
  { injection E as <- <- <-. rewrite app_nil_r. split; [done|]. intros n. by rewrite decide_False by set_solver. }
  cbn [fold_left] in E. destruct (load_module _ _ _ _ _ x) as [[w1 mods1] log1] eqn:E1.
  apply load_module_types in E1 as [[o ->] H1]. apply IH in E as [-> H]. split.
  { by rewrite fmap_app, <-app_assoc. }
  intros n. rewrite H, H1. rewrite fmap_cons. destruct (decide (n = strip x)) as [->|Hne].
  - rewrite (decide_True (P := strip x ∈ strip x :: _)) by (by left).
    case_decide; [|done]. by destruct (g_open _ ≫= _).
  - destruct (decide (n ∈ strip <$> xs)).
    + by rewrite decide_True by (by right).
    + rewrite decide_False; [done|]. by intros [?|?]%elem_of_cons.
Qed.

Lemma load_fold strip g_open prefix path xs garbage w' mods' log0 log' :
  fold_left (load_module strip g_open prefix path) xs (new_Worker garbage, [], log0) = (w', mods', log') ->
  fst <$> mods' = strip <$> xs /\
  forall n c, m_job_types w' !! n = Some c <->
    n ∈ strip <$> xs /\ exists m, g_open (module_path prefix n) = Some m /\ mod_creator m = Some c.
Proof.
  intros [Hm H]%load_fold_gen. split; [done|]. intros n c. rewrite H. clear H. simpl.
  case_decide as Hin.
  - destruct (g_open _) as [m|]; simpl; [destruct (mod_creator m) eqn:Em|];
      rewrite ?lookup_empty; naive_solver.
  - rewrite lookup_empty. naive_solver.
Qed.

(** The calls made for the module called [n], when loading and at the end. *)
Definition load_calls (g_open : string -> option GModule) (prefix path n : string) : list call_log :=
  match g_open (module_path prefix n) with
  | Some m => if mod_creator m then if mod_initialize m then [CInitialize n path] else [] else []
  | None => []
  end.

Definition unload_calls (g_open : string -> option GModule) (prefix n : string) : list call_log :=
  match g_open (module_path prefix n) with
  | Some m => (if mod_finalize m then [CFinalize n] else []) ++ [CModuleClose n]
  | None => []
  end.

Lemma unload_app mods mods' : unload (mods ++ mods') = unload mods ++ unload mods'.
Proof. unfold unload. by rewrite fmap_app, concat_app. Qed.

Lemma load_fold_calls strip g_open prefix path xs w mods log :
  exists w' mods',
    fold_left (load_module strip g_open prefix path) xs (w, mods, log)
    = (w', mods', log ++ concat (load_calls g_open prefix path <$> (strip <$> xs))) /\
    unload mods' = unload mods ++ concat (unload_calls g_open prefix <$> (strip <$> xs)) /\
    m_loop w' = m_loop w.
Proof.
  revert w mods log; induction xs as [|x xs IH]; intros w mods log.
  { exists w, mods. by rewrite !app_nil_r. }
  cbn [fold_left]. rewrite !fmap_cons. cbn [concat].
  unfold load_module at 2, load_calls at 1, unload_calls at 1.
  destruct (g_open _) as [m|]; [destruct (mod_creator m) as [c|]|].
  all: edestruct IH as (w' & mods' & E & Hu & Hl); exists w', mods'; rewrite E, Hu, unload_app;
    split_and!; [try (destruct (mod_initialize m)); by rewrite <-?app_assoc| |done].
  all: unfold unload; cbn [fmap list_fmap fst snd concat]; by rewrite ?app_nil_r, <-?app_assoc.
Qed.

(** ** Properties *)

Section Properties.
Context (m_config : Settings).

(** C18: which thread [schedule] picks.  With every configured thread running,
    exactly one thread gets one work message: the first one, unless some
    thread has more than ten messages pending; then the first of those with
    the most.  It is never the least busy one the comment promises. *)
Theorem schedule_picks_busiest w ls :
  running m_config w ls ->
  exists k l, ls !! k = Some l /\
    schedule m_config w = Val (set_threads (SLive <$> <[k := send_work l]> ls) w) /\
    ((k = 0 /\ Forall (fun l' => (pending l' <= 10)%Z) ls) \/
     ((10 < pending l)%Z /\ Forall (fun l' => (pending l' <= pending l)%Z) ls /\
      forall j l', j < k -> ls !! j = Some l' -> (pending l' < pending l)%Z)).
Proof.
  intros Hr. destruct (running_schedule m_config w ls Hr) as (k & v & l & Hb & Hl & Hs).
  exists k, l. split_and!; [done..|]. destruct Hb as [(_ & -> & Hb)|(_ & Hv & (l0 & Hl0 & <-) & Hmax & Hfirst)].
  - left. split; [done|]. apply Forall_lookup. intros j l' Hj. by eapply Hb, Hj; apply lookup_lt_Some in Hj.
  - right. simplify_eq. split_and!; [done| |done].
    apply Forall_lookup. intros j l' Hj. by eapply Hmax, Hj; apply lookup_lt_Some in Hj.
Qed.

(** C19: no wake-up is lost.  When [read] delivers [n] bytes from the channel,
    exactly [n] work messages are queued, all of them to threads of this
    worker, and nothing else about the worker changes; when the channel is at
    its end (the server is gone) or broken, the process exits with status 1. *)
Theorem io_work_messages w ls bytes :
  running m_config w ls ->
  ((0 < bytes)%Z ->
   exists ls', on_io_work m_config bytes w = Val (set_threads (SLive <$> ls') w) /\
     length ls' = length ls /\ messages ls' = Z.to_nat bytes + messages ls) /\
  (bytes = 0 \/ bytes = -1 -> on_io_work m_config bytes w = Exit 1)%Z.
Proof.
  intros Hr. unfold on_io_work. split.
  - intros Hb. destruct (running_schedule_times m_config (Z.to_nat bytes) w ls Hr) as (ls' & Hs & Hlen & Hm).
    exists ls'. split_and!; [|done..]. replace (Z.to_nat bytes) with (S (Z.to_nat (bytes - 1))) in Hs by lia.
    cbn [schedule_times] in Hs. destruct (schedule m_config w) as [w1| |]; [|done..].
    cbn [mbind res_bind] in *. by rewrite decide_False by lia.
  - intros Hb. destruct (running_schedule m_config w ls Hr) as (k & v & l & _ & Hl & Hs). rewrite Hs.
    cbn [mbind res_bind]. rewrite decide_True by tauto. destruct Hr as (Ht & Hn & Hne).
    rewrite (running_shutdown m_config _ (<[k := send_work l]> ls)); [done|].
    split_and!; [done|by rewrite length_insert|]. intros E%(f_equal length). rewrite length_insert in E.
    by destruct ls.
Qed.

(** C20: a worker process stops on either signal.  From a running worker, any
    reads from the channel followed by SIGUSR2 or SIGINT make the event loop
    return with the process inactive, every thread told to stop and joined,
    and no watcher left; what comes later is ignored. *)
Theorem worker_stops_on_signal w ls bs stop rest :
  running m_config w ls -> Forall (fun b => 0 < b)%Z bs ->
  io_work_started w = true -> signal_stop_started w = true -> signal_block_int_started w = true ->
  stop = EStop \/ stop = EInt ->
  ev_loop m_config ((EIo <$> bs) ++ stop :: rest) w
  = Val (true, mkWorker false (replicate (length ls) SNull) (m_job_types w) false false false (m_loop w)).
Proof. apply worker_loop_stops. Qed.

(** A module is usable exactly when it was named in the configuration,
    could be opened and has a creator; without a jobs key the process crashes
    before it reports that it is ready. *)
Theorem job_types_registered is_abs cwd build split strip g_open lib_dir garbage :
  match get_str m_config "jobs" None with
  | None => load_modules is_abs cwd build split strip g_open lib_dir m_config (new_Worker garbage) = Undef
  | Some job_list =>
    let prefix := default "" (get_str m_config "job_prefix" (Some lib_dir)) in
    exists w mods log,
      load_modules is_abs cwd build split strip g_open lib_dir m_config (new_Worker garbage) = Val (w, mods, log) /\
      fst <$> mods = strip <$> split job_list /\
      forall n c, m_job_types w !! n = Some c <->
        n ∈ strip <$> split job_list /\ exists m, g_open (module_path prefix n) = Some m /\ mod_creator m = Some c
  end.
Proof.
  unfold load_modules. destruct (get_str m_config "jobs" None) as [job_list|]; [|done]. cbv zeta.
  destruct (fold_left _ _ _) as [[w mods] log] eqn:E. exists w, mods, log. split; [by rewrite <-E|].
  by apply load_fold in E.
Qed.
(** C21: the life of a worker process.  Whether its threads run until a
    signal stops them or one of them cannot be started, the process changes
    directory, initializes the usable modules in the order of the
    configuration, reports ready once, and then finalizes and closes every
    module it opened (also those it never initialized) in the same order. *)
Theorem execute_calls is_abs cwd build split strip g_open lib_dir init_ok create_ok garbage g es job_list :
  let prefix := default "" (get_str m_config "job_prefix" (Some lib_dir)) in
  let path := change_path is_abs cwd build m_config in
  let names := strip <$> split job_list in
  get_str m_config "jobs" None = Some job_list ->
  (exists bs stop rest, es = (EIo <$> bs) ++ stop :: rest /\
     Forall (fun b => 0 < b)%Z bs /\ (stop = EStop \/ stop = EInt) /\
     (0 < threads m_config)%Z /\ forall i, init_ok i = true /\ create_ok i = true) \/
  (exists k, (Z.of_nat k < threads m_config)%Z /\ init_ok k && create_ok k = false) ->
  execute is_abs cwd build split strip g_open lib_dir m_config init_ok create_ok garbage
    true es (new_Worker g)
  = Val (CChdir path :: concat (load_calls g_open prefix path <$> names) ++
         CReady :: concat (unload_calls g_open prefix <$> names)).
Proof.
  intros prefix path names Hjobs Hes. unfold execute, initialize, load_modules. rewrite Hjobs.
  cbn [mbind res_bind].
  match goal with |- context [fold_left _ _ (?w, _, _)] => set (w0 := w) end.
  destruct (load_fold_calls strip g_open prefix path (split job_list) w0 [] [CChdir path])
    as (w' & mods' & E & Hu & Hl).
  fold prefix path. rewrite E, Hu.
  assert (exists c w2, run m_config init_ok create_ok garbage es w' = Val (Some c, w2)) as (c & w2 & Er).
  { destruct Hes as [(bs & stop & rest & -> & Hbs & Hstop & Ht & Hok)|(k & Hk & Hbad)].
    - eexists _, _. by apply run_stops.
    - destruct (run_fails m_config init_ok create_ok garbage w' es k) as [w2 Er]; [lia|done|].
      by exists 1%Z, w2. }
  rewrite Er. reflexivity.
Qed.
End Properties.

(** ** Witnesses *)

Module Example.
(** Two threads, the default. *)
Definition config : Settings := mkSettings "/usr/bin" "test" ∅ ∅.
Definition idle (p : Z) : local := mkLocal [] p 0 [].
Definition worker (p q : Z) : Worker :=
  mkWorker true [SLive (idle p); SLive (idle q)] ∅ true true true true.

Lemma worker_running p q : running config (worker p q) [idle p; idle q].
Proof. by repeat split. Qed.
End Example.

Lemma schedule_picks_busiest_witness :
  schedule Example.config (Example.worker 3 12)
  = Val (set_threads [SLive (Example.idle 3); SLive (send_work (Example.idle 12))] (Example.worker 3 12)).
Proof.
  destruct (schedule_picks_busiest Example.config (Example.worker 3 12) [Example.idle 3; Example.idle 12]
    (Example.worker_running 3 12)) as (k & l & Hl & Hs & Hk).
  rewrite Hs. destruct Hk as [[_ Hall]|(Hp & _ & _)].
  - exfalso. rewrite Forall_forall in Hall. specialize (Hall (Example.idle 12)).
    assert (pending (Example.idle 12) <= 10)%Z as Hc by (apply Hall; right; left). simpl in Hc. lia.
  - destruct k as [|[|k]]; simpl in Hl; [|injection Hl as <-; reflexivity|discriminate].
    injection Hl as <-. simpl in Hp. lia.
Defined.

Lemma io_work_messages_witness :
  on_io_work Example.config 0 (Example.worker 0 0) = Exit 1 /\
  exists ls', on_io_work Example.config 2 (Example.worker 0 0)
    = Val (set_threads (SLive <$> ls') (Example.worker 0 0)) /\ messages ls' = 2.
Proof.
  destruct (io_work_messages Example.config (Example.worker 0 0) _ 0 (Example.worker_running 0 0)) as [_ H0].
  destruct (io_work_messages Example.config (Example.worker 0 0) _ 2 (Example.worker_running 0 0)) as [H2 _].
  split; [apply H0; left; reflexivity|]. destruct (H2 ltac:(lia)) as (ls' & Hs & _ & Hm).
  exists ls'. split; [exact Hs|exact Hm].
Defined.

Lemma worker_stops_on_signal_witness :
  ev_loop Example.config [EIo 2; EIo 6; EInt; EIo 0] (Example.worker 0 0)
  = Val (true, mkWorker false [SNull; SNull] ∅ false false false true).
Proof.
  apply (worker_stops_on_signal Example.config (Example.worker 0 0) _ [2; 6]%Z EInt [EIo 0]
    (Example.worker_running 0 0)); [repeat constructor; lia|reflexivity..|right; reflexivity].
Defined.

Lemma execute_calls_witness :
  let conf := mkSettings "/usr/bin" "test" {[ "jobs" := "run, bad" ]} ∅ in
  let creator : job_creator_t := fun z nm row => Some (new_Job z nm row) in
  execute (fun _ => true) "/" (fun a b => a +:+ "/" +:+ b) (fun _ => ["run"; " bad"])
    (fun s => if decide (s = " bad") then "bad" else s)
    (fun p => if decide (p = "/lib/run") then Some (mkModule (Some creator) true true)
              else Some (mkModule None true true))
    "/lib" conf (fun _ => true) (fun _ => true) (fun _ => 0%Z) true [EIo 2; EStop] (new_Worker false)
  = Val [CChdir "/usr/bin"; CInitialize "run" "/usr/bin"; CReady;
         CFinalize "run"; CModuleClose "run"; CFinalize "bad"; CModuleClose "bad"].
Proof.
  intros conf creator.
  refine (execute_calls conf _ _ _ _ _ _ _ _ _ _ _ _ "run, bad" eq_refl _).
  left. exists [2%Z], EStop, []. repeat split; [repeat constructor; lia|left; reflexivity].
Defined.
