(* ===== verification/Channel.v ===== *)
(** * Channel: the pipes between the server and a worker
    (workq/channel.h, workq/channel.cc)

    A [WorkerChannel] is a pair of pipes over the descriptor tables of the
    two processes.  [pipe], [read] and [fork] belong to the system: the
    descriptors they return and their success are arguments; a descriptor
    table maps descriptors to pipe ends. *)

From S2P Require Import Prelude.

(** The two pipes of channel [i]. *)
Inductive pipe_id := ServerSend (i : nat) | WorkerSend (i : nat).

#[export] Instance pipe_id_eq_dec : EqDecision pipe_id.
Proof. solve_decision. Defined.

Inductive pipe_end := ReadEnd (p : pipe_id) | WriteEnd (p : pipe_id).

#[export] Instance pipe_end_eq_dec : EqDecision pipe_end.
Proof. solve_decision. Defined.

(** The pipe ends a process holds, by descriptor. *)
Notation fd_table := (gmap Z pipe_end).

Definition close (fd : Z) (t : fd_table) : fd_table := delete fd t.

Record WorkerChannel := mkChannel {
  server_send_pipe : Z * Z;
  worker_send_pipe : Z * Z;
  child : bool;
}.

Definition new_WorkerChannel : WorkerChannel := mkChannel (0, 0)%Z (0, 0)%Z false.

(** What [pipe] returned: [None] is -1. *)
Definition add_pipe (p : pipe_id) (fds : Z * Z) (t : fd_table) : fd_table :=
  <[fst fds := ReadEnd p]> (<[snd fds := WriteEnd p]> t).

Definition open (i : nat) (pipe1 pipe2 : option (Z * Z)) (c : WorkerChannel) (t : fd_table) :
    bool * WorkerChannel * fd_table :=
  match pipe1 with
  | None => (false, c, t)
  | Some fds1 =>
    let c1 := mkChannel fds1 (worker_send_pipe c) (child c) in
    let t1 := add_pipe (ServerSend i) fds1 t in
    match pipe2 with
    | None => (false, c1, t1)
    | Some fds2 => (true, mkChannel fds1 fds2 (child c), add_pipe (WorkerSend i) fds2 t1)
    end
  end.

Definition child_init (c : WorkerChannel) (t : fd_table) : WorkerChannel * fd_table :=
  (mkChannel (server_send_pipe c) (worker_send_pipe c) true,
   close (fst (worker_send_pipe c)) (close (snd (server_send_pipe c)) t)).

Definition parent_init (c : WorkerChannel) (t : fd_table) : WorkerChannel * fd_table :=
  (mkChannel (server_send_pipe c) (worker_send_pipe c) false,
   close (snd (worker_send_pipe c)) (close (fst (server_send_pipe c)) t)).

(** [read_ok]: the read that waits for the child did not fail. *)
Definition waitForChildInit (read_ok : bool) (c : WorkerChannel) (t : fd_table) : bool * fd_table :=
  if read_ok then (true, close (fst (worker_send_pipe c)) t) else (false, t).

(** [~WorkerChannel] *)
Definition destroy_channel (c : WorkerChannel) (t : fd_table) : fd_table :=
  if child c then close (fst (server_send_pipe c)) t else close (snd (server_send_pipe c)) t.

(** The descriptors of a channel are new and different. *)
Definition fresh_fds (fds1 fds2 : Z * Z) (t : fd_table) : Prop :=
  NoDup [fst fds1; snd fds1; fst fds2; snd fds2] /\
  Forall (fun fd => t !! fd = None) [fst fds1; snd fds1; fst fds2; snd fds2].

(** ** Lemmas *)

(** A process's view of its table, one descriptor at a time. *)
Lemma close_lookup fd t x : close fd t !! x = if decide (x = fd) then None else t !! x.
Proof. unfold close. destruct (decide (x = fd)) as [->|]; [by rewrite lookup_delete_eq|by rewrite lookup_delete_ne]. Qed.

Lemma add_pipe_lookup p fds t x :
  add_pipe p fds t !! x =
  if decide (x = fst fds) then Some (ReadEnd p)
  else if decide (x = snd fds) then Some (WriteEnd p) else t !! x.
Proof.
  unfold add_pipe. destruct (decide (x = fst fds)) as [->|]; [by rewrite lookup_insert_eq|].
  rewrite lookup_insert_ne by done. destruct (decide (x = snd fds)) as [->|]; [by rewrite lookup_insert_eq|].
  by rewrite lookup_insert_ne.
Qed.

Lemma fresh_fds_distinct a b c d t :
  fresh_fds (a, b) (c, d) t ->
  a ≠ b /\ a ≠ c /\ a ≠ d /\ b ≠ c /\ b ≠ d /\ c ≠ d /\
  t !! a = None /\ t !! b = None /\ t !! c = None /\ t !! d = None.
Proof.
  intros [Hd Hn]. simpl in *. rewrite !NoDup_cons in Hd. rewrite !Forall_cons in Hn.
  destruct Hd as (Ha & Hb & Hc & _), Hn as (? & ? & ? & ? & _).
  rewrite !not_elem_of_cons in Ha. rewrite !not_elem_of_cons in Hb. rewrite !not_elem_of_cons in Hc.
  destruct Ha as (?&?&?&_), Hb as (?&?&_), Hc as (?&_). by split_and!.
Qed.

(** Lookups through a stack of [close]s and [add_pipe]s. *)
Ltac solve_table :=
  rewrite ?close_lookup, ?add_pipe_lookup; cbn [fst snd server_send_pipe worker_send_pipe];
  repeat (case_decide; subst; try congruence); try done.

(** ** Properties *)

(** C32: descriptors.  A channel that opens gives the server, after it has
    waited for the child, exactly one descriptor, the write end towards the
    worker, and the destructor closes that: nothing leaks.  The child keeps
    the read end towards it and, until it reports ready, the other pipe's
    write end. *)
Theorem channel_descriptors i fds1 fds2 t :
  fresh_fds fds1 fds2 t ->
  let '(ok, c, t1) := open i (Some fds1) (Some fds2) new_WorkerChannel t in
  let '(cc, tc) := child_init c t1 in
  let '(cp, tp) := parent_init c t1 in
  let '(ready, tp') := waitForChildInit true cp tp in
  ok = true /\ ready = true /\
  tp' = <[snd fds1 := WriteEnd (ServerSend i)]> t /\
  destroy_channel cp tp' = t /\
  tc = <[fst fds1 := ReadEnd (ServerSend i)]> (<[snd fds2 := WriteEnd (WorkerSend i)]> t) /\
  destroy_channel cc (close (snd fds2) tc) = t.
Proof.
  intros Hf. destruct fds1 as [a b], fds2 as [c d]. apply fresh_fds_distinct in Hf as (?&?&?&?&?&?&?&?&?&?).
  unfold open, child_init, parent_init, waitForChildInit, destroy_channel; cbn [fst snd child server_send_pipe worker_send_pipe].
  split_and!; [done|done| | | |]; apply map_eq; intros x; rewrite ?lookup_insert; solve_table.
Qed.

(** A channel that fails to open.  When the first pipe cannot be made the
    descriptors are still 0, and the destructor closes the server's standard
    input; when the second cannot, the read end of the first leaks. *)
Theorem channel_open_failure i a b t :
  a ≠ b ->
  (let '(ok, c, t') := open i None None new_WorkerChannel t in
   ok = false /\ destroy_channel c t' = delete 0%Z t) /\
  (let '(ok, c, t') := open i (Some (a, b)) None new_WorkerChannel t in
   ok = false /\ destroy_channel c t' !! a = Some (ReadEnd (ServerSend i)) /\
   destroy_channel c t' !! b = None).
Proof.
  intros Hab. split; [done|]. cbn [open]. split; [done|].
  unfold destroy_channel; cbn [child new_WorkerChannel server_send_pipe snd]. split; solve_table.
Qed.

Lemma channel_descriptors_witness :
  let '(_, c, t1) := open 0 (Some (4, 5)%Z) (Some (6, 7)%Z) new_WorkerChannel ∅ in
  let '(cp, tp) := parent_init c t1 in
  destroy_channel cp (snd (waitForChildInit true cp tp)) = ∅.
Proof.
  assert (fresh_fds (4, 5)%Z (6, 7)%Z ∅) as Hf.
  { split; [|repeat constructor; apply lookup_empty]. repeat constructor; set_solver. }
  exact (proj1 (proj2 (proj2 (proj2 (channel_descriptors 0 (4, 5)%Z (6, 7)%Z ∅ Hf))))).
Defined.

Lemma channel_open_failure_witness :
  let '(ok, c, t') := open 0 (Some (4, 5)%Z) None new_WorkerChannel ∅ in
  ok = false /\ destroy_channel c t' !! 4%Z = Some (ReadEnd (ServerSend 0)).
Proof.
  destruct (channel_open_failure 0 4 5 ∅ ltac:(lia)) as (_ & Hok & Hl & _). exact (conj Hok Hl).
Defined.
