(* ===== verification/Server.v ===== *)
(** * Server: the master process (workq/server.h, workq/server.cc)

    The master starts the worker processes ([start_worker]), hands each
    wake-up to one of them ([schedule]), polls the table when idle
    ([idle_jobcheck], [increase_timeout]), and stops them ([shutdown]).  The
    results of system calls are arguments; the calls that matter to others are
    recorded in [actions].  [log10] is the C library's. *)

From S2P Require Import Prelude CLib Settings Records Job Effects Adaptor JobTable Channel RefServer.

(** ** The state *)

Inductive action :=
| AWrite (fd bytes : Z)        (** bytes written to a channel *)
| AKill (pid sig : Z)
| AWaitPid (pid : Z)
| AClose (fd : Z)
| AUnloop.

Definition SIGUSR2 : Z := 12.

Record Server := mkSrv {
  m_sock : Z;
  m_idle_timeout_duration : double;
  m_timeout : option double;         (** the repeat the timer was last started with *)
  m_num_pids : Z;
  m_pids : list Z;
  m_workers : list bool;             (** [m_workers[i] != NULL] *)
  m_last_worker : Z;
  m_worker_channels : list (option WorkerChannel);
  m_db : option MysqlAdaptor;
  fds : fd_table;                    (** of the master process *)
  children : list fd_table;          (** of the workers, as they were forked *)
  actions : list action;             (** the latest last *)
}.

(** The constructor leaves [m_num_pids] and the timeout duration unset. *)
Definition new_Server (num : Z) (duration : double) (t : fd_table) : Server :=
  mkSrv (-1) duration None num [] [] 0 [] None t [] [].

Definition set_duration (d : double) (s : Server) : Server :=
  mkSrv (m_sock s) d (m_timeout s) (m_num_pids s) (m_pids s) (m_workers s) (m_last_worker s)
    (m_worker_channels s) (m_db s) (fds s) (children s) (actions s).

(** [ev_timer_stop], [ev_timer_set] and [ev_timer_again] with the current duration. *)
Definition restart_timer (s : Server) : Server :=
  mkSrv (m_sock s) (m_idle_timeout_duration s) (Some (m_idle_timeout_duration s)) (m_num_pids s) (m_pids s)
    (m_workers s) (m_last_worker s) (m_worker_channels s) (m_db s) (fds s) (children s) (actions s).

Definition set_last (n : Z) (s : Server) : Server :=
  mkSrv (m_sock s) (m_idle_timeout_duration s) (m_timeout s) (m_num_pids s) (m_pids s)
    (m_workers s) n (m_worker_channels s) (m_db s) (fds s) (children s) (actions s).

Definition act (a : list action) (s : Server) : Server :=
  mkSrv (m_sock s) (m_idle_timeout_duration s) (m_timeout s) (m_num_pids s) (m_pids s)
    (m_workers s) (m_last_worker s) (m_worker_channels s) (m_db s) (fds s) (children s) (actions s ++ a).

Definition set_db (db : option MysqlAdaptor) (s : Server) : Server :=
  mkSrv (m_sock s) (m_idle_timeout_duration s) (m_timeout s) (m_num_pids s) (m_pids s)
    (m_workers s) (m_last_worker s) (m_worker_channels s) db (fds s) (children s) (actions s).

Definition set_sock (k : Z) (s : Server) : Server :=
  mkSrv k (m_idle_timeout_duration s) (m_timeout s) (m_num_pids s) (m_pids s)
    (m_workers s) (m_last_worker s) (m_worker_channels s) (m_db s) (fds s) (children s) (actions s).

Definition set_tables (t : fd_table) (cs : list fd_table) (s : Server) : Server :=
  mkSrv (m_sock s) (m_idle_timeout_duration s) (m_timeout s) (m_num_pids s) (m_pids s)
    (m_workers s) (m_last_worker s) (m_worker_channels s) (m_db s) t cs (actions s).

Definition set_channel (i : nat) (c : WorkerChannel) (s : Server) : Server :=
  mkSrv (m_sock s) (m_idle_timeout_duration s) (m_timeout s) (m_num_pids s) (m_pids s)
    (m_workers s) (m_last_worker s) (<[i := Some c]> (m_worker_channels s)) (m_db s) (fds s) (children s)
    (actions s).

(** [m_pids[i] = pid] and the child watcher. *)
Definition set_worker (i : nat) (pid : Z) (s : Server) : Server :=
  mkSrv (m_sock s) (m_idle_timeout_duration s) (m_timeout s) (m_num_pids s) (<[i := pid]> (m_pids s))
    (<[i := true]> (m_workers s)) (m_last_worker s) (m_worker_channels s) (m_db s) (fds s) (children s)
    (actions s).

(** [g_malloc0] of the three arrays. *)
Definition alloc_workers (n : Z) (s : Server) : Server :=
  let k := Z.to_nat n in
  mkSrv (m_sock s) (m_idle_timeout_duration s) (m_timeout s) n (replicate k 0%Z) (replicate k false)
    (m_last_worker s) (replicate k None) (m_db s) (fds s) (children s) (actions s).

Section Code.
Context (m_config : Settings) (reg : registry) (log10 : double -> double).

Definition min_idle_timeout : double := get_double m_config "min_idle_timeout" (d_of_Z 5).
Definition max_idle_timeout : double := get_double m_config "max_idle_timeout" (d_of_Z 64).

(** ** [initialize] *)

Definition server_initialize (loop_ok init_ok : bool)
    (connect_ok : option string -> option string -> option string -> option string -> Z -> bool)
    (s : Server) : bool * Server :=
  if negb loop_ok then (false, s) else
  let s1 := set_duration min_idle_timeout s in
  match create reg (default "" (get_str m_config "adapter" (Some "mysql"))) with
  | None => (false, s1)
  | Some db =>
    let ok := connect_ok (get_str m_config "username" None) (get_str m_config "password" None)
      (get_str m_config "host" None) (get_str m_config "database" None) (get_int m_config "port" 3306) in
    let '(connected, db') := connect init_ok ok db in
    (connected, set_db (Some db') s1)
  end.

(** ** Starting the workers *)

(** What the system answers while worker [i] is started. *)
Record start_env := mkEnv {
  e_pipe1 : option (Z * Z);
  e_pipe2 : option (Z * Z);
  e_fork : Z;           (** negative: failure; the child's pid in the parent *)
  e_read_ok : bool;     (** the wait for the child did not fail *)
}.

(** The child's side ends in [Worker::execute], which does not return; its
    descriptor table at that point joins [children]. *)
Definition start_worker (i : nat) (e : start_env) (s : Server) : res (bool * Server) :=
  let '(ok, channel, t1) := open i (e_pipe1 e) (e_pipe2 e) new_WorkerChannel (fds s) in
  let s1 := set_tables t1 (children s) (set_channel i channel s) in
  if negb ok then Val (false, s1)
  else if decide (e_fork e < 0)%Z then Exit 1
  else
    let '(_, tc) := child_init channel t1 in
    let '(channel', t2) := parent_init channel t1 in
    let '(ready, t3) := waitForChildInit (e_read_ok e) channel' t2 in
    let s2 := set_tables t3 (children s ++ [tc]) (set_channel i channel' s1) in
    if negb ready then Val (false, s2)
    else Val (true, set_worker i (e_fork e) s2).

(** The loop of [start_workers]; results are ignored. *)
Fixpoint start_loop (es : list start_env) (i : nat) (s : Server) : res Server :=
  match es with
  | [] => Val s
  | e :: es' => '(_, s') ← start_worker i e s; start_loop es' (S i) s'
  end.

(** [env i]: the answers for worker [i].  A negative count makes [g_malloc0] abort. *)
Definition start_workers (env : nat -> start_env) (s : Server) : res Server :=
  let n := get_int m_config "workers" 1 in
  if decide (n < 0)%Z then Undef
  else start_loop (env <$> seq 0 (Z.to_nat n)) 0 (alloc_workers n s).

(** ** Handing out wake-ups *)

(** [char msg[2]]: the letter and its terminator are both written. *)
Definition msg_size : Z := 2.

(** What becomes of the [write] to a channel: the bytes are in the pipe; the
    call returns -1; or no process has the read end any more and SIGPIPE,
    which the program neither handles nor ignores, ends the master. *)
Inductive write_result := WDone | WFailed | WSigPipe.

#[export] Instance write_result_eq_dec : EqDecision write_result.
Proof. solve_decision. Defined.

(** How the end of the process by that signal is reported. *)
Definition killed_by_sigpipe : Z := 128 + 13.

(** A failed write is only logged: the turn passes to the next worker. *)
Definition schedule (w : write_result) (s : Server) : res Server :=
  match m_pids s !! Z.to_nat (m_last_worker s), m_worker_channels s !! Z.to_nat (m_last_worker s) with
  | Some _, Some channel =>
    s1 ← match channel with
         | Some c =>
             match w with
             | WDone => Val (act [AWrite (snd (server_send_pipe c)) msg_size] s)
             | WFailed => Val s
             | WSigPipe => Exit killed_by_sigpipe
             end
         | None => Val s
         end;
    let next := (m_last_worker s1 + 1)%Z in
    Val (set_last (if decide (m_num_pids s1 <= next)%Z then 0%Z else next) s1)
  | _, _ => Undef
  end.

(** ** The idle timer *)

Definition increase_timeout (s : Server) : Server :=
  let duration := m_idle_timeout_duration s in
  if d_ltb duration max_idle_timeout then
    let max2 := d_mul max_idle_timeout max_idle_timeout in
    let x2 := d_mul duration duration in
    let duration' := d_add duration (d_abs (log10 (d_sub max2 x2))) in
    let duration'' :=
      if d_ltb max_idle_timeout duration' || d_leb max_idle_timeout (d_add duration' (d_of_Z 1))
      then max_idle_timeout else duration' in
    restart_timer (set_duration duration'' s)
  else s.

(** [recv_ok]: [recv] did not return -1. *)
Definition on_connect (recv_ok : bool) (w : write_result) (s : Server) : res Server :=
  let s1 := restart_timer (set_duration min_idle_timeout s) in
  if recv_ok then schedule w s1 else Val s1.

Definition count_select_sql : string :=
  "select count(id) as pending from jobs where status='pending' and locked_queue_id=0".

Definition idle_jobcheck (w : write_result) (s : Server) : prog (res Server) :=
  match m_db s with
  | None => undefined
  | Some db =>
    it ← query_with_result db count_select_sql [];
    match it with
    | Some it =>
      match fst (begin it) with
      | Some row =>
        match int_field row "pending" with
        | None => undefined
        | Some pending =>
          if decide (0 < pending)%Z then
            Ret (s1 ← schedule w s; Val (restart_timer (set_duration min_idle_timeout s1)))
          else Ret (Val (increase_timeout s))
        end
      | None => Ret (Val s)
      end
    | None => Ret (Val (increase_timeout s))
    end
  end.

(** ** Shutdown *)

(** The loop over the workers.  [waits]: the status each [waitpid] gives, or
    [None] when it fails because the worker has exited and its status was
    taken by the event loop.  [status] is the variable of [shutdown]: not set
    before the first successful call, and tested after every call. *)
Fixpoint stop_workers (pids : list Z) (waits : list (option Z)) (status : option Z) : res (list action) :=
  match pids with
  | [] => Val []
  | pid :: pids' =>
    let status' := match waits with Some st :: _ => Some st | _ => status end in
    match status' with
    | None => Undef
    | Some _ =>
        rest ← stop_workers pids' (tail waits) status';
        Val ([AKill pid SIGUSR2; AWaitPid pid] ++ rest)
    end
  end.

(** [g_malloc0] leaves 0 in the place of a worker that did not start. *)
Definition shutdown (waits : list (option Z)) (s : Server) : res Server :=
  stopped ← stop_workers (take (Z.to_nat (m_num_pids s)) (m_pids s)) waits None;
  Val (act ([AClose (m_sock s); AUnloop] ++ stopped) s).

(** [~Server]: the channels are destroyed, the adaptor deleted. *)
Definition destroy_server (s : Server) : res Server :=
  let t := fold_left (fun t c => match c with Some c => destroy_channel c t | None => t end)
             (take (Z.to_nat (m_num_pids s)) (m_worker_channels s)) (fds s) in
  match m_db s with
  | None => Val (set_tables t (children s) s)
  | Some db => match destroy db with
               | Some db' => Val (set_db (Some db') (set_tables t (children s) s))
               | None => Undef
               end
  end.

(** ** [run] *)

Definition bindsock (socket_ret : Z) (bind_ok : bool) (s : Server) : Z * Server :=
  let s1 := set_sock socket_ret s in
  if decide (socket_ret = -1)%Z then ((-1)%Z, s1)
  else if bind_ok then (0%Z, s1)
  else ((-1)%Z, if decide (0 < socket_ret)%Z then act [AClose socket_ret] s1 else s1).

(** An event with what the calls its handler makes will give. *)
Inductive event :=
| EConnect (recv_ok : bool) (w : write_result)
| ETimeout (w : write_result)
| EChildExit                          (** the worker's status is taken *)
| ESignal (waits : list (option Z)).

Section Loop.
Context {Srv : Type} `{!MySQL Srv}.

(** The queries of a program, run on the server process's connection. *)
Fixpoint run_queries {A} (p : prog A) (db : Srv) : res (A * Srv) :=
  match p with
  | Ret a => Val (a, db)
  | Op o k =>
    match o return (resp o -> prog A) -> res (A * Srv) with
    | ORealQuery sql => fun k => let '(r, db') := real_query db sql in run_queries (k r) db'
    | _ => fun _ => Undef
    end k
  end.

(** [ev_loop] returns ([true]) once [ev_unloop] is called; [false]: it waits for
    more events. *)
Fixpoint ev_loop (es : list event) (s : Server) (db : Srv) : res (bool * Server * Srv) :=
  match es with
  | [] => Val (false, s, db)
  | e :: es' =>
    match e with
    | EConnect recv_ok w => s' ← on_connect recv_ok w s; ev_loop es' s' db
    | ETimeout w => '(r, db') ← run_queries (idle_jobcheck w s) db; s' ← r; ev_loop es' s' db'
    | EChildExit => ev_loop es' s db
    | ESignal waits => s' ← shutdown waits s; Val (true, s', db)
    end
  end.

(** A worker without a child watcher crashes [ev_child_start].  The result is
    [None] while the loop waits for events. *)
Definition run (socket_ret : Z) (bind_ok fcntl_ok : bool) (es : list event) (s : Server) (db : Srv) :
    res (option Z * Server * Srv) :=
  let '(r, s1) := bindsock socket_ret bind_ok s in
  if decide (r ≠ 0%Z) then Val (Some r, s1, db)
  else if negb fcntl_ok then Undef
  else if forallb (fun b : bool => b) (take (Z.to_nat (m_num_pids s1)) (m_workers s1)) then
    '(returned, s2, db') ← ev_loop es (restart_timer s1) db;
    Val (if returned : bool then Some 0%Z else None, s2, db')
  else Undef.
End Loop.
End Code.

(** ** Lemmas: round robin *)

(** A master all of whose workers have a channel. *)
Definition server_ok (s : Server) (chans : list WorkerChannel) : Prop :=
  (0 < m_num_pids s)%Z /\ m_num_pids s = Z.of_nat (length chans) /\
  m_worker_channels s = Some <$> chans /\ length (m_pids s) = length chans /\
  (0 <= m_last_worker s < m_num_pids s)%Z.

Fixpoint schedule_times (ws : list write_result) (s : Server) : res Server :=
  match ws with [] => Val s | w :: ws' => s' ← schedule w s; schedule_times ws' s' end.

Definition wake (c : WorkerChannel) : action := AWrite (snd (server_send_pipe c)) msg_size.

(** What a write leaves in the pipe. *)
Definition sent (w : write_result) (c : WorkerChannel) : list action :=
  match w with WDone => [wake c] | _ => [] end.

(** The server after a turn. *)
Definition after_turn (w : write_result) (c : WorkerChannel) (s : Server) : Server :=
  set_last ((m_last_worker s + 1) `mod` m_num_pids s)%Z (act (sent w c) s).

Lemma act_nil s : act [] s = s.
Proof. unfold act. rewrite app_nil_r. by destruct s. Qed.

Lemma schedule_once w s chans :
  server_ok s chans ->
  exists c, chans !! Z.to_nat (m_last_worker s) = Some c /\
  schedule w s = match w with WSigPipe => Exit killed_by_sigpipe | _ => Val (after_turn w c s) end.
Proof.
  intros (Hpos & Hn & Hc & Hp & Hl).
  destruct (lookup_lt_is_Some_2 chans (Z.to_nat (m_last_worker s))) as [c Hch]; [lia|].
  destruct (lookup_lt_is_Some_2 (m_pids s) (Z.to_nat (m_last_worker s))) as [p Hpid]; [lia|].
  exists c. split; [done|]. unfold schedule. rewrite Hpid, Hc, list_lookup_fmap, Hch. cbn [fmap option_fmap option_map].
  assert ((if decide (m_num_pids s <= m_last_worker s + 1)%Z then 0%Z else (m_last_worker s + 1)%Z)
    = ((m_last_worker s + 1) `mod` m_num_pids s)%Z) as Hnext.
  { case_decide; [|by rewrite Z.mod_small by lia].
    replace (m_last_worker s + 1)%Z with (m_num_pids s) by lia. by rewrite Z.mod_same by lia. }
  unfold after_turn, sent. destruct w; cbn [mbind res_bind]; [|rewrite act_nil|done]; cbn; by rewrite Hnext.
Qed.

Lemma after_turn_ok w s chans c : server_ok s chans -> server_ok (after_turn w c s) chans.
Proof.
  intros (Hpos & Hn & Hc & Hp & Hl). split_and!; try done.
  - cbn. apply Z.mod_pos_bound. done.
  - cbn. apply Z.mod_pos_bound. done.
Qed.

(** The [j]-th channel from position [last] on, going around. *)
Definition chan_at (chans : list WorkerChannel) (last num : Z) (j : nat) : WorkerChannel :=
  default new_WorkerChannel (chans !! Z.to_nat ((last + Z.of_nat j) `mod` num)).

(** The writes of successive turns. *)
Definition turns (chans : list WorkerChannel) (last num : Z) (ws : list write_result) : list action :=
  concat (imap (fun j w => sent w (chan_at chans last num j)) ws).

Lemma schedule_times_spec ws s chans :
  server_ok s chans -> WSigPipe ∉ ws ->
  exists s', schedule_times ws s = Val s' /\ server_ok s' chans /\
    m_last_worker s' = ((m_last_worker s + Z.of_nat (length ws)) `mod` m_num_pids s)%Z /\
    actions s' = actions s ++ turns chans (m_last_worker s) (m_num_pids s) ws.
Proof.
  revert s; induction ws as [|w ws IH]; intros s Hok Hws.
  { exists s. unfold turns. simpl. rewrite app_nil_r, Z.add_0_r. pose proof Hok as (?&?&?&?&?).
    rewrite Z.mod_small by done. by split_and!. }
  apply not_elem_of_cons in Hws as [Hw Hws].
  destruct (schedule_once w s chans Hok) as (c & Hc & Hs). cbn [schedule_times]. rewrite Hs.
  set (s1 := after_turn w c s) in *. destruct (IH s1 (after_turn_ok w s chans c Hok) Hws) as (s' & Hr & Hok' & Hl & Ha).
  exists s'. destruct Hok as (Hpos & _ & _ & _ & Hlast).
  assert (forall j, ((m_last_worker s1 + Z.of_nat j) `mod` m_num_pids s
    = (m_last_worker s + Z.of_nat (S j)) `mod` m_num_pids s)%Z) as Hm.
  { intros j. cbn. rewrite Zplus_mod_idemp_l. f_equal. lia. }
  split_and!; [by destruct w|done| |].
  - rewrite Hl. change (m_num_pids s1) with (m_num_pids s). by rewrite Hm.
  - rewrite Ha. change (actions s1) with (actions s ++ sent w c). rewrite <-app_assoc. f_equal.
    unfold turns. rewrite imap_cons. cbn [concat]. f_equal.
    + unfold chan_at. by rewrite Z.add_0_r, Z.mod_small, Hc by done.
    + f_equal. apply imap_ext. intros j w' _. unfold chan_at. simpl.
      change (m_num_pids s1) with (m_num_pids s). by rewrite Hm.
Qed.

Lemma turns_done chans last num n :
  turns chans last num (replicate n WDone) = (fun j => wake (chan_at chans last num j)) <$> seq 0 n.
Proof.
  unfold turns. revert last; induction n as [|n IH]; intros last; [done|].
  cbn [replicate]. rewrite imap_cons. cbn [concat sent app seq]. rewrite fmap_cons. f_equal.
  rewrite <-seq_shift, <-list_fmap_compose.
  transitivity (concat (imap (fun j w => sent w (chan_at chans (last + 1) num j)) (replicate n WDone))).
  - f_equal. apply imap_ext. intros j w _. unfold chan_at. replace (last + 1 + Z.of_nat j)%Z with (last + Z.of_nat (S j))%Z by lia. done.
  - rewrite IH. apply list_fmap_ext. intros _ j _. unfold chan_at; simpl.
    replace (last + 1 + Z.of_nat j)%Z with (last + Z.of_nat (S j))%Z by lia. done.
Qed.

(** Going around once visits every channel once. *)
Lemma chan_round chans last :
  (0 <= last < Z.of_nat (length chans))%Z ->
  (fun j => chan_at chans last (Z.of_nat (length chans)) j) <$> seq 0 (length chans) ≡ₚ chans.
Proof.
  intros Hl. set (n := length chans). set (k := Z.to_nat last).
  assert (seq 0 n = seq 0 (n - k) ++ seq (0 + (n - k)) k) as -> by (rewrite <-seq_app; f_equal; lia).
  rewrite fmap_app.
  assert (((fun j => chan_at chans last (Z.of_nat n) j) <$> seq 0 (n - k)) = drop k chans) as Hd.
  { apply list_eq. intros i. rewrite list_lookup_fmap, lookup_drop.
    destruct (decide (i < n - k)) as [Hi|Hi].
    - rewrite lookup_seq_lt by done. simpl. unfold chan_at. rewrite Z.mod_small by lia.
      replace (Z.to_nat (last + Z.of_nat i)) with (k + i) by lia.
      destruct (lookup_lt_is_Some_2 chans (k + i)) as [c Hc]; [lia|]. by rewrite Hc.
    - rewrite lookup_seq_ge by lia. rewrite lookup_ge_None_2; [done|lia]. }
  assert (((fun j => chan_at chans last (Z.of_nat n) j) <$> seq (0 + (n - k)) k) = take k chans) as Ht.
  { apply list_eq. intros i. rewrite list_lookup_fmap. destruct (decide (i < k)) as [Hi|Hi].
    - rewrite lookup_seq_lt by done. rewrite lookup_take_lt by done. simpl. unfold chan_at.
      replace (last + Z.of_nat (n - k + i))%Z with (Z.of_nat i + 1 * Z.of_nat n)%Z by lia.
      rewrite Z.mod_add, Z.mod_small by lia. rewrite Nat2Z.id.
      destruct (lookup_lt_is_Some_2 chans i) as [c Hc]; [lia|]. by rewrite Hc.
    - rewrite lookup_seq_ge by lia. rewrite lookup_take_ge by lia. done. }
  rewrite Hd, Ht. rewrite Permutation_app_comm. by rewrite take_drop.
Qed.

(** ** Lemmas: the idle check *)

Lemma count_text : format count_select_sql [] = render CountPending.
Proof. reflexivity. Qed.

Lemma count_row n :
  (0 <= n < 2 ^ 31)%Z ->
  exists row, fst (begin (new_MysqlIterator query_buffer_size (Some (count_result n)))) = Some row /\
  int_field row "pending" = Some n.
Proof.
  intros Hn. set (f := mkField "pending" MYSQL_TYPE_LONGLONG 21).
  exists (new_MyRow query_buffer_size [f] [Some (dec n)]). split; [reflexivity|].
  assert (create_column query_buffer_size f (Some (dec n)) = mkCol FIXED (DFixed n)) as E.
  { unfold create_column, f; cbn [f_type f_length].
    assert (String.length (dec n) <= 10) by (apply dec_length; lia).
    rewrite snprintf_prec_fits.
    - unfold atol. by rewrite strtol_dec by (unfold int64; lia).
    - apply digits_cstr, dec_digits; lia.
    - rewrite wrap32_id by (unfold int32; lia). lia.
    - unfold query_buffer_size. lia. }
  unfold new_MyRow. cbn [zip zip_with fold_left fst snd f_name]. rewrite E.
  unfold int_field, f. simplify_map_eq. by rewrite wrap32_id by (unfold int32; lia).
Qed.

Lemma claimable_counted t r : r ∈ t -> claimable r = true -> (0 < count_pending t)%Z.
Proof.
  intros Hr Hc. unfold count_pending.
  assert (r ∈ filter (fun r => bool_decide (jr_status r = Pending) && lock_is_zero (jr_lock r) = true) t) as Hin.
  { apply list_elem_of_filter. split; [|done].
    unfold claimable, matches in Hc; simpl in Hc. rewrite !andb_true_iff in Hc. destruct Hc as (H1 & H2 & _).
    rewrite H1. apply bool_decide_eq_true in H2. by rewrite H2. }
  destruct (filter _ t); [by apply elem_of_nil in Hin|]. simpl. lia.
Qed.

Lemma count_le_length t : (0 <= count_pending t <= Z.of_nat (length t))%Z.
Proof. unfold count_pending. pose proof (length_filter (fun r => bool_decide (jr_status r = Pending) && lock_is_zero (jr_lock r) = true) t). lia. Qed.

Section Lemmas.
Context (m_config : Settings) (log10 : double -> double).
Context {Srv : Type} `{!MySQL Srv} `{!MySQLSpec Srv}.

Lemma count_fits : (Z.of_nat (String.length (format count_select_sql [])) < query_buffer_size)%Z.
Proof. rewrite count_text. vm_compute. reflexivity. Qed.

(** The idle check as a function of the server's answer. *)
Lemma idle_jobcheck_run w s leaks db :
  m_db s = Some (mkMysql HLive leaks) -> table_ok (jobs db) -> (Z.of_nat (length (jobs db)) < 2 ^ 31)%Z ->
  let '((r, res), db') := real_query db (render CountPending) in
  run_queries (idle_jobcheck m_config log10 w s) db
  = Val (if decide (r ≠ 0%Z) then Val (increase_timeout m_config log10 s)
         else match res with
              | None => Val s
              | Some _ =>
                if decide (0 < count_pending (jobs db))%Z
                then s1 ← schedule w s; Val (restart_timer (set_duration (min_idle_timeout m_config) s1))
                else Val (increase_timeout m_config log10 s)
              end, db').
Proof.
  intros Hdb Ht Hlen. pose proof (count_spec db Ht) as Hc.
  unfold idle_jobcheck. rewrite Hdb, query_with_result_fits by apply count_fits. rewrite count_text.
  cbn [mbind prog_bind pbind run_queries].
  destruct (real_query db (render CountPending)) as [[r res] db']. destruct Hc as [_ Hres]. cbn [fst snd].
  destruct (decide (r ≠ 0%Z)) as [Hr|Hr]; [done|]. cbn [pbind].
  destruct (Hres ltac:(lia)) as [-> | ->]; [done|].
  destruct (count_row (count_pending (jobs db))) as (row & Hb & Hf); [pose proof (count_le_length (jobs db)); lia|].
  cbn [mbind prog_bind pbind]. rewrite Hb, Hf. by case_decide.
Qed.
End Lemmas.

(** ** Lemmas: the event loop *)

Lemma forallb_replicate_true k n : forallb (fun b : bool => b) (take k (replicate n true)) = true.
Proof. apply forallb_forall. intros b Hb%list_elem_of_In. apply elem_of_take in Hb as (j & Hj & _). by apply lookup_replicate in Hj as [-> _]. Qed.


(** What the handlers of ordinary events preserve. *)
Record kept (s s' : Server) : Prop := mkKept {
  kept_sock : m_sock s' = m_sock s;
  kept_pids : m_pids s' = m_pids s;
  kept_num : m_num_pids s' = m_num_pids s;
  kept_db : m_db s' = m_db s;
}.

(** [w] wake-ups of existing workers were sent. *)
Definition woke (chans : list WorkerChannel) (lo hi : nat) (s s' : Server) : Prop :=
  exists w, actions s' = actions s ++ w /\ Forall (fun a => a ∈ wake <$> chans) w /\ lo <= length w <= hi.

(** A datagram whose wake-up is written. *)
Definition is_work (e : event) : bool := match e with EConnect true WDone => true | _ => false end.

(** No signal, and no write that ends the process. *)
Definition ordinary (e : event) : Prop :=
  match e with EConnect _ w | ETimeout w => w ≠ WSigPipe | EChildExit => True | ESignal _ => False end.

(** How many wake-ups a run of events sends: one for each datagram
    whose write succeeds, at most one per event. *)
Definition datagrams (es : list event) : nat := length (filter (fun e => is_work e = true) es).

Section Loop.
Context (m_config : Settings) (log10 : double -> double).
Context {Srv : Type} `{!MySQL Srv} `{!MySQLSpec Srv}.

Lemma schedule_wakes w s chans :
  server_ok s chans -> w ≠ WSigPipe ->
  exists s', schedule w s = Val s' /\ server_ok s' chans /\ kept s s' /\
    woke chans (match w with WDone => 1 | _ => 0 end) 1 s s'.
Proof.
  intros Hok Hw. destruct (schedule_once w s chans Hok) as (c & Hc & Hs).
  exists (after_turn w c s). split; [by destruct w|].
  split_and!; [by apply after_turn_ok|by constructor|].
  exists (sent w c). split; [done|]. destruct w; [|by split; [|simpl; lia]|done].
  split; [|simpl; lia]. apply Forall_singleton, list_elem_of_fmap.
  exists c. split; [done|]. by eapply list_elem_of_lookup_2.
Qed.

Lemma timer_kept s d chans :
  server_ok s chans ->
  server_ok (restart_timer (set_duration d s)) chans /\ kept s (restart_timer (set_duration d s)) /\
  actions (restart_timer (set_duration d s)) = actions s.
Proof.
  intros (H1&H2&H3&H4&H5). split; [exact (conj H1 (conj H2 (conj H3 (conj H4 H5))))|].
  split; [constructor; reflexivity|reflexivity].
Qed.

Lemma idle_nothing s chans :
  server_ok s chans ->
  let s' := increase_timeout m_config log10 s in
  server_ok s' chans /\ kept s s' /\ woke chans 0 1 s s'.
Proof.
  intros Hok s'. subst s'. unfold increase_timeout. destruct (d_ltb _ _).
  - edestruct (timer_kept s) as (H1 & H2 & H3); [exact Hok|].
    split; [exact H1|]. split; [exact H2|]. exists []. rewrite app_nil_r. split; [exact H3|].
    split; [done|simpl; lia].
  - split; [done|]. split; [done|]. exists []. rewrite app_nil_r. split; [done|]. split; [done|simpl; lia].
Qed.

(** One event other than a signal. *)
Lemma event_kept e s leaks chans db :
  ordinary e -> server_ok s chans -> m_db s = Some (mkMysql HLive leaks) ->
  table_ok (jobs db) -> (Z.of_nat (length (jobs db)) < 2 ^ 31)%Z ->
  exists s' db', (forall es, ev_loop m_config log10 (e :: es) s db = ev_loop m_config log10 es s' db') /\
    server_ok s' chans /\ kept s s' /\ jobs db' = jobs db /\
    woke chans (if is_work e then 1 else 0) 1 s s'.
Proof.
  intros He Hok Hdb Ht Hlen. destruct e as [[] wr|wr| |]; [| | | |done].
  - destruct (timer_kept s (min_idle_timeout m_config) chans Hok) as (Hok1 & Hk1 & Ha1).
    destruct (schedule_wakes wr _ chans Hok1 He) as (s' & Hs & Hok' & Hk & w & Ha & Hw).
    exists s', db. cbn [ev_loop]. unfold on_connect. rewrite Hs. split_and!; try done.
    + destruct Hk, Hk1; constructor; congruence.
    + exists w. rewrite Ha, Ha1. by destruct wr.
  - exists (restart_timer (set_duration (min_idle_timeout m_config) s)), db.
    destruct (timer_kept s (min_idle_timeout m_config) chans Hok) as (Hok1 & Hk1 & Ha1).
    split_and!; try done. exists []. rewrite app_nil_r. split; [done|]. split; [done|simpl; lia].
  - pose proof (idle_jobcheck_run m_config log10 wr s leaks db Hdb Ht Hlen) as H.
    pose proof (count_spec db Ht) as Hc. destruct (real_query db _) as [[r res] db'] eqn:E.
    destruct Hc as [Hj _].
    assert (exists s', (forall es, ev_loop m_config log10 (ETimeout wr :: es) s db = ev_loop m_config log10 es s' db') /\
      server_ok s' chans /\ kept s s' /\ woke chans 0 1 s s') as (s' & ?&?&?&?); [|by exists s', db'].
    cbn [ev_loop]. rewrite H. cbn [mbind res_bind].
    pose proof (idle_nothing s chans Hok) as (?&?&?).
    assert (server_ok s chans /\ kept s s /\ woke chans 0 1 s s) as (?&?&?).
    { split; [done|]. split; [done|]. exists []. rewrite app_nil_r. split; [done|]. split; [done|simpl; lia]. }
    destruct (decide (r ≠ 0%Z)); [by eexists; split|]. destruct res; [|by eexists; split].
    destruct (decide _); [|by eexists; split].
    destruct (schedule_wakes wr s chans Hok He) as (s1 & Hs & Hok1 & Hk & w & Ha & Hw). rewrite Hs. cbn [mbind res_bind].
    destruct (timer_kept s1 (min_idle_timeout m_config) chans Hok1) as (Hok2 & Hk2 & Ha2).
    eexists. split; [done|]. split; [done|]. split; [destruct Hk, Hk2; constructor; congruence|].
    exists w. rewrite Ha2. split; [done|]. destruct Hw as [? [_ ?]]. split; [done|lia].
  - exists s, db. split_and!; try done. exists []. rewrite app_nil_r. split; [done|]. split; [done|simpl; lia].
Qed.

(** The loop serves every ordinary event. *)
Lemma ev_loop_serves es s leaks chans db :
  Forall ordinary es -> server_ok s chans -> m_db s = Some (mkMysql HLive leaks) ->
  table_ok (jobs db) -> (Z.of_nat (length (jobs db)) < 2 ^ 31)%Z ->
  exists s' db', (forall rest, ev_loop m_config log10 (es ++ rest) s db = ev_loop m_config log10 rest s' db') /\
    server_ok s' chans /\ kept s s' /\ jobs db' = jobs db /\ woke chans (datagrams es) (length es) s s'.
Proof.
  intros Hes. revert s db; induction Hes as [|e es He Hes IH]; intros s db Hok Hdb Ht Hlen.
  { exists s, db. split_and!; try done. exists []. rewrite app_nil_r. split; [done|]. split; [done|unfold datagrams; simpl; lia]. }
  destruct (event_kept e s leaks chans db He Hok Hdb Ht Hlen) as (s1 & db1 & Hl & Hok1 & Hk1 & Hj1 & w1 & Ha1 & Hf1 & Hn1).
  destruct (IH s1 db1) as (s' & db' & Hl' & Hok' & Hk' & Hj' & w' & Ha' & Hf' & Hn'); [done| | |..].
  { destruct Hk1; congruence. } { congruence. } { congruence. }
  exists s', db'. cbn [app]. split_and!; [intros rest; by rewrite Hl|done|destruct Hk1, Hk'; constructor; congruence|congruence|].
  exists (w1 ++ w'). rewrite Ha', Ha1, <-app_assoc. split; [done|]. split; [by apply Forall_app|].
  rewrite length_app. unfold datagrams in *. rewrite filter_cons. cbn [length].
  case_decide as Hd; destruct (is_work e); cbn [length]; try congruence; lia.
Qed.
End Loop.

(** Stopping the workers: once one status is known the variable is set. *)
Definition stops (pid : Z) : list action := [AKill pid SIGUSR2; AWaitPid pid].

Lemma stop_workers_set pids waits st :
  stop_workers pids waits (Some st) = Val (concat (stops <$> pids)).
Proof.
  revert waits st; induction pids as [|pid pids IH]; intros waits st; [done|]. cbn [stop_workers].
  destruct waits as [|[st'|] waits]; cbn [tail]; by rewrite IH.
Qed.

Lemma stop_workers_kills pids waits status acts pid :
  stop_workers pids waits status = Val acts -> pid ∈ pids -> AKill pid SIGUSR2 ∈ acts.
Proof.
  revert waits status acts; induction pids as [|p pids IH]; intros waits status acts H Hp;
    [by apply not_elem_of_nil in Hp|]. cbn [stop_workers] in H.
  destruct (match waits with Some st :: _ => Some st | _ => status end) as [st|]; [|done].
  apply res_bind_Val in H as (acts' & Hr & [= <-]).
  apply elem_of_cons in Hp as [->|Hp]; [by left|]. right; right. by eapply IH.
Qed.

(** The first call decides: it sets the variable or leaves it unset. *)
Lemma stop_workers_first pids waits :
  pids ≠ [] ->
  stop_workers pids waits None =
    match waits with Some _ :: _ => Val (concat (stops <$> pids)) | _ => Undef end.
Proof.
  destruct pids as [|pid pids]; [done|]. intros _. cbn [stop_workers].
  destruct waits as [|[st|] waits]; [done| |done]. cbn [tail]. by rewrite stop_workers_set.
Qed.

Lemma shutdown_spec s chans waits :
  server_ok s chans ->
  shutdown waits s =
    match waits with
    | Some _ :: _ => Val (act ([AClose (m_sock s); AUnloop] ++ concat (stops <$> m_pids s)) s)
    | _ => Undef
    end.
Proof.
  intros (Hpos & Hn & _ & Hp & _). unfold shutdown.
  rewrite Hn, Nat2Z.id, <-Hp, firstn_all, stop_workers_first by (intros E; rewrite E in Hp; simpl in Hp; lia).
  by destruct waits as [|[] ?].
Qed.

(** [run] up to the first event that is not ordinary. *)
Lemma run_serves {Srv : Type} `{!MySQL Srv} `{!MySQLSpec Srv} m_config log10 sock es s chans leaks (db : Srv) :
  server_ok s chans -> m_workers s = replicate (length chans) true ->
  m_db s = Some (mkMysql HLive leaks) ->
  table_ok (jobs db) -> (Z.of_nat (length (jobs db)) < 2 ^ 31)%Z ->
  sock ≠ (-1)%Z -> Forall ordinary es ->
  exists s' db' w,
    (forall rest, run m_config log10 sock true true (es ++ rest) s db
      = ('(returned, s2, db2) ← ev_loop m_config log10 rest s' db';
         Val (if returned : bool then Some 0%Z else None, s2, db2))) /\
    server_ok s' chans /\ m_sock s' = sock /\ m_pids s' = m_pids s /\
    jobs db' = jobs db /\ actions s' = actions s ++ w /\
    Forall (fun a => a ∈ wake <$> chans) w /\ datagrams es <= length w <= length es.
Proof.
  intros Hok Hw Hdb Ht Hlen Hsock Hes.
  destruct (ev_loop_serves m_config log10 es (restart_timer (set_sock sock s)) leaks chans db)
    as (s' & db' & Hl & Hok' & Hk & Hj & w & Ha & Hf & Hn); [done| |done..|].
  { destruct Hok as (H1&H2&H3&H4&H5). exact (conj H1 (conj H2 (conj H3 (conj H4 H5)))). }
  exists s', db', w. destruct Hk as [Hks Hkp _ _]. split_and!; [|done..|lia|lia].
  intros rest. unfold run, bindsock. rewrite decide_False by done. rewrite decide_False by (intros []; done).
  cbn [negb m_num_pids m_workers set_sock]. by rewrite Hw, forallb_replicate_true, Hl.
Qed.

(** ... and to its end, when that is a signal. *)
Lemma run_serves_signal {Srv : Type} `{!MySQL Srv} `{!MySQLSpec Srv} m_config log10
    sock es st waits rest s chans leaks (db : Srv) :
  server_ok s chans -> m_workers s = replicate (length chans) true ->
  m_db s = Some (mkMysql HLive leaks) ->
  table_ok (jobs db) -> (Z.of_nat (length (jobs db)) < 2 ^ 31)%Z ->
  sock ≠ (-1)%Z -> Forall ordinary es ->
  exists s' db' w,
    run m_config log10 sock true true (es ++ ESignal (Some st :: waits) :: rest) s db = Val (Some 0%Z, s', db') /\
    jobs db' = jobs db /\
    actions s' = actions s ++ w ++ [AClose sock; AUnloop] ++ concat (stops <$> m_pids s) /\
    Forall (fun a => a ∈ wake <$> chans) w /\ datagrams es <= length w <= length es.
Proof.
  intros Hok Hw Hdb Ht Hlen Hsock Hes.
  destruct (run_serves m_config log10 sock es s chans leaks db) as (s' & db' & w & Hr & Hok' & Hso & Hp & Hj & Ha & Hf & Hn);
    [done..|].
  eexists _, db', w. split; [rewrite Hr; cbn [ev_loop]; rewrite (shutdown_spec s' chans) by done; reflexivity|].
  split_and!; [done| |done|lia|lia]. unfold act; cbn [actions]. by rewrite Ha, Hso, Hp, <-app_assoc.
Qed.

(** ** Lemmas: starting workers *)

(** The master's descriptors once [n] workers run: the write end towards each. *)
Fixpoint master_table (env : nat -> start_env) (t : fd_table) (n : nat) : fd_table :=
  match n with
  | O => t
  | S i => <[snd (default (0, 0)%Z (e_pipe1 (env i))) := WriteEnd (ServerSend i)]> (master_table env t i)
  end.

(** Worker [i]'s descriptors when it is forked. *)
Definition worker_table (env : nat -> start_env) (t : fd_table) (i : nat) : fd_table :=
  <[fst (default (0, 0)%Z (e_pipe1 (env i))) := ReadEnd (ServerSend i)]>
    (<[snd (default (0, 0)%Z (e_pipe2 (env i))) := WriteEnd (WorkerSend i)]> (master_table env t i)).

(** The system answers every call, with descriptors that are free. *)
Definition env_ok (env : nat -> start_env) (t : fd_table) (n : nat) : Prop :=
  forall i, i < n -> exists fds1 fds2,
    e_pipe1 (env i) = Some fds1 /\ e_pipe2 (env i) = Some fds2 /\ (0 < e_fork (env i))%Z /\
    e_read_ok (env i) = true /\ fresh_fds fds1 fds2 (master_table env t i).

Lemma start_worker_ok env t n i s :
  env_ok env t n -> i < n -> fds s = master_table env t i ->
  exists fds1 fds2, e_pipe1 (env i) = Some fds1 /\ e_pipe2 (env i) = Some fds2 /\
  start_worker i (env i) s = Val (true, set_worker i (e_fork (env i))
    (set_tables (master_table env t (S i)) (children s ++ [worker_table env t i])
       (set_channel i (mkChannel fds1 fds2 false) s))).
Proof.
  intros Henv Hi Hs. destruct (Henv i Hi) as (fds1 & fds2 & H1 & H2 & Hf & Hr & Hfresh).
  exists fds1, fds2. split; [done|]. split; [done|].
  destruct fds1 as [a b], fds2 as [c d]. pose proof (fresh_fds_distinct _ _ _ _ _ Hfresh) as (?&?&?&?&?&?&?&?&?&?).
  unfold start_worker, worker_table. cbn [master_table]. rewrite H1, H2, Hr, Hs. cbn [default open].
  cbn [negb fst snd child server_send_pipe worker_send_pipe new_WorkerChannel].
  rewrite decide_False by lia. cbn [child_init parent_init waitForChildInit fst snd server_send_pipe worker_send_pipe].
  do 2 f_equal. unfold set_worker, set_tables, set_channel.
  cbn [m_sock m_idle_timeout_duration m_timeout m_num_pids m_pids m_workers m_last_worker m_worker_channels m_db fds children actions].
  f_equal.
  - by rewrite list_insert_insert_eq.
  - apply map_eq; intros x; rewrite ?lookup_insert; solve_table.
  - do 2 f_equal. apply map_eq; intros x; rewrite ?lookup_insert; solve_table.
Qed.

Lemma start_loop_ok env t n k i s :
  env_ok env t (i + k) -> n = i + k -> fds s = master_table env t i ->
  length (m_pids s) = n -> length (m_workers s) = n -> length (m_worker_channels s) = n ->
  exists s', start_loop (env <$> seq i k) i s = Val s' /\
    fds s' = master_table env t n /\
    children s' = children s ++ (worker_table env t <$> seq i k) /\
    m_num_pids s' = m_num_pids s /\ m_last_worker s' = m_last_worker s /\
    m_db s' = m_db s /\ actions s' = actions s /\
    length (m_pids s') = n /\ length (m_workers s') = n /\ length (m_worker_channels s') = n /\
    (forall j, j < i -> m_workers s' !! j = m_workers s !! j /\ m_pids s' !! j = m_pids s !! j /\
       m_worker_channels s' !! j = m_worker_channels s !! j) /\
    (forall j, i <= j < n -> m_workers s' !! j = Some true /\ m_pids s' !! j = Some (e_fork (env j)) /\
       exists fds1 fds2, e_pipe1 (env j) = Some fds1 /\ e_pipe2 (env j) = Some fds2 /\
         m_worker_channels s' !! j = Some (Some (mkChannel fds1 fds2 false))).
Proof.
  revert i s; induction k as [|k IH]; intros i s Henv Hn Hs L1 L2 L3.
  { exists s. rewrite Nat.add_0_r in Hn. subst i. simpl. rewrite app_nil_r. split_and!; try done; intros; lia. }
  destruct (start_worker_ok env t (i + S k) i s Henv) as (f1 & f2 & Hp & Hp2 & Hst); [lia|done|].
  cbn [seq fmap list_fmap start_loop]. rewrite Hst. cbn [mbind res_bind].
  set (s1 := set_worker _ _ _).
  destruct (IH (S i) s1) as (s' & Hr & Hf & Hc & Hnp & Hl & Hdb & Hact & M1 & M2 & M3 & Hlow & Hhigh); try done.
  { by rewrite Nat.add_succ_r in Henv. }
  { lia. }
  { cbn. by rewrite length_insert. }
  { cbn. by rewrite length_insert. }
  { cbn. by rewrite length_insert. }
  exists s'. split_and!; try done.
  - rewrite Hc. change (children s1) with (children s ++ [worker_table env t i]). by rewrite <-app_assoc.
  - intros j Hj. destruct (Hlow j) as (-> & -> & ->); [lia|]. cbn. by rewrite !list_lookup_insert_ne by lia.
  - intros j Hj. destruct (decide (j = i)) as [->|Hne]; [|apply Hhigh; lia].
    destruct (Hlow i) as (-> & -> & ->); [lia|]. split_and!.
    + cbn. by rewrite list_lookup_insert_eq by lia.
    + cbn. by rewrite list_lookup_insert_eq by lia.
    + exists f1, f2. split; [done|]. split; [done|]. cbn. by rewrite list_lookup_insert_eq by lia.
Qed.




(** All workers start. *)
Lemma start_workers_ok m_config env t s :
  let n := Z.to_nat (get_int m_config "workers" 1) in
  (0 <= get_int m_config "workers" 1)%Z -> env_ok env t n -> fds s = t ->
  exists s', start_workers m_config env s = Val s' /\
    (m_workers s' = replicate n true /\ m_pids s' = (fun i => e_fork (env i)) <$> seq 0 n /\
    fds s' = master_table env t n /\
    children s' = children s ++ (worker_table env t <$> seq 0 n) /\
    (0 < n -> m_last_worker s = 0%Z -> exists chans, server_ok s' chans)) /\
    m_db s' = m_db s /\ actions s' = actions s.
Proof.
  intros n Hn Henv Ht. unfold start_workers. rewrite decide_False by lia. fold n.
  destruct (start_loop_ok env t n n 0 (alloc_workers (get_int m_config "workers" 1) s))
    as (s' & Hr & Hf & Hc & Hnp & Hl & Hdb & Hact & L1 & L2 & L3 & _ & Hhigh);
    [done|lia|done|cbn; by rewrite length_replicate..|].
  exists s'. split; [done|]. split; [|done]. split_and!; [| |done|done|].
  - apply list_eq. intros j. destruct (decide (j < n)) as [Hj|Hj].
    + destruct (Hhigh j) as (-> & _); [lia|]. by rewrite lookup_replicate_2.
    + by rewrite !lookup_ge_None_2 by (rewrite ?length_replicate; lia).
  - apply list_eq. intros j. rewrite list_lookup_fmap. destruct (decide (j < n)) as [Hj|Hj].
    + destruct (Hhigh j) as (_ & -> & _); [lia|]. by rewrite lookup_seq_lt.
    + by rewrite lookup_seq_ge, lookup_ge_None_2 by lia.
  - intros Hpos Hlast.
    exists ((fun i => mkChannel (default (0, 0)%Z (e_pipe1 (env i))) (default (0, 0)%Z (e_pipe2 (env i))) false) <$> seq 0 n).
    split_and!; rewrite ?length_fmap, ?length_seq, ?Hnp, ?Hl; cbn [m_num_pids m_last_worker alloc_workers];
      try lia.
    apply list_eq. intros j. rewrite !list_lookup_fmap. destruct (decide (j < n)) as [Hj|Hj].
    + destruct (Hhigh j) as (_ & _ & f1 & f2 & H1 & H2 & ->); [lia|]. rewrite lookup_seq_lt by done. simpl.
      by rewrite H1, H2.
    + by rewrite lookup_seq_ge, lookup_ge_None_2 by lia.
Qed.

(** *** Workers that fail to start *)

Definition fails (e : start_env) : Prop :=
  e_pipe1 e = None \/ e_pipe2 e = None \/ e_read_ok e = false.

(** The entries of worker [j] are the same. *)
Definition same_worker (j : nat) (s s' : Server) : Prop :=
  m_workers s' !! j = m_workers s !! j /\ m_pids s' !! j = m_pids s !! j.

Lemma start_worker_gen i e s :
  (0 <= e_fork e)%Z ->
  exists b s', start_worker i e s = Val (b, s') /\ m_num_pids s' = m_num_pids s /\ m_sock s' = m_sock s /\
    (forall j, j ≠ i \/ fails e -> same_worker j s s').
Proof.
  intros Hf. unfold start_worker, fails.
  destruct (e_pipe1 e) as [f1|]; [destruct (e_pipe2 e) as [f2|]|]; cbn [open negb fst snd];
    [rewrite decide_False by lia|eexists _, _; by split_and!..].
  cbn [child_init parent_init waitForChildInit]. destruct (e_read_ok e) eqn:Er; cbn [negb fst snd];
    eexists _, _; split_and!; try done.
  intros j [Hj|[?|[?|?]]]; [|done..]. unfold same_worker; cbn. by rewrite !list_lookup_insert_ne.
Qed.

Lemma start_loop_gen es i s :
  Forall (fun e => (0 <= e_fork e)%Z) es ->
  exists s', start_loop es i s = Val s' /\ m_num_pids s' = m_num_pids s /\ m_sock s' = m_sock s /\
    (forall j, j < i -> same_worker j s s') /\
    (forall k e, es !! k = Some e -> fails e -> same_worker (i + k) s s').
Proof.
  intros Hes. revert i s; induction Hes as [|e es He Hes IH]; intros i s.
  { exists s. by split_and!. }
  destruct (start_worker_gen i e s He) as (b & s1 & Hs & Hn & Hk & Hsame).
  destruct (IH (S i) s1) as (s' & Hr & Hn' & Hk' & Hlow & Hfail).
  exists s'. cbn [start_loop]. rewrite Hs. cbn [mbind res_bind].
  split_and!; [done|congruence|congruence| |].
  - intros j Hj. destruct (Hlow j) as [E1 E2]; [lia|]. destruct (Hsame j) as [E3 E4]; [left; lia|].
    split; congruence.
  - intros [|k] e' Hlk Hf; simpl in Hlk.
    + injection Hlk as <-. rewrite Nat.add_0_r. destruct (Hlow i) as [E1 E2]; [lia|].
      destruct (Hsame i) as [E3 E4]; [by right|]. split; congruence.
    + rewrite Nat.add_succ_r. destruct (Hfail k e' Hlk Hf) as [E1 E2].
      destruct (Hsame (S i + k)) as [E3 E4]; [left; lia|]. split; simpl in *; congruence.
Qed.

(** ** Properties *)

(** C24: round robin.  As long as every worker has a channel and no write
    ends the process, the wake-ups go, two bytes each, to successive channels
    from [m_last_worker] on; one whose write fails is lost and its turn is
    used up; and as many successful wake-ups as there are workers reach every
    worker exactly once. *)
Theorem schedule_round_robin ws s chans :
  server_ok s chans -> WSigPipe ∉ ws ->
  exists s', schedule_times ws s = Val s' /\ server_ok s' chans /\
    m_last_worker s' = ((m_last_worker s + Z.of_nat (length ws)) `mod` m_num_pids s)%Z /\
    actions s' = actions s ++
      concat (imap (fun j w => match w with
                               | WDone => [wake (chan_at chans (m_last_worker s) (m_num_pids s) j)]
                               | _ => []
                               end) ws) /\
    (ws = replicate (length chans) WDone -> actions s' ≡ₚ actions s ++ (wake <$> chans)).
Proof.
  intros Hok Hws. destruct (schedule_times_spec ws s chans Hok Hws) as (s' & Hr & Hok' & Hl & Ha).
  exists s'. split_and!; [done..|]. intros ->. rewrite Ha, turns_done. apply Permutation_app_head.
  destruct Hok as (_ & Hn & _ & _ & Hlast). rewrite Hn in Hlast |- *.
  transitivity (wake <$> ((fun j => chan_at chans (m_last_worker s) (Z.of_nat (length chans)) j)
    <$> seq 0 (length chans))); [by rewrite <-list_fmap_compose|].
  by apply fmap_Permutation, chan_round.
Qed.

(** C25: the idle check.  It asks the server for the number of waiting jobs;
    when there are any, and in particular when some row can be claimed, it
    wakes one worker and resets the timer to the minimum; when there are none
    or the query fails it lengthens the timer; when the result is lost it does
    nothing. *)
Theorem idle_jobcheck_decides {Srv : Type} `{!MySQL Srv} `{!MySQLSpec Srv} m_config log10 w s leaks (db : Srv) :
  m_db s = Some (mkMysql HLive leaks) -> table_ok (jobs db) -> (Z.of_nat (length (jobs db)) < 2 ^ 31)%Z ->
  let '((r, res), db') := real_query db (render CountPending) in
  jobs db' = jobs db /\
  run_queries (idle_jobcheck m_config log10 w s) db
  = Val (if decide (r ≠ 0%Z) then Val (increase_timeout m_config log10 s)
         else match res with
              | None => Val s
              | Some _ =>
                if decide (0 < count_pending (jobs db))%Z
                then s1 ← schedule w s; Val (restart_timer (set_duration (min_idle_timeout m_config) s1))
                else Val (increase_timeout m_config log10 s)
              end, db') /\
  (forall row, row ∈ jobs db -> claimable row = true -> (0 < count_pending (jobs db))%Z).
Proof.
  intros Hdb Ht Hlen. pose proof (idle_jobcheck_run m_config log10 w s leaks db Hdb Ht Hlen) as H.
  pose proof (count_spec db Ht) as Hc. destruct (real_query db _) as [[r res] db'].
  split_and!; [apply Hc|exact H|]. intros row. apply claimable_counted.
Qed.

(** C27: the idle timer never exceeds its maximum.  [increase_timeout] leaves a
    duration that is not below the maximum alone; otherwise the new one is
    not greater than the maximum (in binary64, whatever [log10] returns), and
    the timer runs with it. *)
Theorem increase_timeout_bounded m_config log10 s :
  let s' := increase_timeout m_config log10 s in
  if d_ltb (m_idle_timeout_duration s) (max_idle_timeout m_config)
  then d_ltb (max_idle_timeout m_config) (m_idle_timeout_duration s') = false /\
       m_timeout s' = Some (m_idle_timeout_duration s')
  else s' = s.
Proof.
  assert (forall d, d_ltb d d = false) as Hirr.
  { intros [[]|[]| |[] m e]; try done; unfold d_ltb, SpecFloat.SFltb; simpl; by rewrite Z.compare_refl, Pos.compare_refl. }
  assert (forall m v b, d_ltb m (if d_ltb m v || b then m else v) = false) as Hclip.
  { intros m v b. destruct (d_ltb m v) eqn:E; [apply Hirr|]. by destruct b. }
  unfold increase_timeout. destruct (d_ltb _ _); [|done]. split; [apply Hclip|done].
Qed.

(** Descriptors of the running system.  When the system answers every
    call, [start_workers] starts the configured number of workers and leaves
    the master with one new descriptor per worker, the write end towards it. *)
Theorem start_workers_all m_config env t s :
  let n := Z.to_nat (get_int m_config "workers" 1) in
  (0 <= get_int m_config "workers" 1)%Z -> env_ok env t n -> fds s = t ->
  exists s', start_workers m_config env s = Val s' /\
    m_workers s' = replicate n true /\ m_pids s' = (fun i => e_fork (env i)) <$> seq 0 n /\
    fds s' = master_table env t n /\
    children s' = children s ++ (worker_table env t <$> seq 0 n) /\
    (0 < n -> m_last_worker s = 0%Z -> exists chans, server_ok s' chans).
Proof.
  intros n Hn Henv Ht. destruct (start_workers_ok m_config env t s Hn Henv Ht) as (s' & Hr & H & _).
  by exists s'.
Qed.


(** A worker that does not start takes the master down.  [start_workers]
    ignores the failure; the child watcher and the pid of that worker stay
    NULL and 0, so [run] dereferences NULL as soon as the socket is bound,
    and a shutdown would signal process 0, the master's whole group. *)
Theorem failed_worker_crashes_master {Srv : Type} `{!MySQL Srv} m_config log10 env k s sock es (db : Srv) :
  let n := Z.to_nat (get_int m_config "workers" 1) in
  k < n -> (forall i, 0 <= e_fork (env i))%Z -> fails (env k) -> sock ≠ (-1)%Z ->
  exists s', start_workers m_config env s = Val s' /\
    run m_config log10 sock true true es s' db = Undef /\
    forall waits s2, shutdown waits s' = Val s2 -> AKill 0 SIGUSR2 ∈ actions s2.
Proof.
  intros n Hk Hforks Hf Hsock. unfold start_workers. rewrite decide_False by lia. fold n.
  destruct (start_loop_gen (env <$> seq 0 n) 0 (alloc_workers (get_int m_config "workers" 1) s))
    as (s' & Hr & Hn & _ & _ & Hfail).
  { apply Forall_fmap, Forall_forall. intros i _. apply Hforks. }
  exists s'. split; [done|].
  destruct (Hfail k (env k)) as [Hw Hp]; [by rewrite list_lookup_fmap, lookup_seq_lt|done|].
  cbn [Nat.add alloc_workers m_workers m_pids] in Hw, Hp. rewrite lookup_replicate_2 in Hw by done.
  rewrite lookup_replicate_2 in Hp by done.
  cbn in Hn. split.
  - unfold run, bindsock. rewrite decide_False by done. rewrite decide_False by (intros []; done). cbn [negb m_num_pids m_workers set_sock].
    destruct (forallb _ _) eqn:E; [|done]. exfalso. rewrite forallb_forall in E.
    specialize (E false). cbn in E. enough (false = true) by done. apply E.
    apply list_elem_of_In. rewrite Hn. fold n. apply (list_elem_of_lookup_2 _ k). by rewrite lookup_take_lt by done.
  - intros waits s2. unfold shutdown. rewrite Hn. fold n. intros (acts & Hst & [= <-])%res_bind_Val.
    unfold act; cbn [actions]. apply elem_of_app; right; right; right.
    apply (stop_workers_kills _ _ _ _ _ Hst), (list_elem_of_lookup_2 _ k). by rewrite lookup_take_lt by done.
Qed.


(** ** Witnesses *)

Module Example.
Definition config : Settings := mkSettings "/usr/bin" "test" {[ "workers" := "2" ]} ∅.

(** Worker [i] gets four new descriptors and the pid [100 + i]. *)
Definition env (i : nat) : start_env :=
  let z := (10 * Z.of_nat (S i))%Z in
  mkEnv (Some (z, z + 1)%Z) (Some (z + 2, z + 3)%Z) (100 + Z.of_nat i)%Z true.

Lemma env_is_ok : env_ok env ∅ 2.
Proof.
  intros i Hi. eexists _, _. split_and!; [reflexivity|reflexivity|simpl; lia|reflexivity|].
  destruct i as [|[|i]]; [| |lia]; (split; [simpl; repeat constructor; set_solver|]);
    repeat constructor; vm_compute; reflexivity.
Qed.

Definition chan (z : Z) : WorkerChannel := mkChannel (z, z + 1)%Z (z + 2, z + 3)%Z false.

(** A master with two workers. *)
Definition master : Server :=
  mkSrv 3 (d_of_Z 5) None 2 [100; 101]%Z [true; true] 1 [Some (chan 10); Some (chan 20)]
    (Some (mkMysql HLive 0)) ∅ [] [].

Lemma master_ok : server_ok master [chan 10; chan 20].
Proof. split_and!; simpl; try reflexivity; lia. Qed.

Definition rows : table := [mkRow 1 "run" Complete "" None; mkRow 2 "run" Pending "" None].

Lemma served_rows_ok : table_ok rows.
Proof. split; [repeat constructor|]. repeat constructor; simpl; try done; lia. Qed.
End Example.

Lemma schedule_round_robin_witness :
  exists s', schedule_times [WDone; WFailed; WDone] Example.master = Val s' /\ m_last_worker s' = 0%Z /\
  actions s' = [AWrite 21 2; AWrite 21 2]%Z.
Proof.
  destruct (schedule_round_robin [WDone; WFailed; WDone] Example.master _ Example.master_ok)
    as (s' & Hr & _ & Hl & Ha & _).
  - apply (bool_decide_unpack _). vm_compute. reflexivity.
  - exists s'. split; [exact Hr|]. rewrite Hl, Ha. split; reflexivity.
Defined.

Lemma idle_jobcheck_decides_witness :
  exists s', run_queries (idle_jobcheck Example.config d_abs WDone Example.master) (mkTableServer Example.rows)
    = Val (Val s', mkTableServer Example.rows) /\
  actions s' = [AWrite 21 2]%Z /\ m_timeout s' = Some (d_of_Z 5).
Proof.
  pose proof (idle_jobcheck_decides Example.config d_abs WDone Example.master 0 (mkTableServer Example.rows)
    eq_refl Example.served_rows_ok ltac:(simpl; lia)) as H.
  replace (real_query (mkTableServer Example.rows) (render CountPending))
    with ((0%Z, Some (count_result (count_pending Example.rows))), mkTableServer Example.rows) in H
    by (vm_compute; reflexivity).
  destruct H as (_ & H & _). eexists. split; [exact H|]. split; vm_compute; reflexivity.
Defined.


Lemma start_workers_all_witness :
  exists s', start_workers Example.config Example.env (new_Server 0 (d_of_Z 5) ∅) = Val s' /\
  m_pids s' = [100; 101]%Z.
Proof.
  destruct (start_workers_all Example.config Example.env ∅ (new_Server 0 (d_of_Z 5) ∅)) as (s' & Hr & _ & Hp & _).
  - vm_compute. discriminate.
  - exact Example.env_is_ok.
  - reflexivity.
  - exists s'. split; [exact Hr|]. rewrite Hp. vm_compute. reflexivity.
Defined.


Lemma failed_worker_crashes_master_witness :
  exists s', start_workers Example.config
      (fun i => if decide (i = 1) then mkEnv None None 0 true else Example.env i) (new_Server 0 (d_of_Z 5) ∅)
    = Val s' /\ forall s2, shutdown [Some 0; Some 0]%Z s' = Val s2 -> AKill 0 SIGUSR2 ∈ actions s2.
Proof.
  destruct (failed_worker_crashes_master Example.config d_abs
    (fun i => if decide (i = 1) then mkEnv None None 0 true else Example.env i) 1
    (new_Server 0 (d_of_Z 5) ∅) 3 [] (mkTableServer [])) as (s' & Hr & _ & Ha).
  - vm_compute. lia.
  - intros i. simpl. case_decide; simpl; lia.
  - left. reflexivity.
  - discriminate.
  - exists s'. split; [exact Hr|]. intros s2. exact (Ha _ s2).
Defined.
