(* ===== verification/Fleet.v ===== *)
(** * Fleet: whole worker processes over one table

    The threads of System.v together with the main thread of each worker
    process (Worker.v), which the master wakes through a channel.  The main
    thread takes single steps: it reads one pending count, sends one message,
    reads the channel, tells one thread to stop or waits for one; so its code
    is interleaved with everything else.  The composed system is simulated by
    System.v, where any message may be sent at any time, so that every safety
    property proved there holds of it; what the main thread adds is proved
    here. *)

From S2P Require Import Prelude CLib Settings Records Job Effects Adaptor JobTable Server Worker.
From S2P Require Import WorkQueue System RefServer Exclusion.

(** ** The main thread *)

(** Where a main thread is.  [rest] is what follows the call of [schedule]:
    the read of the channel, or that many more calls. *)
Inductive main_pc :=
| MWait                                                   (** in [ev_loop] *)
| MPick (i : nat) (smallest : Z) (selected : nat) (rest : option nat)
                                                          (** the loop of [schedule] at [i] *)
| MChannel                                                (** before the [read] of [on_io_work] *)
| MStop (i code : nat)                                    (** the first loop of [shutdown] at [i] *)
| MJoin (i code : nat)                                    (** the second loop of [shutdown] at [i] *)
| MExit (code : nat).

(** A worker process.  The counts of wake-ups written by the master and of
    messages sent to the threads only record the past. *)
Record process := mkProcess {
  p_main : main_pc;
  p_channel : nat;   (** bytes waiting in [server_send_pipe] *)
  p_closed : bool;   (** no write end of it is left *)
  p_wakes : nat;
  p_sent : nat;
}.

Definition at_pc (m : main_pc) (p : process) : process :=
  mkProcess m (p_channel p) (p_closed p) (p_wakes p) (p_sent p).

Record fleet (Srv : Type) := mkFleet { f_system : system Srv; f_procs : list process }.
Arguments mkFleet {Srv} _ _.
Arguments f_system {Srv} _.
Arguments f_procs {Srv} _.

(** [sizeof(buffer)-1] of [on_io_work]. *)
Definition read_size : nat := 80.

(** What the environment decides for a main thread: which event the loop
    delivers, and whether the read fails. *)
Inductive choice := CIo | CSignal | CRead (failed : bool).

Section Fleet.
Context {Srv : Type} `{!MySQL Srv}.
Context (now : identity -> nat -> Z * Z) (outcome : identity -> Job -> Z).
Context (m_config : Settings) (m_job_types : GData job_creator_t) (m_db : MysqlAdaptor).

(** The number of threads of each process. *)
Definition n : nat := Z.to_nat (Worker.threads m_config).

(** Thread [j] of process [w]. *)
Definition index (w j : nat) : nat := w * n + j.

Definition update_thread (i : nat) (f : local -> local) (y : system Srv) : option (system Srv) :=
  th ← sys_threads y !! i;
  Some (mkSystem (sys_server y) (sys_active y) (<[i := set_local f th]> (sys_threads y))).

Definition stop_process (w code : nat) (p : process) (y : system Srv) : process * system Srv :=
  (at_pc (MStop 0 code) p,
   mkSystem (sys_server y) (deactivate w (sys_active y)) (sys_threads y)).

(** The next call of [schedule] after one that was followed by [rest]. *)
Definition after_send (rest : option nat) : main_pc :=
  match rest with
  | None => MChannel
  | Some O => MWait
  | Some (S k) => MPick 0 10 0 (Some k)
  end.

(** One step of the main thread of process [w]; [None]: it has to wait. *)
Definition main_step (w : nat) (c : choice) (p : process) (y : system Srv) :
    option (process * system Srv) :=
  match p_main p with
  | MWait =>
    match c with
    | CIo => if bool_decide (0 < p_channel p) || p_closed p then Some (at_pc (MPick 0 10 0 None) p, y) else None
    | CSignal => Some (stop_process w 0 p y)
    | CRead _ => None
    end
  | MPick i smallest selected rest =>
    if decide (i < n) then
      th ← sys_threads y !! index w i;
      let value := pending (t_local th) in
      Some (at_pc (if decide (smallest < value)%Z then MPick (S i) value i rest
                   else MPick (S i) smallest selected rest) p, y)
    else
      y' ← update_thread (index w selected) send_work y;
      Some (mkProcess (after_send rest) (p_channel p) (p_closed p) (p_wakes p) (S (p_sent p)), y')
  | MChannel =>
    match c with
    | CRead true => Some (stop_process w 1 p y)
    | _ =>
      let bytes := Nat.min read_size (p_channel p) in
      if decide (bytes = 0) then if p_closed p then Some (stop_process w 1 p y) else None
      else Some (mkProcess (after_send (Some (bytes - 1))) (p_channel p - bytes) (p_closed p) (p_wakes p) (p_sent p), y)
    end
  | MStop i code =>
    if decide (i < n) then
      y' ← update_thread (index w i) send_stop y;
      Some (at_pc (MStop (S i) code) p, y')
    else Some (at_pc (MJoin 0 code) p, y)
  | MJoin i code =>
    if decide (i < n) then
      th ← sys_threads y !! index w i;
      match t_pc th with PExit => Some (at_pc (MJoin (S i) code) p, y) | _ => None end
    else Some (at_pc (MExit code) p, y)
  | MExit _ => None
  end.

(** ** The fleet *)

(** The master writes one wake-up ([Server.schedule]). *)
Definition wake_process (p : process) : process :=
  mkProcess (p_main p) (p_channel p + Z.to_nat msg_size) (p_closed p) (S (p_wakes p)) (p_sent p).

Definition orphan (p : process) : process :=
  mkProcess (p_main p) (p_channel p) true (p_wakes p) (p_sent p).

(** A step of process [w]: of one of its threads, or of its main thread. *)
Inductive own_step (w : nat) : fleet Srv -> fleet Srv -> Prop :=
| own_thread s a ts ps i th th' s' :
    ts !! i = Some th -> t_worker th = w ->
    thread_step now outcome m_config m_job_types m_db (a w) th s = Some (th', s') ->
    own_step w (mkFleet (mkSystem s a ts) ps) (mkFleet (mkSystem s' a (<[i := th']> ts)) ps)
| own_main y ps c p p' y' :
    ps !! w = Some p -> main_step w c p y = Some (p', y') ->
    own_step w (mkFleet y ps) (mkFleet y' (<[w := p']> ps)).

(** A step of the master or of a client. *)
Inductive outside_step : fleet Srv -> fleet Srv -> Prop :=
| out_wake y ps w p :
    ps !! w = Some p -> p_closed p = false ->
    outside_step (mkFleet y ps) (mkFleet y (<[w := wake_process p]> ps))
| out_orphan y ps w p :
    ps !! w = Some p ->
    outside_step (mkFleet y ps) (mkFleet y (<[w := orphan p]> ps))
| out_client s a ts ps r s' :
    client_row (jobs s) r -> jobs s' = jobs s ++ [r] ->
    outside_step (mkFleet (mkSystem s a ts) ps) (mkFleet (mkSystem s' a ts) ps).

Definition fleet_step (f f' : fleet Srv) : Prop :=
  outside_step f f' \/ exists w, own_step w f f'.

(** The processes as [Worker::run] leaves them when it enters the loop. *)
Definition fleet_initial (f : fleet Srv) : Prop :=
  initial (f_system f) /\ 0 < n /\
  (forall w p, f_procs f !! w = Some p -> p_main p = MWait /\ p_channel p = 0 /\ p_wakes p = 0 /\ p_sent p = 0 /\
     sys_active (f_system f) w = true) /\
  length (sys_threads (f_system f)) = length (f_procs f) * n /\
  (forall w j th, j < n -> sys_threads (f_system f) !! index w j = Some th -> t_worker th = w).

Definition fleet_reachable (f : fleet Srv) : Prop :=
  exists f0, fleet_initial f0 /\ rtc fleet_step f0 f.
End Fleet.

(** ** The invariant *)

Section Invariant.
Context {Srv : Type} `{!MySQL Srv}.
Context (now : identity -> nat -> Z * Z) (outcome : identity -> Job -> Z).
Context (m_config : Settings) (m_job_types : GData job_creator_t) (m_db : MysqlAdaptor).
Notation n := (n m_config).
Notation index := (index m_config).
Notation main_step := (main_step m_config).
Notation own_step := (own_step now outcome m_config m_job_types m_db).
Notation outside_step := (@outside_step Srv _).
Notation fleet_step := (fleet_step now outcome m_config m_job_types m_db).
Notation fleet_initial := (@fleet_initial Srv _ m_config).
Notation fleet_reachable := (fleet_reachable now outcome m_config m_job_types m_db).
Notation thread_step := (thread_step now outcome m_config m_job_types m_db).

(** The size of [k] wake-ups. *)
Definition bytes (k : nat) : nat := k * Z.to_nat msg_size.
#[local] Arguments bytes : simpl never.

Lemma bytes_S k : bytes (S k) = 2 + bytes k.
Proof. unfold bytes. change (Z.to_nat msg_size) with 2. lia. Qed.

(** Thread [j] of process [w] has left its loop. *)
Definition exited (w : nat) (pcs : list pc) (j : nat) : Prop := pcs !! index w j = Some PExit.

(** Where the main thread of process [w] is fits the flag [m_active] and the
    threads that have exited. *)
Definition pc_inv (w : nat) (active : bool) (pcs : list pc) (m : main_pc) : Prop :=
  match m with
  | MWait | MChannel => active = true
  | MPick i _ selected _ => active = true /\ i <= n /\ selected < n
  | MStop i _ => active = false /\ i <= n
  | MJoin i _ => active = false /\ i <= n /\ forall j, j < i -> exited w pcs j
  | MExit _ => active = false /\ forall j, j < n -> exited w pcs j
  end.

(** Every byte the master wrote is in the channel or became a message; [code]
    is 1 when the channel ended and the message sent before the read had no
    byte. *)
Definition bytes_inv (p : process) : Prop :=
  let total := p_sent p + p_channel p in
  match p_main p with
  | MWait => total = bytes (p_wakes p)
  | MPick _ _ _ None => total = bytes (p_wakes p) /\ (0 < p_channel p \/ p_closed p = true)
  | MPick _ _ _ (Some k) => S k + total = bytes (p_wakes p)
  | MChannel => total = S (bytes (p_wakes p)) /\ (0 < p_channel p \/ p_closed p = true)
  | MStop _ code | MJoin _ code | MExit code => total = code + bytes (p_wakes p)
  end.

Record proc_inv (w : nat) (a : nat -> bool) (pcs : list pc) (p : process) : Prop := {
  pi_pc : pc_inv w (a w) pcs (p_main p);
  pi_bytes : bytes_inv p;
  pi_alive : a w = true -> forall j, j < n -> ~ exited w pcs j;
}.

Notation pcs y := (t_pc <$> sys_threads y).

Record fleet_inv (f : fleet Srv) : Prop := {
  fi_some : 0 < n;
  fi_length : length (sys_threads (f_system f)) = length (f_procs f) * n;
  fi_worker w j th : j < n -> sys_threads (f_system f) !! index w j = Some th -> t_worker th = w;
  fi_procs w p : f_procs f !! w = Some p -> proc_inv w (sys_active (f_system f)) (pcs (f_system f)) p;
}.

Lemma index_inj w j w' j' : j < n -> j' < n -> index w j = index w' j' -> w = w' /\ j = j'.
Proof. unfold Fleet.index. intros. assert (w = w') as -> by nia. split; [done|lia]. Qed.

Lemma index_lt (w len j : nat) : w < len -> j < n -> index w j < len * n.
Proof. unfold Fleet.index. nia. Qed.

(** Every thread belongs to a process. *)
Lemma index_of len i : 0 < n -> i < len * n -> exists w j, w < len /\ j < n /\ i = index w j.
Proof.
  intros Hn Hi. exists (i / n), (i mod n). unfold Fleet.index. split_and!.
  - apply Nat.Div0.div_lt_upper_bound. lia.
  - apply Nat.mod_upper_bound. lia.
  - rewrite (Nat.mul_comm _ n). apply Nat.div_mod. lia.
Qed.

Lemma fleet_thread f w p j :
  fleet_inv f -> f_procs f !! w = Some p -> j < n ->
  exists th, sys_threads (f_system f) !! index w j = Some th /\ t_worker th = w.
Proof.
  intros Hf Hp%lookup_lt_Some Hj.
  destruct (lookup_lt_is_Some_2 (sys_threads (f_system f)) (index w j)) as [th Hth].
  { rewrite (fi_length _ Hf). by apply index_lt. }
  exists th. split; [done|]. by eapply fi_worker.
Qed.

(** What [update_thread] leaves alone. *)
Record same_control (y y' : system Srv) : Prop := {
  sc_server : sys_server y' = sys_server y;
  sc_active : sys_active y' = sys_active y;
  sc_pcs : pcs y' = pcs y;
  sc_workers : t_worker <$> sys_threads y' = t_worker <$> sys_threads y;
}.

Lemma insert_same {A B} (f : A -> B) (l : list A) i x x' :
  l !! i = Some x -> f x' = f x -> f <$> <[i := x']> l = f <$> l.
Proof. intros Hi Hf. rewrite list_fmap_insert, Hf. apply list_insert_id. by rewrite list_lookup_fmap, Hi. Qed.

Lemma update_thread_spec i g (y : system Srv) :
  i < length (sys_threads y) ->
  exists th y', sys_threads y !! i = Some th /\ update_thread i g y = Some y' /\
    y' = mkSystem (sys_server y) (sys_active y) (<[i := set_local g th]> (sys_threads y)) /\ same_control y y'.
Proof.
  intros [th Hth]%lookup_lt_is_Some_2. exists th. eexists. unfold update_thread. rewrite Hth.
  split; [done|]. split; [done|]. split; [done|].
  constructor; [done|done|cbn; by eapply insert_same|cbn; by eapply insert_same].
Qed.

Lemma update_thread_inv i g (y y' : system Srv) : update_thread i g y = Some y' -> same_control y y'.
Proof.
  intros H. unfold update_thread in H. apply bind_Some in H as (th & Hth & [= <-]).
  constructor; [done|done|cbn; by eapply insert_same|cbn; by eapply insert_same].
Qed.

(** Case analysis on a step of the main thread. *)
Ltac main_cases H :=
  unfold Fleet.main_step, stop_process in H;
  repeat match type of H with
  | match ?x with _ => _ end = Some _ => let E := fresh "E" in destruct x eqn:E; try discriminate H
  | _ ≫= _ = Some _ => let E := fresh "E" in apply bind_Some in H as (? & E & H)
  end; simplify_eq.

Lemma main_step_control w c p (y : system Srv) p' y' :
  main_step w c p y = Some (p', y') ->
  sys_server y' = sys_server y /\ pcs y' = pcs y /\ t_worker <$> sys_threads y' = t_worker <$> sys_threads y /\
  (forall v, v ≠ w -> sys_active y' v = sys_active y v) /\ p_wakes p' = p_wakes p /\ p_closed p' = p_closed p.
Proof.
  intros H. main_cases H; split_and!; try done;
    try (match goal with E : update_thread _ _ _ = Some _ |- _ => apply update_thread_inv in E; destruct E; congruence end);
    intros v Hv; cbn; unfold deactivate; by rewrite decide_False.
Qed.

(** *** Simulation by System.v *)

Notation sys_step := (step now outcome m_config m_job_types m_db).

Lemma update_thread_send i (y y' : system Srv) : update_thread i send_work y = Some y' -> sys_step y y'.
Proof.
  destruct y as [s a ts]. unfold update_thread. intros (th & Hi & [= <-])%bind_Some. by eapply step_send_work.
Qed.

Lemma update_thread_stop i (y y' : system Srv) : update_thread i send_stop y = Some y' -> sys_step y y'.
Proof.
  destruct y as [s a ts]. unfold update_thread. intros (th & Hi & [= <-])%bind_Some. by eapply step_send_stop.
Qed.

Lemma main_step_simulated w c p (y : system Srv) p' y' : main_step w c p y = Some (p', y') -> rtc sys_step y y'.
Proof.
  intros H. destruct y as [s a ts]. main_cases H; try done;
    try (by eapply rtc_once, step_shutdown); eapply rtc_once; eauto using update_thread_send, update_thread_stop.
Qed.

Lemma fleet_step_simulated f f' : fleet_step f f' -> rtc sys_step (f_system f) (f_system f').
Proof.
  intros [[y ps w p|y ps w p|s a ts ps r s' Hr Hs']|[w [s a ts ps i th th' s' Hi Hw Hst|y ps c p p' y' Hp Hst]]];
    cbn [f_system]; try done.
  - by eapply rtc_once, step_client.
  - eapply rtc_once, step_thread; [done|]. by rewrite Hw.
  - by eapply main_step_simulated.
Qed.

Lemma fleet_simulated f f' : rtc fleet_step f f' -> rtc sys_step (f_system f) (f_system f').
Proof. induction 1; [done|]. etrans; [by apply fleet_step_simulated|done]. Qed.

(** *** Preservation *)

Lemma proc_inv_pcs w a a' pcs pcs' p :
  a' w = a w -> (forall j, j < n -> exited w pcs j -> exited w pcs' j) ->
  (a w = true -> forall j, j < n -> exited w pcs' j -> exited w pcs j) ->
  proc_inv w a pcs p -> proc_inv w a' pcs' p.
Proof.
  intros Ha Hexit Hback [Hpc Hb Hal]. constructor; [|done|].
  - rewrite Ha. unfold pc_inv in *. destruct (p_main p); try done.
    + destruct Hpc as (? & ? & Hj). split_and!; [done..|]. intros j Hlt. apply Hexit; [lia|by apply Hj].
    + destruct Hpc as (? & Hj). split; [done|]. intros j Hlt. apply Hexit; [done|by apply Hj].
  - rewrite Ha. intros Hact j Hj Hx. apply (Hal Hact j Hj). by apply Hback.
Qed.

Lemma thread_step_control active th s th' s' :
  thread_step active th s = Some (th', s') ->
  t_worker th' = t_worker th /\ t_id th' = t_id th /\ t_pc th ≠ PExit /\ (t_pc th' = PExit -> active = false).
Proof.
  destruct th as [i w c l]. unfold System.thread_step. cbn [t_id t_worker t_pc t_local].
  destruct c as [|m wl|[[]|o k]|]; cbn [run_step]; intros H; try done.
  - destruct active; [destruct (l_queue l)|]; by simplify_eq/=.
  - case_decide; [by simplify_eq/=|]. destruct (l_queue l); [case_decide|]; by simplify_eq/=.
  - by simplify_eq/=.
  - destruct (handle _ _ _ _ _) as [[[? ?] ?]|]; by simplify_eq/=.
Qed.

Lemma exited_insert w (ts : list thread) i th th' j :
  ts !! i = Some th -> t_pc th ≠ PExit ->
  exited w (t_pc <$> ts) j -> exited w (t_pc <$> <[i := th']> ts) j.
Proof.
  intros Hi Hpc. unfold exited. rewrite list_fmap_insert. intros Hx.
  rewrite list_lookup_insert_ne; [done|]. intros ->. rewrite list_lookup_fmap, Hi in Hx. by injection Hx.
Qed.

Lemma stop_process_inv w code (p : process) (y : system Srv) :
  p_sent p + p_channel p = code + bytes (p_wakes p) ->
  proc_inv w (sys_active (stop_process w code p y).2) (pcs (stop_process w code p y).2) (stop_process w code p y).1.
Proof.
  intros Hb. unfold stop_process. cbn. constructor; cbn.
  - unfold deactivate. rewrite decide_True by done. split; [done|lia].
  - exact Hb.
  - unfold deactivate. by rewrite decide_True.
Qed.

Lemma after_send_inv w a pcs rest ch cl wk se :
  0 < n -> a w = true -> (forall j, j < n -> ~ exited w pcs j) ->
  match rest with
  | None => se + ch = S (bytes wk) /\ (0 < ch \/ cl = true)
  | Some k => k + (se + ch) = bytes wk
  end ->
  proc_inv w a pcs (mkProcess (after_send rest) ch cl wk se).
Proof.
  intros Hn Ha Hal Hb. constructor; [|destruct rest as [[|k]|]; exact Hb|done].
  destruct rest as [[|k]|]; cbn; [done|split_and!; [done|lia|done]|done].
Qed.

Lemma main_step_inv w c p (y : system Srv) p' y' :
  0 < n -> proc_inv w (sys_active y) (pcs y) p -> main_step w c p y = Some (p', y') ->
  proc_inv w (sys_active y') (pcs y') p'.
Proof.
  intros Hn [Hpc Hb Hal] H. unfold Fleet.main_step in H. unfold pc_inv, bytes_inv in Hpc, Hb.
  cbv zeta in Hb.
  destruct (p_main p) as [|i sm sel rest| |i code|i code|] eqn:Em.
  - destruct c; [|injection H as <- <-; by apply stop_process_inv|done].
    destruct (_ || _) eqn:Eo; [|done]. injection H as <- <-. apply orb_true_iff in Eo as [Eo%bool_decide_eq_true|Eo].
    + constructor; cbn; [split_and!; [done|lia|done]|split; [done|by left]|done].
    + constructor; cbn; [split_and!; [done|lia|done]|split; [done|by right]|done].
  - destruct Hpc as (Hact & Hi & Hsel). destruct (decide (i < n)) as [Hlt|Hge].
    + apply bind_Some in H as (th & Hth & [= <- <-]).
      constructor; [|destruct (decide _); exact Hb|done].
      cbn [p_main at_pc]. destruct (decide _); cbn; (split_and!; [done|lia|done]).
    + apply bind_Some in H as (y1 & Hy & [= <- <-]). destruct (update_thread_inv _ _ _ _ Hy) as [_ -> -> _].
      apply after_send_inv; [done|done|by apply Hal|]. cbn. destruct rest as [k|]; [lia|]. destruct Hb. split; [lia|done].
  - destruct Hb as [Hb Hor]. assert (p_sent p + p_channel p = 1 + bytes (p_wakes p)) as Hb1 by lia.
    pose proof (Nat.le_min_r read_size (p_channel p)) as Hle. cbv zeta in H.
    set (b := Nat.min read_size (p_channel p)) in *. clearbody b.
    destruct c as [| |[]]; try (injection H as <- <-; by apply stop_process_inv).
    all: destruct (decide _) as [E0|E0]; [destruct (p_closed p); [injection H as <- <-; by apply stop_process_inv|done]|].
    all: injection H as <- <-; apply (after_send_inv _ _ _ (Some (b - 1))); [done|done|by apply Hal|lia].
  - destruct Hpc as (Hact & Hi). destruct (decide (i < n)) as [Hlt|Hge].
    + apply bind_Some in H as (y1 & Hy & [= <- <-]). destruct (update_thread_inv _ _ _ _ Hy) as [_ -> -> _].
      constructor; [split; [done|lia]|exact Hb|done].
    + injection H as <- <-. constructor; [split_and!; [done|lia|intros; lia]|exact Hb|done].
  - destruct Hpc as (Hact & Hi & Hj). destruct (decide (i < n)) as [Hlt|Hge].
    + apply bind_Some in H as (th & Hth & H). destruct (t_pc th) eqn:Et; try done. injection H as <- <-.
      constructor; [|exact Hb|done]. cbn. split_and!; [done|lia|]. intros j Hlt'.
      destruct (decide (j = i)) as [->|]; [|apply Hj; lia]. unfold exited. by rewrite list_lookup_fmap, Hth, <-Et.
    + injection H as <- <-. constructor; [|exact Hb|done]. cbn. split; [done|]. intros j Hlt. apply Hj. lia.
  - done.
Qed.

Lemma outside_step_inv f f' : fleet_inv f -> outside_step f f' -> fleet_inv f'.
Proof.
  intros Hf Hstep. destruct Hstep as [y ps w p Hwp Hcl|y ps w p Hwp|s a ts ps r s' Hr Hs'];
    destruct Hf as [Hn Hl Hw Hp]; cbn in *; constructor; cbn;
    rewrite ?length_insert; try done.
  - intros v q [(<- & <- & _)|[Hne Hq]]%list_lookup_insert_Some; [|by apply Hp].
    destruct (Hp w p Hwp) as [Hpc Hb Hal]. constructor; [exact Hpc| |exact Hal].
    unfold bytes_inv, wake_process in *. cbn [p_main p_sent p_channel p_wakes p_closed] in *.
    rewrite bytes_S. change (Z.to_nat msg_size) with 2. cbv zeta in *.
    destruct (p_main p) as [|? ? ? []| | | |]; destruct_and?; split_and?; try (left; lia); lia.
  - intros v q [(<- & <- & _)|[Hne Hq]]%list_lookup_insert_Some; [|by apply Hp].
    destruct (Hp w p Hwp) as [Hpc Hb Hal]. constructor; [exact Hpc| |exact Hal].
    unfold bytes_inv, orphan in *; cbn in *. destruct (p_main p) as [|? ? ? []| | | |]; intuition.
Qed.

Lemma own_step_inv w f f' : fleet_inv f -> own_step w f f' -> fleet_inv f'.
Proof.
  intros Hf Hstep. destruct Hstep as [s a ts ps i th th' s' Hi Hwt Hst|y ps c p p' y' Hwp Hst].
  - destruct (thread_step_control _ _ _ _ _ Hst) as (Ew & _ & Hpc & Hexit).
    destruct Hf as [Hn Hl Hw Hp]; cbn in *. constructor; cbn; rewrite ?length_insert; try done.
    + intros v j q Hj [(E & <- & _)|[_ Hq]]%list_lookup_insert_Some; [|by eapply Hw].
      rewrite Ew. eapply Hw; [done|]. by rewrite <-E.
    + intros v p Hv. eapply proc_inv_pcs; [done| | |by apply Hp].
      * intros j _. by eapply exited_insert.
      * intros Ha j Hj. unfold exited. rewrite !list_lookup_fmap.
        destruct (decide (i = index v j)) as [E|E]; [|by rewrite list_lookup_insert_ne].
        rewrite <-E, list_lookup_insert_eq by by eapply lookup_lt_Some. intros [= Ex].
        assert (t_worker th = v) as Hv' by (eapply Hw; [exact Hj|by rewrite <-E]). subst. by rewrite Hexit in Ha.
  - destruct (main_step_control _ _ _ _ _ _ Hst) as (_ & Epc & Ewk & Ea & _ & _).
    destruct Hf as [Hn Hl Hw Hp]; cbn in *. constructor; cbn; rewrite ?length_insert; [done| | |].
    + rewrite <-Hl. apply (f_equal length) in Epc. by rewrite !length_fmap in Epc.
    + intros v j th Hj Hth. assert ((t_worker <$> sys_threads y) !! index v j = Some (t_worker th)) as Hv.
      { by rewrite <-Ewk, list_lookup_fmap, Hth. }
      rewrite list_lookup_fmap in Hv. apply fmap_Some in Hv as (th0 & Hth0 & ->). by eapply Hw.
    + intros v q [(<- & <- & _)|[Hne Hq]]%list_lookup_insert_Some.
      * eapply main_step_inv; [done|by apply Hp|done].
      * eapply proc_inv_pcs; [by apply Ea| | |by apply Hp]; by rewrite Epc.
Qed.

Lemma fleet_initial_inv f : fleet_initial f -> fleet_inv f.
Proof.
  intros (Hi & Hn & Hp & Hl & Hw). constructor; [done|done|done|].
  intros w p Hwp. destruct (Hp w p Hwp) as (Em & Ec & Ek & Es & Ea). constructor.
  - by rewrite Em.
  - unfold bytes_inv. by rewrite Em, Ec, Ek, Es.
  - intros _ j Hj Hx. unfold exited in Hx. rewrite list_lookup_fmap in Hx.
    apply fmap_Some in Hx as (th & Hth & Epc). destruct Hi as (_ & _ & Hall).
    rewrite Forall_lookup in Hall. destruct (Hall _ _ Hth) as (_ & E & _). congruence.
Qed.

Lemma fleet_reachable_inv f : fleet_reachable f -> fleet_inv f.
Proof.
  intros (f0 & H0%fleet_initial_inv & Hr). induction Hr as [f|f1 f2 f3 Hstep _ IH]; [done|].
  apply IH. destruct Hstep as [Ho|[w Ho]]; [by eapply outside_step_inv|by eapply own_step_inv].
Qed.

(** *** The threads of one process *)

Definition slice {A} (w : nat) (l : list A) : list A := take n (drop (w * n) l).

Lemma slice_lookup {A} w (l : list A) j : j < n -> slice w l !! j = l !! index w j.
Proof. intros Hj. unfold slice. rewrite lookup_take_lt by done. by rewrite lookup_drop. Qed.

Lemma slice_ge {A} w (l : list A) j : n <= j -> slice w l !! j = None.
Proof. intros Hj. unfold slice. by apply lookup_take_ge. Qed.

Lemma slice_fmap {A B} (g : A -> B) w l : slice w (g <$> l) = g <$> slice w l.
Proof. unfold slice. by rewrite <-fmap_drop, <-fmap_take. Qed.

Lemma slice_insert_own {A} w (l : list A) j x :
  j < n -> slice w (<[index w j := x]> l) = <[j := x]> (slice w l).
Proof.
  intros Hj. apply list_eq. intros k. destruct (decide (k < n)) as [Hk|Hk].
  - rewrite slice_lookup by done. destruct (decide (k = j)) as [->|Hne].
    + destruct (decide (index w j < length l)) as [Hl|Hl].
      * rewrite list_lookup_insert_eq by done. rewrite list_lookup_insert_eq; [done|].
        destruct (lookup_lt_is_Some_2 l _ Hl) as [a Ha]. eapply lookup_lt_Some.
        rewrite slice_lookup by done. exact Ha.
      * rewrite !list_insert_ge; [by rewrite slice_lookup| |lia].
        apply lookup_ge_None. rewrite slice_lookup by done. apply lookup_ge_None. lia.
    + rewrite !list_lookup_insert_ne; [by rewrite slice_lookup|done|].
      intros E. apply index_inj in E as [_ E]; [congruence|done..].
  - rewrite slice_ge by lia. rewrite list_lookup_insert_ne by lia. by rewrite slice_ge by lia.
Qed.

Lemma slice_insert_other {A} w v (l : list A) j x :
  v ≠ w -> j < n -> slice w (<[index v j := x]> l) = slice w l.
Proof.
  intros Hv Hj. apply list_eq. intros k. destruct (decide (k < n)) as [Hk|Hk]; [|by rewrite !slice_ge by lia].
  rewrite !slice_lookup by done. apply list_lookup_insert_ne.
  intros E. by apply index_inj in E as [E _].
Qed.

(** A thread of the fleet by its process. *)
Lemma thread_index f i th :
  fleet_inv f -> sys_threads (f_system f) !! i = Some th ->
  exists j, j < n /\ i = index (t_worker th) j.
Proof.
  intros Hf Hi. pose proof (lookup_lt_Some _ _ _ Hi) as Hlt. rewrite (fi_length _ Hf) in Hlt.
  destruct (index_of (length (f_procs f)) i (fi_some _ Hf) Hlt) as (v & j & _ & Hj & ->).
  exists j. split; [done|]. by rewrite (fi_worker _ Hf v j th Hj Hi).
Qed.
End Invariant.
