(* ===== verification/FleetSpec.v ===== *)
(** * FleetSpec: what whole worker processes do

    The composed system is simulated by System.v; every byte the master
    writes becomes one message; no process ever gets stuck; a shutdown ends
    under every schedule.  The single steps of the main thread are also shown to
    agree with the functions of Worker.v. *)

From S2P Require Import Prelude CLib Settings Records Job Effects Adaptor JobTable Server Worker.
From S2P Require Import WorkQueue System RefServer Exclusion Fleet.

(** ** Well-founded steps of one element of a list *)

Section OneOf.
Context {A : Type} (R : A -> A -> Prop).

(** One element takes a step. *)
Definition one_of (l' l : list A) : Prop :=
  exists i x x', l !! i = Some x /\ R x' x /\ l' = <[i := x']> l.

Lemma one_of_acc l : Forall (Acc R) l -> Acc one_of l.
Proof.
  induction 1 as [|x l Hx Hl IH].
  { constructor. intros l' (i & x & x' & Hi & _). by rewrite lookup_nil in Hi. }
  revert l IH Hl. induction Hx as [x _ IHx]. intros l IH. induction IH as [l Hl IHl]. intros Hall.
  constructor. intros l' ([|i] & y & y' & Hi & Hy & ->); cbn in Hi |- *.
  - injection Hi as <-. apply IHx; [done| |done]. by constructor.
  - apply IHl; [by exists i, y, y'|].
    apply Forall_insert; [done|]. eapply Acc_inv; [|exact Hy]. by eapply Forall_lookup_1.
Qed.

Lemma one_of_wf : well_founded R -> well_founded one_of.
Proof. intros Hwf l. apply one_of_acc, Forall_true, Hwf. Qed.

(** A stage that goes down, or one element of the list that takes a step. *)
Definition staged (v' v : nat * list A) : Prop :=
  fst v' < fst v \/ (fst v' = fst v /\ one_of (snd v') (snd v)).

Lemma staged_wf : well_founded R -> well_founded staged.
Proof.
  intros Hwf [k l]. revert l. induction k as [k IHk] using lt_wf_ind. intros l.
  induction l as [l IHl] using (well_founded_ind (one_of_wf Hwf)).
  constructor. intros [k' l'] [Hk|[Hk Hl]]; cbn in *; [by apply IHk|subst; by apply IHl].
Qed.
End OneOf.

(** ** A thread whose process is inactive *)

(** The control point and the length of the queue. *)
Definition quiet (c' c : pc * nat) : Prop :=
  match fst c with
  | PWhile => fst c' = PExit
  | PDrain _ _ => fst c' = PWhile \/ (exists p, fst c' = PBody p) \/
      exists m w, fst c' = PDrain m w /\ snd c = S (snd c')
  | PBody (Ret _) => fst c' = PWhile
  | PBody (Op o k) => exists r, fst c' = PBody (k r)
  | PExit => False
  end.

Lemma quiet_wf : well_founded quiet.
Proof.
  assert (forall k, Acc quiet (PExit, k)) as Hexit by (intros k; constructor; intros c []).
  assert (forall k, Acc quiet (PWhile, k)) as Hwhile.
  { intros k. constructor. intros [c k'] E. cbn in E. subst c. apply Hexit. }
  assert (forall p k, Acc quiet (PBody p, k)) as Hbody.
  { induction p as [[]|o q IH]; intros k; constructor; intros [c k'] E; cbn in E; [subst c; apply Hwhile|].
    destruct E as [r ->]. apply IH. }
  assert (forall k m w, Acc quiet (PDrain m w, k)) as Hdrain.
  { induction k as [|k IH]; intros m w; constructor; intros [c k'] E; cbn in E;
      destruct E as [->|[[p ->]|(m' & w' & -> & E)]]; [apply Hwhile|apply Hbody|discriminate|apply Hwhile|apply Hbody|].
    injection E as <-. apply IH. }
  intros [[|m w|p|] k]; [apply Hwhile|apply Hdrain|apply Hbody|apply Hexit].
Qed.

(** ** Shutting a process down *)

Section Shutdown.
Context {Srv : Type} `{!MySQL Srv}.
Context (now : identity -> nat -> Z * Z) (outcome : identity -> Job -> Z).
Context (m_config : Settings) (m_job_types : GData job_creator_t) (leaks : Z).
Notation m_db := (mkMysql HLive leaks).
Notation n := (n m_config).
Notation index := (index m_config).
Notation slice := (slice m_config).
Notation main_step := (main_step m_config).
Notation own_step := (own_step now outcome m_config m_job_types m_db).
Notation outside_step := (@outside_step Srv _).
Notation fleet_step := (fleet_step now outcome m_config m_job_types m_db).
Notation fleet_inv := (@fleet_inv Srv m_config).

(** [shutdown] has been called. *)
Definition stopping (m : main_pc) : Prop :=
  match m with MStop _ _ | MJoin _ _ | MExit _ => True | _ => False end.

(** How far a shutdown still has to go. *)
Definition stage (m : main_pc) : nat :=
  match m with
  | MStop i _ => (n - i) + n + 2
  | MJoin i _ => (n - i) + 1
  | _ => 0
  end.

Definition thread_view (th : thread) : pc * nat := (t_pc th, length (l_queue (t_local th))).

(** What process [w] is made of. *)
Definition view (w : nat) (f : fleet Srv) : nat * list (pc * nat) :=
  (from_option (fun p => stage (p_main p)) 0 (f_procs f !! w), slice w (thread_view <$> sys_threads (f_system f))).

Definition is_stopping (w : nat) (f : fleet Srv) : Prop :=
  exists p, f_procs f !! w = Some p /\ stopping (p_main p).

(** A step of anything but process [w]. *)
Definition other_step (w : nat) (f f' : fleet Srv) : Prop :=
  outside_step f f' \/ exists v, v ≠ w /\ own_step v f f'.

(** One step of [w] after any number of steps of the others. *)
Definition round (w : nat) (f' f : fleet Srv) : Prop :=
  exists f1, rtc (other_step w) f f1 /\ own_step w f1 f'.

Lemma other_fleet_step w f f' : other_step w f f' -> fleet_step f f'.
Proof. intros [?|(v & _ & ?)]; [by left|right; eauto]. Qed.

Lemma fleet_step_inv f f' : fleet_inv f -> fleet_step f f' -> fleet_inv f'.
Proof. intros Hf [Ho|[w Ho]]; [by eapply outside_step_inv|by eapply own_step_inv]. Qed.

(** A main thread touches the threads of its own process only. *)
Lemma main_step_slice w v c p (y : system Srv) p' y' :
  v ≠ w -> pc_inv m_config v (sys_active y v) (t_pc <$> sys_threads y) (p_main p) ->
  main_step v c p y = Some (p', y') -> slice w (sys_threads y') = slice w (sys_threads y).
Proof.
  intros Hv Hpc H. unfold Fleet.main_step, stop_process in H.
  destruct (p_main p) as [|i sm sel rest| |i code|i code|]; cbn [pc_inv] in Hpc.
  all: repeat match type of H with
    | match ?x with _ => _ end = Some _ => let E := fresh "E" in destruct x eqn:E; try discriminate H
    | _ ≫= _ = Some _ => let E := fresh "E" in apply bind_Some in H as (? & E & H)
    end; simplify_eq; try done.
  all: match goal with E : update_thread _ _ _ = Some _ |- _ =>
      unfold update_thread in E; apply bind_Some in E as (? & ? & E); injection E as <- end.
  all: cbn [sys_threads]; (rewrite slice_insert_other; [done|done|lia]).
Qed.

Lemma outside_view w f f' : outside_step f f' -> view w f' = view w f /\ (is_stopping w f -> is_stopping w f').
Proof.
  intros [y ps v p Hp Hcl|y ps v p Hp|s a ts ps r s' Hr Hs']; [| |done]; unfold view, is_stopping; cbn.
  all: destruct (decide (w = v)) as [->|Hne];
    [rewrite list_lookup_insert_eq by (by eapply lookup_lt_Some); rewrite Hp|by rewrite list_lookup_insert_ne].
  all: split; [done|]; intros (q & [= <-] & Hq); eexists; split; [done|exact Hq].
Qed.

Lemma other_view w f f' :
  fleet_inv f -> other_step w f f' -> view w f' = view w f /\ (is_stopping w f -> is_stopping w f').
Proof.
  intros Hf [Ho|(v & Hv & Ho)]; [by apply outside_view|].
  destruct Ho as [s a ts ps i th th' s' Hi Hwt Hst|y ps c p p' y' Hp Hst].
  - destruct (thread_index _ _ i th Hf Hi) as (j & Hj & ->). split; [|done]. unfold view; cbn. f_equal.
    rewrite list_fmap_insert, Hwt. by apply slice_insert_other.
  - split.
    + unfold view; cbn. rewrite list_lookup_insert_ne by done. f_equal. rewrite !slice_fmap. f_equal.
      eapply main_step_slice; [exact Hv|apply (pi_pc _ _ _ _ _ (fi_procs _ _ Hf v p Hp))|exact Hst].
    + intros (q & Hq & Hs). exists q. cbn. rewrite list_lookup_insert_ne by done. done.
Qed.

Lemma others_view w f f' :
  fleet_inv f -> rtc (other_step w) f f' ->
  fleet_inv f' /\ view w f' = view w f /\ (is_stopping w f -> is_stopping w f').
Proof.
  intros Hf Hr. revert Hf. induction Hr as [f|f1 f2 f3 Hstep _ IH]; intros Hf; [done|].
  destruct (other_view w f1 f2 Hf Hstep) as [Ev Hs].
  destruct IH as (Hf3 & Ev3 & Hs3); [by eapply fleet_step_inv, other_fleet_step|].
  split_and!; [done|congruence|auto].
Qed.

(** An inactive thread that moves gets closer to its exit. *)
Lemma inactive_quiet th s th' s' :
  System.thread_step now outcome m_config m_job_types m_db false th s = Some (th', s') ->
  quiet (thread_view th') (thread_view th).
Proof.
  intros H. destruct (inactive_step now outcome m_config m_job_types leaks _ _ _ _ H) as (_ & _ & Hn).
  unfold quiet, thread_view, next_pc in *. cbn [fst snd].
  destruct (t_pc th) as [|m w|[[]|o k]|]; try done.
  destruct Hn as [?|[?|(m' & w' & q & x & E & Hq & Hq')]]; [by left|right; by left|].
  right; right. exists m', w'. split; [done|]. by rewrite Hq, Hq'.
Qed.

(** The main thread of a stopping process goes down one stage. *)
Lemma stopping_main_step w c p (y : system Srv) p' y' :
  stopping (p_main p) -> main_step w c p y = Some (p', y') ->
  stopping (p_main p') /\ stage (p_main p') < stage (p_main p).
Proof.
  intros Hs H. unfold Fleet.main_step in H. destruct (p_main p) as [|i sm sel rest| |i code|i code|]; try done.
  - destruct (decide (i < n)); [apply bind_Some in H as (? & ? & H)|]; injection H as <- <-; cbn; (split; [done|lia]).
  - destruct (decide (i < n)).
    + apply bind_Some in H as (th & ? & H). destruct (t_pc th); try done. injection H as <- <-. cbn. split; [done|lia].
    + injection H as <- <-. cbn. split; [done|lia].
Qed.

Lemma stopping_inactive w f p :
  fleet_inv f -> f_procs f !! w = Some p -> stopping (p_main p) -> sys_active (f_system f) w = false.
Proof.
  intros Hf Hp Hs. pose proof (pi_pc _ _ _ _ _ (fi_procs _ _ Hf w p Hp)) as H.
  unfold pc_inv in H. destruct (p_main p); try done; tauto.
Qed.

Lemma own_view w f f' :
  fleet_inv f -> is_stopping w f -> own_step w f f' ->
  staged quiet (view w f') (view w f) /\ is_stopping w f'.
Proof.
  intros Hf (q & Hq & Hs) Ho. destruct Ho as [s a ts ps i th th' s' Hi Hwt Hst|y ps c p p' y' Hp Hst].
  - split; [right|by exists q]. split; [done|]. unfold view. cbn.
    destruct (thread_index _ _ i th Hf Hi) as (j & Hj & ->). rewrite Hwt in *.
    pose proof (stopping_inactive w _ q Hf Hq Hs) as Ha. cbn in Ha. rewrite Ha in Hst. exists j, (thread_view th), (thread_view th'). split_and!.
    + rewrite slice_lookup by done. by rewrite list_lookup_fmap, Hi.
    + by eapply inactive_quiet.
    + by rewrite list_fmap_insert, slice_insert_own.
  - cbn in Hq. rewrite Hp in Hq. injection Hq as ->.
    destruct (stopping_main_step _ _ _ _ _ _ Hs Hst) as [Hs' Hlt]. split.
    + left. unfold view. cbn. rewrite list_lookup_insert_eq by by eapply lookup_lt_Some. by rewrite Hp.
    + exists p'. cbn. by rewrite list_lookup_insert_eq by by eapply lookup_lt_Some.
Qed.

Lemma stopping_acc w f : fleet_inv f -> is_stopping w f -> Acc (round w) f.
Proof.
  remember (view w f) as v eqn:Ev. revert f Ev.
  induction v as [v IH] using (well_founded_ind (staged_wf quiet quiet_wf)). intros f -> Hf Hs.
  constructor. intros f' (f1 & Hothers & Hown).
  destruct (others_view w f f1 Hf Hothers) as (Hf1 & Ev1 & Hs1).
  destruct (own_view w f1 f' Hf1 (Hs1 Hs) Hown) as [Hv Hs'].
  eapply IH; [rewrite <-Ev1; exact Hv|done| |exact Hs'].
  eapply fleet_step_inv; [exact Hf1|right; eauto].
Qed.
End Shutdown.

(** ** The main thread alone *)

Section Alone.
Context {Srv : Type} `{!MySQL Srv}.
Context (m_config : Settings).
Notation n := (n m_config).
Notation index := (index m_config).
Notation slice := (slice m_config).
Notation main_step := (main_step m_config).

(** Steps of the main thread of process [w] and of nothing else. *)
Definition alone (w : nat) (x x' : process * system Srv) : Prop :=
  exists c, main_step w c (fst x) (snd x) = Some x'.

(** The work queues of [wk] are those of the threads of process [w]. *)
Definition agrees (w : nat) (wk : Worker) (y : system Srv) : Prop :=
  m_threads wk = SLive <$> (t_local <$> slice w (sys_threads y)) /\
  length (slice w (sys_threads y)) = n.

Lemma agrees_thread w wk y i :
  agrees w wk y -> i < n ->
  exists th, sys_threads y !! index w i = Some th /\ thread_at (m_threads wk) i = Val (t_local th).
Proof.
  intros [Ht Hl] Hi. destruct (lookup_lt_is_Some_2 (slice w (sys_threads y)) i) as [th Hth]; [by rewrite Hl|].
  exists th. split; [by rewrite <-Hth, slice_lookup|].
  rewrite Ht. apply thread_at_live. by rewrite list_lookup_fmap, Hth.
Qed.

(** A message to one thread. *)
Lemma agrees_update w wk y i th f :
  agrees w wk y -> i < n -> sys_threads y !! index w i = Some th ->
  exists y', update_thread (index w i) f y = Some y' /\
    agrees w (set_threads (<[i := SLive (f (t_local th))]> (m_threads wk)) wk) y'.
Proof.
  intros [Ht Hl] Hi Hth. eexists. unfold update_thread. rewrite Hth. split; [done|].
  unfold agrees. cbn [m_threads set_threads sys_threads]. rewrite slice_insert_own, length_insert by done.
  split; [|done]. by rewrite Ht, !list_fmap_insert.
Qed.

Lemma agrees_lt w wk y i l : agrees w wk y -> thread_at (m_threads wk) i = Val l -> i < n.
Proof.
  intros [Ht Hl] Hat. unfold thread_at in Hat. destruct (m_threads wk !! i) as [sl|] eqn:E; [|done].
  apply lookup_lt_Some in E. rewrite Ht, !length_fmap, Hl in E. done.
Qed.

Lemma alone_pick w wk y p rest k : forall i sm sel sel',
  agrees w wk y -> i + k = n -> schedule_loop (m_threads wk) k i sm sel = Val sel' ->
  exists sm', rtc (alone w) (at_pc (MPick i sm sel rest) p, y) (at_pc (MPick n sm' sel' rest) p, y).
Proof.
  induction k as [|k IH]; intros i sm sel sel' Ha Hi H.
  { rewrite Nat.add_0_r in Hi. subst i. injection H as <-. by exists sm. }
  destruct (agrees_thread w wk y i Ha ltac:(lia)) as (th & Hth & Hat).
  cbn [schedule_loop] in H. rewrite Hat in H. cbn [mbind res_bind] in H.
  destruct (decide (sm < pending (t_local th))%Z) as [Hlt|Hge];
    [destruct (IH (S i) (pending (t_local th)) i sel' Ha ltac:(lia) H) as [sm' Hr]
    |destruct (IH (S i) sm sel sel' Ha ltac:(lia) H) as [sm' Hr]];
    exists sm'; (eapply rtc_l; [|exact Hr]); exists CIo; unfold Fleet.main_step; cbn [fst snd p_main at_pc];
    rewrite decide_True by lia; rewrite Hth; cbn [mbind option_bind].
  - by rewrite decide_True.
  - by rewrite decide_False.
Qed.

Definition sent_one (rest : option nat) (p : process) : process :=
  mkProcess (after_send rest) (p_channel p) (p_closed p) (p_wakes p) (S (p_sent p)).

Lemma alone_schedule w wk y p rest wk' :
  agrees w wk y -> Worker.schedule m_config wk = Val wk' ->
  exists y', rtc (alone w) (at_pc (MPick 0 10 0 rest) p, y) (sent_one rest p, y') /\ agrees w wk' y'.
Proof.
  intros Ha H. unfold Worker.schedule in H. fold n in H.
  destruct (schedule_loop _ _ _ _ _) as [sel| |] eqn:E; try done. cbn [mbind res_bind] in H.
  destruct (thread_at (m_threads wk) sel) as [l| |] eqn:El; try done. cbn [mbind res_bind] in H. injection H as <-.
  pose proof (agrees_lt _ _ _ _ _ Ha El) as Hsel.
  destruct (alone_pick w wk y p rest n 0 10 0 sel Ha ltac:(lia) E) as [sm' Hr].
  destruct (agrees_thread w wk y sel Ha Hsel) as (th & Hth & Hat). rewrite El in Hat. injection Hat as ->.
  destruct (agrees_update w wk y sel th send_work Ha Hsel Hth) as (y' & Hu & Ha').
  exists y'. split; [|done]. eapply rtc_r; [exact Hr|]. exists CIo. unfold Fleet.main_step. cbn [fst snd p_main at_pc].
  rewrite decide_False by lia. by rewrite Hu.
Qed.

Lemma alone_schedule_times w k : forall wk y p wk',
  agrees w wk y -> schedule_times m_config (S k) wk = Val wk' ->
  exists y' p', rtc (alone w) (at_pc (MPick 0 10 0 (Some k)) p, y) (p', y') /\ agrees w wk' y' /\
    p_main p' = MWait /\ p_channel p' = p_channel p /\ p_sent p' = S k + p_sent p.
Proof.
  induction k as [|k IH]; intros wk y p wk' Ha H; cbn [schedule_times] in H;
    destruct (Worker.schedule m_config wk) as [wk1| |] eqn:E; try done; cbn [mbind res_bind] in H.
  - destruct (alone_schedule w wk y p (Some 0) wk1 Ha E) as (y1 & Hr & Ha1). injection H as <-. eexists _, _. split; [exact Hr|]. by split_and!.
  - destruct (alone_schedule w wk y p (Some (S k)) wk1 Ha E) as (y1 & Hr & Ha1).
    destruct (IH wk1 y1 (sent_one (Some (S k)) p) wk' Ha1 H) as (y' & p' & Hr' & Ha' & Hm & Hc & Hs).
    exists y', p'. split; [by etrans|]. split_and!; [done..|]. rewrite Hs. cbn. lia.
Qed.

(** [shutdown]'s first loop. *)
Lemma alone_stop w code k : forall i wk y p ts,
  agrees w wk y -> i + k = n -> stop_loop k i (m_threads wk) = Val ts ->
  exists y', rtc (alone w) (at_pc (MStop i code) p, y) (at_pc (MJoin 0 code) p, y') /\
    agrees w (set_threads ts wk) y' /\ sys_active y' = sys_active y.
Proof.
  induction k as [|k IH]; intros i wk y p ts Ha Hi H.
  - injection H as <-. exists y. split; [|split; [by destruct wk|done]].
    apply rtc_once. exists CIo. unfold Fleet.main_step. cbn [fst snd p_main at_pc]. by rewrite decide_False by lia.
  - destruct (agrees_thread w wk y i Ha ltac:(lia)) as (th & Hth & Hat).
    cbn [stop_loop] in H. rewrite Hat in H. cbn [mbind res_bind] in H.
    destruct (agrees_update w wk y i th send_stop Ha ltac:(lia) Hth) as (y1 & Hu & Ha1).
    destruct (IH (S i) _ y1 p ts Ha1 ltac:(lia) H) as (y' & Hr & Ha' & Hact).
    exists y'. split; [|split; [by destruct wk|]].
    2: { rewrite Hact. by destruct (update_thread_inv _ _ _ _ Hu). }
     eapply rtc_l; [|exact Hr]. exists CIo. unfold Fleet.main_step.
    cbn [fst snd p_main at_pc]. rewrite decide_True by lia. by rewrite Hu.
Qed.
End Alone.

(** ** Counting messages *)

(** Messages still to be sent for bytes that were read. *)
Definition unsent (m : main_pc) : nat :=
  match m with MPick _ _ _ (Some k) => S k | _ => 0 end.

(** Messages sent for a byte that was not read. *)
Definition unread (m : main_pc) : nat :=
  match m with MChannel => 1 | MStop _ code | MJoin _ code | MExit code => code | _ => 0 end.

(** ** A process that hands out work and is stopped *)

Module FleetDemo.
Notation now := Demo.now.
Notation outcome := Demo.outcome.
Definition config : Settings := Demo.config.

(** One process with the two threads of the default. *)
Definition threads_of_0 : list thread := [Demo.worker_thread 100 4096 0; Demo.worker_thread 100 8192 0].

Definition system_0 : system table_server :=
  mkSystem (mkTableServer [Demo.row 1]) (fun _ => true) threads_of_0.

Definition idle : fleet table_server := mkFleet system_0 [mkProcess MWait 0 false 0 0].

(** After one wake-up by the master. *)
Definition woken : fleet table_server := mkFleet system_0 [wake_process (mkProcess MWait 0 false 0 0)].

(** After SIGUSR2. *)
Definition signalled : fleet table_server :=
  mkFleet (mkSystem (mkTableServer [Demo.row 1]) (deactivate 0 (fun _ => true)) threads_of_0)
    [at_pc (MStop 0 0) (wake_process (mkProcess MWait 0 false 0 0))].

Notation reachable := (fleet_reachable now outcome config Demo.types (mkMysql HLive 0)).

Lemma idle_initial : fleet_initial config idle.
Proof.
  split_and!; [| | |done|].
  - split; [|split].
    + split; [repeat constructor|]. repeat constructor; simpl; try done; lia.
    + simpl. repeat constructor; set_solver.
    + repeat constructor; simpl; lia.
  - vm_compute. lia.
  - intros [|w] p Hw; [|done]. by injection Hw as <-.
  - intros w j th _ Hth. unfold idle, system_0, threads_of_0 in Hth. cbn [f_system sys_threads] in Hth.
    pose proof (lookup_lt_Some _ _ _ Hth) as Hlt. cbn [length] in Hlt.
    assert (n config = 2) as En by reflexivity. unfold Fleet.index in Hth, Hlt. rewrite En in Hth, Hlt.
    assert (w = 0) as -> by lia.
    assert (Forall (fun th => t_worker th = 0) threads_of_0) as Hall by (repeat constructor).
    rewrite Forall_lookup in Hall. by eapply Hall.
Qed.

Lemma woken_step : fleet_step now outcome config Demo.types (mkMysql HLive 0) idle woken.
Proof. left. exact (out_wake system_0 [mkProcess MWait 0 false 0 0] 0 _ eq_refl eq_refl). Qed.

Lemma signalled_step : fleet_step now outcome config Demo.types (mkMysql HLive 0) woken signalled.
Proof.
  right. exists 0.
  exact (own_main now outcome config Demo.types (mkMysql HLive 0) 0 system_0 [wake_process (mkProcess MWait 0 false 0 0)] CSignal
    (wake_process (mkProcess MWait 0 false 0 0)) _ _ eq_refl eq_refl).
Qed.

Lemma woken_reachable : reachable woken.
Proof. exists idle. split; [apply idle_initial|]. eapply rtc_once, woken_step. Qed.

Lemma signalled_reachable : reachable signalled.
Proof. exists idle. split; [apply idle_initial|]. eapply rtc_l; [apply woken_step|]. eapply rtc_once, signalled_step. Qed.
End FleetDemo.

(** ** Properties *)

Section Properties.
Context {Srv : Type} `{!MySQL Srv} `{!MySQLSpec Srv}.
Context (now : identity -> nat -> Z * Z) (outcome : identity -> Job -> Z).
Context (m_config : Settings) (m_job_types : GData job_creator_t) (leaks : Z).
Hypothesis now_ok : forall i n, time_ok (now i n).
Hypothesis creators_ok : creators_keep_id m_job_types.
Notation n := (n m_config).
Notation index := (index m_config).
Notation own_step := (own_step now outcome m_config m_job_types (mkMysql HLive leaks)).
Notation fleet_step := (fleet_step now outcome m_config m_job_types (mkMysql HLive leaks)).
Notation fleet_reachable := (fleet_reachable now outcome m_config m_job_types (mkMysql HLive leaks)).
Notation reachable := (reachable now outcome m_config m_job_types (mkMysql HLive leaks)).
Notation step := (step now outcome m_config m_job_types (mkMysql HLive leaks)).
Notation round := (round now outcome m_config m_job_types leaks).

Lemma fleet_system_reachable (f : fleet Srv) : fleet_reachable f -> reachable (f_system f).
Proof.
  intros (f0 & (Hi & _) & Hr). exists (f_system f0). split; [exact Hi|]. by eapply fleet_simulated.
Qed.

(** C5: the composed system refines the system of threads.  Whatever the main
    threads, the master and the clients do, the threads and the table go
    through a run of System.v, from a reachable state to a reachable state:
    what holds of every state or step there holds of whole worker processes,
    and no two of their threads are ever inside the same job. *)
Theorem fleet_refines_system (f f' : fleet Srv) :
  fleet_reachable f -> rtc fleet_step f f' ->
  reachable (f_system f) /\ rtc step (f_system f) (f_system f') /\
  forall i j z z', i ≠ j -> executing (f_system f') i z -> executing (f_system f') j z' -> z ≠ z'.
Proof.
  intros Hf Hr. split_and!; [by apply fleet_system_reachable|by eapply fleet_simulated|].
  assert (fleet_reachable f') as Hf'.
  { destruct Hf as (f0 & H0 & Hr0). exists f0. split; [done|]. by etrans. }
  intros i j z z' Hij Hi Hj.
  destruct (reachable_inv now now_ok outcome m_config m_job_types leaks creators_ok _
    (fleet_system_reachable f' Hf')) as [gs Hinv].
  by eapply (executing_distinct now).
Qed.

(** C6: every byte becomes one message.  At any time the messages a worker's
    main thread has sent, the bytes in its channel and the messages it is
    still to send for bytes already read add up to two for each wake-up of the
    master, plus one when a message was sent for a byte not read yet, or never
    read because the parent was gone.  So an idle process with an empty
    channel has sent exactly two messages per wake-up. *)
Theorem wakeups_accounted (f : fleet Srv) w p :
  fleet_reachable f -> f_procs f !! w = Some p ->
  p_sent p + p_channel p + unsent (p_main p) = 2 * p_wakes p + unread (p_main p) /\
  (p_main p = MWait -> p_channel p = 0 -> p_sent p = 2 * p_wakes p).
Proof.
  intros Hf Hp. pose proof (pi_bytes _ _ _ _ _ (fi_procs _ _ (fleet_reachable_inv _ _ _ _ _ _ Hf) w p Hp)) as Hb.
  unfold bytes_inv, bytes in Hb. change (Z.to_nat msg_size) with 2 in Hb. cbv zeta in Hb.
  destruct (p_main p) as [|? ? ? []| | | |]; cbn [unsent unread]; destruct_and?; (split; [lia|intros; first [discriminate|lia]]).
Qed.

(** What the main thread waits for, if it waits. *)
Lemma main_progress (f : fleet Srv) w p :
  fleet_inv m_config f -> f_procs f !! w = Some p -> (forall c, p_main p ≠ MExit c) ->
  (exists c x, main_step m_config w c p (f_system f) = Some x) \/
  (exists i th, sys_threads (f_system f) !! index w i = Some th /\ t_worker th = w /\ t_pc th ≠ PExit).
Proof.
  intros Hf Hp Hne. pose proof (fi_procs _ _ Hf w p Hp) as [Hpc Hb _]. unfold pc_inv, bytes_inv in *. cbv zeta in Hb.
  assert (forall j, j < n -> exists th y', sys_threads (f_system f) !! index w j = Some th /\ t_worker th = w /\
    forall g, update_thread (index w j) g (f_system f) = Some (y' g)) as Hth.
  { intros j Hj. destruct (fleet_thread _ f w p j Hf Hp Hj) as (th & Hth & Hw). eexists th, _.
    split; [done|]. split; [done|]. intros g. unfold update_thread. by rewrite Hth. }
  unfold Fleet.main_step. destruct (p_main p) as [|i sm sel rest| |i code|i code|code] eqn:Em.
  - left. exists CSignal. eauto.
  - left. exists CIo. destruct Hpc as (_ & Hi & Hsel). destruct (decide (i < n)) as [Hlt|Hge].
    + destruct (Hth i Hlt) as (th & _ & -> & _). eauto.
    + destruct (Hth sel Hsel) as (th & y' & _ & _ & ->). eauto.
  - left. exists CIo. destruct Hb as [_ Hor]. cbv zeta. destruct (decide _) as [E|E]; [|eauto].
    destruct (p_closed p); [eauto|]. destruct Hor as [Hc|Hc]; [|done].
    unfold read_size in E. lia.
  - left. exists CIo. destruct (decide (i < n)) as [Hlt|Hge]; [|eauto].
    destruct (Hth i Hlt) as (th & y' & _ & _ & ->). eauto.
  - destruct (decide (i < n)) as [Hlt|Hge]; [|left; exists CIo; eauto].
    destruct (Hth i Hlt) as (th & y' & Hl & Hw & _). rewrite Hl. cbn [mbind option_bind].
    destruct (t_pc th) eqn:Et; [right; exists i, th; by rewrite Et..|left; exists CIo; eauto].
  - by destruct (Hne code).
Qed.

Lemma own_progress (f : fleet Srv) w p :
  fleet_reachable f -> f_procs f !! w = Some p -> (forall c, p_main p ≠ MExit c) -> exists f', own_step w f f'.
Proof.
  intros Hf Hp Hne. destruct (main_progress f w p) as [(c & [p' y'] & Hst)|(i & th & Hi & Hw & Hpc)]; [|done..| |].
  - by eapply fleet_reachable_inv.
  - destruct f as [y ps]. eexists. by eapply own_main.
  - destruct (reachable_inv now now_ok outcome m_config m_job_types leaks creators_ok _
      (fleet_system_reachable f Hf)) as [gs Hinv].
    destruct (Forall2_lookup_l _ _ _ _ _ (si_threads _ _ _ Hinv) Hi) as (g & _ & Hth).
    destruct f as [[s a ts] ps]. cbn in *.
    destruct (safe_progress now outcome m_config m_job_types leaks _ _ _ _ _ (a w) s Hth Hpc) as [[th' s'] Hst].
    eexists. by eapply own_thread.
Qed.

(** C7: no process is ever stuck.  A process that has not exited can take a
    step whatever the others do, without waiting for an event unless it is in
    its event loop; while it hands out work none of its threads has left its
    loop, and when it has exited all have, so no work queue is used after it
    was deleted. *)
Theorem process_never_stuck (f : fleet Srv) w p :
  fleet_reachable f -> f_procs f !! w = Some p ->
  match p_main p with
  | MExit _ => forall j, j < n -> exists th, sys_threads (f_system f) !! index w j = Some th /\ t_pc th = PExit
  | m =>
    (exists f', own_step w f f') /\
    (stopping m \/ forall j, j < n -> exists th, sys_threads (f_system f) !! index w j = Some th /\ t_pc th ≠ PExit)
  end.
Proof.
  intros Hf Hp. pose proof (fleet_reachable_inv _ _ _ _ _ _ Hf) as Hinv.
  destruct (fi_procs _ _ Hinv w p Hp) as [Hpc _ Hal].
  assert ((forall c, p_main p ≠ MExit c) -> exists f', own_step w f f') as Hstep by by eapply own_progress.
  assert (sys_active (f_system f) w = true -> forall j, j < n ->
    exists th, sys_threads (f_system f) !! index w j = Some th /\ t_pc th ≠ PExit) as Halive.
  { intros Ha j Hj. destruct (fleet_thread _ f w p j Hinv Hp Hj) as (th & Hth & _). exists th. split; [done|].
    intros E. apply (Hal Ha j Hj). unfold exited. by rewrite list_lookup_fmap, Hth, <-E. }
  unfold pc_inv in Hpc. destruct (p_main p) as [|i sm sel rest| |i code|i code|code]; try (split; [by apply Hstep|]).
  - right. by apply Halive.
  - right. apply Halive, Hpc.
  - right. by apply Halive.
  - by left.
  - by left.
  - destruct Hpc as [_ Hx]. intros j Hj. specialize (Hx j Hj). unfold exited in Hx. rewrite list_lookup_fmap in Hx.
    apply fmap_Some in Hx as (th & Hth & Epc). by exists th.
Qed.

(** C8: a shutdown ends under every schedule.  Once a process has called
    [shutdown], because of a signal or because its parent is gone, it can take
    only finitely many more steps, however the steps of the master, of the
    clients and of all other processes are interleaved with its own and
    whatever the server answers; since it is never stuck, it exits. *)
Theorem shutdown_terminates (f : fleet Srv) w :
  fleet_reachable f -> is_stopping w f -> Acc (round w) f.
Proof.
  intros (f0 & H0%fleet_initial_inv & Hr) Hs. apply stopping_acc; [|done].
  induction Hr as [f|f1 f2 f3 Hstep _ IH]; [done|]. apply IH; [by eapply fleet_step_inv|done].
Qed.
End Properties.

(** The two models of the main thread agree: the functions of Worker.v are what the main thread does when nothing
    interferes.  From its event loop with [b] bytes in the channel it comes
    back to its loop, with the channel empty and the queues as [on_io_work]
    leaves them; and told to stop it reaches the join of the threads with the
    queues as [stop_loop], the first loop of [shutdown], leaves them. *)
Theorem main_thread_follows_worker {Srv : Type} `{!MySQL Srv} m_config w wk wk' p (y : system Srv) ts :
  agrees m_config w wk y -> p_main p = MWait -> 0 < p_channel p <= read_size ->
  on_io_work m_config (Z.of_nat (p_channel p)) wk = Val wk' ->
  stop_loop (n m_config) 0 (m_threads wk) = Val ts ->
  (exists p' y', rtc (alone m_config w) (p, y) (p', y') /\ agrees m_config w wk' y' /\
     p_main p' = MWait /\ p_channel p' = 0 /\ p_sent p' = p_channel p + p_sent p) /\
  (exists p' y', rtc (alone m_config w) (p, y) (p', y') /\ agrees m_config w (set_threads ts wk) y' /\
     p_main p' = MJoin 0 0 /\ sys_active y' w = false).
Proof.
  intros Ha Hm Hb Hio Hstop. split.
  - unfold on_io_work in Hio. destruct (Worker.schedule m_config wk) as [wk1| |] eqn:E1; try done.
    cbn [mbind res_bind] in Hio. rewrite decide_False in Hio by lia.
    destruct (alone_schedule m_config w wk y p None wk1 Ha E1) as (y1 & Hr1 & Ha1).
    set (p1 := sent_one None p) in *.
    set (p2 := mkProcess (after_send (Some (p_channel p - 1))) 0 (p_closed p) (p_wakes p) (S (p_sent p))).
    assert (rtc (alone m_config w) (p, y) (p2, y1)) as Hr2.
    { eapply rtc_l; [exists CIo; unfold main_step; cbn [fst snd]; rewrite Hm, bool_decide_true by lia; reflexivity|].
      etrans; [exact Hr1|]. apply rtc_once. exists CIo. unfold main_step, p1, sent_one.
      cbn [fst snd p_main after_send p_channel p_closed p_wakes p_sent]. rewrite Nat.min_r by lia.
      rewrite decide_False by lia. by rewrite Nat.sub_diag. }
    replace (Z.to_nat (Z.of_nat (p_channel p) - 1)) with (p_channel p - 1) in Hio by lia.
    destruct (p_channel p - 1) as [|k] eqn:Ek.
    + injection Hio as <-. exists p2, y1. split_and!; [done|done|done|done|]. cbn. lia.
    + destruct (alone_schedule_times m_config w k wk1 y1 p2 wk' Ha1 Hio) as (y' & p' & Hr & Ha' & Hm' & Hc & Hs).
      exists p', y'. split; [etrans; [exact Hr2|exact Hr]|]. split_and!; [done|done|by rewrite Hc|]. rewrite Hs. cbn. lia.
  - set (y0 := (stop_process w 0 p y).2).
    destruct (alone_stop m_config w 0 (n m_config) 0 wk y0 p ts) as (y' & Hr & Ha' & Hact); [exact Ha|lia|exact Hstop|].
    eexists _, y'. split.
    + eapply rtc_l; [exists CSignal; unfold main_step; cbn [fst snd]; rewrite Hm; reflexivity|exact Hr].
    + split_and!; [done|done|]. rewrite Hact. cbn. unfold deactivate. by rewrite decide_True.
Qed.

(** ** Witnesses *)

Lemma fleet_refines_system_witness :
  System.reachable Demo.now Demo.outcome FleetDemo.config Demo.types (mkMysql HLive 0)
    (f_system FleetDemo.signalled) /\ sys_active (f_system FleetDemo.signalled) 0 = false.
Proof.
  split; [|reflexivity].
  exact (proj1 (fleet_refines_system Demo.now Demo.outcome FleetDemo.config Demo.types 0
    Demo.demo_now_ok Demo.demo_types_ok FleetDemo.signalled FleetDemo.signalled FleetDemo.signalled_reachable
    (rtc_refl _ _))).
Defined.

Lemma wakeups_accounted_witness :
  exists p, f_procs FleetDemo.woken !! 0 = Some p /\ p_channel p = 2 /\
    p_sent p + p_channel p + unsent (p_main p) = 2 * p_wakes p + unread (p_main p).
Proof.
  eexists. split; [reflexivity|]. split; [reflexivity|].
  exact (proj1 (wakeups_accounted Demo.now Demo.outcome FleetDemo.config Demo.types 0 FleetDemo.woken 0 _
    FleetDemo.woken_reachable eq_refl)).
Defined.

Lemma process_never_stuck_witness :
  exists f', own_step Demo.now Demo.outcome FleetDemo.config Demo.types (mkMysql HLive 0) 0 FleetDemo.signalled f'.
Proof.
  exact (proj1 (process_never_stuck Demo.now Demo.outcome FleetDemo.config Demo.types 0
    Demo.demo_now_ok Demo.demo_types_ok FleetDemo.signalled 0
    (at_pc (MStop 0 0) (wake_process (mkProcess MWait 0 false 0 0))) FleetDemo.signalled_reachable eq_refl)).
Defined.

Lemma shutdown_terminates_witness :
  is_stopping 0 FleetDemo.signalled /\
  Acc (round Demo.now Demo.outcome FleetDemo.config Demo.types 0 0) FleetDemo.signalled.
Proof.
  assert (is_stopping 0 FleetDemo.signalled) as Hs by (eexists; split; [reflexivity|exact I]).
  split; [exact Hs|].
  exact (shutdown_terminates Demo.now Demo.outcome FleetDemo.config Demo.types 0 FleetDemo.signalled 0
    FleetDemo.signalled_reachable Hs).
Defined.

Lemma main_thread_follows_worker_witness :
  exists p' y', rtc (alone FleetDemo.config 0) (wake_process (mkProcess MWait 0 false 0 0), FleetDemo.system_0) (p', y') /\
    p_main p' = MWait /\ p_channel p' = 0 /\ p_sent p' = 2.
Proof.
  destruct (main_thread_follows_worker FleetDemo.config 0
    (mkWorker true (SLive <$> (t_local <$> FleetDemo.threads_of_0)) ∅ true true true true) _
    (wake_process (mkProcess MWait 0 false 0 0)) FleetDemo.system_0 _
    (conj eq_refl eq_refl) eq_refl ltac:(vm_compute; lia) eq_refl eq_refl)
    as [(p' & y' & Hr & _ & Hm & Hc & Hs) _].
  exists p', y'. split; [exact Hr|]. split; [exact Hm|]. split; [exact Hc|exact Hs].
Defined.
