(* ===== verification/Capture.v ===== *)
(** * Capture: reading a child's output (modules/run_job.cc, RunJob::execute)

    The child writes to two pipes of limited capacity while [execute] takes
    turns reading a line from each with a blocking [fgets].  The two are steps
    of one relation: a write waits while its pipe is full, a read waits while
    its pipe is empty and open.  Every schedule ends; it ends in the return of
    the loop when the child's output fits into the pipes, and in a deadlock
    when the child fills one pipe while the parent waits on the other. *)

From S2P Require Import Prelude CLib.
From Stdlib Require Import Ascii.

(** ** The state *)

(** The two streams of the child. *)
Inductive which := Out | Err.

#[export] Instance which_eq_dec : EqDecision which.
Proof. solve_decision. Defined.

(** What the processes that hold the write ends do, in order; at the end of
    the list they have exited. *)
Inductive child_act := CWrite (w : which) (c : ascii) | CClose (w : which).

(** One stream: the bytes in the pipe; whether a write end is open; of the
    [FILE], the bytes in its buffer and its two flags; and the [GString] the
    lines are appended to. *)
Record stream := mkStream {
  s_pipe : string;
  s_open : bool;
  f_buf : string;
  f_eof : bool;
  f_err : bool;
  s_acc : string;
}.

(** Where the parent is in the loop. *)
Inductive cpc :=
| PCheck (w : which)                            (** before the [if] of stream [w] *)
| PRead (w : which) (line : string) (room : nat) (** in [fgets]: [line] is read, [room] is left *)
| PTest                                         (** before the test of the loop *)
| PDone.                                        (** after the loop *)

Record capture := mkCapture {
  c_child : list child_act;
  c_out : stream;
  c_err : stream;
  c_pc : cpc;
}.

Definition get (w : which) (s : capture) : stream := match w with Out => c_out s | Err => c_err s end.

Definition set (w : which) (f : stream) (s : capture) : capture :=
  match w with
  | Out => mkCapture (c_child s) f (c_err s) (c_pc s)
  | Err => mkCapture (c_child s) (c_out s) f (c_pc s)
  end.

Definition goto (p : cpc) (s : capture) : capture := mkCapture (c_child s) (c_out s) (c_err s) p.

Definition new_stream : stream := mkStream "" true "" false false "".

(** After [fdopen], with the child still to run. *)
Definition start (child : list child_act) : capture := mkCapture child new_stream new_stream (PCheck Out).

(** [sizeof(buffer)]; [fgets] reads at most one character less. *)
Definition buffer_size : nat := 1024.
#[global] Arguments buffer_size : simpl never.

Definition live (f : stream) : bool := negb (f_err f) && negb (f_eof f).

(** What follows the [if] of a stream. *)
Definition next (w : which) : cpc := match w with Out => PCheck Err | Err => PTest end.

(** The end of [fgets]: a string, which is appended up to its first NUL, or
    NULL. *)
Definition append (line : string) (f : stream) : stream :=
  mkStream (s_pipe f) (s_open f) (f_buf f) (f_eof f) (f_err f) (s_acc f +:+ cstr line).
Definition set_eof (f : stream) : stream :=
  mkStream (s_pipe f) (s_open f) (f_buf f) true (f_err f) (s_acc f).
Definition set_err (f : stream) : stream :=
  mkStream (s_pipe f) (s_open f) (f_buf f) (f_eof f) true (s_acc f).

(** [fgets] takes one character out of the [FILE]'s buffer. *)
Definition take_char (w : which) (c : ascii) (rest line : string) (room : nat) (s : capture) : capture :=
  let f := get w s in
  let f' := mkStream (s_pipe f) (s_open f) rest (f_eof f) (f_err f) (s_acc f) in
  let line' := line +:+ String c "" in
  if decide (code c = 10%Z \/ room <= 1) then goto (next w) (set w (append line' f') s)
  else goto (PRead w line' (room - 1)) (set w f' s).

(** The child's next action, when it need not wait. *)
Definition child_write (w : which) (c : ascii) (f : stream) : stream :=
  mkStream (s_pipe f +:+ String c "") (s_open f) (f_buf f) (f_eof f) (f_err f) (s_acc f).
Definition close_end (f : stream) : stream :=
  mkStream (s_pipe f) false (f_buf f) (f_eof f) (f_err f) (s_acc f).
Definition set_child (acts : list child_act) (s : capture) : capture :=
  mkCapture acts (c_out s) (c_err s) (c_pc s).

(** ** Steps *)

Section Capture.
(** How many bytes a pipe and a [FILE]'s buffer hold, and whether a [read] may
    fail. *)
Context (capacity bufsize : nat) (io_error : Prop).

(** A step of the parent.  [read] moves any number of the waiting bytes that
    the buffer holds. *)
Inductive parent_step (s : capture) : capture -> Prop :=
| ps_check_live w :
    c_pc s = PCheck w -> live (get w s) = true -> parent_step s (goto (PRead w "" (buffer_size - 1)) s)
| ps_check_dead w :
    c_pc s = PCheck w -> live (get w s) = false -> parent_step s (goto (next w) s)
| ps_char w line room c rest :
    c_pc s = PRead w line room -> f_buf (get w s) = String c rest ->
    parent_step s (take_char w c rest line room s)
| ps_read w line room bytes rest :
    c_pc s = PRead w line room -> f_buf (get w s) = "" ->
    s_pipe (get w s) = bytes +:+ rest -> bytes ≠ "" -> String.length bytes <= bufsize ->
    parent_step s (set w (mkStream rest (s_open (get w s)) bytes (f_eof (get w s)) (f_err (get w s)) (s_acc (get w s))) s)
| ps_eof w line room :
    c_pc s = PRead w line room -> f_buf (get w s) = "" -> s_pipe (get w s) = "" -> s_open (get w s) = false ->
    parent_step s (goto (next w) (set w (append line (set_eof (get w s))) s))
| ps_error w line room :
    io_error -> c_pc s = PRead w line room -> f_buf (get w s) = "" ->
    parent_step s (goto (next w) (set w (set_err (get w s)) s))
| ps_again :
    c_pc s = PTest -> live (c_out s) || live (c_err s) = true -> parent_step s (goto (PCheck Out) s)
| ps_leave :
    c_pc s = PTest -> live (c_out s) || live (c_err s) = false -> parent_step s (goto PDone s).

(** A step of the child; a write to a stream it has closed fails at once. *)
Inductive child_step (s : capture) : capture -> Prop :=
| cs_write w c acts :
    c_child s = CWrite w c :: acts -> s_open (get w s) = true ->
    String.length (s_pipe (get w s)) < capacity ->
    child_step s (set_child acts (set w (child_write w c (get w s)) s))
| cs_closed w c acts :
    c_child s = CWrite w c :: acts -> s_open (get w s) = false -> child_step s (set_child acts s)
| cs_close w acts :
    c_child s = CClose w :: acts -> child_step s (set_child acts (set w (close_end (get w s)) s))
| cs_exit :
    c_child s = [] -> s_open (c_out s) || s_open (c_err s) = true ->
    child_step s (set Out (close_end (c_out s)) (set Err (close_end (c_err s)) s)).

Definition step (s s' : capture) : Prop := parent_step s s' \/ child_step s s'.

(** The loop has returned with what it collected. *)
Definition captures (child : list child_act) (out : string * string) : Prop :=
  exists s, rtc step (start child) s /\ c_pc s = PDone /\ out = (s_acc (c_out s), s_acc (c_err s)).

(** Neither can go on: the parent waits for one stream, the child for room in
    the other. *)
Definition deadlock (s : capture) : Prop :=
  exists w w' line room c acts,
    w ≠ w' /\ c_pc s = PRead w line room /\
    f_buf (get w s) = "" /\ s_pipe (get w s) = "" /\ s_open (get w s) = true /\
    c_child s = CWrite w' c :: acts /\ s_open (get w' s) = true /\
    capacity <= String.length (s_pipe (get w' s)).

(** What the child writes to a stream before it closes it. *)
Fixpoint written (w : which) (acts : list child_act) : string :=
  match acts with
  | [] => ""
  | CWrite w' c :: acts' => if decide (w' = w) then String c (written w acts') else written w acts'
  | CClose w' :: acts' => if decide (w' = w) then "" else written w acts'
  end.

(** ** Lemmas: access *)

Lemma get_set w w' f s : get w' (set w f s) = if decide (w = w') then f else get w' s.
Proof. by destruct w, w'. Qed.

Lemma get_goto w p s : get w (goto p s) = get w s.
Proof. by destruct w. Qed.

Lemma get_set_child w acts s : get w (set_child acts s) = get w s.
Proof. by destruct w. Qed.

Lemma pc_set w f s : c_pc (set w f s) = c_pc s.
Proof. by destruct w. Qed.

Lemma child_set w f s : c_child (set w f s) = c_child s.
Proof. by destruct w. Qed.

(** ** Lemmas: every schedule ends *)

(** What a stream, and a position of the parent, can still cost. *)
Definition stream_cost (f : stream) : nat :=
  9 * String.length (s_pipe f) + 8 * String.length (f_buf f) + 8 * Nat.b2n (live f) + Nat.b2n (s_open f).

Definition pc_cost (s : capture) : nat :=
  match c_pc s with
  | PCheck Out => 5
  | PRead Out _ _ => 4
  | PCheck Err => 3 + 6 * Nat.b2n (live (c_out s))
  | PRead Err _ _ => 2 + 6 * Nat.b2n (live (c_out s))
  | PTest => 1 + 6 * Nat.b2n (live (c_out s) || live (c_err s))
  | PDone => 0
  end.

Definition cost (s : capture) : nat :=
  10 * length (c_child s) + stream_cost (c_out s) + stream_cost (c_err s) + pc_cost s.

(** The cost of the liveness of two streams, for [lia]. *)
Ltac split_live :=
  repeat match goal with
  | |- context [Nat.b2n ?b] => destruct b; cbn [Nat.b2n orb andb negb] in *
  end.

Lemma step_cost s s' : step s s' -> cost s' < cost s.
Proof.
  intros [H|H]; destruct H; destruct s as [child [p o b e er a] [p' o' b' e' er' a'] pc]; cbn in *; subst;
    try (destruct w); cbn in *; subst; unfold take_char, cost, stream_cost, pc_cost, live in *; cbn in *;
    rewrite ?str_length_app; repeat case_decide; cbn in *; rewrite ?str_length_app; cbn;
    try (destruct bytes; [done|cbn in *]); repeat match goal with x : bool |- _ => destruct x; cbn in *; try done end;
    lia.
Qed.

Lemma step_acc s : Acc (fun x y => step y x) s.
Proof.
  induction s as [s IH] using (induction_ltof1 _ cost). constructor. intros s' Hs. apply IH. by apply step_cost.
Qed.

(** ** Lemmas: what can stop a schedule *)

Lemma str_nil_or (s : string) : s = "" \/ exists c t, s = String c t.
Proof. destruct s; eauto. Qed.

(** A state without a step is the end of the loop or a deadlock, whatever
    order the steps were taken in. *)
Lemma progress s :
  0 < capacity -> 0 < bufsize -> (exists s', step s s') \/ (c_pc s = PDone) \/ deadlock s.
Proof.
  intros Hcap Hbuf. destruct (c_pc s) as [w|w line room| |] eqn:Hpc.
  - left. destruct (live (get w s)) eqn:Hl; eexists; left; [by eapply ps_check_live|by eapply ps_check_dead].
  - destruct (str_nil_or (f_buf (get w s))) as [Hb|(c & t & Hb)]; [|left; eexists; left; by eapply ps_char].
    destruct (str_nil_or (s_pipe (get w s))) as [Hp|(c & t & Hp)].
    + destruct (s_open (get w s)) eqn:Ho; [|left; eexists; left; by eapply ps_eof].
      destruct (c_child s) as [|[w' c|w'] acts] eqn:Hc.
      * left. eexists. right. apply cs_exit; [done|]. destruct w; cbn in Ho; rewrite Ho; [done|by rewrite orb_true_r].
      * destruct (s_open (get w' s)) eqn:Ho'; [|left; eexists; right; by eapply cs_closed].
        destruct (decide (String.length (s_pipe (get w' s)) < capacity)) as [Hlt|Hge];
          [left; eexists; right; by eapply cs_write|].
        right; right. exists w, w', line, room, c, acts. split_and!; try done; [|lia].
        intros ->. rewrite Hp in Hge. simpl in Hge. lia.
      * left. eexists. right. by eapply cs_close.
    + left. eexists. left. eapply (ps_read s w line room (String c "") t); [done|done|by rewrite Hp|done|simpl; lia].
  - left. destruct (live (c_out s) || live (c_err s)) eqn:Hl; eexists; left; [by apply ps_again|by apply ps_leave].
  - by right; left.
Qed.

(** *** Output that fits *)

Definition room_left (s : capture) : Prop :=
  forall w, String.length (s_pipe (get w s)) + String.length (written w (c_child s)) <= capacity
    \/ s_open (get w s) = false.

Ltac step_cases H s :=
  destruct H; destruct s as [child [p o b e er a] [p' o' b' e' er' a'] pc]; cbn in *; subst;
  repeat match goal with x : which |- _ => destruct x end; cbn in *; subst.

Lemma step_room_left s s' : step s s' -> room_left s -> room_left s'.
Proof.
  intros [H|H] Hr w0; specialize (Hr w0); step_cases H s; unfold take_char; cbn in *;
    rewrite ?str_length_app in *; cbn in *; repeat case_decide; cbn in *;
    rewrite ?str_length_app in *; cbn in *; try done; first [lia|by right|destruct Hr; [left; lia|by right]].
Qed.

Lemma room_no_deadlock s : room_left s -> ~ deadlock s.
Proof.
  intros Hr (w & w' & line & room & c & acts & Hne & Hpc & Hb & Hp & Ho & Hc & Ho' & Hfull).
  destruct (Hr w') as [H|H]; [|congruence]. rewrite Hc in H. cbn [written] in H.
  rewrite decide_True in H by done. simpl in H. lia.
Qed.

Lemma steps_room_left s s' : rtc step s s' -> room_left s -> room_left s'.
Proof. induction 1 as [|s s1 s' Hs _ IH]; [done|]. intros. by apply IH, (step_room_left s). Qed.

(** *** What has been collected *)

(** The part of a line that [fgets] has already read. *)
Definition partial (w : which) (s : capture) : string :=
  match c_pc s with PRead w' line _ => if decide (w' = w) then line else "" | _ => "" end.

Definition to_come (w : which) (s : capture) : string :=
  if s_open (get w s) then written w (c_child s) else "".

(** Nothing of [all] is lost, as long as no read fails. *)
Definition intact (w : which) (all : string) (s : capture) : Prop :=
  f_err (get w s) = true \/
  (s_acc (get w s) +:+ partial w s +:+ f_buf (get w s) +:+ s_pipe (get w s) +:+ to_come w s = all /\
   (f_eof (get w s) = true -> partial w s = "" /\ f_buf (get w s) = "" /\ s_pipe (get w s) = "" /\
      s_open (get w s) = false)).

Lemma cstr_app a b : cstr (a +:+ b) = a +:+ b -> cstr a = a /\ cstr b = b.
Proof.
  induction a as [|c a IH]; [done|]. rewrite str_app_cons. simpl.
  destruct (code c =? 0)%Z; [done|]. intros [= H]. destruct (IH H) as [-> ->]. done.
Qed.

Lemma line_cstr a line x : cstr (a +:+ line +:+ x) = a +:+ line +:+ x -> cstr line = line.
Proof. intros [_ H]%cstr_app. by apply cstr_app in H as [-> _]. Qed.

Lemma line_char_cstr a line c rest x :
  cstr (a +:+ line +:+ String c rest +:+ x) = a +:+ line +:+ String c rest +:+ x ->
  cstr (line +:+ String c "") = line +:+ String c "".
Proof.
  change (String c rest) with (String c "" +:+ rest).
  rewrite (str_app_assoc _ rest), <-(str_app_assoc line). apply line_cstr.
Qed.

Lemma str_app_not_nil (a b : string) : a ≠ "" -> a +:+ b ≠ "".
Proof. by destruct a. Qed.

Lemma step_intact w0 all s s' : cstr all = all -> step s s' -> intact w0 all s -> intact w0 all s'.
Proof.
  intros Hc Hs [He|[Ha Hf]]; [left|].
  { destruct Hs as [H|H]; step_cases H s; unfold take_char; cbn in *; repeat case_decide; done. }
  unfold intact, partial, to_come in *.
  destruct Hs as [H|H]; step_cases H s; unfold take_char; cbn in *;
    repeat (case_decide; cbn in *; try congruence); try (left; done); right; try done;
    split;
    try (intros E; specialize (Hf E); destruct_and?; try discriminate;
         try (exfalso; by eapply str_app_not_nil); by split_and!);
    try first [rewrite (line_char_cstr _ _ _ _ _ Hc)|rewrite (line_cstr _ _ _ Hc)];
    repeat match goal with |- context [if ?b then _ else _] => destruct b end;
    cbn; by rewrite ?str_app_nil_l, ?str_app_nil_r, ?str_app_assoc, ?str_app_cons, ?str_app_nil_l, ?str_app_nil_r.
Qed.

Lemma steps_intact w all s s' : cstr all = all -> rtc step s s' -> intact w all s -> intact w all s'.
Proof. intros Hc. induction 1 as [|s s1 s' Hs _ IH]; [done|]. intros. by apply IH, (step_intact w all s). Qed.

(** Once the loop is left both streams are at their end. *)
Definition done_dead (s : capture) : Prop := c_pc s = PDone -> live (c_out s) || live (c_err s) = false.

Lemma step_done_dead s s' : step s s' -> done_dead s -> done_dead s'.
Proof.
  unfold done_dead. intros [H|H] Hd; step_cases H s; unfold take_char; cbn in *; repeat case_decide; done.
Qed.

Lemma steps_done_dead s s' : rtc step s s' -> done_dead s -> done_dead s'.
Proof. induction 1 as [|s s1 s' Hs _ IH]; [done|]. intros. by apply IH, (step_done_dead s). Qed.

Lemma done_collected child s w :
  rtc step (start child) s -> c_pc s = PDone -> f_err (get w s) = false ->
  cstr (written w child) = written w child -> s_acc (get w s) = written w child.
Proof.
  intros Hr Hd He Hc.
  destruct (steps_intact w (written w child) _ _ Hc Hr) as [?|[Ha Hf]]; [|congruence|].
  { right. unfold partial, to_come. cbn. destruct w; by rewrite !str_app_nil_l. }
  assert (live (get w s) = false) as Hl.
  { pose proof (steps_done_dead _ _ Hr ltac:(done) Hd) as H. apply orb_false_iff in H as [? ?]. by destruct w. }
  unfold live in Hl. rewrite He in Hl. cbn in Hl. apply negb_false_iff in Hl.
  destruct (Hf Hl) as (Hp & Hb & Hpi & Ho). unfold to_come in Ha. rewrite Hp, Hb, Hpi, Ho in Ha.
  by rewrite !str_app_nil_r in Ha.
Qed.

Lemma start_room_left child :
  (forall w, String.length (written w child) <= capacity) -> room_left (start child).
Proof. intros Hf w. left. specialize (Hf w). by destruct w. Qed.

(** *** Output that does not *)

(** The child starts with more on the error stream than its pipe holds, and
    the parent never gets past its first [fgets]. *)
Definition stuck_on_out (n : nat) (rest : list child_act) (s : capture) : Prop :=
  (c_pc s = PCheck Out \/ c_pc s = PRead Out "" (buffer_size - 1)) /\ c_out s = new_stream /\
  s_open (c_err s) = true /\ String.length (s_pipe (c_err s)) <= capacity /\
  exists k, c_child s = map (CWrite Err) k ++ rest /\ String.length (s_pipe (c_err s)) + length k = n.

Lemma step_stuck_on_out n rest s s' :
  ~ io_error -> capacity < n -> step s s' -> stuck_on_out n rest s -> stuck_on_out n rest s'.
Proof.
  unfold stuck_on_out, new_stream. intros Hio Hn Hs (Hpc & Ho & Hopen & Hcap & k & Hc & Hk).
  destruct k as [|c0 k]; [simpl in Hk; lia|].
  destruct Hs as [H|H]; step_cases H s; destruct Hpc; try congruence; simplify_eq/=; try done.
  - split_and!; try done; [by right|by exists (c0 :: k)].
  - exfalso. by eapply str_app_not_nil.
  - split_and!; try done; [by left|rewrite str_length_app; simpl; lia|].
    exists k. split; [done|]. rewrite str_length_app. simpl. lia.
  - split_and!; try done; [by right|rewrite str_length_app; simpl; lia|].
    exists k. split; [done|]. rewrite str_length_app. simpl. lia.
Qed.

(** The child starts with more on the output stream than its pipe, the
    buffer and one line hold, and the parent waits for its errors. *)
Definition stuck_on_err (n : nat) (rest : list child_act) (s : capture) : Prop :=
  c_err s = new_stream /\ s_open (c_out s) = true /\ f_eof (c_out s) = false /\ f_err (c_out s) = false /\
  String.length (s_pipe (c_out s)) <= capacity /\ String.length (f_buf (c_out s)) <= bufsize /\
  exists k, c_child s = map (CWrite Out) k ++ rest /\
    let waiting := String.length (s_pipe (c_out s)) + String.length (f_buf (c_out s)) + length k in
    match c_pc s with
    | PCheck Out => n <= waiting
    | PRead Out line room => n <= waiting + String.length line /\ String.length line + room < buffer_size /\ 0 < room
    | PCheck Err => n < waiting + buffer_size
    | PRead Err line _ => n < waiting + buffer_size
    | _ => False
    end.

Lemma step_stuck_on_err n rest s s' :
  ~ io_error -> capacity + bufsize + buffer_size <= n -> step s s' -> stuck_on_err n rest s -> stuck_on_err n rest s'.
Proof.
  unfold stuck_on_err, new_stream. intros Hio Hn Hs (He & Hopen & Heof & Herr & Hcap & Hbuf & k & Hc & Hk).
  assert (2 < buffer_size) as Hsize by (unfold buffer_size; lia).
  destruct k as [|c0 k]; [exfalso; destruct (c_pc s) as [[]|[]| |]; cbn in Hk; try done; lia|].
  destruct Hs as [H|H]; step_cases H s; unfold take_char; simplify_eq/=; try done.
  all: try (exfalso; by eapply str_app_not_nil).
  all: repeat case_decide; cbn in *; rewrite ?str_length_app in *; cbn in *; split_and!; try done; try lia.
  all: first [exists k; split; [done|]|exists (c0 :: k); split; [done|]].
  all: rewrite ?str_length_app; cbn [String.length length].
  all: try (destruct pc as [[]|[]| |]; try done).
  all: try lia.
  all: unfold buffer_size in *; lia.
Qed.

(** Output that makes the loop hang: at the start of its life the child writes
    more on one stream than can be held for the parent. *)
Definition overflows (child : list child_act) : Prop :=
  exists t rest,
    (child = map (CWrite Err) t ++ rest /\ capacity < length t) \/
    (child = map (CWrite Out) t ++ rest /\ capacity + bufsize + buffer_size <= length t).

Lemma overflow_never_done child s :
  ~ io_error -> overflows child -> rtc step (start child) s -> c_pc s ≠ PDone.
Proof.
  intros Hio (t & rest & [[-> Ht]|[-> Ht]]) Hr.
  - assert (stuck_on_out (length t) rest s) as (Hpc & _); [|by destruct Hpc as [-> | ->]].
    assert (stuck_on_out (length t) rest (start (map (CWrite Err) t ++ rest))) as H0.
    { split_and!; try done; [by left|simpl; lia|by exists t]. }
    revert H0. induction Hr as [|s s1 s' Hs _ IH]; [done|]. intros. by apply IH, (step_stuck_on_out _ _ s).
  - assert (stuck_on_err (length t) rest s) as (_&_&_&_&_&_&k&_&Hk); [|intros E; by rewrite E in Hk].
    assert (stuck_on_err (length t) rest (start (map (CWrite Out) t ++ rest))) as H0.
    { split_and!; try done; [simpl; lia..|]. exists t. split; [done|]. simpl. lia. }
    revert H0. induction Hr as [|s s1 s' Hs _ IH]; [done|]. intros. by apply IH, (step_stuck_on_err _ _ s).
Qed.

(** Every schedule can be continued to its end. *)
Lemma reaches_end s :
  0 < capacity -> 0 < bufsize -> exists s', rtc step s s' /\ (c_pc s' = PDone \/ deadlock s').
Proof.
  intros Hc Hb. induction (step_acc s) as [s _ IH].
  destruct (progress s Hc Hb) as [(s1 & Hs)|H]; [|by exists s].
  destruct (IH s1 Hs) as (s' & Hr & H). exists s'. split; [by eapply rtc_l|done].
Qed.

Definition fits (child : list child_act) : Prop := forall w, String.length (written w child) <= capacity.

Lemma fits_captures child :
  0 < capacity -> 0 < bufsize -> fits child -> exists out, captures child out.
Proof.
  intros Hc Hb Hf. destruct (reaches_end (start child) Hc Hb) as (s & Hr & [Hd|Hd]); [by eexists _, s|].
  exfalso. eapply room_no_deadlock; [|exact Hd]. eapply steps_room_left; [exact Hr|]. by apply start_room_left.
Qed.

Lemma overflow_not_captured child out : ~ io_error -> overflows child -> ~ captures child out.
Proof. intros Hio Ho (s & Hr & Hd & _). by eapply overflow_never_done. Qed.

Definition no_error (s : capture) : Prop := f_err (c_out s) = false /\ f_err (c_err s) = false.

Lemma steps_no_error s s' : ~ io_error -> rtc step s s' -> no_error s -> no_error s'.
Proof.
  intros Hio. induction 1 as [|s s1 s' [H|H] _ IH]; [done| |]; intros [H1 H2]; apply IH; unfold no_error;
    step_cases H s; unfold take_char; cbn in *; repeat case_decide; done.
Qed.

Lemma captures_exact child out :
  ~ io_error -> captures child out ->
  cstr (written Out child) = written Out child -> cstr (written Err child) = written Err child ->
  out = (written Out child, written Err child).
Proof.
  intros Hio (s & Hr & Hd & ->) Ho He.
  destruct (steps_no_error _ _ Hio Hr) as [H1 H2]; [done|].
  f_equal; [by apply (done_collected child s Out)|by apply (done_collected child s Err)].
Qed.
End Capture.

(** ** Properties *)

(** C28: the output loop.  Whatever the child writes and however its steps and
    the parent's are interleaved, every schedule is finite, and one that
    cannot be continued has left the loop or is a deadlock.  When what the
    child writes to each stream fits into its pipe there is no deadlock, so
    the loop always ends.  Once it has ended, a stream on which no read failed
    was collected exactly as the child wrote it, across line and buffer
    boundaries, if it holds no NUL byte. *)
Theorem capture_complete capacity bufsize io_error child s :
  0 < capacity -> 0 < bufsize -> rtc (step capacity bufsize io_error) (start child) s ->
  Acc (fun x y => step capacity bufsize io_error y x) s /\
  ((exists s', step capacity bufsize io_error s s') \/ c_pc s = PDone \/ deadlock capacity s) /\
  (fits capacity child -> ~ deadlock capacity s) /\
  (c_pc s = PDone -> forall w, f_err (get w s) = false -> cstr (written w child) = written w child ->
     s_acc (get w s) = written w child).
Proof.
  intros Hc Hb Hr. split_and!.
  - apply step_acc.
  - by apply progress.
  - intros Hf. eapply room_no_deadlock, steps_room_left; [exact Hr|]. by apply start_room_left.
  - intros Hd w He Hw. by eapply done_collected.
Qed.

(** C29: the output loop hangs.  A child that first writes more to its error
    stream than the pipe holds, or more to its output stream than the pipe,
    the [FILE]'s buffer and one line hold, deadlocks with the parent under
    every schedule, unless a read fails: the loop is never left, and every
    schedule, which is finite, can be continued to a deadlock. *)
Theorem capture_deadlocks capacity bufsize child s :
  0 < capacity -> 0 < bufsize -> overflows capacity bufsize child ->
  rtc (step capacity bufsize False) (start child) s ->
  c_pc s ≠ PDone /\
  Acc (fun x y => step capacity bufsize False y x) s /\
  exists s', rtc (step capacity bufsize False) s s' /\ deadlock capacity s'.
Proof.
  intros Hc Hb Ho Hr. split_and!.
  - apply (overflow_never_done capacity bufsize False child s); [tauto|done..].
  - apply step_acc.
  - destruct (reaches_end capacity bufsize False s Hc Hb) as (s' & Hr' & [Hd|Hd]); [|by exists s'].
    exfalso. eapply (overflow_never_done capacity bufsize False child s'); [tauto|exact Ho| |exact Hd].
    by etrans.
Qed.

(** ** Witnesses *)

Module CaptureDemo.
(** A child that prints two characters. *)
Definition child : list child_act := [CWrite Out "o"; CWrite Out "k"]%char.

(** One whose diagnostics do not fit a pipe of two bytes. *)
Definition noisy : list child_act := map (CWrite Err) ["b"; "a"; "d"]%char ++ [CWrite Out "x"]%char.
End CaptureDemo.

Lemma capture_complete_witness :
  ~ deadlock 2 (start CaptureDemo.child) /\
  exists s', step 2 8 False (start CaptureDemo.child) s'.
Proof.
  destruct (capture_complete 2 8 False CaptureDemo.child (start CaptureDemo.child)) as (_ & Hp & Hd & _);
    [lia|lia|apply rtc_refl|].
  split; [apply Hd; intros []; vm_compute; lia|].
  destruct Hp as [Hp|[Hp|Hp]]; [exact Hp|discriminate|].
  exfalso. revert Hp. apply Hd. intros []; vm_compute; lia.
Defined.

Lemma capture_deadlocks_witness :
  exists s', rtc (step 2 8 False) (start CaptureDemo.noisy) s' /\ deadlock 2 s'.
Proof.
  apply (capture_deadlocks 2 8 CaptureDemo.noisy (start CaptureDemo.noisy)); [lia|lia| |apply rtc_refl].
  exists ["b"; "a"; "d"]%char, [CWrite Out "x"]%char. left. split; [reflexivity|simpl; lia].
Defined.
