(* ===== verification/RunJob.v ===== *)
(** * RunJob: the run_job module (modules/run_job.h, modules/run_job.cc)

    A run_job takes a command line from its record, runs it in a child
    process, collects what the child prints and succeeds when the child exits
    with status 0.  The JSON library, the shell parser and the answers of the
    system calls are arguments; the output loop is the step relation of
    Capture.v. *)

From S2P Require Import Prelude CLib GObject Records Job Capture.
From Stdlib Require Import Ascii.

(** ** The data object *)

(** [struct RunData]: the command, NULL or a string. *)
Record RunData := mkRunData { command : option string }.

Definition RUN_COMMAND : Z := 1.

(** [None]: the value is not a string. *)
Definition run_data_set_property (property_id : Z) (value : GValue) (self : RunData) : option RunData :=
  if decide (property_id = RUN_COMMAND) then
    s ← g_value_dup_string value; Some (mkRunData s)
  else Some self.

Definition run_data_get_property (property_id : Z) (value : GValue) (self : RunData) : option GValue :=
  if decide (property_id = RUN_COMMAND) then g_value_set_string value (command self)
  else Some value.

Definition run_data_class_init : list (Z * GParamSpec) :=
  [(RUN_COMMAND, mkSpec "command" "path to executable command" "Path to executable command" (ParamString ""))].

#[export] Instance run_data_class : GObjectClass RunData := {|
  class_init := run_data_class_init;
  set_property := run_data_set_property;
  get_property := run_data_get_property;
|}.

#[export] Instance run_data_laws : GObjectLaws RunData.
Proof. class_laws run_data_class run_data_class_init run_data_set_property run_data_get_property. Qed.

(** ** The job *)

(** [m_data], which the constructor does not set. *)
Inductive data_slot := Unset | NullData | HasData (d : RunData).

Record RunJob := mkRunJob { job : Job; m_data : data_slot }.

Definition new_RunJob (id : Z) (name : string) (record : MyRow) : RunJob :=
  mkRunJob (new_Job id name record) Unset.

(** [creator] *)
Definition creator (id : Z) (name : string) (record : MyRow) : option Job :=
  Some (job (new_RunJob id name record)).

(** The module's [initialize] and [finalize]. *)
Definition initialize (runpath : string) : bool := true.
Definition finalize : unit := tt.

(** [~RunJob]: an unset pointer is tested and then unreferenced. *)
Definition destroy_RunJob (j : RunJob) : res unit :=
  match m_data j with Unset => Undef | _ => Val tt end.

Section LoadData.
(** [json_construct_gobject]: the object, or NULL; and whether [error] is set. *)
Context (json_construct : string -> option RunData * bool).

Definition load_data (j : RunJob) : bool * RunJob :=
  match str_field (m_record (job j)) "data" with
  | Some data =>
    if decide (data = "") then (false, j)
    else
      let '(obj, error) := json_construct data in
      let j' := mkRunJob (job j) (match obj with Some d => HasData d | None => NullData end) in
      (negb error, j')
  | None => (false, j)
  end.
End LoadData.

(** ** [execute] *)

(** What the system answers. *)
Record env := mkEnv {
  shell_parse_argv : string -> option (list string);
  pipe_out : option (Z * Z);
  pipe_err : option (Z * Z);
  fork_ret : Z;                (** in the parent: -1 or the child's pid *)
  fdopen_ok : bool;
  wait_status : option Z;      (** [None]: [waitpid] fails *)
}.

(** What the job did: the descriptors it closed, in order, the command line it
    ran and the output it collected. *)
Record effects := mkEffects {
  closed : list Z;
  argv : option (list string);
  collected : option (string * string);
}.

Definition no_effects : effects := mkEffects [] None None.

(** The environment of the child. *)
Definition child_env (home : string) (job_id : Z) : list string :=
  [format "HOME=%s" [AStr home]; format "JOBID=%d" [AInt job_id]].

(** [out]: what the output loop, where it is reached, leaves in [std_out] and
    [std_err]. *)
Definition execute (e : env) (out : string * string) (j : RunJob) : res (Z * effects) :=
  match m_data j with
  | Unset => Undef
  | NullData => Val (0%Z, no_effects)
  | HasData d =>
    match command d with
    | None => Val (0%Z, no_effects)
    | Some cmd =>
      match shell_parse_argv e cmd with
      | None => Val (0%Z, no_effects)
      | Some command_argv =>
        match pipe_out e with
        | None => Val (0%Z, no_effects)
        | Some (o0, o1) =>
          match pipe_err e with
          | None => Val (0%Z, mkEffects [o0; o1] None None)
          | Some (e0, e1) =>
            if decide (fork_ret e = -1)%Z then Val (0%Z, mkEffects [o0; o1; e0; e1] None None)
            else if fdopen_ok e then
              (* fclose of both streams, then close of the same descriptors *)
              let status := default 0%Z (wait_status e) in
              Val (if decide (status = 0%Z) then 1%Z else 0%Z,
                   mkEffects [o1; e1; o0; e0; o0; e0] (Some command_argv) (Some out))
            else Undef
          end
        end
      end
    end
  end.

(** The job as a worker thread runs it. *)
Definition run_job (json_construct : string -> option RunData * bool) (e : env) (out : string * string) (j : RunJob) :
    res (Z * (RunJob * effects)) :=
  real_execute
    (fun s : RunJob * effects => let '(ok, j') := load_data json_construct (fst s) in Val (ok, (j', snd s)))
    (fun s => '(r, eff) ← execute e out (fst s); Val (r, (fst s, eff)))
    (j, no_effects).

Section Returns.
Context (capacity bufsize : nat) (io_error : Prop).

(** [execute] can return [z] while the child does [child]: where it collects
    output, some schedule of the two processes leaves the loop with it. *)
Definition returns (e : env) (child : list child_act) (j : RunJob) (z : Z) (eff : effects) : Prop :=
  exists out, execute e out j = Val (z, eff) /\
    (collected eff ≠ None -> captures capacity bufsize io_error child out).
End Returns.

(** ** Properties *)

(** What [execute] returns and closes, and whether it runs the command, case
    by case. *)
Definition execute_spec (e : env) (cmd : option string) : Z * list Z * bool :=
  match cmd ≫= shell_parse_argv e, pipe_out e, pipe_err e with
  | None, _, _ => (0%Z, [], false)
  | _, None, _ => (0%Z, [], false)
  | _, Some (o0, o1), None => (0%Z, [o0; o1], false)
  | _, Some (o0, o1), Some (e0, e1) =>
    if decide (fork_ret e = -1)%Z then (0%Z, [o0; o1; e0; e1], false)
    else (if decide (wait_status e = None \/ wait_status e = Some 0%Z) then 1%Z else 0%Z,
          [o1; e1; o0; e0; o0; e0], true)
  end.

Lemma execute_follows_spec e out j d :
  m_data j = HasData d -> fdopen_ok e = true ->
  exists eff, execute e out j = Val (fst (fst (execute_spec e (command d))), eff) /\
    closed eff = snd (fst (execute_spec e (command d))) /\
    collected eff = if snd (execute_spec e (command d)) then Some out else None.
Proof.
  intros Hd Hfd. unfold execute, execute_spec. rewrite Hd, Hfd.
  destruct (command d) as [cmd|]; cbn [mbind option_bind]; [|eexists; repeat split].
  destruct (shell_parse_argv e cmd) as [av|]; [|eexists; repeat split].
  destruct (pipe_out e) as [[o0 o1]|]; [|eexists; repeat split].
  destruct (pipe_err e) as [[e0 e1]|]; [|eexists; repeat split].
  case_decide; [eexists; repeat split|].
  exists (mkEffects [o1; e1; o0; e0; o0; e0] (Some av) (Some out)). split; [|by split]. cbn [fst]. do 2 f_equal.
  destruct (wait_status e) as [z|]; simpl; [|first [done|by rewrite decide_True by auto]].
  destruct (decide (z = 0%Z)) as [->|Hz]; [by rewrite decide_True by auto|].
  rewrite decide_False; [done|]. by intros [?|[= ?]].
Qed.

(** C30: the outcome of a job whose command is loaded and whose pipes [fdopen]
    accepts.  Whatever [execute] returns: failure, with every pipe it made
    closed again and no output, when the command is missing or cannot be
    parsed, or a pipe or the fork fails; otherwise success exactly when the
    child's status is 0 or [waitpid] fails, having closed both read ends twice
    and, if no read failed, collected what the child wrote, as far as it has no
    NUL byte.  It can return when it starts no child, or when the child's output
    fits the pipes; it never returns when the child writes first more to one
    stream than can be held for it. *)
Theorem execute_outcome capacity bufsize io_error e child j d :
  0 < capacity -> 0 < bufsize -> m_data j = HasData d -> fdopen_ok e = true ->
  let '(r, fds, spawned) := execute_spec e (command d) in
  (forall z eff, returns capacity bufsize io_error e child j z eff ->
     z = r /\ closed eff = fds /\ (collected eff = None <-> spawned = false) /\
     (spawned = true -> ~ io_error -> (forall w, cstr (written w child) = written w child) ->
        collected eff = Some (written Out child, written Err child))) /\
  (spawned = false \/ fits capacity child ->
     exists z eff, returns capacity bufsize io_error e child j z eff) /\
  (spawned = true -> ~ io_error -> overflows capacity bufsize child ->
     forall z eff, ~ returns capacity bufsize io_error e child j z eff).
Proof.
  intros Hc Hb Hd Hfd.
  pose proof (fun out => execute_follows_spec e out j d Hd Hfd) as Hspec.
  destruct (execute_spec e (command d)) as [[r fds] spawned]. cbn [fst snd] in Hspec. split_and!.
  - intros z eff (out & He & Hcap). destruct (Hspec out) as (eff' & He' & Hcl & Hco).
    rewrite He in He'. injection He' as <- <-. split_and!; try done; [by rewrite Hco; destruct spawned|].
    intros -> Hio Hnul. rewrite Hco. f_equal. eapply captures_exact; [done| |done..].
    apply Hcap. by rewrite Hco.
  - intros [->|Hf].
    + destruct (Hspec ("", "")) as (eff & He & _ & Hco). exists r, eff, ("", ""). by rewrite Hco.
    + destruct (fits_captures capacity bufsize io_error child Hc Hb Hf) as [out Hout].
      destruct (Hspec out) as (eff & He & _ & _). by exists r, eff, out.
  - intros -> Hio Ho z eff (out & He & Hcap). destruct (Hspec out) as (eff' & He' & _ & Hco).
    rewrite He in He'. injection He' as <- <-.
    eapply overflow_not_captured; [done|exact Ho|]. apply Hcap. by rewrite Hco.
Qed.

(** C31: a run_job without data.  When the data column is missing or empty the
    job fails before it runs anything, and deleting it then uses a pointer
    that was never set; with any other data the pointer is set. *)
Theorem run_job_without_data json e out id name record :
  let j := new_RunJob id name record in
  match str_field record "data" with
  | None | Some EmptyString =>
      run_job json e out j = Val (0%Z, (j, no_effects)) /\ destroy_RunJob j = Undef
  | Some data => destroy_RunJob (snd (load_data json j)) = Val tt
  end.
Proof.
  intros j. unfold run_job, real_execute, load_data. cbn [fst snd job m_record new_RunJob new_Job j].
  destruct (str_field record "data") as [[|c s]|]; [done| |done].
  rewrite decide_False by done. destruct (json _) as [[d|] b]; done.
Qed.

(** However often the command is set, the job runs the last one. *)
Lemma run_data_last_command ws cmd d :
  well_typed (T:=RunData) ws -> last_write RUN_COMMAND ws = Some (GString cmd) ->
  exists d', set_properties ws d = Some d' /\ command d' = cmd.
Proof.
  intros Hw Hl.
  destruct (g_object_get_writes ws d "command" _ _ Hw eq_refl) as (d' & Hd & Hg).
  exists d'. split; [done|]. rewrite Hl in Hg. by injection Hg as <-.
Qed.

(** The module's creator keeps the id, as the scheduling results assume. *)
Lemma creator_keeps_id z n row j : creator z n row = Some j -> Job.id j = z.
Proof. by intros [= <-]. Qed.

(** ** Witnesses *)

Module Example.
Definition the_env : env :=
  mkEnv (fun s => Some [s]) (Some (4, 5)%Z) (Some (6, 7)%Z) 99 true (Some 0%Z).
Definition the_job : RunJob :=
  mkRunJob (new_Job 7 "run" ∅) (HasData (mkRunData (Some "/bin/true"))).
End Example.

(** A child that prints two characters is run; one with five bytes of
    diagnostics on a pipe of four is waited for forever. *)
Lemma execute_outcome_witness :
  (exists z eff, returns 4 8 False Example.the_env [CWrite Out "o"; CWrite Err "k"]%char Example.the_job z eff) /\
  forall z eff, ~ returns 4 8 False Example.the_env (map (CWrite Err) ["a"; "b"; "c"; "d"; "e"]%char) Example.the_job z eff.
Proof.
  pose proof (fun child => execute_outcome 4 8 False Example.the_env child Example.the_job
                (mkRunData (Some "/bin/true")) ltac:(lia) ltac:(lia) eq_refl eq_refl) as H.
  split.
  - apply (H [CWrite Out "o"; CWrite Err "k"]%char). right. intros []; vm_compute; lia.
  - apply (H (map (CWrite Err) ["a"; "b"; "c"; "d"; "e"]%char)); [reflexivity|tauto|].
    exists ["a"; "b"; "c"; "d"; "e"]%char, []. left. split; [reflexivity|vm_compute; lia].
Defined.
