(* ===== verification/Pdf.v ===== *)
(** * Pdf: the pdf_preview_job module (modules/pdf_preview_job.h, .cc)

    A job module whose data object and life cycle are written, and whose
    [execute], [load_data] and [generate_preview] are declared in the header
    and defined in no file of the repository, so they have no model. *)

From S2P Require Import Prelude CLib GObject Records Job.

(** ** The data object *)

(** [struct PdfData]: two file names, NULL or strings. *)
Record PdfData := mkPdfData { original_filename : option string; modified_filename : option string }.

Definition PDF_ORIGINAL_FILENAME : Z := 1.
Definition PDF_MODIFIED_FILENAME : Z := 2.

(** The instance memory is zeroed and [pdf_data_init] does nothing. *)
Definition pdf_data_init : PdfData := mkPdfData None None.

(** [None]: the value is not a string. *)
Definition pdf_data_set_property (property_id : Z) (value : GValue) (self : PdfData) : option PdfData :=
  if decide (property_id = PDF_ORIGINAL_FILENAME) then
    s ← g_value_dup_string value; Some (mkPdfData s (modified_filename self))
  else if decide (property_id = PDF_MODIFIED_FILENAME) then
    s ← g_value_dup_string value; Some (mkPdfData (original_filename self) s)
  else Some self.

Definition pdf_data_get_property (property_id : Z) (value : GValue) (self : PdfData) : option GValue :=
  if decide (property_id = PDF_ORIGINAL_FILENAME) then g_value_set_string value (original_filename self)
  else if decide (property_id = PDF_MODIFIED_FILENAME) then g_value_set_string value (modified_filename self)
  else Some value.

Definition pdf_data_class_init : list (Z * GParamSpec) :=
  [(PDF_ORIGINAL_FILENAME,
    mkSpec "original_filename" "path to original pdf" "Path to original pdf" (ParamString ""));
   (PDF_MODIFIED_FILENAME,
    mkSpec "modified_filename" "path to modified thumb" "Path to modified thumb" (ParamString ""))].

#[export] Instance pdf_data_class : GObjectClass PdfData := {|
  class_init := pdf_data_class_init;
  set_property := pdf_data_set_property;
  get_property := pdf_data_get_property;
|}.

#[export] Instance pdf_data_laws : GObjectLaws PdfData.
Proof. class_laws pdf_data_class pdf_data_class_init pdf_data_set_property pdf_data_get_property. Qed.

(** ** The job *)

(** [m_data] is NULL until data is loaded. *)
Record PdfPreviewJob := mkPdfJob { job : Job; m_data : option PdfData }.

Definition new_PdfPreviewJob (id : Z) (name : string) (record : MyRow) : PdfPreviewJob :=
  mkPdfJob (new_Job id name record) None.

(** [~PdfPreviewJob]: the data objects whose reference it drops. *)
Definition destroy_PdfPreviewJob (j : PdfPreviewJob) : list PdfData :=
  match m_data j with Some d => [d] | None => [] end.

(** The module's exported symbols. *)
Definition creator (id : Z) (name : string) (record : MyRow) : option Job :=
  Some (job (new_PdfPreviewJob id name record)).
Definition initialize (runpath : string) : bool := true.
Definition finalize : unit := tt.

(** ** Properties *)

(** The creator always makes a job, with the id and the name it was given;
    deleting that job drops no reference. *)
Lemma pdf_creator_destroy z n row :
  (exists j, creator z n row = Some j /\ Job.id j = z /\ Job.name j = cstr n) /\
  destroy_PdfPreviewJob (new_PdfPreviewJob z n row) = [].
Proof. split; [|done]. eexists; split_and!; done. Qed.

(** However often and in whatever order both names are written, each reads as
    the last one written to it. *)
Lemma pdf_data_last_writes ws original modified :
  well_typed (T:=PdfData) ws ->
  last_write PDF_ORIGINAL_FILENAME ws = Some (GString original) ->
  last_write PDF_MODIFIED_FILENAME ws = Some (GString modified) ->
  set_properties ws pdf_data_init = Some (mkPdfData original modified).
Proof.
  intros Hw Ho Hm.
  destruct (g_object_get_writes ws pdf_data_init "original_filename" _ _ Hw eq_refl) as (d & Hd & Hg).
  destruct (g_object_get_writes ws pdf_data_init "modified_filename" _ _ Hw eq_refl) as (d' & Hd' & Hg').
  rewrite Hd in Hd'. injection Hd' as <-. rewrite Ho in Hg. rewrite Hm in Hg'. rewrite Hd.
  destruct d as [o m]. injection Hg as ->. by injection Hg' as ->.
Qed.
