(* ===== verification/PString.v ===== *)
(** * PString: the string wrapper (workq/pstring.h, workq/pstring.cc)

    A PString owns one GString, that is a sequence of bytes that may contain
    NUL; assignment and concatenation go through GLib's string functions, of
    which some stop at a NUL and some do not. *)

From S2P Require Import Prelude CLib.

(** The bytes of [m_string], [len] of them. *)
Record PString := mkPString { m_string : string }.

Definition PString_empty : PString := mkPString "".
Definition PString_of_cstr (str : string) : PString := mkPString (cstr str).

(** A negative size means up to the NUL. *)
Definition PString_of_len (str : string) (size : Z) : PString :=
  mkPString (if decide (size < 0)%Z then cstr str else str_take (Z.to_nat size) str).

(** [operator=]: [g_string_assign] takes a C string. *)
Definition assign (self str : PString) : PString := mkPString (cstr (m_string str)).

(** The copy constructor. *)
Definition copy (str : PString) : PString := assign PString_empty str.

(** [operator+=]: [g_string_append_len]. *)
Definition append (self str : PString) : PString := mkPString (m_string self +:+ m_string str).

(** [operator+] *)
Definition plus (str1 str2 : PString) : PString := append (copy str1) str2.

(** [operator==] on two PStrings, and with a C string. *)
Definition equal (str1 str2 : PString) : bool := streq (m_string str1) (m_string str2).
Definition equal_cstr (str1 : PString) (str2 : string) : bool := streq (cstr (m_string str1)) (cstr str2).
Definition not_equal (str1 str2 : PString) : bool := negb (equal str1 str2).

Lemma cstr_idem s : cstr (cstr s) = cstr s.
Proof.
  induction s as [|c s IH]; [done|]. simpl. destruct (code c =? 0)%Z eqn:E; [done|]. simpl. by rewrite E, IH.
Qed.

(** C38: a copy equals its original exactly when the original holds no NUL
    byte; as C strings the two are always equal.  Concatenation cuts its left
    operand at a NUL but not its right one. *)
Theorem pstring_copy a b :
  (equal (copy a) a = true <-> cstr (m_string a) = m_string a) /\
  equal_cstr (copy a) (m_string a) = true /\
  m_string (plus a b) = cstr (m_string a) +:+ m_string b /\
  not_equal (copy (copy a)) (copy a) = false.
Proof.
  unfold equal, equal_cstr, not_equal, copy, plus, append, assign, streq; simpl. rewrite !bool_decide_eq_true.
  split_and!; [done|by rewrite cstr_idem|done|]. unfold equal, streq; simpl. by rewrite cstr_idem, bool_decide_true.
Qed.
