(* ===== verification/Daemon.v ===== *)
(** * Daemon: the program around the server (workqd.cc, workq/util.cc)

    [main] from its arguments to its exit, with the command line
    ([cli_setup]), the transition to the background ([daemonize]) and the log
    handler ([workq_log]), around the server of Server.v.  Option parsing,
    files and the answers of the system are arguments; what the program does
    to files and processes is recorded. *)

From S2P Require Import Prelude CLib Settings Effects Adaptor JobTable Channel RefServer Server.
From Stdlib Require Import Ascii.

(** ** The log handler *)

Definition G_LOG_FLAG_RECURSION : Z := 1.
Definition G_LOG_FLAG_FATAL : Z := 2.
Definition G_LOG_LEVEL_ERROR : Z := 4.
Definition G_LOG_LEVEL_CRITICAL : Z := 8.
Definition G_LOG_LEVEL_WARNING : Z := 16.
Definition G_LOG_LEVEL_MESSAGE : Z := 32.
Definition G_LOG_LEVEL_INFO : Z := 64.
Definition G_LOG_LEVEL_DEBUG : Z := 128.

Definition log_prefix (log_level : Z) : string :=
  if decide (log_level = G_LOG_FLAG_RECURSION \/ log_level = G_LOG_FLAG_FATAL) then "[FATAL]:"
  else if decide (log_level = G_LOG_LEVEL_ERROR) then "[ERROR]:"
  else if decide (log_level = G_LOG_LEVEL_CRITICAL) then "[CRITICAL]:"
  else if decide (log_level = G_LOG_LEVEL_WARNING) then "[WARNING]:"
  else if decide (log_level = G_LOG_LEVEL_MESSAGE) then "[MESSAGE]:"
  else if decide (log_level = G_LOG_LEVEL_INFO) then "[INFO]:"
  else if decide (log_level = G_LOG_LEVEL_DEBUG) then "[DEBUG]:"
  else "".

(** What the handler appends to the log file. *)
Definition workq_log (log_level : Z) (message : string) : string :=
  log_prefix log_level +:+ message +:+ String "010"%char "".

(** ** Going to the background *)

Inductive std_fds := DevNull | Closed.

(** In the child: the working directory becomes the root and the standard
    descriptors /dev/null, or closed when that cannot be opened.  [fork_ret]
    is what this process sees. *)
Definition daemonize (fork_ret sid chdir_ret devnull : Z) : res (string * std_fds) :=
  if decide (fork_ret < 0)%Z then Exit 1
  else if decide (0 < fork_ret)%Z then Exit 0
  else if decide (sid < 0)%Z then Exit 1
  else if decide (chdir_ret < 0)%Z then Exit 1
  else Val ("/", if decide (devnull ≠ -1)%Z then DevNull else Closed).

(** [set_signal]: the result, and what it prints when [sigaction] fails with
    the error [strerror]. *)
Definition set_signal (sigaction_ret : Z) (name strerror : string) : Z * string :=
  if decide (sigaction_ret < 0)%Z
  then (1%Z, format "sigaction(%s): '%s'" [AStr name; AStr strerror])
  else (0%Z, "").

(** ** The command line *)

(** The settings [main] starts from; [workq_env] is the variable WORKQ_ENV. *)
Definition startup_settings (path_is_absolute : string -> bool) (path_get_dirname : string -> string)
    (get_current_dir : string) (build_path : string -> string -> string)
    (argv0 : string) (workq_env : option string) : Settings :=
  new_Settings path_is_absolute path_get_dirname get_current_dir build_path argv0
    (default "development" workq_env).

(** The options as parsed. *)
Record options := mkOptions {
  o_config : option string;
  o_install_schema : bool;
  o_version : bool;
  o_environment : option string;
  o_kill : bool;
}.

(** How a piece of the program ends: with a value, or by [exit]. *)
Inductive ending (A : Type) := Returned (a : A) | Exited (code : Z).
Arguments Returned {A} a.
Arguments Exited {A} code.

Definition SIGTERM : Z := 15.

(** What it does to the rest of the system. *)
Inductive deed :=
| DKill (pid sig : Z)
| DCreateTable (connected : bool)
| DWritePid (path : string)
| DRemovePid (path : string).

Section Daemon.
(** The file system: tests, the YAML files, the contents of a text file; the
    path as seen from a working directory. *)
Context (file_exists is_dir : string -> bool) (path_get_dirname : string -> string).
Context (foreach_order : GData string -> list (string * string)).
Context (yaml_file : string -> option (list yaml_event)) (get_contents : string -> option string).

(** [install_ret]: [None] when the connection fails, otherwise what the
    CREATE TABLE statement returned. *)
Definition cli_setup (parsed : option options) (install_ret : option Z) (config : Settings) :
    ending (Z * Settings) * list deed :=
  match parsed with
  | None => (Returned (1%Z, config), [])
  | Some o =>
    if o_version o then (Exited 0, []) else
    let config1 := match o_environment o with Some env => set_env env config | None => config end in
    match o_config o with
    | None => (Returned (1%Z, config1), [])
    | Some path =>
      let '(loaded, config2) := load_from_file (yaml_file path) config1 in
      if negb loaded then (Returned (1%Z, config2), []) else
      if negb (verify file_exists is_dir path_get_dirname foreach_order config2)
      then (Returned (1%Z, config2), []) else
      let config3 := commit config2 in
      if o_kill o then
        match get_contents (default "" (get_str config3 "pidfile" (Some "logs/workq.pid"))) with
        | Some pidstr => (Exited 0, [DKill (atoi pidstr) SIGTERM])
        | None => (Returned (0%Z, config3), [])
        end
      else if o_install_schema o then
        match install_ret with
        | None => (Exited 1, [DCreateTable false])
        | Some status => (Exited status, [DCreateTable true])
        end
      else (Returned (0%Z, config3), [])
    end
  end.

(** ** [main] *)

(** [resolve cwd path]: the file a path names from a working directory. *)
Context (resolve : string -> string -> string) (start_dir : string).

(** What the environment answers to [main] and to the server it makes. *)
Record main_env := mkMainEnv {
  me_fork : Z;  me_sid : Z;  me_chdir : Z;  me_devnull : Z;
  me_pid_writable : bool;      (** [fopen] of the pid file succeeds *)
  me_log_writable : bool;      (** [g_fopen] of the log file succeeds *)
  me_num : Z;  me_duration : double;  (** what the server's memory held *)
  me_fds : fd_table;           (** open pipe ends *)
  me_loop_ok : bool;  me_init_ok : bool;
  me_connect : option string -> option string -> option string -> option string -> Z -> bool;
  me_workers : nat -> start_env;
  me_socket : Z;  me_bind_ok : bool;  me_fcntl_ok : bool;
  me_events : list event;
}.

(** Lines 81 to 94: the working directory and the files afterwards.  [Undef]
    also stands for the abort in [g_error]. *)
Definition background (e : main_env) (config : Settings) (files : gset string) : res (string * gset string) :=
  if get_bool config "daemonize" true then
    let pidfile := get_str config "pidfile" None in
    if match pidfile with Some p => bool_decide (resolve start_dir p ∈ files) | None => false end then Undef
    else
      '(cwd, _) ← daemonize (me_fork e) (me_sid e) (me_chdir e) (me_devnull e);
      match pidfile with
      | None => Val (cwd, files)
      | Some p => if me_pid_writable e then Val (cwd, {[resolve cwd p]} ∪ files) else Undef
      end
  else Val (start_dir, files).

(** Lines 96 to 103: the path of the open log file, with which the handler is
    installed, and the files afterwards. *)
Definition open_log (e : main_env) (config : Settings) (cwd : string) (files : gset string) :
    option string * gset string :=
  match get_str config "logfile" None with
  | Some logpath =>
      if me_log_writable e then (Some (resolve cwd logpath), {[resolve cwd logpath]} ∪ files)
      else (None, files)
  | None => (None, files)
  end.

(** What [main] itself writes: to the log file through [workq_log], through
    GLib's own handler when that is not installed, or to standard output. *)
Inductive line := LLog (text : string) | LDefault (text : string) | LPrint (text : string).

Definition newline : string := String "010"%char "".

Definition g_message (logfile : option string) (text : string) : line :=
  match logfile with
  | Some _ => LLog (workq_log G_LOG_LEVEL_MESSAGE text)
  | None => LDefault text
  end.

(** Lines 127 to 136, without the pid file. *)
Definition farewell (logfile : option string) : list line :=
  [g_message logfile ("server stopped" +:+ newline);
   match logfile with
   | Some _ => g_message logfile ("server down" +:+ newline)
   | None => LPrint ("server down" +:+ newline)
   end].

Context (log10 : double -> double).
Context {Srv : Type} `{!MySQL Srv}.

(** How the rest of [main] leaves the world: the exit code ([None]: the server
    still waits for events), what [main] itself wrote, the files, what the
    server did, the database. *)
Record outcome := mkOutcome {
  out_code : option Z;
  out_lines : list line;
  out_files : gset string;
  out_actions : list action;
  out_db : Srv;
}.

(** Lines 105 to 138.  A failed [initialize] returns from [main], which
    destroys the server; the other ways out call [exit]. *)
Definition serve (e : main_env) (reg : registry) (config : Settings) (cwd : string)
    (logfile : option string) (files : gset string) (db : Srv) : res outcome :=
  match get_str config "adapter" None with
  | None => Undef                                     (* strcmp with NULL *)
  | Some adapter =>
    if streq "mysql" adapter then
      let reg1 := register_adaptor "mysql" mysql_create reg in
      let server := new_Server (me_num e) (me_duration e) (me_fds e) in
      let '(ok, server1) := server_initialize config reg1 (me_loop_ok e) (me_init_ok e) (me_connect e) server in
      if negb ok then
        s ← destroy_server server1;
        Val (mkOutcome (Some 1%Z) [] files (actions s) db)
      else
        server2 ← start_workers config (me_workers e) server1;
        '(r, server3, db') ← run config log10 (me_socket e) (me_bind_ok e) (me_fcntl_ok e) (me_events e) server2 db;
        match r with
        | None => Val (mkOutcome None [] files (actions server3) db')
        | Some _ =>
          let files' := match get_str config "pidfile" None with
                        | Some p => files ∖ {[resolve cwd p]}
                        | None => files
                        end in
          Val (mkOutcome (Some 0%Z) (farewell logfile) files' (actions server3) db')
        end
    else
      Val (mkOutcome (Some 1%Z) [LPrint (format "Adaptor %s not supported!" [AStr adapter] +:+ newline)] files [] db)
  end.

Definition main (parsed : option options) (install_ret : option Z) (e : main_env) (config : Settings)
    (files : gset string) (db : Srv) : res outcome :=
  let reg := initialize in
  match fst (cli_setup parsed install_ret config) with
  | Exited code => Exit code
  | Returned (ret, config') =>
    if decide (ret ≠ 0%Z) then Val (mkOutcome (Some 1%Z) [] files [] db)
    else
      '(cwd, files') ← background e config' files;
      let '(logfile, files'') := open_log e config' cwd files' in
      serve e reg config' cwd logfile files'' db
  end.
End Daemon.

(** ** Properties *)

(** Log prefixes.  A message gets a prefix exactly when its level is a
    single known flag; the level of a fatal error carries a second one, so
    its line has none. *)
Lemma log_prefix_levels l :
  (log_prefix l ≠ "" <-> l ∈ [1; 2; 4; 8; 16; 32; 64; 128]%Z) /\
  log_prefix (Z.lor G_LOG_LEVEL_ERROR G_LOG_FLAG_FATAL) = "".
Proof.
  split; [|done]. unfold log_prefix, G_LOG_FLAG_RECURSION, G_LOG_FLAG_FATAL, G_LOG_LEVEL_ERROR,
    G_LOG_LEVEL_CRITICAL, G_LOG_LEVEL_WARNING, G_LOG_LEVEL_MESSAGE, G_LOG_LEVEL_INFO, G_LOG_LEVEL_DEBUG.
  repeat case_decide; rewrite !elem_of_cons, elem_of_nil; split; intros; try done; lia.
Qed.

Section Properties.
Context (file_exists is_dir : string -> bool) (path_get_dirname : string -> string).
Context (foreach_order : GData string -> list (string * string)).
Context (yaml_file : string -> option (list yaml_event)) (get_contents : string -> option string).
Notation cli_setup := (cli_setup file_exists is_dir path_get_dirname foreach_order yaml_file get_contents).

(** The command line.  Unless the options are bad, a version is asked for
    or the configuration is missing, unreadable or refused, [cli_setup]
    commits it; with the kill option it signals the process named in the pid
    file and exits, and when there is no pid file it returns 0, on which
    [main] starts a daemon. *)
Theorem cli_setup_kill o install config path events :
  o_version o = false -> o_config o = Some path -> yaml_file path = Some events ->
  let config1 := match o_environment o with Some env => set_env env config | None => config end in
  let config2 := snd (load_from_file (Some events) config1) in
  let config3 := commit config2 in
  verify file_exists is_dir path_get_dirname foreach_order config2 = true -> o_kill o = true ->
  cli_setup (Some o) install config
  = match get_contents (default "" (get_str config3 "pidfile" (Some "logs/workq.pid"))) with
    | Some pidstr => (Exited 0, [DKill (atoi pidstr) SIGTERM])
    | None => (Returned (0%Z, config3), [])
    end.
Proof.
  intros Hv Hc Hy config1 config2 config3 Hver Hk. unfold Daemon.cli_setup. rewrite Hv, Hc, Hy, Hk. fold config1.
  subst config3 config2. unfold load_from_file in *. cbn [snd negb] in *. by rewrite Hver.
Qed.

End Properties.

(** ** The daemon from the command line to its end *)

(** Opening the log does not look at the other files. *)
Lemma open_log_add resolve e config cwd x files :
  open_log resolve e config cwd ({[x]} ∪ files) =
    (fst (open_log resolve e config cwd files), {[x]} ∪ snd (open_log resolve e config cwd files)).
Proof. unfold open_log. destruct (get_str _ _ _); [|done]. destruct (me_log_writable e); [|done]. simpl. f_equal. set_solver. Qed.

Section Main.
Context (file_exists is_dir : string -> bool) (path_get_dirname : string -> string).
Context (foreach_order : GData string -> list (string * string)).
Context (yaml_file : string -> option (list yaml_event)) (get_contents : string -> option string).
Context (resolve : string -> string -> string) (start_dir : string) (log10 : double -> double).
Context {Srv : Type} `{!MySQL Srv}.
Notation cli_setup := (cli_setup file_exists is_dir path_get_dirname foreach_order yaml_file get_contents).
Notation main := (main file_exists is_dir path_get_dirname foreach_order yaml_file get_contents
  resolve start_dir log10).
Notation background := (background resolve start_dir).

(** The options lead to the daemon being started with [config], in the
    background and with the pid file [p]. *)
Definition starts (parsed : option options) (install : option Z) (config0 config : Settings)
    (p : string) : Prop :=
  fst (cli_setup parsed install config0) = Returned (0%Z, config) /\
  get_bool config "daemonize" true = true /\ get_str config "pidfile" None = Some p /\
  get_str config "adapter" None = Some "mysql".

(** The system lets the process become a daemon. *)
Definition daemonizes (e : main_env) : Prop :=
  me_fork e = 0%Z /\ (0 <= me_sid e)%Z /\ (0 <= me_chdir e)%Z /\ me_pid_writable e = true.

Lemma background_daemon e config files p :
  get_bool config "daemonize" true = true -> get_str config "pidfile" None = Some p ->
  daemonizes e -> resolve start_dir p ∉ files ->
  background e config files = Val ("/", {[resolve "/" p]} ∪ files).
Proof.
  intros Hd Hp (Hf & Hs & Hc & Hw) Hfiles. unfold Daemon.background.
  rewrite Hd, Hp, bool_decide_false, Hw by done. unfold daemonize. rewrite Hf, !decide_False by lia. done.
Qed.

Lemma main_starts parsed install config0 config p e files (db : Srv) :
  starts parsed install config0 config p -> daemonizes e -> resolve start_dir p ∉ files ->
  main parsed install e config0 files db
  = let '(logfile, files') := open_log resolve e config "/" ({[resolve "/" p]} ∪ files) in
    serve resolve log10 e initialize config "/" logfile files' db.
Proof.
  intros (Hcli & Hd & Hp & _) He Hf. unfold Daemon.main. rewrite Hcli, decide_False by naive_solver.
  by rewrite (background_daemon e config files p).
Qed.

(** The master connects to the database. *)
Definition connects (e : main_env) (config : Settings) : bool :=
  me_loop_ok e && (me_init_ok e &&
  me_connect e (get_str config "username" None) (get_str config "password" None)
    (get_str config "host" None) (get_str config "database" None) (get_int config "port" 3306)).

Lemma initialize_connects e config :
  get_str config "adapter" None = Some "mysql" ->
  let s0 := new_Server (me_num e) (me_duration e) (me_fds e) in
  exists s1,
    server_initialize config (register_adaptor "mysql" mysql_create initialize)
      (me_loop_ok e) (me_init_ok e) (me_connect e) s0 = (connects e config, s1) /\
    fds s1 = me_fds e /\ actions s1 = [] /\ m_last_worker s1 = 0%Z /\
    (if connects e config then m_db s1 = Some (mkMysql HLive 0)
     else exists s2, destroy_server s1 = Val s2 /\ actions s2 = []).
Proof.
  intros Ha s0. unfold server_initialize, connects. destruct (me_loop_ok e); cbn [negb andb]; [|by eexists; split_and!; eauto].
  assert (get_str config "adapter" (Some "mysql") = Some "mysql") as ->.
  { unfold get_str in *. by destruct (m_table config !! "adapter"). }
  assert (create (register_adaptor "mysql" mysql_create initialize) "mysql" = Some new_MysqlAdaptor) as E
    by (vm_compute; reflexivity).
  change (default "" (Some "mysql")) with "mysql". rewrite E. unfold connect, new_MysqlAdaptor. cbn [m_mysql leaked].
  rewrite decide_False by done. destruct (me_init_ok e && _); eexists; split_and!; eauto.
Qed.
End Main.

(** C37: a failed start blocks the next.  When the server cannot be
    initialised, [main] returns 1 and leaves the pid file it has just
    written (and the log file); with a path that names the same file from both directories, the
    next start then aborts. *)
Theorem failed_start_leaves_pidfile file_exists is_dir path_get_dirname foreach_order yaml_file get_contents
    resolve start_dir log10 {Srv : Type} `{!MySQL Srv} parsed install config0 config p e files (db : Srv) :
  let main := main file_exists is_dir path_get_dirname foreach_order yaml_file get_contents resolve start_dir log10 in
  starts file_exists is_dir path_get_dirname foreach_order yaml_file get_contents parsed install config0 config p ->
  daemonizes e -> resolve start_dir p ∉ files -> connects e config = false ->
  let files' := snd (open_log resolve e config "/" ({[resolve "/" p]} ∪ files)) in
  main parsed install e config0 files db = Val (mkOutcome (Some 1%Z) [] files' [] db) /\
  (resolve start_dir p = resolve "/" p -> forall e', main parsed install e' config0 files' db = Undef).
Proof.
  intros main Hst He Hf Hc files'. unfold main. split.
  - rewrite (main_starts _ _ _ _ _ _ _ _ _ parsed install config0 config p) by done.
    destruct Hst as (_ & _ & _ & Ha). subst files'. destruct (open_log _ _ _ _ _) as [log lfiles]. unfold serve. rewrite Ha. cbn [streq].
    destruct (initialize_connects e config Ha) as (s1 & E & _ & _ & _ & H). rewrite E, Hc in *. cbn [negb].
    destruct H as (s2 & -> & Hact). cbn [mbind res_bind]. by rewrite Hact.
  - intros E e'. destruct Hst as (Hcli & Hd & Hp & _). unfold Daemon.main. rewrite Hcli, decide_False by naive_solver.
    unfold background. rewrite Hd, Hp, bool_decide_true by (subst files'; rewrite E, open_log_add; set_solver). done.
Qed.

(** C22: the daemon's whole life.  Started in the background with a free pid
    file, a database that accepts the connection and workers that all start,
    [main] opens the log file, serves every event until the first SIGTERM or
    SIGINT, as long as no write meets a channel without reader and the first
    worker can be waited for, then stops and waits for each worker, removes
    the pid file, says goodbye in the log and exits with status 0; every
    datagram whose write succeeded was written to one worker, and the master
    itself never changed the table. *)
Theorem main_serves_and_cleans_up file_exists is_dir path_get_dirname foreach_order yaml_file get_contents
    resolve start_dir log10 {Srv : Type} `{!MySQL Srv} `{!MySQLSpec Srv}
    parsed install config0 config p e files (db : Srv) es st waits rest :
  let n := Z.to_nat (get_int config "workers" 1) in
  let logfile := fst (open_log resolve e config "/" files) in
  starts file_exists is_dir path_get_dirname foreach_order yaml_file get_contents parsed install config0 config p ->
  daemonizes e -> resolve start_dir p ∉ files -> connects e config = true ->
  (0 < get_int config "workers" 1)%Z -> env_ok (me_workers e) (me_fds e) n ->
  me_socket e ≠ (-1)%Z -> me_bind_ok e = true -> me_fcntl_ok e = true ->
  me_events e = es ++ ESignal (Some st :: waits) :: rest -> Forall ordinary es ->
  table_ok (jobs db) -> (Z.of_nat (length (jobs db)) < 2 ^ 31)%Z ->
  exists db' w,
    main file_exists is_dir path_get_dirname foreach_order yaml_file get_contents resolve start_dir log10
      parsed install e config0 files db
    = Val (mkOutcome (Some 0%Z) (farewell logfile)
        (snd (open_log resolve e config "/" files) ∖ {[resolve "/" p]})
        (w ++ [AClose (me_socket e); AUnloop] ++
         concat ((fun i => [AKill (e_fork (me_workers e i)) SIGUSR2; AWaitPid (e_fork (me_workers e i))]) <$> seq 0 n))
        db') /\
    jobs db' = jobs db /\ datagrams es <= length w <= length es.
Proof.
  intros n logfile Hst He Hf Hc Hn Henv Hsock Hb Hfc Hev Hes Ht Hlen.
  rewrite (main_starts _ _ _ _ _ _ _ _ _ parsed install config0 config p) by done. rewrite open_log_add.
  destruct Hst as (_ & _ & Hp & Ha). unfold serve. rewrite Ha. cbn [streq].
  destruct (initialize_connects e config Ha) as (s1 & E & Hfds & Hact & Hlast & H). rewrite E, Hc in *. cbn [negb].
  destruct (start_workers_ok config (me_workers e) (me_fds e) s1) as (s2 & -> & (Hw & Hpids & _ & _ & Hok) & Hdb & Hact2);
    [lia|done|done|].
  destruct (Hok ltac:(lia) Hlast) as [chans Hch].
  assert (length chans = n) as Hlc.
  { destruct Hch as (_ & _ & _ & Hl & _). by rewrite <-Hl, Hpids, length_fmap, length_seq. }
  destruct (run_serves_signal config log10 (me_socket e) es st waits rest s2 chans 0 db) as (s3 & db' & w & Hr & Hj & Ha3 & Hf3 & Hw3);
    [done|by rewrite Hlc|congruence|done..|].
  cbn [mbind res_bind]. rewrite Hev, Hb, Hfc, Hr. cbn [mbind res_bind]. rewrite Hp.
  exists db', w. split; [|done]. do 2 f_equal.
  - set_solver.
  - rewrite Ha3, Hact2, Hact, Hpids, <-list_fmap_compose. done.
Qed.

(** ** Witnesses *)

Module Example.
Definition opts (kill : bool) : options := mkOptions (Some "jobs.yml") false false None kill.
Definition start : Settings := mkSettings "/usr/bin" "test" ∅ ∅.

(** jobs.yml *)
Definition yaml (path : string) : option (list yaml_event) :=
  if decide (path = "jobs.yml") then
    Some (document_events [("test",
      [("adapter", "mysql"); ("workers", "2"); ("pidfile", "/var/run/workq.pid");
       ("logfile", "/var/log/workq.log")])])
  else None.

(** What [cli_setup] makes of it. *)
Definition config : Settings :=
  mkSettings "/usr/bin" "test"
    {[ "adapter" := "mysql"; "workers" := "2"; "pidfile" := "/var/run/workq.pid";
       "logfile" := "/var/log/workq.log" ]} ∅.

Definition answers (accepts : bool) : main_env :=
  mkMainEnv 0 4242 0 3 true true 0 (d_of_Z 0) ∅ true true (fun _ _ _ _ _ => accepts)
    Server.Example.env 3 true true [EConnect true WDone; EChildExit; ESignal [Some 0; Some 0]%Z].

Lemma starts_config :
  starts (fun _ => true) (fun _ => true) (fun p => p) map_to_list yaml (fun _ => None)
    (Some (opts false)) None start config "/var/run/workq.pid".
Proof. split_and!; vm_compute; reflexivity. Qed.

Lemma answers_daemonizes b : daemonizes (answers b).
Proof. split_and!; simpl; try reflexivity; lia. Qed.
End Example.

Lemma cli_setup_kill_witness :
  exists config, Daemon.cli_setup (fun _ => true) (fun _ => true) (fun p => p) map_to_list Example.yaml
    (fun _ => None) (Some (Example.opts true)) None Example.start = (Returned (0%Z, config), []).
Proof.
  eexists. refine (cli_setup_kill (fun _ => true) (fun _ => true) (fun p => p) map_to_list Example.yaml
    (fun _ => None) (Example.opts true) None Example.start "jobs.yml" _ eq_refl eq_refl eq_refl _ eq_refl).
  vm_compute. reflexivity.
Defined.

Lemma failed_start_leaves_pidfile_witness :
  let main := main (fun _ => true) (fun _ => true) (fun p => p) map_to_list Example.yaml (fun _ => None)
    (fun _ p => p) "/home" d_abs (Some (Example.opts false)) None in
  main (Example.answers false) Example.start ∅ (mkTableServer [])
  = Val (mkOutcome (Some 1%Z) [] ({["/var/log/workq.log"]} ∪ ({["/var/run/workq.pid"]} ∪ ∅)) []
           (mkTableServer [])) /\
  main (Example.answers true) Example.start ({["/var/log/workq.log"]} ∪ ({["/var/run/workq.pid"]} ∪ ∅))
    (mkTableServer []) = Undef.
Proof.
  pose proof (failed_start_leaves_pidfile (fun _ => true) (fun _ => true) (fun p => p) map_to_list Example.yaml
    (fun _ => None) (fun _ p => p) "/home" d_abs (Some (Example.opts false)) None Example.start Example.config
    "/var/run/workq.pid" (Example.answers false) ∅ (mkTableServer []) Example.starts_config
    (Example.answers_daemonizes false) (not_elem_of_empty _) eq_refl) as [H1 H2].
  split; [exact H1|]. exact (H2 eq_refl (Example.answers true)).
Defined.

Lemma main_serves_and_cleans_up_witness :
  exists db' w,
    main (fun _ => true) (fun _ => true) (fun p => p) map_to_list Example.yaml (fun _ => None)
      (fun _ p => p) "/home" d_abs (Some (Example.opts false)) None
      (Example.answers true) Example.start ∅ (mkTableServer [])
    = Val (mkOutcome (Some 0%Z) (farewell (Some "/var/log/workq.log"))
        (({["/var/log/workq.log"]} ∪ ∅) ∖ {["/var/run/workq.pid"]})
        (w ++ [AClose 3; AUnloop; AKill 100 SIGUSR2; AWaitPid 100; AKill 101 SIGUSR2; AWaitPid 101]) db') /\
    1 <= length w.
Proof.
  pose proof (main_serves_and_cleans_up (fun _ => true) (fun _ => true) (fun p => p) map_to_list Example.yaml
    (fun _ => None) (fun _ p => p) "/home" d_abs (Some (Example.opts false)) None Example.start Example.config
    "/var/run/workq.pid" (Example.answers true) ∅ (mkTableServer []) [EConnect true WDone; EChildExit] 0%Z [Some 0%Z] []
    Example.starts_config (Example.answers_daemonizes true) (not_elem_of_empty _) eq_refl
    ltac:(vm_compute; reflexivity) Server.Example.env_is_ok ltac:(discriminate) eq_refl eq_refl eq_refl
    ltac:(repeat constructor; discriminate) ltac:(split; constructor) ltac:(vm_compute; reflexivity))
    as (db' & w & Hr & _ & Hw & _).
  exists db', w. split; [exact Hr|exact Hw].
Defined.
