(* ===== verification/Obj.v ===== *)
(** * Obj: the object demonstration program (json/obj.cc)

    A class with three properties, built from a JSON text by json-glib and
    read back by name.  The library's [json_construct_gobject] is an argument
    of [main]. *)

From S2P Require Import Prelude CLib GObject.
From Stdlib Require Import Ascii.

(** ** The class *)

Record FooObject := mkFoo { bar : Z; baz : bool; blah : option string }.

Definition FOO_OBJECT_BAR : Z := 1.
Definition FOO_OBJECT_BAZ : Z := 2.
Definition FOO_OBJECT_BLAH : Z := 3.

(** The instance memory is zeroed and [foo_object_init] does nothing. *)
Definition foo_object_init : FooObject := mkFoo 0 false None.

(** The constructor only chains up to the parent class's. *)
Definition foo_object_constructor {A} (parent_constructor : list (Z * GValue) -> A)
    (properties : list (Z * GValue)) : A :=
  parent_constructor properties.

(** [None]: the value holds another type than the property's. *)
Definition foo_object_set_property (property_id : Z) (value : GValue) (self : FooObject) : option FooObject :=
  if decide (property_id = FOO_OBJECT_BAR) then
    z ← g_value_get_int value; Some (mkFoo z (baz self) (blah self))
  else if decide (property_id = FOO_OBJECT_BAZ) then
    b ← g_value_get_boolean value; Some (mkFoo (bar self) b (blah self))
  else if decide (property_id = FOO_OBJECT_BLAH) then
    s ← g_value_dup_string value; Some (mkFoo (bar self) (baz self) s)
  else Some self.

Definition foo_object_get_property (property_id : Z) (value : GValue) (self : FooObject) : option GValue :=
  if decide (property_id = FOO_OBJECT_BAR) then g_value_set_int value (bar self)
  else if decide (property_id = FOO_OBJECT_BAZ) then g_value_set_boolean value (baz self)
  else if decide (property_id = FOO_OBJECT_BLAH) then g_value_set_string value (blah self)
  else Some value.

Definition foo_object_class_init : list (Z * GParamSpec) :=
  [(FOO_OBJECT_BLAH, mkSpec "blah" "blah value" "Blah string value property" (ParamString ""));
   (FOO_OBJECT_BAR, mkSpec "bar" "bar number value" "Set/Get bar's number" (ParamInt 0 80 2));
   (FOO_OBJECT_BAZ, mkSpec "baz" "baz truth value" "Set/Get baz" (ParamBoolean false))].

#[export] Instance foo_object_class : GObjectClass FooObject := {|
  class_init := foo_object_class_init;
  set_property := foo_object_set_property;
  get_property := foo_object_get_property;
|}.

#[export] Instance foo_object_laws : GObjectLaws FooObject.
Proof.
  class_laws foo_object_class foo_object_class_init foo_object_set_property foo_object_get_property.
Qed.

(** ** The program *)

Definition quote : ascii := Ascii.ascii_of_nat 34.
Definition newline : ascii := Ascii.ascii_of_nat 10.

(** Lines 145-151: each source line ends in a blank and a continuation. *)
Definition foo_object_json : string :=
  let q := String quote "" in
  " { " +:+ "  " +:+ q +:+ "bar" +:+ q +:+ "  : 42, "
  +:+ "  " +:+ q +:+ "baz" +:+ q +:+ "  : true, "
  +:+ "  " +:+ q +:+ "blah" +:+ q +:+ " : " +:+ q +:+ "bravo" +:+ q +:+ " "
  +:+ "} ".

(** The line printed for one object; [None]: a variable is read that was
    never filled in.  [%s] of NULL prints "(null)". *)
Definition describe (foo : FooObject) : option string :=
  match g_object_get "bar" foo, g_object_get "baz" foo, g_object_get "blah" foo with
  | Some (GInt bar_int), Some (GBoolean baz_boolean), Some (GString blah_str) =>
      Some (format "bar: %d, baz: %s, blah: '%s'"
              [AInt bar_int; AStr (if baz_boolean then "true" else "false");
               AStr (default "(null)" blah_str)]
            +:+ String newline "")
  | _, _, _ => None
  end.

(** [json_construct_gobject] gives the object and the error, either of which
    may be NULL.  [g_error] aborts the process ([Undef]).  Both loops of the
    function run once. *)
Definition main (json_construct_gobject : string -> option FooObject * option string) : res (string * Z) :=
  match json_construct_gobject foo_object_json with
  | (_, Some _) => Undef
  | (None, None) => Undef
  | (Some foo, None) =>
      match describe foo with
      | Some line => Val (line, 0%Z)
      | None => Undef
      end
  end.

(** ** Properties *)

Lemma describe_format n t s :
  format "bar: %d, baz: %s, blah: '%s'" [AInt n; AStr t; AStr s] =
  "bar: " +:+ dec n +:+ ", baz: " +:+ t +:+ ", blah: '" +:+ s +:+ "'".
Proof. reflexivity. Qed.

(** C40: the demonstration prints what the text says.  When json-glib builds
    the object by writing each member of the text to the property of that
    name, in any order, however often, and reports no error, the program
    prints the values last written and exits 0. *)
Theorem foo_main_prints construct ws foo n b s :
  construct foo_object_json = (Some foo, None) ->
  well_typed (T:=FooObject) ws -> set_properties ws foo_object_init = Some foo ->
  last_write FOO_OBJECT_BAR ws = Some (GInt n) ->
  last_write FOO_OBJECT_BAZ ws = Some (GBoolean b) ->
  last_write FOO_OBJECT_BLAH ws = Some (GString (Some s)) ->
  main construct =
    Val ("bar: " +:+ dec n +:+ ", baz: " +:+ (if b then "true" else "false") +:+ ", blah: '" +:+ s
           +:+ String "'" (String newline ""), 0%Z).
Proof.
  intros Hc Hw Hs Hbar Hbaz Hblah. unfold main. rewrite Hc.
  assert (forall name i p v, find_property (T:=FooObject) name = Some (i, p) -> last_write i ws = Some v ->
    g_object_get name foo = Some v) as Hget.
  { intros name i p v Hf Hl. destruct (g_object_get_writes ws foo_object_init name i p Hw Hf) as (o & Ho & Hg).
    rewrite Hs in Ho. injection Ho as <-. by rewrite Hg, Hl. }
  unfold describe. rewrite (Hget "bar" _ _ _ eq_refl Hbar), (Hget "baz" _ _ _ eq_refl Hbaz),
    (Hget "blah" _ _ _ eq_refl Hblah).
  cbn [default]. rewrite describe_format. by autorewrite with workq_simpl.
Qed.

(** The installed default of [bar] is 2, which only [class_init] knows: the
    property is not a construction property, so an object no member was
    written to reads 0. *)
Lemma bar_default_not_applied :
  option_map (p_kind ∘ snd) (find_property (T:=FooObject) "bar") = Some (ParamInt 0 80 2) /\
  g_object_get "bar" foo_object_init = Some (GInt 0).
Proof. done. Qed.

(** ** Witness *)

Module FooDemo.
Definition writes : list (Z * GValue) :=
  [(FOO_OBJECT_BAR, GInt 42); (FOO_OBJECT_BAZ, GBoolean true); (FOO_OBJECT_BLAH, GString (Some "bravo"))].
Definition construct (data : string) : option FooObject * option string :=
  (set_properties writes foo_object_init, None).
Lemma writes_typed : well_typed (T:=FooObject) writes.
Proof.
  intros i p v Hi Hv. unfold class_init, foo_object_class, foo_object_class_init in Hi.
  unfold writes in Hv. property_cases; done.
Qed.
End FooDemo.

Lemma foo_main_prints_witness :
  main FooDemo.construct = Val ("bar: 42, baz: true, blah: 'bravo'" +:+ String newline "", 0%Z).
Proof.
  apply (foo_main_prints FooDemo.construct FooDemo.writes (mkFoo 42 true (Some "bravo")) 42 true "bravo");
    [reflexivity|exact FooDemo.writes_typed|reflexivity..].
Defined.
