(* ===== verification/Json.v ===== *)
(** * Json: the JSON printing program (json/json.cc)

    It loads the file it is given four times and prints the tree.  The parser
    is an argument; the tree it builds is [JsonNode].  Every function returns
    what it printed, and whether it got to its end. *)

From S2P Require Import Prelude CLib.
From Stdlib Require Import Ascii.

Local Open Scope Z_scope.

(** ** The tree of json-glib *)

(** A value node by its GLib type; [VOther] holds every type that print_json
    does not name, such as [G_TYPE_INT64]. *)
Inductive JsonValue :=
| VBoolean (b : bool)
| VInt (z : Z) | VLong (z : Z) | VUint (z : Z) | VUlong (z : Z)
| VEnum (z : Z)
| VString (s : string)
| VFloat (d : double) | VDouble (d : double)
| VOther.

(** The members of an object in the order [json_object_get_members] lists them. *)
Inductive JsonNode :=
| JObject (members : list (string * JsonNode))
| JArray (elements : list JsonNode)
| JValue (v : JsonValue)
| JNull.

Definition json_object_get_members (members : list (string * JsonNode)) : list string := members.*1.

Fixpoint json_object_get_member (members : list (string * JsonNode)) (name : string) : option JsonNode :=
  match members with
  | [] => None
  | (k, n) :: ms => if streq k name then Some n else json_object_get_member ms name
  end.

Definition json_array_get_length (elements : list JsonNode) : Z := Z.of_nat (length elements).

(** Only an index below the length may be asked for. *)
Definition json_array_get_element (elements : list JsonNode) (i : Z) : option JsonNode :=
  if (0 <=? i) && (i <? json_array_get_length elements) then elements !! Z.to_nat i else None.

(** ** Printing *)

(** [Printed out a]: the function returned [a], having printed [out].
    [Crashed out]: the program left the library's contract (an element past
    the end, a NULL node) having printed [out]. *)
Inductive print (A : Type) := Printed (out : string) (a : A) | Crashed (out : string) | NoFuel.
Arguments Printed {A} out a.
Arguments Crashed {A} out.
Arguments NoFuel {A}.

(** Text printed before a computation. *)
Definition after {A} (out : string) (m : print A) : print A :=
  match m with
  | Printed o a => Printed (out +:+ o) a
  | Crashed o => Crashed (out +:+ o)
  | NoFuel => NoFuel
  end.

#[export] Instance print_ret : MRet print := fun A a => Printed "" a.
#[export] Instance print_bind : MBind print := fun A B f m =>
  match m with Printed o a => after o (f a) | Crashed o => Crashed o | NoFuel => NoFuel end.

Definition g_print (out : string) : print unit := Printed out tt.

(** A NULL node is dereferenced. *)
Definition with_node {A} (f : JsonNode -> print A) (n : option JsonNode) : print A :=
  match n with Some n => f n | None => Crashed "" end.

Definition quote : string := String (ascii_of_nat 34) "".
Definition newline : string := String (ascii_of_nat 10) "".

(** Conversion to [guint]. *)
Definition guint (z : Z) : Z := z mod 2 ^ 32.

Section PrintJson.
(** [json_node_get_int] and [json_node_get_double]. *)
Context (json_node_get_int : JsonValue -> Z) (json_node_get_double : JsonValue -> double).

(** The switch on the type of a value; [%d] prints the low 32 bits. *)
Definition print_value (v : JsonValue) : string :=
  match v with
  | VBoolean value => if value then "true" else "false"
  | VInt _ | VLong _ | VUint _ | VUlong _ => format "%d" [AInt (wrap32 (json_node_get_int v))]
  | VEnum _ => ""
  | VString s => quote +:+ cstr s +:+ quote
  | VFloat _ | VDouble _ => format_f (json_node_get_double v)
  | VOther => "unsupported type!" +:+ newline
  end.

Section Nested.
Context (print_json : JsonNode -> print unit).

(** The [while( next )] loop. *)
Fixpoint object_loop (object : list (string * JsonNode)) (next : list string) : print unit :=
  match next with
  | [] => mret tt
  | data :: next' =>
      _ ← g_print (cstr data +:+ ": ");
      _ ← with_node print_json (json_object_get_member object data);
      _ ← (if next' is [] then mret tt else g_print ", ");
      object_loop object next'
  end.

Definition print_json_object (object : list (string * JsonNode)) : print unit :=
  let members := json_object_get_members object in
  _ ← g_print "{";
  _ ← object_loop object members;
  g_print "}".

(** The [for] loop from [i] on. *)
Fixpoint array_loop (fuel : nat) (array : list JsonNode) (i size : Z) : print unit :=
  if i <? size then
    match fuel with
    | O => NoFuel
    | S fuel' =>
        _ ← with_node print_json (json_array_get_element array i);
        _ ← g_print ("," +:+ newline);
        array_loop fuel' array (guint (i + 1)) size
    end
  else mret tt.

(** The loop cannot read more elements than there are, plus the one past the
    end at which it crashes. *)
Definition print_json_array (array : list JsonNode) : print unit :=
  let size := guint (json_array_get_length array - 1) in
  _ ← g_print ("[" +:+ newline);
  _ ← array_loop (S (length array)) array 0 size;
  _ ← with_node print_json (json_array_get_element array size);
  g_print (newline +:+ "]").
End Nested.

(** [fuel] bounds the depth of the tree. *)
Fixpoint print_json (fuel : nat) (node : JsonNode) : print unit :=
  match fuel with
  | O => NoFuel
  | S fuel' =>
      match node with
      | JObject members => print_json_object (print_json fuel') members
      | JArray elements => print_json_array (print_json fuel') elements
      | JValue v => g_print (print_value v)
      | JNull => g_print "null"
      end
  end.

(** ** The program *)

(** What [json_parser_load_from_file] gives at the [k]-th call: an error
    message, or the root node, NULL for an empty document. *)
Context (load : nat -> string -> string + option JsonNode).

Definition print_json_from_file (fuel k : nat) (file : string) : print Z :=
  match load k file with
  | inl message =>
      _ ← g_print (format "Unable to parse `%s': %s" [AStr file; AStr message] +:+ newline);
      mret 1
  | inr root =>
      _ ← with_node (print_json fuel) root;
      mret 0
  end.

(** [main], on [argv]. *)
Definition main (fuel : nat) (argv : list string) : print Z :=
  match argv with
  | _ :: file :: _ =>
      r1 ← print_json_from_file fuel 0 file;
      r2 ← print_json_from_file fuel 1 file;
      r3 ← print_json_from_file fuel 2 file;
      r4 ← print_json_from_file fuel 3 file;
      mret (r1 + r2 + r3 + r4)
  | _ => _ ← g_print ("Usage: test <filename.json>" +:+ newline); mret 1
  end.

(** ** The reference printer *)

Fixpoint render (node : JsonNode) : string :=
  match node with
  | JObject members =>
      "{" +:+ String.concat ", " (map (fun m => cstr (fst m) +:+ ": " +:+ render (snd m)) members) +:+ "}"
  | JArray elements =>
      "[" +:+ newline +:+ String.concat ("," +:+ newline) (map render elements) +:+ newline +:+ "]"
  | JValue v => print_value v
  | JNull => "null"
  end.
End PrintJson.

(** Does an array without elements occur in the tree? *)
Fixpoint has_empty_array (node : JsonNode) : bool :=
  match node with
  | JObject members => existsb (fun m => has_empty_array (snd m)) members
  | JArray elements => match elements with [] => true | _ => existsb has_empty_array elements end
  | _ => false
  end.

(** How deep the tree is. *)
Fixpoint depth (node : JsonNode) : nat :=
  match node with
  | JObject members => S (foldr Nat.max 0%nat (map (fun m => depth (snd m)) members))
  | JArray elements => S (foldr Nat.max 0%nat (map depth elements))
  | _ => 1
  end.

(** What the library guarantees of a tree: the member names of an object are
    distinct, and an array's length is a [guint]. *)
Fixpoint well_formed (node : JsonNode) : bool :=
  match node with
  | JObject members =>
      bool_decide (NoDup members.*1) && forallb (fun m => well_formed (snd m)) members
  | JArray elements =>
      (Z.of_nat (length elements) <? 2 ^ 32) && forallb well_formed elements
  | _ => true
  end.

(** ** Lemmas *)

Definition crashes {A} (m : print A) : Prop := exists out, m = Crashed out.

Lemma crashes_bind {A B} (m : print A) (f : A -> print B) : crashes m -> crashes (m ≫= f).
Proof. intros [out ->]. by exists out. Qed.

Lemma crashes_after {A} out (m : print A) : crashes m -> crashes (after out m).
Proof. intros [o ->]. by eexists. Qed.

Lemma bind_Printed {A B} out (a : A) (f : A -> print B) : (Printed out a ≫= f) = after out (f a).
Proof. done. Qed.

Lemma after_Printed {A} out o (a : A) : after out (Printed o a) = Printed (out +:+ o) a.
Proof. done. Qed.

Lemma ret_Printed {A} (a : A) : mret a = Printed "" a.
Proof. done. Qed.

#[export] Hint Resolve crashes_bind crashes_after : workq.

(** Running the straight-line part of a printing function. *)
Ltac run_print :=
  unfold g_print; cbn [with_node];
  rewrite ?ret_Printed, ?bind_Printed, ?after_Printed.

Lemma get_member_NoDup (members : list (string * JsonNode)) k n :
  NoDup members.*1 -> (k, n) ∈ members -> json_object_get_member members k = Some n.
Proof.
  induction members as [|[k' n'] ms IH]; intros Hnd Hin; [by apply not_elem_of_nil in Hin|].
  cbn in Hnd. apply NoDup_cons in Hnd as [Hk Hnd]. unfold json_object_get_member, streq.
  fold json_object_get_member. apply elem_of_cons in Hin as [[= <- <-]|Hin].
  - by rewrite bool_decide_eq_true_2.
  - rewrite bool_decide_eq_false_2; [by apply IH|]. intros ->. apply Hk.
    apply list_elem_of_fmap. by exists (k, n).
Qed.

Lemma get_element_middle pre x post :
  json_array_get_element (pre ++ x :: post) (Z.of_nat (length pre)) = Some x.
Proof.
  unfold json_array_get_element, json_array_get_length. rewrite length_app; simpl.
  destruct (Z.leb_spec 0 (Z.of_nat (length pre))); [|lia].
  destruct (Z.ltb_spec (Z.of_nat (length pre)) (Z.of_nat (length pre + S (length post)))); [|lia].
  cbn [andb]. rewrite Nat2Z.id. by apply list_lookup_middle.
Qed.

Lemma concat_cons sep x y l : String.concat sep (x :: y :: l) = x +:+ sep +:+ String.concat sep (y :: l).
Proof. done. Qed.

Lemma concat_snoc sep (l : list string) x :
  String.concat sep (l ++ [x]) = foldr (fun s t => s +:+ sep +:+ t) x l.
Proof.
  induction l as [|a l IH]; [done|]. cbn [app foldr]. rewrite <-IH.
  destruct l; done.
Qed.

Lemma depth_member (f : nat) {A} (d : A -> nat) (l : list A) x :
  (foldr Nat.max 0 (map d l) <= f)%nat -> x ∈ l -> (d x <= f)%nat.
Proof.
  induction l as [|y l IH]; intros Hf Hx; [by apply not_elem_of_nil in Hx|]. simpl in Hf.
  apply elem_of_cons in Hx as [->|Hx]; [lia|]. apply IH; [lia|done].
Qed.

Lemma forallb_elem {A} (P : A -> bool) (l : list A) x : forallb P l = true -> x ∈ l -> P x = true.
Proof. intros Hl Hx. apply (proj1 (forallb_forall P l)); [done|]. by apply list_elem_of_In. Qed.

Section Correct.
Context (get_int : JsonValue -> Z) (get_double : JsonValue -> double).
Notation render := (render get_int get_double).

(** [m] prints what the reference printer gives for [out], unless an empty
    array is met. *)
Definition agrees (empty : bool) (out : string) (m : print unit) : Prop :=
  if empty then crashes m else m = Printed out tt.

Lemma agrees_bind e1 e2 o1 o2 m1 (m2 : print unit) :
  agrees e1 o1 m1 -> agrees e2 o2 m2 -> agrees (e1 || e2) (o1 +:+ o2) (_ ← m1; m2).
Proof.
  unfold agrees. destruct e1; simpl; [auto with workq|]. intros ->. rewrite bind_Printed.
  destruct e2; [auto with workq|]. by intros ->.
Qed.

Lemma agrees_print out : agrees false out (g_print out).
Proof. done. Qed.

Lemma object_loop_agrees print_json object ms :
  (forall k n, (k, n) ∈ ms ->
    json_object_get_member object k = Some n /\ agrees (has_empty_array n) (render n) (print_json n)) ->
  agrees (existsb (fun m => has_empty_array (snd m)) ms)
    (String.concat ", " (map (fun m => cstr (fst m) +:+ ": " +:+ render (snd m)) ms))
    (object_loop print_json object ms.*1).
Proof.
  induction ms as [|[k n] ms IH]; intros Hms; [done|]. cbn [fmap list_fmap fst object_loop].
  destruct (Hms k n) as [-> Hn]; [by apply list_elem_of_here|]. cbn [with_node].
  assert (agrees (existsb (fun m => has_empty_array (snd m)) ms)
    (String.concat ", " (map (fun m => cstr (fst m) +:+ ": " +:+ render (snd m)) ms))
    (object_loop print_json object ms.*1)) as IHms.
  { apply IH. intros k' n' Hin. apply Hms. by apply list_elem_of_further. }
  clear IH. cbn [existsb map snd fst].
  change (has_empty_array n || existsb (fun m => has_empty_array (snd m)) ms)
    with (false || (has_empty_array n || (false || existsb (fun m => has_empty_array (snd m)) ms))).
  destruct ms as [|[k2 n2] ms].
  - cbn [String.concat]. rewrite <-str_app_assoc, <-(str_app_nil_r (render n)).
    apply agrees_bind; [apply agrees_print|]. by apply agrees_bind.
  - cbn [map] in *. rewrite concat_cons. cbn [fst snd] in *.
    generalize dependent (String.concat ", " ((cstr k2 +:+ ": " +:+ render n2)
      :: map (fun m => cstr (fst m) +:+ ": " +:+ render (snd m)) ms)).
    intros t IHms. rewrite !str_app_assoc, <-(str_app_assoc (cstr k)).
    apply agrees_bind; [apply agrees_print|]. apply agrees_bind; [done|].
    apply agrees_bind; [apply agrees_print|]. exact IHms.
Qed.

Lemma array_loop_agrees print_json pre rest z fuel :
  Z.of_nat (length (pre ++ rest ++ [z])) < 2 ^ 32 -> (length rest <= fuel)%nat ->
  (forall n, n ∈ rest -> agrees (has_empty_array n) (render n) (print_json n)) ->
  agrees (existsb has_empty_array rest)
    (foldr (fun s t => s +:+ ("," +:+ newline) +:+ t) "" (map render rest))
    (array_loop print_json fuel (pre ++ rest ++ [z]) (Z.of_nat (length pre))
       (Z.of_nat (length (pre ++ rest ++ [z])) - 1)).
Proof.
  revert pre fuel; induction rest as [|x rest IH]; intros pre fuel Hlen Hf Hn.
  { rewrite !length_app; simpl. destruct fuel; simpl; rewrite (proj2 (Z.ltb_ge _ _)) by lia; done. }
  destruct fuel as [|fuel]; [simpl in Hf; lia|]. cbn [array_loop].
  rewrite (proj2 (Z.ltb_lt (Z.of_nat (length pre)) _)) by (rewrite !length_app; simpl; lia).
  cbn [app]. rewrite get_element_middle. cbn [with_node existsb map foldr].
  apply agrees_bind; [apply Hn, list_elem_of_here|].
  change (existsb has_empty_array rest) with (false || existsb has_empty_array rest).
  apply agrees_bind; [apply agrees_print|].
  assert (guint (Z.of_nat (length pre) + 1) = Z.of_nat (length (pre ++ [x]))) as ->.
  { rewrite !length_app in *; simpl in *. unfold guint. rewrite Z.mod_small; lia. }
  assert (pre ++ x :: rest ++ [z] = (pre ++ [x]) ++ rest ++ [z]) as E by (by rewrite <-app_assoc).
  rewrite E. apply IH; [by rewrite <-E|simpl in Hf; lia|].
  intros n Hin. apply Hn. by apply list_elem_of_further.
Qed.

Lemma empty_array_crashes print_json : crashes (print_json_array print_json []).
Proof. by eexists. Qed.

Lemma foldr_sep (l : list string) sep a b :
  foldr (fun s t => s +:+ sep +:+ t) (a +:+ b) l = foldr (fun s t => s +:+ sep +:+ t) a l +:+ b.
Proof. induction l as [|x l IH]; [done|]. cbn [foldr]. by rewrite IH, !str_app_assoc. Qed.

Lemma print_json_array_agrees print_json elements :
  Z.of_nat (length elements) < 2 ^ 32 ->
  (forall n, n ∈ elements -> agrees (has_empty_array n) (render n) (print_json n)) ->
  agrees (has_empty_array (JArray elements)) (render (JArray elements)) (print_json_array print_json elements).
Proof.
  intros Hlen Hn. destruct elements as [|z front _] using rev_ind; [apply empty_array_crashes|].
  assert (has_empty_array (JArray (front ++ [z])) =
    false || (existsb has_empty_array front || (has_empty_array z || false))) as ->.
  { transitivity (existsb has_empty_array (front ++ [z])); [by destruct front|].
    by rewrite existsb_app. }
  cbn [Json.render]. rewrite map_app. cbn [map]. rewrite concat_snoc.
  rewrite <-(str_app_nil_l (render z)), foldr_sep, !str_app_assoc, <-(str_app_assoc "[").
  unfold print_json_array, json_array_get_length.
  assert (guint (Z.of_nat (length (front ++ [z])) - 1) = Z.of_nat (length (front ++ [z])) - 1) as ->.
  { rewrite length_app in *. simpl in *. unfold guint. rewrite Z.mod_small; lia. }
  apply agrees_bind; [apply agrees_print|]. apply agrees_bind.
  - apply (array_loop_agrees print_json [] front z); [done|rewrite length_app; simpl; lia|].
    intros n Hin. apply Hn, elem_of_app. by left.
  - apply agrees_bind; [|apply agrees_print].
    replace (Z.of_nat (length (front ++ [z])) - 1) with (Z.of_nat (length front)) by (rewrite length_app; simpl; lia).
    rewrite get_element_middle. apply Hn, elem_of_app. right. apply list_elem_of_here.
Qed.

Lemma print_json_object_agrees print_json members :
  NoDup members.*1 ->
  (forall k n, (k, n) ∈ members -> agrees (has_empty_array n) (render n) (print_json n)) ->
  agrees (has_empty_array (JObject members)) (render (JObject members)) (print_json_object print_json members).
Proof.
  intros Hnd Hn. cbn [has_empty_array Json.render].
  rewrite <-(orb_false_r (existsb _ _)).
  apply (agrees_bind false); [apply agrees_print|].
  apply agrees_bind; [|apply agrees_print].
  apply object_loop_agrees. intros k n Hin. split; [by apply get_member_NoDup|by eapply Hn].
Qed.

Lemma print_json_agrees fuel node :
  (depth node <= fuel)%nat -> well_formed node = true ->
  agrees (has_empty_array node) (render node) (print_json get_int get_double fuel node).
Proof.
  revert node; induction fuel as [|fuel IH]; intros node Hd Hw; [destruct node; simpl in Hd; lia|].
  cbn [print_json]. destruct node as [members|elements|v|]; [| |apply agrees_print..].
  - cbn [depth well_formed] in *. apply andb_true_iff in Hw as [Hnd Hw].
    apply print_json_object_agrees; [by apply bool_decide_eq_true in Hnd|].
    intros k n Hin. apply IH.
    + apply (depth_member fuel (fun m => depth (snd m)) members (k, n)); [lia|done].
    + by apply (forallb_elem _ _ (k, n) Hw).
  - cbn [depth well_formed] in *. apply andb_true_iff in Hw as [Hl Hw].
    apply print_json_array_agrees; [by apply Z.ltb_lt|].
    intros n Hin. apply IH; [|by apply (forallb_elem _ _ _ Hw)].
    apply (depth_member fuel depth elements n); [lia|done].
Qed.
End Correct.

(** ** Properties *)

(** C39: the printer against its reference.  On every tree without an empty
    array, the two mutually recursive loops of the program (which look the
    members up again by name, and count the elements with a [guint]) print
    exactly the declarative rendering of the tree, and end.  On a tree that
    holds an empty array anywhere they always leave the library's contract:
    the length minus one wraps around. *)
Theorem print_json_renders get_int get_double fuel node :
  (depth node <= fuel)%nat -> well_formed node = true ->
  if has_empty_array node then exists out, print_json get_int get_double fuel node = Crashed out
  else print_json get_int get_double fuel node = Printed (render get_int get_double node) tt.
Proof. apply print_json_agrees. Qed.

(** The program prints the tree once for each of its four loads; it counts
    the loads that fail in its exit status, reads no NULL root, and needs a
    file name. *)
Lemma main_outcome get_int get_double load fuel prog file args :
  (forall node, (forall k, load k file = inr (Some node)) ->
    (depth node <= fuel)%nat -> well_formed node = true -> has_empty_array node = false ->
    let out := render get_int get_double node in
    main get_int get_double load fuel (prog :: file :: args) = Printed (out +:+ out +:+ out +:+ out) 0) /\
  (forall message, (forall k, load k file = inl message) ->
    exists out, main get_int get_double load fuel (prog :: file :: args) = Printed out 4) /\
  (load 0%nat file = inr None ->
    main get_int get_double load fuel (prog :: file :: args) = Crashed "") /\
  main get_int get_double load fuel [prog] = Printed ("Usage: test <filename.json>" +:+ newline) 1.
Proof.
  split_and!; [| | |done].
  - intros node Hl Hd Hw He out. unfold main, print_json_from_file. rewrite !Hl. cbn [with_node].
    pose proof (print_json_agrees get_int get_double fuel node Hd Hw) as H.
    unfold agrees in H. rewrite He in H. rewrite H.
    cbn [mbind print_bind mret print_ret after]. by autorewrite with workq_simpl.
  - intros m Hl. unfold main, print_json_from_file. rewrite !Hl. by eexists.
  - intros Hl. unfold main, print_json_from_file. by rewrite Hl.
Qed.

(** ** Witnesses *)

Module JsonDemo.
(** sample values of every printable type *)
Definition tree : JsonNode :=
  JObject [("id", JValue (VInt 7)); ("args", JArray [JValue (VString "ruby"); JNull; JValue (VDouble (atof "0.1"))]);
           ("opt", JObject [])].
Definition get_int (v : JsonValue) : Z :=
  match v with VInt z | VLong z | VUint z | VUlong z => z | _ => 0 end.
Definition get_double (v : JsonValue) : double :=
  match v with VFloat d | VDouble d => d | _ => d_of_Z 0 end.
End JsonDemo.

Lemma print_json_renders_witness :
  print_json JsonDemo.get_int JsonDemo.get_double 9 JsonDemo.tree =
    Printed ("{id: 7, args: [" +:+ newline +:+ quote +:+ "ruby" +:+ quote +:+ "," +:+ newline +:+ "null,"
             +:+ newline +:+ "0.100000" +:+ newline +:+ "], opt: {}}") tt /\
  exists out, print_json JsonDemo.get_int JsonDemo.get_double 9 (JArray [JArray []]) = Crashed out.
Proof.
  split.
  - refine (eq_trans (print_json_renders JsonDemo.get_int JsonDemo.get_double 9 JsonDemo.tree _ _) _);
      [vm_compute; lia|vm_compute; reflexivity..].
  - apply (print_json_renders JsonDemo.get_int JsonDemo.get_double 9 (JArray [JArray []]));
      [vm_compute; lia|vm_compute; reflexivity].
Defined.
